(** * GLTFLoader-v2: render-order builder, instance batcher and cache keys

    A shallow embedding of the parts of [src/tools/loaders/GLTFLoader-v2/index.ts]
    (class [GLTFScene], class [GLTFPrimitive], the mesh pass of
    [GLTFLoaderV2.load]) and of [Mesh.buildPipeline] that decide how scene
    nodes are batched into instance ranges, how pipelines and materials are
    keyed, and how the render order is replayed.

    Further definitions cover the rest of the loader and of [Mesh]: the
    container of a binary glTF file, buffer views and their upload, samplers,
    the vertex layouts of [setPrimitive], the node tree of [createGLTFNode],
    the counters of [render] and the vertex buffer of [Mesh.buildGeometry].

    JavaScript exceptions are values of [result]; JS [Map]s are association
    lists in insertion order; typed arrays are lists with the bounds check of
    [TypedArray.prototype.set] written out. *)

From Stdlib Require Import String Ascii DecimalString.
From Stdlib Require Import List ZArith Lia Bool Arith PeanoNat Permutation.
From Stdlib Require Import Sorted.
Import ListNotations.

Set Implicit Arguments.

(** ** Exceptions *)

Inductive JSError : Type :=
| TypeError
| RangeError
| Error (message : string).

Inductive result (A : Type) : Type :=
| Ok (a : A)
| Throw (e : JSError).

Arguments Ok {A} a.
Arguments Throw {A} e.

Definition bind {A B : Type} (r : result A) (k : A -> result B) : result B :=
  match r with
  | Ok a => k a
  | Throw e => Throw e
  end.

Notation "x <- c ;; k" := (bind c (fun x => k))
  (at level 61, c at next level, right associativity).
Notation "' pat <- c ;; k" := (bind c (fun x => match x with pat => k end))
  (at level 61, pat pattern, c at next level, right associativity).

(** [Array.prototype.forEach] with a callback that updates a state and may
    throw: the first exception aborts the loop. *)
Fixpoint forEach {A S : Type} (f : A -> S -> result S) (l : list A) (st : S)
  : result S :=
  match l with
  | [] => Ok st
  | a :: l' => st' <- f a st ;; forEach f l' st'
  end.

(** ** JavaScript [Map]: insertion-ordered, keyed by a decidable identity *)

Section JSMap.
Variables K V : Type.
Variable eqb : K -> K -> bool.

Fixpoint Map_get (k : K) (m : list (K * V)) : option V :=
  match m with
  | [] => None
  | (k', v) :: m' => if eqb k k' then Some v else Map_get k m'
  end.

(** [Map.prototype.set]: an existing key keeps its position, a new key is
    appended.  Pushing onto an array stored in the map is a [Map_set] with
    the extended array. *)
Fixpoint Map_set (k : K) (v : V) (m : list (K * V)) : list (K * V) :=
  match m with
  | [] => [(k, v)]
  | (k', v') :: m' =>
      if eqb k k' then (k, v) :: m' else (k', v') :: Map_set k v m'
  end.
End JSMap.

(** ** JSON values and [JSON.stringify] *)

Module Json.

(** Values as [JSON.parse] and object literals produce them.  Object fields
    are listed in property enumeration order.  Numbers are the integers
    (indices, offsets, flags and modes of the descriptors embedded here). *)
Unset Elimination Schemes.
Inductive JSValue : Type :=
| JUndefined
| JNull
| JBool (b : bool)
| JNumber (n : Z)
| JString (s : string)
| JArray (elements : list JSValue)
| JObject (fields : list (string * JSValue)).
Set Elimination Schemes.

Definition dquote : ascii := ascii_of_nat 34.
Definition backslash : ascii := ascii_of_nat 92.

Definition hex_digit (n : nat) : ascii :=
  ascii_of_nat (if n <? 10 then 48 + n else 87 + n).

(** One code unit of [QuoteJSONString]. *)
Definition escape_char (c : ascii) : string :=
  let n := nat_of_ascii c in
  let esc (x : ascii) := String backslash (String x EmptyString) in
  if n =? 8 then esc "b"%char
  else if n =? 9 then esc "t"%char
  else if n =? 10 then esc "n"%char
  else if n =? 12 then esc "f"%char
  else if n =? 13 then esc "r"%char
  else if n =? 34 then esc dquote
  else if n =? 92 then esc backslash
  else if n <? 32 then
    String backslash
      (String "u" (String "0" (String "0"
         (String (hex_digit (n / 16)) (String (hex_digit (n mod 16)) EmptyString)))))
  else String c EmptyString.

Fixpoint escape (s : string) : string :=
  match s with
  | EmptyString => EmptyString
  | String c s' => escape_char c ++ escape s'
  end.

Definition quote (s : string) : string :=
  String dquote (escape s ++ String dquote EmptyString).

Definition number_to_string (n : Z) : string :=
  NilZero.string_of_int (Z.to_int n).

Fixpoint join (sep : string) (l : list string) : string :=
  match l with
  | [] => EmptyString
  | [s] => s
  | s :: l' => s ++ sep ++ join sep l'
  end.

(** [JSON.stringify(v)]: [None] is the JS result [undefined].  An object
    field whose value serializes to [undefined] is left out; an array
    element that does is written [null]. *)
Fixpoint stringify (v : JSValue) : option string :=
  match v with
  | JUndefined => None
  | JNull => Some "null"
  | JBool true => Some "true"
  | JBool false => Some "false"
  | JNumber n => Some (number_to_string n)
  | JString s => Some (quote s)
  | JArray vs =>
      Some ("[" ++ join ","
              (map (fun e => match stringify e with
                             | Some s => s
                             | None => "null"
                             end) vs) ++ "]")
  | JObject fs =>
      Some ("{" ++ join ","
              (flat_map (fun kv => match kv with
                                   | (k, e) =>
                                       match stringify e with
                                       | Some s => [quote k ++ ":" ++ s]
                                       | None => []
                                       end
                                   end) fs) ++ "}")
  end%string.

(** Property read [o.k] and the [in] operator on a parsed object. *)
Definition get_field (k : string) (v : JSValue) : JSValue :=
  match v with
  | JObject fs =>
      match Map_get String.eqb k fs with
      | Some e => e
      | None => JUndefined
      end
  | _ => JUndefined
  end.

Definition has_field (k : string) (v : JSValue) : bool :=
  match v with
  | JObject fs =>
      match Map_get String.eqb k fs with
      | Some _ => true
      | None => false
      end
  | _ => false
  end.

(** A value with every object field that is set to [undefined] removed,
    at every depth; the order of the remaining fields is kept. *)
Fixpoint strip_undefined (v : JSValue) : JSValue :=
  match v with
  | JArray vs => JArray (map strip_undefined vs)
  | JObject fs =>
      JObject (flat_map (fun kv => match kv with
                                   | (k, JUndefined) => []
                                   | (k, e) => [(k, strip_undefined e)]
                                   end) fs)
  | _ => v
  end.

Definition defined_fields (fs : list (string * JSValue))
  : list (string * JSValue) :=
  filter (fun kv => match snd kv with JUndefined => false | _ => true end) fs.

(** Structural equality as the specification of the cache key words it:
    equal up to the insertion order of object fields, a field set to
    [undefined] counting as absent. *)
Unset Elimination Schemes.
Inductive equal_up_to_field_order : JSValue -> JSValue -> Prop :=
| equal_same (v : JSValue) : equal_up_to_field_order v v
| equal_arrays (l1 l2 : list JSValue) :
    Forall2 equal_up_to_field_order l1 l2 ->
    equal_up_to_field_order (JArray l1) (JArray l2)
| equal_objects (f1 f2 reordered : list (string * JSValue)) :
    Permutation (defined_fields f1) reordered ->
    Forall2 (fun a b => fst a = fst b /\
                        equal_up_to_field_order (snd a) (snd b))
            reordered (defined_fields f2) ->
    equal_up_to_field_order (JObject f1) (JObject f2).
Set Elimination Schemes.

End Json.
Import Json.


Definition key : Type := option string.

(** Identity of [Map] keys that are strings (or [undefined]). *)
Definition key_eqb (a b : key) : bool :=
  match a, b with
  | Some x, Some y => String.eqb x y
  | None, None => true
  | _, _ => false
  end.

(** ** Enum tables of the loader *)

(** [topology in GLTFRenderMode]: the numeric enum has the members 0..6. *)
Definition in_GLTFRenderMode (topology : Z) : bool :=
  ((0 <=? topology) && (topology <=? 6))%Z.

Definition TRIANGLES : Z := 4.
Definition TRIANGLE_STRIP : Z := 5.

(** [Reflect.get(GLTFComponentType, componentType)]: the reverse mapping of
    the numeric enum. *)
Definition GLTFComponentType (componentType : Z) : option string :=
  match componentType with
  | 5120 => Some "BYTE"
  | 5121 => Some "UNSIGNED_BYTE"
  | 5122 => Some "SHORT"
  | 5123 => Some "UNSIGNED_SHORT"
  | 5124 => Some "INT"
  | 5125 => Some "UNSIGNED_INT"
  | 5126 => Some "FLOAT"
  | 5130 => Some "DOUBLE"
  | _ => None
  end%Z%string.

Definition GLTFComponentType2GPUVertexFormat (name : string) : option string :=
  (if String.eqb name "BYTE" then Some "sint8"
  else if String.eqb name "UNSIGNED_BYTE" then Some "uint8"
  else if String.eqb name "SHORT" then Some "sint16"
  else if String.eqb name "UNSIGNED_SHORT" then Some "uint16"
  else if String.eqb name "INT" then Some "int32"
  else if String.eqb name "UNSIGNED_INT" then Some "uint32"
  else if String.eqb name "FLOAT" then Some "float32"
  else None)%string.

(** [Reflect.get(GLTFTypeNumber, type)] where it is a number greater than 1
    or not; any other result makes [componentNums > 1] false. *)
Definition GLTFTypeNumber (type : string) : option Z :=
  (if String.eqb type "SCALAR" then Some 1
  else if String.eqb type "VEC2" then Some 2
  else if String.eqb type "VEC3" then Some 3
  else if String.eqb type "VEC4" then Some 4
  else if String.eqb type "MAT2" then Some 4
  else if String.eqb type "MAT3" then Some 9
  else if String.eqb type "MAT4" then Some 16
  else None)%Z.

Definition GLTFComponentTypeSize (name : string) : option Z :=
  (if String.eqb name "BYTE" then Some 1
   else if String.eqb name "UNSIGNED_BYTE" then Some 1
   else if String.eqb name "SHORT" then Some 2
   else if String.eqb name "UNSIGNED_SHORT" then Some 2
   else if String.eqb name "INT" then Some 4
   else if String.eqb name "UNSIGNED_INT" then Some 4
   else if String.eqb name "FLOAT" then Some 4
   else if String.eqb name "DOUBLE" then Some 8
   else None)%Z.

(** ** GPU side *)

Definition Handle : Type := nat.

(** The device hands out fresh object handles. *)
Record GPUDevice : Type := { next_handle : Handle }.

Definition create (device : GPUDevice) : Handle * GPUDevice :=
  (next_handle device, {| next_handle := S (next_handle device) |}).

(** A [Float32Array] element, as its bit pattern. *)
Definition f32 : Type := Z.

(** [target.set(source, offset)] of a typed array: a [RangeError] when the
    source does not fit. *)
Definition overwrite (target : list f32) (offset : nat) (source : list f32)
  : list f32 :=
  firstn offset target ++ source ++ skipn (offset + length source) target.

Definition TypedArray_set (target source : list f32) (offset : nat)
  : result (list f32) :=
  if offset + length source <=? length target
  then Ok (overwrite target offset source)
  else Throw RangeError.

Module GPUBuffer.
Record t : Type := { handle : Handle; size : nat; contents : list f32 }.
End GPUBuffer.

(** ** Transforms *)

(** A [Mat4] of wgpu-matrix: a [Float32Array] of 16 elements. *)
Record Mat4 : Type :=
  { elements : list f32;
    elements_16 : (length elements =? 16) = true }.

(** Modelled from the spec: [components/Transform] is not among the sources;
    a transform exposes a world matrix and a world normal matrix, readable at
    any time.  Nodes hold a reference to their transform; the store gives the
    current value of each. *)
Record Transform : Type :=
  { worldMatrix : Mat4; worldNormalMatrix : Mat4 }.

Definition TransformRef : Type := nat.
Definition TransformStore : Type := TransformRef -> Transform.

(** ** Accessors *)

Module GLTFBufferView.
Record t : Type := { index : nat; byteStride : Z }.
End GLTFBufferView.

Module GLTFAccessor.
Local Open Scope string_scope.
(** [view] is [bufferViews[accessor.bufferView]], the first argument [load]
    gives the constructor: [None] is the [undefined] of an index that has
    no buffer view. *)
Record t : Type :=
  { view : option GLTFBufferView.t;
    componentType : Z;
    count : Z;
    type : string;
    byteOffset : Z }.

(** The [elementSize] of [get byteStride()]; [None] is [NaN]. *)
Definition elementSize (a : t) : option Z :=
  match GLTFTypeNumber (type a),
        match GLTFComponentType (componentType a) with
        | Some name => GLTFComponentTypeSize name
        | None => None
        end with
  | Some n, Some size => Some (n * size)%Z
  | _, _ => None
  end.

(** [Math.max(elementSize, view.byteStride)], for the view of the
    accessor. *)
Definition stride_in (bufferView : GLTFBufferView.t) (a : t) : option Z :=
  match elementSize a with
  | Some size => Some (Z.max size (GLTFBufferView.byteStride bufferView))
  | None => None
  end.

(** [get byteStride()] and [get byteLength()]: reading
    [this.view.byteStride] of an accessor without view is a [TypeError];
    [Ok None] is [NaN]. *)
Definition byteStride (a : t) : result (option Z) :=
  match view a with
  | Some bufferView => Ok (stride_in bufferView a)
  | None => Throw TypeError
  end.

Definition byteLength (a : t) : result (option Z) :=
  stride <- byteStride a ;;
  Ok match stride with
     | Some stride => Some (count a * stride)%Z
     | None => None
     end.

(** [get vertexType()] *)
Definition vertexType (a : t) : result string :=
  match match GLTFComponentType (componentType a) with
        | Some name => GLTFComponentType2GPUVertexFormat name
        | None => None
        end with
  | None =>
      Throw (Error ("Unrecognized or unsupported glTF type " ++
                    number_to_string (componentType a)))
  | Some componentVertexFormat =>
      match GLTFTypeNumber (type a) with
      | Some componentNums =>
          if (1 <? componentNums)%Z
          then Ok (componentVertexFormat ++ "x" ++ number_to_string componentNums)
          else Ok componentVertexFormat
      | None => Ok componentVertexFormat
      end
  end.

Definition has_view (a : t) : bool :=
  match view a with
  | Some _ => true
  | None => false
  end.

Definition has_vertexType (a : t) : bool :=
  match vertexType a with
  | Ok _ => true
  | Throw _ => false
  end.
End GLTFAccessor.

Module GPUBufferAccessor.
Record t : Type := { accessor : GLTFAccessor.t; offset : Z }.
End GPUBufferAccessor.

(** ** Materials and primitives *)

Module GLTFMaterial.
Local Open Scope string_scope.
(** [__json] is the material's glTF JSON.  [fragment] is the [fragment]
    field of what the material's [build(options)] returns, [JUndefined] when
    the result has none.  [GLTFScene.build] destructures it as
    [{ resources, bindGroupLayoutEntries, shader }] and reads
    [shader.context]; [Mesh.buildFragmentResources] reads the same three
    fields.  The [build] of [MeshPhysicalMaterial.ts] returns
    [{ resources, bindGroupLayoutEntries, fragment: { code, context } }],
    a [fragment] without [shader]. *)
Record t : Type := { __json : JSValue; fragment : JSValue }.

(** [x ?? d] *)
Definition nullish (x d : JSValue) : JSValue :=
  match x with
  | JUndefined | JNull => d
  | _ => x
  end.

Definition alphaMode (m : t) : JSValue :=
  nullish (get_field "alphaMode" (__json m)) (JString "OPAQUE").

Definition doubleSided (m : t) : JSValue :=
  nullish (get_field "doubleSided" (__json m)) (JBool false).
End GLTFMaterial.

Module GLTFPrimitive.
Local Open Scope string_scope.
(** A constructed [GLTFPrimitive]: the constructor arguments and the fields
    [setPrimitive] has filled in. *)
Record t : Type :=
  { a_indices : option GLTFAccessor.t;
    topology : Z;
    a_material : option GLTFMaterial.t;
    __json : JSValue;
    vertexCount : Z;
    bufferLayout : JSValue;
    gpuBuffers : list GPUBufferAccessor.t }.

Record BuildResult : Type :=
  { args : list (string * JSValue);
    vertex_context : JSValue;
    res_vertexCount : Z;
    res_gpuBuffers : list GPUBufferAccessor.t;
    indices : option GLTFAccessor.t;
    fragment : JSValue }.

(** [fragment.shader], [fragment.bindGroupLayoutEntries] and
    [fragment.shader.context] where the reads succeed, [undefined]
    elsewhere. *)
Definition fragment_shader (r : BuildResult) : JSValue :=
  get_field "shader" (fragment r).

Definition bindGroupLayoutEntries (r : BuildResult) : JSValue :=
  get_field "bindGroupLayoutEntries" (fragment r).

Definition fragment_shader_context (r : BuildResult) : JSValue :=
  get_field "context" (fragment_shader r).

(** [k in this.attributes], for an attribute name [k]. *)
Definition in_attributes (k : string) (p : t) : result bool :=
  match get_field "attributes" (__json p) with
  | JObject _ as o => Ok (has_field k o)
  | JArray _ => Ok false
  | _ => Throw TypeError
  end.

(** [a_material?.f] *)
Definition of_material (f : GLTFMaterial.t -> JSValue) (p : t) : JSValue :=
  match a_material p with
  | Some m => f m
  | None => JUndefined
  end.

(** [buildVertex()]: the [primitive] state, then [args] and the vertex
    shader context. *)
Definition buildVertex_primitive (p : t) : result JSValue :=
  if (topology p =? TRIANGLE_STRIP)%Z then
    match a_indices p with
    | Some a =>
        stripIndexFormat <- GLTFAccessor.vertexType a ;;
        Ok (JObject [("topology", JString "triangle-strip");
                     ("stripIndexFormat", JString stripIndexFormat)])
    | None => Ok (JObject [("topology", JString "triangle-strip")])
    end
  else Ok (JObject [("topology", JString "triangle-list")]).

Definition buildVertex (p : t) (fragment : JSValue) : result BuildResult :=
  primitive <- buildVertex_primitive p ;;
  useNormal <- in_attributes "NORMAL" p ;;
  useTexcoord <- in_attributes "TEXCOORD_0" p ;;
  Ok {| args := [("primitive", primitive);
                 ("bufferLayout", bufferLayout p);
                 ("alphaMode", of_material GLTFMaterial.alphaMode p);
                 ("doubleSided", of_material GLTFMaterial.doubleSided p)];
        vertex_context := JObject [("useNormal", JBool useNormal);
                                   ("useTexcoord", JBool useTexcoord)];
        res_vertexCount := vertexCount p;
        res_gpuBuffers := gpuBuffers p;
        indices := a_indices p;
        fragment := fragment |}.

(** [build(options)]: [None] is the [undefined] returned for a primitive
    without material. *)
Definition build (p : t) : result (option BuildResult) :=
  match a_material p with
  | None => Ok None
  | Some m =>
      r <- buildVertex p (GLTFMaterial.fragment m) ;;
      Ok (Some r)
  end.
End GLTFPrimitive.

Module GLTFMesh.
(** [a_primitives] are the constructed primitives, [primitives] the
    [primitives] array of the mesh JSON copied by [Object.assign]. *)
Record t : Type :=
  { a_primitives : list GLTFPrimitive.t;
    primitives : list JSValue }.
End GLTFMesh.

Module GLTFNode.
Unset Elimination Schemes.
Inductive t : Type :=
  mk { a_mesh : option GLTFMesh.t;
       transform : TransformRef;
       children : list t }.
Set Elimination Schemes.
End GLTFNode.

(** ** The render order *)

Record InstanceRange : Type := { first : nat; count : nat }.

Module RenderPrimitive.
Record t : Type :=
  { buffers : list GPUBufferAccessor.t;
    indices : option GLTFAccessor.t;
    vertexCount : Z;
    instanceInAll : option InstanceRange }.
End RenderPrimitive.

Module RenderNode.
(** Every [RenderNode] object is created together with its own bind group,
    so the handle of the bind group is the identity of the object. *)
Record t : Type :=
  { groupIndex : nat;
    bindGroup : Handle;
    primitive : GLTFPrimitive.t }.

Definition same (a b : t) : bool := bindGroup a =? bindGroup b.
End RenderNode.

Definition GPURenderPipeline : Type := Handle.

Module RenderPipeline.
Record t : Type :=
  { pipeline : GPURenderPipeline;
    materialPrimitivesMap : list (RenderNode.t * list RenderPrimitive.t) }.
End RenderPipeline.

Module PrimitiveInstances.
(** [PrimitiveInstancesType]; [arrayBuffer] is [None] while it is [null]. *)
Record t : Type :=
  { total : nat;
    offset : nat;
    matrices : list (key * list TransformRef);
    arrayBuffer : option (list f32) }.
End PrimitiveInstances.

Module BuildOptions.
(** Modelled from the spec: [scene/cache] is not among the sources; the
    pipeline cache returns the same pipeline for equal requests, so it is a
    function of what [GLTFScene.build] passes to it and what varies there:
    the vertex shader context, the fragment shader, the pipeline descriptor
    and the bind-group layout entries of the material. *)
Record t : Type :=
  { format : string;
    depthFormat : string;
    cached_pipeline_get :
      JSValue -> JSValue -> JSValue -> JSValue -> GPURenderPipeline }.
End BuildOptions.

(** ** GLTFScene *)

(** [device.queue], the one thing the scene uses of the device it holds. *)
Definition GPUQueue : Type := unit.

Module GLTFScene.
Import PrimitiveInstances.
Local Open Scope string_scope.

(** [this_device] is the field [device] that [updateBuffers] reads: [None]
    is [undefined], and a device counts through its [queue] only.  The
    class has the field from its base class; neither its constructor nor
    its [build] assigns it. *)
Record t : Type :=
  { children : list GLTFNode.t;
    a_meshs : list GLTFMesh.t;
    this_device : option GPUQueue;
    renderPipelines : list (key * RenderPipeline.t);
    instanceBuffer : option GPUBuffer.t;
    instanceBindGroup : option Handle;
    instanceBindGroupIndex : option nat;
    primitiveInstances : option PrimitiveInstances.t }.

(** The constructor: [renderPipelines] starts as an empty [Map]; the other
    build fields are not set yet. *)
Definition new (a_node : list GLTFNode.t) (a_meshs : list GLTFMesh.t) : t :=
  {| children := a_node;
     a_meshs := a_meshs;
     this_device := None;
     renderPipelines := [];
     instanceBuffer := None;
     instanceBindGroup := None;
     instanceBindGroupIndex := None;
     primitiveInstances := None |}.

Section Traverse.
Variable S : Type.
Variable callback : GLTFNode.t -> S -> S.

Fixpoint traverseNode (node : GLTFNode.t) (st : S) : S :=
  fold_left (fun st child => traverseNode child st)
            (GLTFNode.children node) (callback node st).

Definition traverse (scene : t) (st : S) : S :=
  fold_left (fun st child => traverseNode child st) (children scene) st.
End Traverse.

(** The callback of the node pass of [build]: every primitive of the node's
    mesh appends the node's transform to the group of its key. *)
Definition group_primitive (transform : TransformRef)
    (st : PrimitiveInstances.t) (primitive : JSValue) : PrimitiveInstances.t :=
  let primitiveNodesKey := stringify primitive in
  let primitiveNodes :=
    match Map_get key_eqb primitiveNodesKey (matrices st) with
    | Some nodes => nodes
    | None => []
    end in
  {| total := Datatypes.S (total st);
     offset := offset st;
     matrices := Map_set key_eqb primitiveNodesKey
                         (primitiveNodes ++ [transform])%list (matrices st);
     arrayBuffer := arrayBuffer st |}.

Definition group_node (a_node : GLTFNode.t) (st : PrimitiveInstances.t)
  : PrimitiveInstances.t :=
  match GLTFNode.a_mesh a_node with
  | None => st
  | Some m =>
      fold_left (group_primitive (GLTFNode.transform a_node))
                (GLTFMesh.primitives m) st
  end.

(** The [for] loop of [setInstancePosForPrimitiveNodes], from index [i]. *)
Fixpoint write_nodes (store : TransformStore) (nodes : list TransformRef)
    (first i : nat) (arrayBuffer : list f32) : result (list f32) :=
  match nodes with
  | [] => Ok arrayBuffer
  | node :: rest =>
      let offset := (first + i) * 32 in
      a1 <- TypedArray_set arrayBuffer
              (elements (worldMatrix (store node))) offset ;;
      a2 <- TypedArray_set a1
              (elements (worldNormalMatrix (store node))) (offset + 16) ;;
      write_nodes store rest first (Datatypes.S i) a2
  end.

Definition setInstancePosForPrimitiveNodes (store : TransformStore)
    (primitive : GLTFPrimitive.t) (primitiveInstances : PrimitiveInstances.t)
  : result (PrimitiveInstances.t * option InstanceRange) :=
  match arrayBuffer primitiveInstances with
  | None => Ok (primitiveInstances, None)
  | Some buffer =>
      match Map_get key_eqb (stringify (GLTFPrimitive.__json primitive))
                    (matrices primitiveInstances) with
      | None => Throw TypeError
      | Some nodes =>
          let first := offset primitiveInstances in
          let count := length nodes in
          buffer' <- write_nodes store nodes first 0 buffer ;;
          Ok ({| total := total primitiveInstances;
                 offset := offset primitiveInstances + count;
                 matrices := matrices primitiveInstances;
                 arrayBuffer := Some buffer' |},
              Some {| first := first; count := count |})
      end
  end.

(** The state the mesh pass of [build] works on. *)
Record BuildState : Type :=
  { gpu : GPUDevice;
    materialCache : list (key * RenderNode.t);
    pipelines : list (key * RenderPipeline.t);
    instances : PrimitiveInstances.t }.

Definition materialKey (a_primitive : GLTFPrimitive.t) : key :=
  stringify (GLTFPrimitive.of_material GLTFMaterial.__json a_primitive).

(** Reading a property of a value, or destructuring it: [undefined] and
    [null] throw. *)
Definition property (k : string) (v : JSValue) : result JSValue :=
  match v with
  | JUndefined | JNull => Throw TypeError
  | _ => Ok (get_field k v)
  end.

(** [ks], the key of [renderPipelines]. *)
Definition shaderContextKey (args : list (string * JSValue))
    (vertex fragment : JSValue) : key :=
  stringify
    (JObject (args ++
              [("shaderContext",
                JObject [("vertex", vertex); ("fragment", fragment)])])%list).

Definition pipelineKey (r : GLTFPrimitive.BuildResult) : key :=
  shaderContextKey (GLTFPrimitive.args r) (GLTFPrimitive.vertex_context r)
                   (GLTFPrimitive.fragment_shader_context r).

(** The two reads of the material's part that can throw in the mesh pass:
    the destructuring of [fragment] and [shader.context]. *)
Definition shader_context (r : GLTFPrimitive.BuildResult) : result JSValue :=
  shader <- property "shader" (GLTFPrimitive.fragment r) ;;
  property "context" shader.

Definition pipelineDescriptor (options : BuildOptions.t)
    (r : GLTFPrimitive.BuildResult) : JSValue :=
  JObject ((("format", JString (BuildOptions.format options)) ::
            GLTFPrimitive.args r) ++
           [("depthStencil",
             JObject [("format", JString (BuildOptions.depthFormat options));
                      ("depthWriteEnabled", JBool true);
                      ("depthCompare", JString "less")])])%list.

(** The pipeline [cached.pipeline.get] returns for a primitive. *)
Definition pipeline_of (options : BuildOptions.t)
    (r : GLTFPrimitive.BuildResult) : GPURenderPipeline :=
  BuildOptions.cached_pipeline_get options
    (GLTFPrimitive.vertex_context r) (GLTFPrimitive.fragment_shader r)
    (pipelineDescriptor options r) (GLTFPrimitive.bindGroupLayoutEntries r).

(** The body of the mesh pass of [build] for one primitive.  The result of
    [a_primitive.build(options)!] is destructured, [fragment] with it; the
    bind-group layout and the bind-group entries made of its [resources]
    come from [cached] and [getBindGroupEntries], outside this file. *)
Definition build_primitive (options : BuildOptions.t) (store : TransformStore)
    (a_primitive : GLTFPrimitive.t) (st : BuildState) : result BuildState :=
  built <- GLTFPrimitive.build a_primitive ;;
  match built with
  | None => Throw TypeError
  | Some r =>
      shader <- property "shader" (GLTFPrimitive.fragment r) ;;
      let materialKey := materialKey a_primitive in
      let '(material, device', materialCache') :=
        match Map_get key_eqb materialKey (materialCache st) with
        | Some material => (material, gpu st, materialCache st)
        | None =>
            let '(bindGroup, device') := create (gpu st) in
            let material :=
              {| RenderNode.groupIndex := 2;
                 RenderNode.bindGroup := bindGroup;
                 RenderNode.primitive := a_primitive |} in
            (material, device',
             Map_set key_eqb materialKey material (materialCache st))
        end in
      context <- property "context" shader ;;
      let ks :=
        shaderContextKey (GLTFPrimitive.args r) (GLTFPrimitive.vertex_context r)
                         context in
      let renderPipeline :=
        match Map_get key_eqb ks (pipelines st) with
        | Some renderPipeline => renderPipeline
        | None =>
            {| RenderPipeline.pipeline :=
                 BuildOptions.cached_pipeline_get options
                   (GLTFPrimitive.vertex_context r) shader
                   (pipelineDescriptor options r)
                   (get_field "bindGroupLayoutEntries"
                              (GLTFPrimitive.fragment r));
               RenderPipeline.materialPrimitivesMap := [] |}
        end in
      let primitives :=
        match Map_get RenderNode.same material
                      (RenderPipeline.materialPrimitivesMap renderPipeline) with
        | Some primitives => primitives
        | None => []
        end in
      '(instances', instanceInAll) <-
        setInstancePosForPrimitiveNodes store a_primitive (instances st) ;;
      let entry :=
        {| RenderPrimitive.buffers := GLTFPrimitive.res_gpuBuffers r;
           RenderPrimitive.indices := GLTFPrimitive.indices r;
           RenderPrimitive.vertexCount := GLTFPrimitive.res_vertexCount r;
           RenderPrimitive.instanceInAll := instanceInAll |} in
      Ok {| gpu := device';
            materialCache := materialCache';
            pipelines :=
              Map_set key_eqb ks
                {| RenderPipeline.pipeline := RenderPipeline.pipeline renderPipeline;
                   RenderPipeline.materialPrimitivesMap :=
                     Map_set RenderNode.same material (primitives ++ [entry])%list
                       (RenderPipeline.materialPrimitivesMap renderPipeline) |}
                (pipelines st);
            instances := instances' |}
  end.

Definition arrayBuffer_contents (p : PrimitiveInstances.t) : list f32 :=
  match arrayBuffer p with
  | Some a => a
  | None => []
  end.

(** [primitiveInstances] as [build] sets it up before the node pass. *)
Definition empty_instances : PrimitiveInstances.t :=
  {| total := 0; offset := 0; matrices := []; arrayBuffer := None |}.

(** [build(options)]: the node pass groups the transforms, the instance
    buffer is created mapped (zero-filled), the mesh pass fills the render
    order and the mapped range; unmapping freezes the buffer contents and a
    fresh staging array of the same length replaces the mapped range.  The
    uploads of the buffer views, the bind-group layout of the nodes and the
    counters of [record] take no part in the render order or the instance
    buffer and are left out. *)
Definition build (options : BuildOptions.t) (store : TransformStore)
    (device : GPUDevice) (scene : t) : result (t * GPUDevice) :=
  let grouped := traverse group_node scene empty_instances in
  let size := 16 * 2 * 4 * total grouped in
  let '(buffer, device1) := create device in
  let '(bindGroup, device2) := create device1 in
  let mapped :=
    {| total := total grouped;
       offset := offset grouped;
       matrices := matrices grouped;
       arrayBuffer := Some (repeat 0%Z (size / 4)) |} in
  st <- forEach (fun a_mesh =>
                   forEach (build_primitive options store)
                           (GLTFMesh.a_primitives a_mesh))
                (a_meshs scene)
                {| gpu := device2;
                   materialCache := [];
                   pipelines := renderPipelines scene;
                   instances := mapped |} ;;
  Ok ({| children := children scene;
         a_meshs := a_meshs scene;
         this_device := this_device scene;
         renderPipelines := pipelines st;
         instanceBuffer :=
           Some {| GPUBuffer.handle := buffer;
                   GPUBuffer.size := size;
                   GPUBuffer.contents := arrayBuffer_contents (instances st) |};
         instanceBindGroup := Some bindGroup;
         instanceBindGroupIndex := Some 1;
         primitiveInstances :=
           Some {| total := total (instances st);
                   offset := 0;
                   matrices := matrices (instances st);
                   arrayBuffer := Some (repeat 0%Z (size / 4)) |} |},
      gpu st).

(** [device.queue.writeBuffer(buffer, 0, data)] *)
Definition writeBuffer (buffer : GPUBuffer.t) (data : list f32)
  : result GPUBuffer.t :=
  if (length data * 4 <=? GPUBuffer.size buffer)%nat
  then Ok {| GPUBuffer.handle := GPUBuffer.handle buffer;
             GPUBuffer.size := GPUBuffer.size buffer;
             GPUBuffer.contents :=
               (data ++ skipn (length data) (GPUBuffer.contents buffer))%list |}
  else Throw (Error "OperationError").

Definition refresh_primitive (store : TransformStore)
    (a_primitive : GLTFPrimitive.t) (st : PrimitiveInstances.t)
  : result PrimitiveInstances.t :=
  '(st', _) <- setInstancePosForPrimitiveNodes store a_primitive st ;;
  Ok st'.

(** The loop of [updateBuffers()]: the running offset starts again at 0
    and every mesh primitive writes the blocks of its nodes into the staging
    array. *)
Definition refresh_instances (store : TransformStore) (scene : t)
  : result PrimitiveInstances.t :=
  match primitiveInstances scene with
  | Some p =>
      forEach (fun a_mesh =>
                 forEach (refresh_primitive store)
                         (GLTFMesh.a_primitives a_mesh))
              (a_meshs scene)
              {| total := total p;
                 offset := 0;
                 matrices := matrices p;
                 arrayBuffer := arrayBuffer p |}
  | None => Throw TypeError
  end.

(** [this.device.queue.writeBuffer(this.instanceBuffer, 0,
    this.primitiveInstances.arrayBuffer)]: reading [queue] of a device that
    is [undefined] is a [TypeError], before anything is written. *)
Definition upload (scene : t) (refreshed : PrimitiveInstances.t) : result t :=
  match this_device scene with
  | None => Throw TypeError
  | Some queue =>
      match instanceBuffer scene, arrayBuffer refreshed with
      | Some buffer, Some data =>
          buffer' <- writeBuffer buffer data ;;
          Ok {| children := children scene;
                a_meshs := a_meshs scene;
                this_device := this_device scene;
                renderPipelines := renderPipelines scene;
                instanceBuffer := Some buffer';
                instanceBindGroup := instanceBindGroup scene;
                instanceBindGroupIndex := instanceBindGroupIndex scene;
                primitiveInstances := Some refreshed |}
      | _, _ => Throw TypeError
      end
  end.

(** [updateBuffers()] *)
Definition updateBuffers (store : TransformStore) (scene : t) : result t :=
  refreshed <- refresh_instances store scene ;;
  upload scene refreshed.

(** The scene once the loop of [updateBuffers()] has run: the staging
    array and the running offset are as the loop left them. *)
Definition refreshed_scene (scene : t) (refreshed : PrimitiveInstances.t) : t :=
  {| children := children scene;
     a_meshs := a_meshs scene;
     this_device := this_device scene;
     renderPipelines := renderPipelines scene;
     instanceBuffer := instanceBuffer scene;
     instanceBindGroup := instanceBindGroup scene;
     instanceBindGroupIndex := instanceBindGroupIndex scene;
     primitiveInstances := Some refreshed |}.

(** The scene a call of [updateBuffers()] leaves behind, whether the call
    returns or throws.  The loop writes the staging array of the scene in
    place, so what it wrote stays when the upload after it throws; without
    [primitiveInstances] the call throws before it changes anything.
    [None]: the loop itself throws and leaves a staging array written in
    part, which is not modelled. *)
Definition after_updateBuffers (store : TransformStore) (scene : t)
  : option t :=
  match primitiveInstances scene with
  | None => Some scene
  | Some _ =>
      match refresh_instances store scene with
      | Throw _ => None
      | Ok refreshed =>
          match upload scene refreshed with
          | Ok uploaded => Some uploaded
          | Throw _ => Some (refreshed_scene scene refreshed)
          end
      end
  end.

(** *** Replaying the render order *)

(** The calls [render] makes on the render pass.  A GPU buffer is named by
    the index of the buffer view it was uploaded from. *)
Inductive Command : Type :=
| SetBindGroup (index : nat) (bindGroup : Handle)
| SetPipeline (pipeline : GPURenderPipeline)
| SetVertexBuffer (slot : nat) (view : nat) (offset : Z) (size : option Z)
| SetIndexBuffer (view : nat) (indexFormat : string) (offset : Z) (size : option Z)
| DrawIndexed (indexCount : Z) (instanceCount : nat)
              (firstIndex baseVertex : Z) (firstInstance : nat)
| Draw (vertexCount : Z) (instanceCount : nat)
       (firstVertex : Z) (firstInstance : nat).

(** [primitive.buffers.forEach(({ accessor, offset }, idx) => ...)], from
    the index [idx] on: [accessor.view.gpuBuffer] of an accessor without
    view is a [TypeError]. *)
Fixpoint setVertexBuffers (idx : nat) (buffers : list GPUBufferAccessor.t)
    (pass : list Command) : result (list Command) :=
  match buffers with
  | [] => Ok pass
  | buffer :: rest =>
      let accessor := GPUBufferAccessor.accessor buffer in
      match GLTFAccessor.view accessor with
      | None => Throw TypeError
      | Some view =>
          size <- GLTFAccessor.byteLength accessor ;;
          setVertexBuffers (S idx) rest
            (pass ++ [SetVertexBuffer idx (GLTFBufferView.index view)
                                      (GPUBufferAccessor.offset buffer)
                                      size])%list
      end
  end.

(** The body of [primitives.forEach]: the arguments of [setIndexBuffer] are
    read from left to right, [indices.view.gpuBuffer] first. *)
Definition render_primitive (primitive : RenderPrimitive.t) (pass : list Command)
  : result (list Command) :=
  pass <- setVertexBuffers 0 (RenderPrimitive.buffers primitive) pass ;;
  match RenderPrimitive.instanceInAll primitive with
  | None => Throw TypeError
  | Some range =>
      match RenderPrimitive.indices primitive with
      | Some indices =>
          match GLTFAccessor.view indices with
          | None => Throw TypeError
          | Some view =>
              indexFormat <- GLTFAccessor.vertexType indices ;;
              size <- GLTFAccessor.byteLength indices ;;
              Ok (pass ++
                  [SetIndexBuffer (GLTFBufferView.index view) indexFormat
                                  (GLTFAccessor.byteOffset indices) size;
                   DrawIndexed (GLTFAccessor.count indices) (count range)
                               0 0 (first range)])%list
          end
      | None =>
          Ok (pass ++
              [Draw (RenderPrimitive.vertexCount primitive) (count range)
                    0 (first range)])%list
      end
  end.

Definition render_material
    (entry : RenderNode.t * list RenderPrimitive.t) (pass : list Command)
  : result (list Command) :=
  forEach render_primitive (snd entry)
    (pass ++ [SetBindGroup (RenderNode.groupIndex (fst entry))
                           (RenderNode.bindGroup (fst entry))])%list.

Definition render_pipeline
    (entry : key * RenderPipeline.t) (pass : list Command)
  : result (list Command) :=
  forEach render_material (RenderPipeline.materialPrimitivesMap (snd entry))
    (pass ++ [SetPipeline (RenderPipeline.pipeline (snd entry))])%list.

(** [render(renderPass, device)]: the calls it makes itself on the pass,
    after [super.render] ([Group], not among the sources). *)
Definition render (scene : t) : result (list Command) :=
  match instanceBindGroupIndex scene, instanceBindGroup scene with
  | Some index, Some bindGroup =>
      forEach render_pipeline (renderPipelines scene)
              [SetBindGroup index bindGroup]
  | _, _ => Throw TypeError
  end.

(** *** What the batcher lays out *)

Definition all_primitives (scene : t) : list GLTFPrimitive.t :=
  flat_map GLTFMesh.a_primitives (a_meshs scene).

(** The nodes in the order [traverse] visits them: depth first, a node
    before its children. *)
Fixpoint preorder (node : GLTFNode.t) : list GLTFNode.t :=
  node :: flat_map preorder (GLTFNode.children node).

(** The node/primitive pairs of the scene, in traversal order: the key of
    the primitive and the transform of the node. *)
Definition node_pairs (a_node : GLTFNode.t) : list (key * TransformRef) :=
  match GLTFNode.a_mesh a_node with
  | None => []
  | Some m =>
      map (fun primitive => (stringify primitive, GLTFNode.transform a_node))
          (GLTFMesh.primitives m)
  end.

Definition pairs (scene : t) : list (key * TransformRef) :=
  flat_map node_pairs (flat_map preorder (children scene)).

(** Filing one pair: what [group_primitive] does with the key of the
    primitive. *)
Definition group_pair (st : PrimitiveInstances.t) (pair : key * TransformRef)
  : PrimitiveInstances.t :=
  {| total := Datatypes.S (total st);
     offset := offset st;
     matrices :=
       Map_set key_eqb (fst pair)
         (match Map_get key_eqb (fst pair) (matrices st) with
          | Some nodes => nodes
          | None => []
          end ++ [snd pair])%list (matrices st);
     arrayBuffer := arrayBuffer st |}.

(** The groups the node pass of [build] makes for a scene. *)
Definition groups (scene : t) : list (key * list TransformRef) :=
  matrices (traverse group_node scene empty_instances).

Definition nonempty_groups (matrices : list (key * list TransformRef)) : Prop :=
  forall k nodes, In (k, nodes) matrices -> nodes <> [].

(** The group of a primitive: the transforms filed under its key. *)
Definition group (matrices : list (key * list TransformRef))
    (a_primitive : GLTFPrimitive.t) : option (list TransformRef) :=
  Map_get key_eqb (stringify (GLTFPrimitive.__json a_primitive)) matrices.

Definition group_nodes (matrices : list (key * list TransformRef))
    (a_primitive : GLTFPrimitive.t) : list TransformRef :=
  match group matrices a_primitive with
  | Some nodes => nodes
  | None => []
  end.

(** All instances in buffer order: the groups of the primitives, one
    after the other in mesh order. *)
Definition instances_of (matrices : list (key * list TransformRef))
    (a_primitives : list GLTFPrimitive.t) : list TransformRef :=
  flat_map (group_nodes matrices) a_primitives.

(** The ranges a walk over the primitives hands out from offset [start]. *)
Fixpoint assigned_ranges (matrices : list (key * list TransformRef))
    (a_primitives : list GLTFPrimitive.t) (start : nat) : list InstanceRange :=
  match a_primitives with
  | [] => []
  | a_primitive :: rest =>
      let count := length (group_nodes matrices a_primitive) in
      {| first := start; count := count |} ::
      assigned_ranges matrices rest (start + count)
  end.

(** Instance [i] lies in a range. *)
Definition in_range (range : InstanceRange) (i : nat) : Prop :=
  first range <= i < first range + count range.

Definition primitive_key (a_primitive : GLTFPrimitive.t) : key :=
  stringify (GLTFPrimitive.__json a_primitive).

(** The size of the group filed under a key. *)
Definition group_size (matrices : list (key * list TransformRef)) (k : key)
  : nat :=
  match Map_get key_eqb k matrices with
  | Some nodes => length nodes
  | None => 0
  end.

(** A primitive the mesh pass gets through: it has a material, and the
    material's part of the build result has [fragment.shader]. *)
Definition buildable (a_primitive : GLTFPrimitive.t) : Prop :=
  exists r context,
    GLTFPrimitive.build a_primitive = Ok (Some r) /\
    shader_context r = Ok context.

(** A scene as [load] constructs it: the mesh of every node is one of the
    meshes of the scene ([createGLTFNode] takes it from [meshes]), and the
    constructed primitives of a mesh carry the entries of its [primitives]
    array as their [__json] ([new GLTFPrimitive(..., primitive)]). *)
Definition loaded (scene : t) : Prop :=
  forall node a_mesh,
    In node (flat_map preorder (children scene)) ->
    GLTFNode.a_mesh node = Some a_mesh ->
    In a_mesh (a_meshs scene) /\
    GLTFMesh.primitives a_mesh =
    map GLTFPrimitive.__json (GLTFMesh.a_primitives a_mesh).

(** The transform block of one instance: world matrix, then world normal
    matrix. *)
Definition block (store : TransformStore) (node : TransformRef) : list f32 :=
  (elements (worldMatrix (store node)) ++
   elements (worldNormalMatrix (store node)))%list.

Definition blocks (store : TransformStore) (nodes : list TransformRef)
  : list f32 :=
  flat_map (block store) nodes.

(** The 16 floats at a float offset of an array. *)
Definition slice16 (array : list f32) (offset : nat) : list f32 :=
  firstn 16 (skipn offset array).

(** *** What the mesh pass files in the render order *)

(** The draw entry [build] pushes for a built primitive. *)
Definition draw_entry (r : GLTFPrimitive.BuildResult)
    (range : option InstanceRange) : RenderPrimitive.t :=
  {| RenderPrimitive.buffers := GLTFPrimitive.res_gpuBuffers r;
     RenderPrimitive.indices := GLTFPrimitive.indices r;
     RenderPrimitive.vertexCount := GLTFPrimitive.res_vertexCount r;
     RenderPrimitive.instanceInAll := range |}.

(** The material of a primitive: the cached [RenderNode] of its key, or a
    new one with a fresh bind group. *)
Definition lookup_material (a_primitive : GLTFPrimitive.t) (st : BuildState)
  : RenderNode.t * GPUDevice * list (key * RenderNode.t) :=
  match Map_get key_eqb (materialKey a_primitive) (materialCache st) with
  | Some material => (material, gpu st, materialCache st)
  | None =>
      ({| RenderNode.groupIndex := 2;
          RenderNode.bindGroup := next_handle (gpu st);
          RenderNode.primitive := a_primitive |},
       {| next_handle := Datatypes.S (next_handle (gpu st)) |},
       Map_set key_eqb (materialKey a_primitive)
         {| RenderNode.groupIndex := 2;
            RenderNode.bindGroup := next_handle (gpu st);
            RenderNode.primitive := a_primitive |}
         (materialCache st))
  end.

(** Filing a draw entry under pipeline key [ks] and material [material]. *)
Definition place (ks : key) (pipeline : GPURenderPipeline)
    (material : RenderNode.t) (entry : RenderPrimitive.t)
    (order : list (key * RenderPipeline.t)) : list (key * RenderPipeline.t) :=
  let renderPipeline :=
    match Map_get key_eqb ks order with
    | Some renderPipeline => renderPipeline
    | None => {| RenderPipeline.pipeline := pipeline;
                 RenderPipeline.materialPrimitivesMap := [] |}
    end in
  let primitives :=
    match Map_get RenderNode.same material
                  (RenderPipeline.materialPrimitivesMap renderPipeline) with
    | Some primitives => primitives
    | None => []
    end in
  Map_set key_eqb ks
    {| RenderPipeline.pipeline := RenderPipeline.pipeline renderPipeline;
       RenderPipeline.materialPrimitivesMap :=
         Map_set RenderNode.same material (primitives ++ [entry])%list
           (RenderPipeline.materialPrimitivesMap renderPipeline) |}
    order.

(** A draw entry sits in the render order under pipeline key [ks] and the
    material whose bind group is [material]. *)
Definition placed (order : list (key * RenderPipeline.t)) (ks : key)
    (material : Handle) (entry : RenderPrimitive.t) : Prop :=
  exists (renderPipeline : RenderPipeline.t) (node : RenderNode.t)
         (primitives : list RenderPrimitive.t),
    In (ks, renderPipeline) order /\
    In (node, primitives) (RenderPipeline.materialPrimitivesMap renderPipeline) /\
    RenderNode.bindGroup node = material /\
    In entry primitives.

(** What the mesh pass has filed so far: for each primitive handled, its
    pipeline key, its material key and its draw entry. *)
Definition Filed : Type := key * key * RenderPrimitive.t.

Record filed_in (st : BuildState) (filed : list Filed) : Prop :=
  { materials_allocated :
      forall mk m, Map_get key_eqb mk (materialCache st) = Some m ->
                   RenderNode.bindGroup m < next_handle (gpu st);
    materials_distinct :
      forall mk1 mk2 m1 m2,
        Map_get key_eqb mk1 (materialCache st) = Some m1 ->
        Map_get key_eqb mk2 (materialCache st) = Some m2 ->
        RenderNode.bindGroup m1 = RenderNode.bindGroup m2 -> mk1 = mk2;
    pipeline_keys_distinct : NoDup (map fst (pipelines st));
    material_nodes_distinct :
      forall ks rp, In (ks, rp) (pipelines st) ->
        NoDup (map (fun e => RenderNode.bindGroup (fst e))
                   (RenderPipeline.materialPrimitivesMap rp));
    placed_filed :
      forall ks h d, placed (pipelines st) ks h d ->
        exists mk m, Map_get key_eqb mk (materialCache st) = Some m /\
          RenderNode.bindGroup m = h /\ In (ks, mk, d) filed;
    filed_placed :
      forall ks mk d, In (ks, mk, d) filed ->
        exists m, Map_get key_eqb mk (materialCache st) = Some m /\
          placed (pipelines st) ks (RenderNode.bindGroup m) d;
    filed_below_offset :
      forall ks mk d, In (ks, mk, d) filed ->
        exists range, RenderPrimitive.instanceInAll d = Some range /\
          first range < offset (instances st);
    filed_distinct : NoDup (map snd filed);
    mapped : arrayBuffer (instances st) <> None;
    groups_nonempty : nonempty_groups (matrices (instances st)) }.

(** The primitive a filed entry was made for. *)
Definition filed_for (a_primitive : GLTFPrimitive.t) (f : Filed) : Prop :=
  exists r range,
    GLTFPrimitive.build a_primitive = Ok (Some r) /\
    f = (pipelineKey r, materialKey a_primitive, draw_entry r (Some range)).

(** The staging array of a scene, once it is built. *)
Definition staging (scene : t) : option (list f32) :=
  match primitiveInstances scene with
  | Some p => arrayBuffer p
  | None => None
  end.

(** What [updateBuffers] leaves in the staging array: the blocks of all
    instances, from the start of the array. *)
Definition refreshed_data (store : TransformStore) (scene : t)
    (p : PrimitiveInstances.t) (array : list f32) : list f32 :=
  overwrite array 0
    (blocks store (instances_of (matrices p) (all_primitives scene))).

(** *** The replay as the specification words it *)

(** All draw entries of a render order, in replay order. *)
Definition draw_entries (order : list (key * RenderPipeline.t))
  : list RenderPrimitive.t :=
  flat_map (fun entry : key * RenderPipeline.t =>
              flat_map snd (RenderPipeline.materialPrimitivesMap (snd entry)))
           order.

(** The instanced draw of an entry: indexed when it has indices. *)
Definition draw_call (primitive : RenderPrimitive.t) (range : InstanceRange)
  : Command :=
  match RenderPrimitive.indices primitive with
  | Some indices =>
      DrawIndexed (GLTFAccessor.count indices) (count range) 0 0 (first range)
  | None =>
      Draw (RenderPrimitive.vertexCount primitive) (count range) 0 (first range)
  end.

(** The bytes a binding covers: the accessor's [count] elements of its
    stride, the larger of the element size and the stride of its buffer
    view; [None] is [NaN]. *)
Definition bound_size (view : GLTFBufferView.t) (accessor : GLTFAccessor.t)
  : option Z :=
  option_map (Z.mul (GLTFAccessor.count accessor))
             (GLTFAccessor.stride_in view accessor).

(** The vertex buffer at position [slot] of an entry is bound to slot
    [slot]: the GPU buffer of its view, from the entry's offset on. *)
Definition bind_vertex_buffer (slot : nat) (buffer : GPUBufferAccessor.t)
  : list Command :=
  match GLTFAccessor.view (GPUBufferAccessor.accessor buffer) with
  | Some view =>
      [SetVertexBuffer slot (GLTFBufferView.index view)
                       (GPUBufferAccessor.offset buffer)
                       (bound_size view (GPUBufferAccessor.accessor buffer))]
  | None => []
  end.

Definition bind_vertex_buffers (buffers : list GPUBufferAccessor.t)
  : list Command :=
  flat_map (fun binding : nat * GPUBufferAccessor.t =>
              bind_vertex_buffer (fst binding) (snd binding))
           (combine (seq 0 (length buffers)) buffers).

(** The index buffer: the GPU buffer of the view of the index accessor, in
    the format of the accessor, from its byte offset on. *)
Definition bind_index_buffer (indices : GLTFAccessor.t) : list Command :=
  match GLTFAccessor.view indices, GLTFAccessor.vertexType indices with
  | Some view, Ok indexFormat =>
      [SetIndexBuffer (GLTFBufferView.index view) indexFormat
                      (GLTFAccessor.byteOffset indices)
                      (bound_size view indices)]
  | _, _ => []
  end.

(** For a draw entry: bind its vertex buffers, bind its index buffer if it
    has one, and issue one instanced draw over its range. *)
Definition replay_primitive (primitive : RenderPrimitive.t) : list Command :=
  (bind_vertex_buffers (RenderPrimitive.buffers primitive) ++
   match RenderPrimitive.instanceInAll primitive with
   | None => []
   | Some range =>
       match RenderPrimitive.indices primitive with
       | Some indices => bind_index_buffer indices
       | None => []
       end ++ [draw_call primitive range]
   end)%list.

(** For a material: bind its bind group once, then replay its entries. *)
Definition replay_material (entry : RenderNode.t * list RenderPrimitive.t)
  : list Command :=
  SetBindGroup (RenderNode.groupIndex (fst entry))
               (RenderNode.bindGroup (fst entry)) ::
  flat_map replay_primitive (snd entry).

(** For a pipeline: bind it once, then replay its materials. *)
Definition replay_pipeline (entry : key * RenderPipeline.t) : list Command :=
  SetPipeline (RenderPipeline.pipeline (snd entry)) ::
  flat_map replay_material (RenderPipeline.materialPrimitivesMap (snd entry)).

Definition replay (order : list (key * RenderPipeline.t)) : list Command :=
  flat_map replay_pipeline order.

Definition is_SetPipeline (c : Command) : bool :=
  match c with SetPipeline _ => true | _ => false end.

Definition is_SetBindGroup (c : Command) : bool :=
  match c with SetBindGroup _ _ => true | _ => false end.

Definition is_draw (c : Command) : bool :=
  match c with DrawIndexed _ _ _ _ _ | Draw _ _ _ _ => true | _ => false end.

(** An entry [render] can draw: the accessors of its buffers have a view,
    it has its instance range, and its index accessor, if any, has a view
    and a known format. *)
Definition drawable (primitive : RenderPrimitive.t) : bool :=
  forallb (fun buffer =>
             GLTFAccessor.has_view (GPUBufferAccessor.accessor buffer))
          (RenderPrimitive.buffers primitive) &&
  match RenderPrimitive.instanceInAll primitive,
        RenderPrimitive.indices primitive with
  | None, _ => false
  | Some _, None => true
  | Some _, Some indices =>
      GLTFAccessor.has_view indices &&
      match GLTFAccessor.vertexType indices with
      | Ok _ => true
      | Throw _ => false
      end
  end.

Definition drawable_material (entry : RenderNode.t * list RenderPrimitive.t)
  : bool :=
  forallb drawable (snd entry).

Definition drawable_pipeline (entry : key * RenderPipeline.t) : bool :=
  forallb drawable_material (RenderPipeline.materialPrimitivesMap (snd entry)).

Definition drawable_order (order : list (key * RenderPipeline.t)) : bool :=
  forallb drawable_pipeline order.

(** The bindings of pipelines and of material bind groups a replay makes,
    and its draws. *)
Definition pipeline_bindings (order : list (key * RenderPipeline.t))
  : list Command :=
  map (fun entry : key * RenderPipeline.t =>
         SetPipeline (RenderPipeline.pipeline (snd entry))) order.

Definition material_bindings (order : list (key * RenderPipeline.t))
  : list Command :=
  flat_map (fun entry : key * RenderPipeline.t =>
              map (fun m : RenderNode.t * list RenderPrimitive.t =>
                     SetBindGroup (RenderNode.groupIndex (fst m))
                                  (RenderNode.bindGroup (fst m)))
                  (RenderPipeline.materialPrimitivesMap (snd entry)))
           order.

Definition draw_calls (order : list (key * RenderPipeline.t)) : list Command :=
  flat_map (fun primitive : RenderPrimitive.t =>
              match RenderPrimitive.instanceInAll primitive with
              | Some range => [draw_call primitive range]
              | None => []
              end)
           (draw_entries order).

(** A freshly constructed scene of three nodes that share one mesh with
    the single primitive [a_primitive]. *)
Definition three_sharing (a_primitive : GLTFPrimitive.t)
    (t1 t2 t3 : TransformRef) : t :=
  let a_mesh :=
    {| GLTFMesh.a_primitives := [a_primitive];
       GLTFMesh.primitives := [GLTFPrimitive.__json a_primitive] |} in
  new [GLTFNode.mk (Some a_mesh) t1 [];
       GLTFNode.mk (Some a_mesh) t2 [];
       GLTFNode.mk (Some a_mesh) t3 []]
      [a_mesh].

(** Modelled from the spec: [Group], the base class of [GLTFScene], is not
    among the sources; adding a node to the scene appends it to the children
    and leaves the rest of the scene as it is. *)
Definition add (node : GLTFNode.t) (scene : t) : t :=
  {| children := (children scene ++ [node])%list;
     a_meshs := a_meshs scene;
     this_device := this_device scene;
     renderPipelines := renderPipelines scene;
     instanceBuffer := instanceBuffer scene;
     instanceBindGroup := instanceBindGroup scene;
     instanceBindGroupIndex := instanceBindGroupIndex scene;
     primitiveInstances := primitiveInstances scene |}.

(** The assignment [scene.device = device], which nothing among the sources
    makes: it is what a caller has to do before [updateBuffers] can reach its
    upload. *)
Definition with_device (queue : GPUQueue) (scene : t) : t :=
  {| children := children scene;
     a_meshs := a_meshs scene;
     this_device := Some queue;
     renderPipelines := renderPipelines scene;
     instanceBuffer := instanceBuffer scene;
     instanceBindGroup := instanceBindGroup scene;
     instanceBindGroupIndex := instanceBindGroupIndex scene;
     primitiveInstances := primitiveInstances scene |}.

(** The scene [build] leaves, up to what the batcher writes later: render
    order [order], running offset [o], staging array [staged] and buffer
    contents [uploaded]; the buffer has 128 bytes for each node/primitive
    pair and the groups are those of the node pass. *)
Definition laid_out (scene : t) (device : GPUDevice)
    (order : list (key * RenderPipeline.t)) (o : nat)
    (staged uploaded : list f32) : t :=
  {| children := children scene;
     a_meshs := a_meshs scene;
     this_device := this_device scene;
     renderPipelines := order;
     instanceBuffer :=
       Some {| GPUBuffer.handle := next_handle device;
               GPUBuffer.size := 128 * length (pairs scene);
               GPUBuffer.contents := uploaded |};
     instanceBindGroup := Some (1 + next_handle device);
     instanceBindGroupIndex := Some 1;
     primitiveInstances :=
       Some {| total := length (pairs scene);
               offset := o;
               matrices := groups scene;
               arrayBuffer := Some staged |} |}.

(** The blocks of all instances of a scene, in buffer order. *)
Definition instance_blocks (store : TransformStore) (scene : t) : list f32 :=
  blocks store (instances_of (groups scene) (all_primitives scene)).

(** A scene that differs from [built] only in what [updateBuffers] may
    touch: the contents of the staging array and of the instance buffer,
    and the running offset. *)
Record same_layout (built scene : t) : Prop :=
  { layout_children : children scene = children built;
    layout_meshs : a_meshs scene = a_meshs built;
    layout_order : renderPipelines scene = renderPipelines built;
    layout_bindGroup : instanceBindGroup scene = instanceBindGroup built;
    layout_bindGroupIndex :
      instanceBindGroupIndex scene = instanceBindGroupIndex built;
    layout_buffer :
      option_map (fun b => (GPUBuffer.handle b, GPUBuffer.size b,
                            length (GPUBuffer.contents b)))
                 (instanceBuffer scene) =
      option_map (fun b => (GPUBuffer.handle b, GPUBuffer.size b,
                            length (GPUBuffer.contents b)))
                 (instanceBuffer built);
    layout_groups :
      option_map (fun p => (total p, matrices p)) (primitiveInstances scene) =
      option_map (fun p => (total p, matrices p)) (primitiveInstances built);
    layout_length :
      option_map (@length f32) (staging scene) =
      option_map (@length f32) (staging built) }.

End GLTFScene.

(** ** The mesh pass of the loader *)

Module GLTFLoaderV2.
Local Open Scope string_scope.

(** The glTF JSON of a primitive and of a mesh, as the interfaces
    [GLTFPrimitive] and [GLTFMesh] type them; an absent field is [None]. *)
Record PrimitiveJSON : Type :=
  { mode : option Z;
    attributes : option (list (string * Z));
    indices : option Z;
    material : option Z }.

Record MeshJSON : Type := { primitives : list PrimitiveJSON }.

Record AttributeAccessor : Type :=
  { name : string;
    shaderLocation : nat;
    accessor : option GLTFAccessor.t }.

(** The arguments [load] passes to [new GLTFPrimitive]. *)
Record PrimitiveArguments : Type :=
  { a_indices : option GLTFAccessor.t;
    topology : Z;
    attributeAccessors : list AttributeAccessor;
    a_material : option GLTFMaterial.t;
    __json : PrimitiveJSON }.

(** [array[i]] for a number [i]. *)
Definition at_index {A : Type} (array : list A) (i : Z) : option A :=
  if (i <? 0)%Z then None else nth_error array (Z.to_nat i).

Definition unsupported_mode (primitive : PrimitiveJSON) : bool :=
  match mode primitive with
  | Some m => negb (in_GLTFRenderMode m)
  | None => false
  end.

(** [Array.prototype.sort] with the comparator [a.accessor.byteOffset -
    b.accessor.byteOffset]: ascending offsets, equal offsets in their
    original order. *)
Fixpoint insert_by_offset (a : GLTFAccessor.t) (sorted : list GLTFAccessor.t)
  : list GLTFAccessor.t :=
  match sorted with
  | [] => [a]
  | b :: rest =>
      if (GLTFAccessor.byteOffset b <=? GLTFAccessor.byteOffset a)%Z
      then b :: insert_by_offset a rest
      else a :: sorted
  end.

Definition sort_by_offset (l : list GLTFAccessor.t) : list GLTFAccessor.t :=
  fold_left (fun sorted a => insert_by_offset a sorted) l [].

(** The accessors of the attributes, if none of them is [undefined]. *)
Fixpoint defined_accessors (l : list AttributeAccessor)
  : option (list GLTFAccessor.t) :=
  match l with
  | [] => Some []
  | a :: l' =>
      match accessor a, defined_accessors l' with
      | Some x, Some xs => Some (x :: xs)
      | _, _ => None
      end
  end.

(** The exceptions of [setPrimitive()], which [new GLTFPrimitive] runs: it
    reads [byteOffset] and [count] or [view] of every attribute accessor, a
    [TypeError] when the accessor is [undefined]; then, for each in sorted
    order, [accessor.view.addUsage], a [TypeError] when the accessor has no
    view, and its [vertexType].  The layout it computes is data of
    [GLTFPrimitive.t]. *)
Definition setPrimitive (attributeAccessors : list AttributeAccessor)
  : result unit :=
  match defined_accessors attributeAccessors with
  | None => Throw TypeError
  | Some accessors =>
      forEach (fun a (_ : unit) =>
                 match GLTFAccessor.view a with
                 | None => Throw TypeError
                 | Some _ => _ <- GLTFAccessor.vertexType a ;; Ok tt
                 end)
              (sort_by_offset accessors) tt
  end.

(** The constructor of [GLTFPrimitive]:
    [this.a_indices?.view.addUsage(...)], a [TypeError] when there is an
    index accessor and it has no view, then [this.setPrimitive()]. *)
Definition new_GLTFPrimitive (arguments : PrimitiveArguments)
  : result PrimitiveArguments :=
  _ <- match a_indices arguments with
       | Some indices =>
           match GLTFAccessor.view indices with
           | Some _ => Ok tt
           | None => Throw TypeError
           end
       | None => Ok tt
       end ;;
  _ <- setPrimitive (attributeAccessors arguments) ;;
  Ok arguments.

Section Load.
(** [ShaderLocation] of the [shaders] module, which is not among the
    sources: the location of an attribute name, if it has one. *)
Variable ShaderLocation : string -> option nat.
Variable accessors : list GLTFAccessor.t.
Variable materials : list GLTFMaterial.t.

Fixpoint mapM {A B : Type} (f : A -> result B) (l : list A)
  : result (list B) :=
  match l with
  | [] => Ok []
  | a :: l' => b <- f a ;; bs <- mapM f l' ;; Ok (b :: bs)
  end.

(** [Object.keys(attributes).map(...).filter(...)] *)
Definition located (attributes : list (string * Z)) : list AttributeAccessor :=
  flat_map
    (fun attribute : string * Z =>
       match ShaderLocation (fst attribute) with
       | Some location =>
           [{| name := fst attribute;
               shaderLocation := location;
               accessor := at_index accessors (snd attribute) |}]
       | None => []
       end)
    attributes.

(** [Object.keys(primitive.attributes)] of a primitive without
    [attributes] is a [TypeError]. *)
Definition attributeAccessors_of (primitive : PrimitiveJSON)
  : result (list AttributeAccessor) :=
  match attributes primitive with
  | Some attributes => Ok (located attributes)
  | None => Throw TypeError
  end.

(** The callback of [mesh.primitives.map] in [load]: the arguments of
    [new GLTFPrimitive], whose constructor runs [setPrimitive]. *)
Definition load_primitive (primitive : PrimitiveJSON)
  : result PrimitiveArguments :=
  let topology :=
    match mode primitive with
    | None => TRIANGLES
    | Some m => m
    end in
  if negb (in_GLTFRenderMode topology)
  then Throw (Error ("Unsupported primitive mode " ++ number_to_string topology))
  else
    let indices :=
      match indices primitive with
      | Some i =>
          if (i <? Z.of_nat (length accessors))%Z
          then at_index accessors i
          else None
      | None => None
      end in
    attributeAccessors <- attributeAccessors_of primitive ;;
    new_GLTFPrimitive
      {| a_indices := indices;
         topology := topology;
         attributeAccessors := attributeAccessors;
         a_material :=
           match material primitive with
           | Some i => at_index materials i
           | None => None
           end;
         __json := primitive |}.

Definition has_location (attribute : string * Z) : bool :=
  match ShaderLocation (fst attribute) with
  | Some _ => true
  | None => false
  end.

(** [json.meshes.map(...)]: an exception in any primitive ends [load]. *)
Definition load_meshes (meshes : list MeshJSON)
  : result (list (list PrimitiveArguments)) :=
  mapM (fun mesh => mapM load_primitive (primitives mesh)) meshes.

(** An accessor [setPrimitive] can place: it is defined, and has a buffer
    view and a vertex type. *)
Definition placeable (a : option GLTFAccessor.t) : bool :=
  match a with
  | Some a => GLTFAccessor.has_view a && GLTFAccessor.has_vertexType a
  | None => false
  end.

(** A primitive of the JSON that has what the mesh pass reads: a mode of
    [GLTFRenderMode] or none, an [attributes] object, a buffer view for its
    index accessor if it has one, and a placeable accessor for each
    attribute whose name has a shader location.  POSITION is not asked
    for. *)
Definition loadable (primitive : PrimitiveJSON) : bool :=
  negb (unsupported_mode primitive) &&
  match attributes primitive with
  | Some attributes =>
      forallb (fun attribute : string * Z =>
                 placeable (at_index accessors (snd attribute)))
              (filter has_location attributes)
  | None => false
  end &&
  match indices primitive with
  | Some i =>
      if (i <? Z.of_nat (length accessors))%Z
      then match at_index accessors i with
           | Some a => GLTFAccessor.has_view a
           | None => true
           end
      else true
  | None => true
  end.
End Load.
End GLTFLoaderV2.

(** ** The pipeline request of [Mesh.buildPipeline] *)

Module Mesh.
Local Open Scope string_scope.

(** The descriptor [buildPipeline] passes to the pipeline cache:
    [multisample] is set to [undefined] when antialiasing is off. *)
Definition pipelineDescriptor (format depthFormat : string)
    (wireframe antialias : bool) (bufferLayout blending : JSValue) : JSValue :=
  JObject
    [("format", JString format);
     ("primitive",
      JObject [("topology",
                JString (if wireframe then "line-list" else "triangle-list"))]);
     ("depthStencil",
      JObject [("format", JString depthFormat);
               ("depthWriteEnabled", JBool true);
               ("depthCompare", JString "less")]);
     ("multisample",
      if antialias then JObject [("count", JNumber 4)] else JUndefined);
     ("bufferLayout", bufferLayout);
     ("blending", blending)].
End Mesh.

(** ** Example values *)

Module Examples.
Local Open Scope string_scope.

(** Two bind-group-layout entries with the same fields in another order. *)
Definition entry_binding_first : JSValue :=
  JObject [("binding", JNumber 0); ("visibility", JNumber 1)].
Definition entry_visibility_first : JSValue :=
  JObject [("visibility", JNumber 1); ("binding", JNumber 0)].

(** The pipeline request of a mesh without antialiasing and blending, and
    the same request with the two fields left out. *)
Definition request_explicit : JSValue :=
  Mesh.pipelineDescriptor "bgra8unorm" "depth24plus" false false
                          (JArray []) JUndefined.
Definition request_absent : JSValue :=
  JObject
    [("format", JString "bgra8unorm");
     ("primitive", JObject [("topology", JString "triangle-list")]);
     ("depthStencil",
      JObject [("format", JString "depth24plus");
               ("depthWriteEnabled", JBool true);
               ("depthCompare", JString "less")]);
     ("bufferLayout", JArray [])].

Definition ShaderLocation (name : string) : option nat :=
  if String.eqb name "POSITION" then Some 0
  else if String.eqb name "NORMAL" then Some 1
  else if String.eqb name "TEXCOORD_0" then Some 2
  else None.

Definition triangles : GLTFLoaderV2.PrimitiveJSON :=
  {| GLTFLoaderV2.mode := None;
     GLTFLoaderV2.attributes := Some [("POSITION", 0%Z); ("_CUSTOM", 1%Z)];
     GLTFLoaderV2.indices := None;
     GLTFLoaderV2.material := None |}.

(** A buffer view with one accessor of three-component floats. *)
Definition positions : GLTFAccessor.t :=
  {| GLTFAccessor.view :=
       Some {| GLTFBufferView.index := 0; GLTFBufferView.byteStride := 0 |};
     GLTFAccessor.componentType := 5126;
     GLTFAccessor.count := 3;
     GLTFAccessor.type := "VEC3";
     GLTFAccessor.byteOffset := 0 |}.

(** A primitive without POSITION: normals only, and a name without shader
    location. *)
Definition normals_only : GLTFLoaderV2.PrimitiveJSON :=
  {| GLTFLoaderV2.mode := Some 4%Z;
     GLTFLoaderV2.attributes := Some [("_CUSTOM", 7%Z); ("NORMAL", 0%Z)];
     GLTFLoaderV2.indices := None;
     GLTFLoaderV2.material := None |}.

Definition mode_seven : GLTFLoaderV2.PrimitiveJSON :=
  {| GLTFLoaderV2.mode := Some 7%Z;
     GLTFLoaderV2.attributes := Some [("POSITION", 0%Z)];
     GLTFLoaderV2.indices := None;
     GLTFLoaderV2.material := None |}.

(** A small scene: one material, one primitive, one mesh. *)
Definition mat4 (z : Z) : Mat4 :=
  {| elements := repeat z 16; elements_16 := eq_refl |}.

Definition store : TransformStore :=
  fun node => {| worldMatrix := mat4 (Z.of_nat node + 1);
                 worldNormalMatrix := mat4 (- (Z.of_nat node + 1)) |}.

(** The transforms after every node has moved. *)
Definition moved : TransformStore :=
  fun node => {| worldMatrix := mat4 (Z.of_nat node + 10);
                 worldNormalMatrix := mat4 (- (Z.of_nat node + 10)) |}.

Definition material_json : JSValue :=
  JObject [("name", JString "red");
           ("pbrMetallicRoughness", JObject [("metallicFactor", JNumber 0)])].

Definition fragment_context : JSValue :=
  JObject [("polyfill", JBool false); ("useAlphaCutoff", JBool false)].

Definition material : GLTFMaterial.t :=
  {| GLTFMaterial.__json := material_json;
     GLTFMaterial.fragment :=
       JObject [("resources", JArray []);
                ("bindGroupLayoutEntries", JArray []);
                ("shader", JObject [("code", JString "pbr-light.wgsl");
                                    ("context", fragment_context)])] |}.

(** The same material with its [fragment] as [MeshPhysicalMaterial.ts]
    returns it. *)
Definition material_without_shader : GLTFMaterial.t :=
  {| GLTFMaterial.__json := material_json;
     GLTFMaterial.fragment :=
       JObject [("code", JString "pbr-light.wgsl");
                ("context", fragment_context)] |}.

Definition primitive_json (position : Z) (with_material : bool) : JSValue :=
  JObject (("attributes", JObject [("POSITION", JNumber position)]) ::
           if with_material then [("material", JNumber 0)] else []).

Definition primitive (position : Z) : GLTFPrimitive.t :=
  {| GLTFPrimitive.a_indices := None;
     GLTFPrimitive.topology := TRIANGLES;
     GLTFPrimitive.a_material := Some material;
     GLTFPrimitive.__json := primitive_json position true;
     GLTFPrimitive.vertexCount := 3;
     GLTFPrimitive.bufferLayout := JArray [];
     GLTFPrimitive.gpuBuffers := [] |}.

Definition mesh_of (a_primitives : list GLTFPrimitive.t) : GLTFMesh.t :=
  {| GLTFMesh.a_primitives := a_primitives;
     GLTFMesh.primitives := map GLTFPrimitive.__json a_primitives |}.

Definition mesh : GLTFMesh.t := mesh_of [primitive 0].

Definition node (a_mesh : GLTFMesh.t) (transform : TransformRef) : GLTFNode.t :=
  GLTFNode.mk (Some a_mesh) transform [].

Definition options : BuildOptions.t :=
  {| BuildOptions.format := "bgra8unorm";
     BuildOptions.depthFormat := "depth24plus";
     BuildOptions.cached_pipeline_get := fun _ _ _ _ => 100 |}.

Definition device : GPUDevice := {| next_handle := 0 |}.

(** Three nodes that share the one mesh. *)
Definition three_nodes : GLTFScene.t :=
  GLTFScene.new [node mesh 0; node mesh 1; node mesh 2] [mesh].

(** Two meshes whose primitives have the same JSON, one node each. *)
Definition twin_meshes : GLTFScene.t :=
  GLTFScene.new [node mesh 0; node (mesh_of [primitive 0]) 1]
                [mesh; mesh_of [primitive 0]].

(** A second mesh that no node of the scene refers to. *)
Definition orphan_mesh : GLTFScene.t :=
  GLTFScene.new [node mesh 0] [mesh; mesh_of [primitive 1]].

(** A mesh whose primitive has no material. *)
Definition bare_primitive : GLTFPrimitive.t :=
  {| GLTFPrimitive.a_indices := None;
     GLTFPrimitive.topology := TRIANGLES;
     GLTFPrimitive.a_material := None;
     GLTFPrimitive.__json := primitive_json 0 false;
     GLTFPrimitive.vertexCount := 3;
     GLTFPrimitive.bufferLayout := JArray [];
     GLTFPrimitive.gpuBuffers := [] |}.

(** A primitive whose material has no [fragment.shader]. *)
Definition shaderless_primitive : GLTFPrimitive.t :=
  {| GLTFPrimitive.a_indices := None;
     GLTFPrimitive.topology := TRIANGLES;
     GLTFPrimitive.a_material := Some material_without_shader;
     GLTFPrimitive.__json := primitive_json 0 true;
     GLTFPrimitive.vertexCount := 3;
     GLTFPrimitive.bufferLayout := JArray [];
     GLTFPrimitive.gpuBuffers := [] |}.

Definition shaderless_scene : GLTFScene.t :=
  GLTFScene.new [node (mesh_of [shaderless_primitive]) 0]
                [mesh_of [shaderless_primitive]].

Definition bare_scene : GLTFScene.t :=
  GLTFScene.new [node mesh 0; node (mesh_of [bare_primitive]) 1]
                [mesh; mesh_of [bare_primitive]].

(** One mesh with two primitives of the same material and pipeline state. *)
Definition pair_scene : GLTFScene.t :=
  GLTFScene.new [node (mesh_of [primitive 0; primitive 1]) 0]
                [mesh_of [primitive 0; primitive 1]].

(** The outcome of [build] on a scene that builds. *)
Definition build_of (scene : GLTFScene.t) : GLTFScene.t * GPUDevice :=
  match GLTFScene.build options store device scene with
  | Ok outcome => outcome
  | Throw _ => (scene, device)
  end.

Definition three_built : GLTFScene.t * GPUDevice :=
  Eval vm_compute in build_of three_nodes.

(** The three-node scene with a device assigned before it is built. *)
Definition three_with_device : GLTFScene.t :=
  GLTFScene.with_device tt three_nodes.

Definition three_with_device_built : GLTFScene.t * GPUDevice :=
  Eval vm_compute in build_of three_with_device.

(** The three-node scene built, a fourth node added, and built again. *)
Definition three_rebuilt : GLTFScene.t * GPUDevice :=
  Eval vm_compute in
    match GLTFScene.build options store (snd three_built)
            (GLTFScene.add (node mesh 3) (fst three_built)) with
    | Ok outcome => outcome
    | Throw _ => three_built
    end.

Definition pair_built : GLTFScene.t * GPUDevice :=
  Eval vm_compute in build_of pair_scene.

(** A quad: positions and normals interleaved in buffer view 0, texture
    coordinates in buffer view 1, six indices in buffer view 2. *)
Definition quad_vertices : GLTFBufferView.t :=
  {| GLTFBufferView.index := 0; GLTFBufferView.byteStride := 24 |}.

Definition quad_positions : GLTFAccessor.t :=
  {| GLTFAccessor.view := Some quad_vertices;
     GLTFAccessor.componentType := 5126;
     GLTFAccessor.count := 4;
     GLTFAccessor.type := "VEC3";
     GLTFAccessor.byteOffset := 0 |}.

Definition quad_texcoords : GLTFAccessor.t :=
  {| GLTFAccessor.view :=
       Some {| GLTFBufferView.index := 1; GLTFBufferView.byteStride := 0 |};
     GLTFAccessor.componentType := 5126;
     GLTFAccessor.count := 4;
     GLTFAccessor.type := "VEC2";
     GLTFAccessor.byteOffset := 0 |}.

Definition quad_indices : GLTFAccessor.t :=
  {| GLTFAccessor.view :=
       Some {| GLTFBufferView.index := 2; GLTFBufferView.byteStride := 0 |};
     GLTFAccessor.componentType := 5123;
     GLTFAccessor.count := 6;
     GLTFAccessor.type := "SCALAR";
     GLTFAccessor.byteOffset := 0 |}.

Definition quad_attribute (shaderLocation : Z) (format : string) (offset : Z)
  : JSValue :=
  JObject [("shaderLocation", JNumber shaderLocation);
           ("format", JString format);
           ("offset", JNumber offset)].

Definition quad : GLTFPrimitive.t :=
  {| GLTFPrimitive.a_indices := Some quad_indices;
     GLTFPrimitive.topology := TRIANGLES;
     GLTFPrimitive.a_material := Some material;
     GLTFPrimitive.__json :=
       JObject [("attributes",
                 JObject [("POSITION", JNumber 0); ("NORMAL", JNumber 1);
                          ("TEXCOORD_0", JNumber 2)]);
                ("indices", JNumber 3);
                ("material", JNumber 0)];
     GLTFPrimitive.vertexCount := 4;
     GLTFPrimitive.bufferLayout :=
       JArray [JObject [("arrayStride", JNumber 24);
                        ("attributes",
                         JArray [quad_attribute 0 "float32x3" 0;
                                 quad_attribute 1 "float32x3" 12])];
               JObject [("arrayStride", JNumber 8);
                        ("attributes",
                         JArray [quad_attribute 2 "float32x2" 0])]];
     GLTFPrimitive.gpuBuffers :=
       [{| GPUBufferAccessor.accessor := quad_positions;
           GPUBufferAccessor.offset := 0 |};
        {| GPUBufferAccessor.accessor := quad_texcoords;
           GPUBufferAccessor.offset := 0 |}] |}.

(** Two nodes that share the quad. *)
Definition quad_scene : GLTFScene.t :=
  GLTFScene.new [node (mesh_of [quad]) 0; node (mesh_of [quad]) 1]
                [mesh_of [quad]].

Definition quad_built : GLTFScene.t * GPUDevice :=
  Eval vm_compute in build_of quad_scene.

Definition built_primitive (position : Z) : GLTFPrimitive.BuildResult :=
  {| GLTFPrimitive.args :=
       [("primitive", JObject [("topology", JString "triangle-list")]);
        ("bufferLayout", JArray []);
        ("alphaMode", JString "OPAQUE");
        ("doubleSided", JBool false)];
     GLTFPrimitive.vertex_context :=
       JObject [("useNormal", JBool false); ("useTexcoord", JBool false)];
     GLTFPrimitive.res_vertexCount := 3;
     GLTFPrimitive.res_gpuBuffers := [];
     GLTFPrimitive.indices := None;
     GLTFPrimitive.fragment := GLTFMaterial.fragment material |}.

Definition two_meshes : list GLTFLoaderV2.MeshJSON :=
  [{| GLTFLoaderV2.primitives := [triangles] |};
   {| GLTFLoaderV2.primitives := [mode_seven] |}].
End Examples.

(** ** The counters of [render] *)

Module CreateAndSetRecord.
(** The counters of a [CreateAndSetRecord], the six [render] prints.  The
    class is not among the sources; [render] copies the scene's record over
    a new one, so the values a new record starts with do not matter. *)
Record t : Type :=
  { pipelineCount : nat;
    pipelineSets : nat;
    bindGroupCount : nat;
    bindGroupSets : nat;
    bufferSets : nat;
    drawCount : nat }.
End CreateAndSetRecord.

Module Recorded.
Import GLTFScene CreateAndSetRecord.

Definition add_pipelineSets (n : nat) (record : CreateAndSetRecord.t)
  : CreateAndSetRecord.t :=
  {| pipelineCount := pipelineCount record;
     pipelineSets := pipelineSets record + n;
     bindGroupCount := bindGroupCount record;
     bindGroupSets := bindGroupSets record;
     bufferSets := bufferSets record;
     drawCount := drawCount record |}.

Definition add_bindGroupSets (n : nat) (record : CreateAndSetRecord.t)
  : CreateAndSetRecord.t :=
  {| pipelineCount := pipelineCount record;
     pipelineSets := pipelineSets record;
     bindGroupCount := bindGroupCount record;
     bindGroupSets := bindGroupSets record + n;
     bufferSets := bufferSets record;
     drawCount := drawCount record |}.

Definition add_bufferSets (n : nat) (record : CreateAndSetRecord.t)
  : CreateAndSetRecord.t :=
  {| pipelineCount := pipelineCount record;
     pipelineSets := pipelineSets record;
     bindGroupCount := bindGroupCount record;
     bindGroupSets := bindGroupSets record;
     bufferSets := bufferSets record + n;
     drawCount := drawCount record |}.

Definition add_drawCount (n : nat) (record : CreateAndSetRecord.t)
  : CreateAndSetRecord.t :=
  {| pipelineCount := pipelineCount record;
     pipelineSets := pipelineSets record;
     bindGroupCount := bindGroupCount record;
     bindGroupSets := bindGroupSets record;
     bufferSets := bufferSets record;
     drawCount := drawCount record + n |}.

(** [primitive.buffers.forEach] in [render], with the counters:
    [bufferSets] goes up before each [setVertexBuffer]. *)
Fixpoint setVertexBuffers (idx : nat) (buffers : list GPUBufferAccessor.t)
    (st : list Command * CreateAndSetRecord.t)
  : result (list Command * CreateAndSetRecord.t) :=
  match buffers with
  | [] => Ok st
  | buffer :: rest =>
      let accessor := GPUBufferAccessor.accessor buffer in
      let record := add_bufferSets 1 (snd st) in
      match GLTFAccessor.view accessor with
      | None => Throw TypeError
      | Some view =>
          size <- GLTFAccessor.byteLength accessor ;;
          setVertexBuffers (S idx) rest
            ((fst st ++ [SetVertexBuffer idx (GLTFBufferView.index view)
                                         (GPUBufferAccessor.offset buffer)
                                         size])%list,
             record)
      end
  end.

(** The body of [primitives.forEach] in [render], with the counters:
    [bufferSets] goes up with every vertex buffer and with the index
    buffer, [drawCount] with the draw. *)
Definition render_primitive (primitive : RenderPrimitive.t)
    (st : list Command * CreateAndSetRecord.t)
  : result (list Command * CreateAndSetRecord.t) :=
  st <- setVertexBuffers 0 (RenderPrimitive.buffers primitive) st ;;
  let pass := fst st in
  let record := snd st in
  match RenderPrimitive.instanceInAll primitive with
  | None => Throw TypeError
  | Some range =>
      match RenderPrimitive.indices primitive with
      | Some indices =>
          let record := add_bufferSets 1 record in
          match GLTFAccessor.view indices with
          | None => Throw TypeError
          | Some view =>
              indexFormat <- GLTFAccessor.vertexType indices ;;
              size <- GLTFAccessor.byteLength indices ;;
              Ok ((pass ++
                   [SetIndexBuffer (GLTFBufferView.index view) indexFormat
                                   (GLTFAccessor.byteOffset indices) size;
                    DrawIndexed (GLTFAccessor.count indices) (count range)
                                0 0 (first range)])%list,
                  add_drawCount 1 record)
          end
      | None =>
          Ok ((pass ++
               [Draw (RenderPrimitive.vertexCount primitive) (count range)
                     0 (first range)])%list,
              add_drawCount 1 record)
      end
  end.

Definition render_material
    (entry : RenderNode.t * list RenderPrimitive.t)
    (st : list Command * CreateAndSetRecord.t)
  : result (list Command * CreateAndSetRecord.t) :=
  forEach render_primitive (snd entry)
    ((fst st ++ [SetBindGroup (RenderNode.groupIndex (fst entry))
                              (RenderNode.bindGroup (fst entry))])%list,
     add_bindGroupSets 1 (snd st)).

Definition render_pipeline
    (entry : key * RenderPipeline.t)
    (st : list Command * CreateAndSetRecord.t)
  : result (list Command * CreateAndSetRecord.t) :=
  forEach render_material (RenderPipeline.materialPrimitivesMap (snd entry))
    ((fst st ++ [SetPipeline (RenderPipeline.pipeline (snd entry))])%list,
     add_pipelineSets 1 (snd st)).

(** [render(renderPass, device)] with the record it returns: a copy of the
    scene's [record], counted up with every call on the pass.  The scene's
    own record is left as it is. *)
Definition render (scene : GLTFScene.t) (record : CreateAndSetRecord.t)
  : result (list Command * CreateAndSetRecord.t) :=
  match instanceBindGroupIndex scene, instanceBindGroup scene with
  | Some index, Some bindGroup =>
      forEach render_pipeline (renderPipelines scene)
              ([SetBindGroup index bindGroup], add_bindGroupSets 1 record)
  | _, _ => Throw TypeError
  end.

(** The calls of a trace, counted by kind. *)
Definition tally_command (record : CreateAndSetRecord.t) (c : Command)
  : CreateAndSetRecord.t :=
  match c with
  | SetPipeline _ => add_pipelineSets 1 record
  | SetBindGroup _ _ => add_bindGroupSets 1 record
  | SetVertexBuffer _ _ _ _ | SetIndexBuffer _ _ _ _ => add_bufferSets 1 record
  | DrawIndexed _ _ _ _ _ | Draw _ _ _ _ => add_drawCount 1 record
  end.

Definition tally (record : CreateAndSetRecord.t) (trace : list Command)
  : CreateAndSetRecord.t :=
  fold_left tally_command trace record.

Definition is_buffer (c : Command) : bool :=
  match c with
  | SetVertexBuffer _ _ _ _ | SetIndexBuffer _ _ _ _ => true
  | _ => false
  end.
End Recorded.


(** ** Counting keys *)

Definition key_dec (a b : key) : {a = b} + {a <> b}.
Proof. decide equality. apply string_dec. Defined.


(** ** The vertex buffer layout of a primitive *)

Module VertexLayout.
Local Open Scope string_scope.

Record GPUVertexAttribute : Type :=
  { shaderLocation : nat; format : string; offset : Z }.

(** [arrayStride] is [None] when [accessor.byteStride] is [NaN]. *)
Record GPUVertexBufferLayout : Type :=
  { arrayStride : option Z; attributes : list GPUVertexAttribute }.

(** The keys of the [bufferLayout] map of [setPrimitive]: the buffer view
    index of an accessor, or the name of an attribute. *)
Inductive LayoutKey : Type :=
| ByBufferView (bufferView : nat)
| ByName (name : string).

Definition LayoutKey_eqb (a b : LayoutKey) : bool :=
  match a, b with
  | ByBufferView x, ByBufferView y => Nat.eqb x y
  | ByName x, ByName y => String.eqb x y
  | _, _ => false
  end.

(** A layout object of [bufferLayout] with the entry [gpuBuffers] holds for
    it.  [gpuBuffers] is keyed by the layout object, so each layout carries
    its own entry. *)
Record Slot : Type :=
  { layout : GPUVertexBufferLayout; gpuBuffer : GPUBufferAccessor.t }.

Record State : Type :=
  { vertexCount : Z; bufferLayout : list (LayoutKey * Slot) }.

(** An attribute accessor whose accessor is defined. *)
Record Attribute : Type :=
  { name : string; location : nat; accessor : GLTFAccessor.t }.

Fixpoint defined (l : list GLTFLoaderV2.AttributeAccessor)
  : option (list Attribute) :=
  match l with
  | [] => Some []
  | a :: l' =>
      match GLTFLoaderV2.accessor a, defined l' with
      | Some x, Some xs =>
          Some ({| name := GLTFLoaderV2.name a;
                   location := GLTFLoaderV2.shaderLocation a;
                   accessor := x |} :: xs)
      | _, _ => None
      end
  end.

(** [Array.prototype.sort] with a comparator [key(a) - key(b)]: ascending
    keys, equal keys in their original order. *)
Section Sort.
Variable A : Type.
Variable key : A -> Z.

Fixpoint insert_by (a : A) (sorted : list A) : list A :=
  match sorted with
  | [] => [a]
  | b :: rest =>
      if (key b <=? key a)%Z then b :: insert_by a rest else a :: sorted
  end.

Definition sort_by (l : list A) : list A :=
  fold_left (fun sorted a => insert_by a sorted) l [].
End Sort.

(** The callback of the [forEach] of [setPrimitive], for an accessor that
    has the buffer view [bufferView]. *)
Definition place_in (bufferView : GLTFBufferView.t) (a : Attribute)
    (st : State) : result State :=
  let byteOffset := GLTFAccessor.byteOffset (accessor a) in
  let view := ByBufferView (GLTFBufferView.index bufferView) in
  let buffer := Map_get LayoutKey_eqb view (bufferLayout st) in
  separate <-
    match buffer with
    | None => Ok false
    | Some slot =>
        match attributes (layout slot) with
        | [] => Throw TypeError
        | first :: _ =>
            Ok match arrayStride (layout slot) with
               | Some stride =>
                   (stride <=? Z.abs (byteOffset - offset first))%Z
               | None => false
               end
        end
    end ;;
  format <- GLTFAccessor.vertexType (accessor a) ;;
  let attribute :=
    {| shaderLocation := location a; format := format; offset := byteOffset |} in
  let '(key, slot) :=
    match buffer, separate with
    | Some slot, false =>
        (view,
         {| layout :=
              {| arrayStride := arrayStride (layout slot);
                 attributes := (attributes (layout slot) ++ [attribute])%list |};
            gpuBuffer :=
              {| GPUBufferAccessor.accessor :=
                   GPUBufferAccessor.accessor (gpuBuffer slot);
                 GPUBufferAccessor.offset :=
                   Z.min (GPUBufferAccessor.offset (gpuBuffer slot))
                         byteOffset |} |})
    | _, _ =>
        (if separate then ByName (name a) else view,
         {| layout :=
              {| arrayStride := GLTFAccessor.stride_in bufferView (accessor a);
                 attributes := [attribute] |};
            gpuBuffer :=
              {| GPUBufferAccessor.accessor := accessor a;
                 GPUBufferAccessor.offset := byteOffset |} |})
    end in
  Ok {| vertexCount :=
          if String.eqb (name a) "POSITION"
          then GLTFAccessor.count (accessor a)
          else vertexCount st;
        bufferLayout := Map_set LayoutKey_eqb key slot (bufferLayout st) |}.

(** The callback itself: [accessor.view.addUsage(...)] of an accessor
    without view is a [TypeError]. *)
Definition place_attribute (a : Attribute) (st : State) : result State :=
  match GLTFAccessor.view (accessor a) with
  | Some bufferView => place_in bufferView a st
  | None => Throw TypeError
  end.

(** The loop over [bufferLayout.values()]: the offsets of the attributes
    become relative to the offset of the GPU buffer, and the attributes are
    sorted by shader location. *)
Definition rebase (slot : Slot) : Slot :=
  {| layout :=
       {| arrayStride := arrayStride (layout slot);
          attributes :=
            sort_by (fun a => Z.of_nat (shaderLocation a))
              (map (fun a =>
                      {| shaderLocation := shaderLocation a;
                         format := format a;
                         offset :=
                           (offset a -
                            GPUBufferAccessor.offset (gpuBuffer slot))%Z |})
                   (attributes (layout slot))) |};
     gpuBuffer := gpuBuffer slot |}.

Definition first_location (slot : Slot) : option nat :=
  match attributes (layout slot) with
  | [] => None
  | first :: _ => Some (shaderLocation first)
  end.

(** The sort of the layouts by the shader location of their first
    attribute; the comparator runs when there are two layouts or more. *)
Definition sort_layouts (slots : list Slot) : result (list Slot) :=
  match slots with
  | [] | [_] => Ok slots
  | _ =>
      if forallb (fun slot => match first_location slot with
                              | Some _ => true
                              | None => false
                              end) slots
      then Ok (sort_by (fun slot => match first_location slot with
                                    | Some location => Z.of_nat location
                                    | None => 0%Z
                                    end) slots)
      else Throw TypeError
  end.

Record t : Type :=
  { finalVertexCount : Z;
    layouts : list GPUVertexBufferLayout;
    gpuBuffers : list GPUBufferAccessor.t }.

(** [setPrimitive()], on the attribute accessors [load] passes to the
    constructor; [vertexCount] starts at 0. *)
Definition setPrimitive (attributeAccessors : list GLTFLoaderV2.AttributeAccessor)
  : result t :=
  match defined attributeAccessors with
  | None => Throw TypeError
  | Some attributeAccessors =>
      st <- forEach place_attribute
              (sort_by (fun a => GLTFAccessor.byteOffset (accessor a))
                       attributeAccessors)
              {| vertexCount := 0; bufferLayout := [] |} ;;
      sorted <- sort_layouts (map (fun e => rebase (snd e)) (bufferLayout st)) ;;
      Ok {| finalVertexCount := vertexCount st;
            layouts := map layout sorted;
            gpuBuffers := map gpuBuffer sorted |}
  end.

(** A slot as the loop keeps it: the layout has a first attribute, which is
    the one of the accessor the GPU buffer was made for, and no attribute
    lies before it. *)
Definition anchored (slot : Slot) : Prop :=
  exists first rest,
    attributes (layout slot) = first :: rest /\
    offset first = GPUBufferAccessor.offset (gpuBuffer slot) /\
    GPUBufferAccessor.offset (gpuBuffer slot) =
      GLTFAccessor.byteOffset (GPUBufferAccessor.accessor (gpuBuffer slot)) /\
    GLTFAccessor.byteStride (GPUBufferAccessor.accessor (gpuBuffer slot)) =
      Ok (arrayStride (layout slot)) /\
    Forall (fun a => (offset first <= offset a)%Z) rest.

(** The attribute the loop pushes for an attribute accessor. *)
Definition pushed (a : Attribute) : list GPUVertexAttribute :=
  match GLTFAccessor.vertexType (accessor a) with
  | Ok format =>
      [{| shaderLocation := location a;
          format := format;
          offset := GLTFAccessor.byteOffset (accessor a) |}]
  | Throw _ => []
  end.

Definition slot_attributes (entry : LayoutKey * Slot) : list GPUVertexAttribute :=
  attributes (layout (snd entry)).

(** The shader location a layout is sorted by. *)
Definition head_location (l : GPUVertexBufferLayout) : Z :=
  match attributes l with
  | [] => 0%Z
  | first :: _ => Z.of_nat (shaderLocation first)
  end.

(** A layout with its GPU buffer as [setPrimitive] leaves them: the stride
    and the offset are those of the accessor the buffer was made for, the
    attribute offsets are relative to it, none negative and one of them 0,
    and the attributes are in the order of their shader locations. *)
Definition settled (l : GPUVertexBufferLayout) (g : GPUBufferAccessor.t)
  : Prop :=
  GLTFAccessor.byteStride (GPUBufferAccessor.accessor g) = Ok (arrayStride l) /\
  GPUBufferAccessor.offset g =
    GLTFAccessor.byteOffset (GPUBufferAccessor.accessor g) /\
  Exists (fun a => offset a = 0%Z) (attributes l) /\
  Forall (fun a => (0 <= offset a)%Z) (attributes l) /\
  StronglySorted (fun a b => shaderLocation a <= shaderLocation b)
                 (attributes l).

(** What [setPrimitive] asks of an attribute accessor: a defined accessor
    that has a buffer view and a vertex type. *)
Definition supported (a : GLTFLoaderV2.AttributeAccessor) : Prop :=
  exists x bufferView format,
    GLTFLoaderV2.accessor a = Some x /\
    GLTFAccessor.view x = Some bufferView /\
    GLTFAccessor.vertexType x = Ok format.
End VertexLayout.


(** ** Sample values *)

Module Samples.
Local Open Scope string_scope.

Definition interleaved_view : GLTFBufferView.t :=
  {| GLTFBufferView.index := 0; GLTFBufferView.byteStride := 24 |}.

Definition packed_view : GLTFBufferView.t :=
  {| GLTFBufferView.index := 1; GLTFBufferView.byteStride := 0 |}.

Definition float_accessor (view : GLTFBufferView.t) (type : string)
    (byteOffset : Z) : GLTFAccessor.t :=
  {| GLTFAccessor.view := Some view;
     GLTFAccessor.componentType := 5126;
     GLTFAccessor.count := 3;
     GLTFAccessor.type := type;
     GLTFAccessor.byteOffset := byteOffset |}.

(** Positions and normals interleaved in one buffer view, texture
    coordinates in a view of their own; the attributes are listed as the
    JSON of a file may list them. *)
Definition attributeAccessors : list GLTFLoaderV2.AttributeAccessor :=
  [{| GLTFLoaderV2.name := "TEXCOORD_0";
      GLTFLoaderV2.shaderLocation := 2;
      GLTFLoaderV2.accessor := Some (float_accessor packed_view "VEC2" 0) |};
   {| GLTFLoaderV2.name := "NORMAL";
      GLTFLoaderV2.shaderLocation := 1;
      GLTFLoaderV2.accessor := Some (float_accessor interleaved_view "VEC3" 12) |};
   {| GLTFLoaderV2.name := "POSITION";
      GLTFLoaderV2.shaderLocation := 0;
      GLTFLoaderV2.accessor := Some (float_accessor interleaved_view "VEC3" 0) |}].

Definition primitive_layout : VertexLayout.t :=
  Eval vm_compute in
    match VertexLayout.setPrimitive attributeAccessors with
    | Ok primitive => primitive
    | Throw _ =>
        {| VertexLayout.finalVertexCount := 0;
           VertexLayout.layouts := [];
           VertexLayout.gpuBuffers := [] |}
    end.
End Samples.

(** ** The vertex buffer of [Mesh.buildGeometry] *)

Module MeshGeometry.
Import VertexLayout.
Local Open Scope string_scope.

(** [array.slice(start, end)] of a typed array for [0 <= start <= end]:
    both ends are clamped to the length. *)
Definition slice (array : list f32) (start stop : nat) : list f32 :=
  firstn (stop - start) (skipn start array).

(** [geometry.attributes]; [normals] and [uvs] may be [undefined].  The
    index buffer is built from [indices] apart from the vertex buffer and is
    not part of this model. *)
Record Attributes : Type :=
  { positions : list f32;
    normals : option (list f32);
    uvs : option (list f32) }.

Record Layout : Type :=
  { arrayStride : Z;
    stepMode : string;
    attributes : list GPUVertexAttribute }.

Record GeometryBuildResult : Type :=
  { vertexCount : nat;
    vertexData : list f32;
    bufferLayout : list Layout }.

Definition BYTES_PER_ELEMENT : Z := 4.

Section BuildGeometry.
(** The members of [ShaderLocation], whose module is not among the
    sources. *)
Variables POSITION NORMAL TEXCOORD_0 : nat.

Definition truthy {A : Type} (array : option A) : bool :=
  match array with
  | Some _ => true
  | None => false
  end.

Definition stride_of (useNormal useTexcoord : bool) : Z :=
  BYTES_PER_ELEMENT *
  (3 + (if useNormal then 3 else 0) + (if useTexcoord then 2 else 0)).

Definition attributes_of (useNormal useTexcoord : bool)
  : list GPUVertexAttribute :=
  [{| shaderLocation := POSITION; format := "float32x3"; offset := 0 |}]
  ++ (if useNormal
      then [{| shaderLocation := NORMAL;
               format := "float32x3";
               offset := 3 * BYTES_PER_ELEMENT |}]
      else [])
  ++ (if useTexcoord
      then [{| shaderLocation := TEXCOORD_0;
               format := "float32x2";
               offset := (3 + (if useNormal then 3 else 0)) * BYTES_PER_ELEMENT |}]
      else []).

(** The body of the loop over the vertices:
    [vertexData.set(Float32Array.of(...vertex, ...normal, ...uv), offset)]. *)
Definition write_vertex (geometry : Attributes) (arrayStride : Z) (i : nat)
    (vertexData : list f32) : result (list f32) :=
  let vertex := slice (positions geometry) (i * 3) ((i + 1) * 3) in
  let normal :=
    match normals geometry with
    | Some normals => slice normals (i * 3) ((i + 1) * 3)
    | None => []
    end in
  let uv :=
    match uvs geometry with
    | Some uvs => slice uvs (i * 2) ((i + 1) * 2)
    | None => []
    end in
  TypedArray_set vertexData (vertex ++ normal ++ uv)
                 (Z.to_nat ((Z.of_nat i * arrayStride) / BYTES_PER_ELEMENT)).

(** [buildGeometry(device)] of a mesh whose material is no wireframe.
    [vertexCount] is [geometry.getCount("POSITION")] ([Geometry] is not
    among the sources).  The buffer is created mapped, of
    [arrayStride * vertexCount] bytes, all zero; [vertexData] is the
    [Float32Array] over it. *)
Definition buildGeometry (vertexCount : nat) (geometry : Attributes)
  : result GeometryBuildResult :=
  let useNormal := truthy (normals geometry) in
  let useTexcoord := truthy (uvs geometry) in
  let arrayStride := stride_of useNormal useTexcoord in
  let size := (arrayStride * Z.of_nat vertexCount)%Z in
  let mapped := repeat 0%Z (Z.to_nat (size / BYTES_PER_ELEMENT)) in
  vertexData <- forEach (write_vertex geometry arrayStride)
                        (seq 0 vertexCount) mapped ;;
  Ok {| vertexCount := vertexCount;
        vertexData := vertexData;
        bufferLayout :=
          [{| arrayStride := arrayStride;
              stepMode := "vertex";
              attributes := attributes_of useNormal useTexcoord |}] |}.

(** The arrays the attributes of the layout are meant to carry, by shader
    location. *)
Definition attribute_sources (geometry : Attributes)
  : list (nat * list f32) :=
  [(POSITION, positions geometry)]
  ++ match normals geometry with
     | Some normals => [(NORMAL, normals)]
     | None => []
     end
  ++ match uvs geometry with
     | Some uvs => [(TEXCOORD_0, uvs)]
     | None => []
     end.
End BuildGeometry.

(** The number of 32-bit floats of a vertex format [buildGeometry] uses. *)
Definition components (format : string) : nat :=
  if String.eqb format "float32x3" then 3
  else if String.eqb format "float32x2" then 2
  else 0.

(** What a pipeline with the layout reads for an attribute at vertex [i]:
    the floats from byte [i * arrayStride + offset] of the buffer on. *)
Definition fetch (layout : Layout) (data : list f32) (a : GPUVertexAttribute)
    (i : nat) : list f32 :=
  let start :=
    Z.to_nat ((Z.of_nat i * arrayStride layout + offset a) / BYTES_PER_ELEMENT) in
  slice data start (start + components (format a)).

(** The floats [write_vertex] writes for vertex [i]. *)
Definition vertex_floats (geometry : Attributes) (i : nat) : list f32 :=
  slice (positions geometry) (i * 3) ((i + 1) * 3)
  ++ match normals geometry with
     | Some normals => slice normals (i * 3) ((i + 1) * 3)
     | None => []
     end
  ++ match uvs geometry with
     | Some uvs => slice uvs (i * 2) ((i + 1) * 2)
     | None => []
     end.

Definition floats_per_vertex (geometry : Attributes) : nat :=
  3 + (if truthy (normals geometry) then 3 else 0)
  + (if truthy (uvs geometry) then 2 else 0).

Definition complete (vertexCount : nat) (geometry : Attributes) : Prop :=
  length (positions geometry) = 3 * vertexCount /\
  (forall array, normals geometry = Some array ->
                 length array = 3 * vertexCount) /\
  (forall array, uvs geometry = Some array ->
                 length array = 2 * vertexCount).
End MeshGeometry.

(** ** The container of a binary glTF file *)

Module GLB.
Definition MAGIC_NUMBER : Z := 0x46546c67.
Definition VERSION : Z := 2.
Definition JSON_CHUNK_TYPE : Z := 0x4e4f534a.
Definition BINARY_CHUNK_TYPE : Z := 0x004e4942.

Definition ArrayBuffer : Type := list Byte.byte.

Definition byte_value (b : Byte.byte) : Z := Z.of_N (Byte.to_N b).

(** An element of a [Uint32Array] over four bytes, on a little-endian
    platform. *)
Definition Uint32 (b0 b1 b2 b3 : Byte.byte) : Z :=
  byte_value b0 +
  256 * (byte_value b1 + 256 * (byte_value b2 + 256 * byte_value b3)).

Fixpoint Uint32_elements (bytes : list Byte.byte) : list Z :=
  match bytes with
  | b0 :: b1 :: b2 :: b3 :: rest => Uint32 b0 b1 b2 b3 :: Uint32_elements rest
  | _ => []
  end.

(** [new Uint32Array(buffer, byteOffset, length)]: a [RangeError] when the
    offset is no multiple of 4 or the elements reach beyond the buffer. *)
Definition Uint32Array (buffer : ArrayBuffer) (byteOffset length : nat)
  : result (list Z) :=
  if ((byteOffset mod 4 =? 0) && (byteOffset + 4 * length <=? List.length buffer))%nat
  then Ok (Uint32_elements (firstn (4 * length) (skipn byteOffset buffer)))
  else Throw RangeError.

(** [new Uint8Array(buffer, byteOffset, length)] *)
Definition Uint8Array (buffer : ArrayBuffer) (byteOffset length : nat)
  : result (list Byte.byte) :=
  if (byteOffset + length <=? List.length buffer)%nat
  then Ok (firstn length (skipn byteOffset buffer))
  else Throw RangeError.

Section Load.
(** [JSON.parse(new TextDecoder("utf-8").decode(chunk))], with whatever it
    throws. *)
Variable JSON : Type.
Variable parse : list Byte.byte -> result JSON.

(** The start of [load]: the header, the JSON chunk and the binary chunk
    ([new GLTFBuffer(buffer, byteOffset, byteLength)] returns a
    [Uint8Array]). *)
Definition load_chunks (buffer : ArrayBuffer)
  : result (JSON * list Byte.byte) :=
  header <- Uint32Array buffer 0 5 ;;
  if negb (nth 0 header 0 =? MAGIC_NUMBER)%Z
  then Throw (Error "Provided file is not a gltf file"%string)
  else if negb (nth 1 header 0 =? VERSION)%Z
  then Throw (Error "Provided file is not gltf version 2"%string)
  else
    let jsonChunkByteLength := Z.to_nat (nth 3 header 0%Z) in
    if negb (nth 4 header 0 =? JSON_CHUNK_TYPE)%Z
    then Throw (Error "Invalid glB: The first chunk of the glB file is not a JSON chunk!"%string)
    else
      chunk <- Uint8Array buffer (5 * 4) jsonChunkByteLength ;;
      json <- parse chunk ;;
      binaryHeader <- Uint32Array buffer (5 * 4 + jsonChunkByteLength) 2 ;;
      let binaryChunkByteLength := Z.to_nat (nth 0 binaryHeader 0%Z) in
      if negb (nth 1 binaryHeader 0 =? BINARY_CHUNK_TYPE)%Z
      then Throw (Error "Invalid glB: The second chunk of the glB file is not a binary chunk!"%string)
      else
        binary <- Uint8Array buffer (7 * 4 + jsonChunkByteLength)
                             binaryChunkByteLength ;;
        Ok (json, binary).
End Load.

(** The bytes of a 32-bit unsigned integer, least significant first. *)
Definition byte_of (n : Z) : Byte.byte :=
  match Byte.of_N (Z.to_N (n mod 256)) with
  | Some b => b
  | None => Byte.x00
  end.

Definition le32 (n : Z) : list Byte.byte :=
  [byte_of n; byte_of (n / 256); byte_of (n / 65536); byte_of (n / 16777216)].

(** A file laid out as [load_chunks] reads it: twelve bytes of header with
    a total length field, the JSON chunk, the binary chunk. *)
Definition container (total : Z) (json binary : list Byte.byte)
  : ArrayBuffer :=
  le32 MAGIC_NUMBER ++ le32 VERSION ++ le32 total
  ++ le32 (Z.of_nat (List.length json)) ++ le32 JSON_CHUNK_TYPE ++ json
  ++ le32 (Z.of_nat (List.length binary)) ++ le32 BINARY_CHUNK_TYPE ++ binary.
End GLB.

(** ** Buffer views on the GPU *)

(** [alignTo(val, align)] on integers; [None] is the [NaN] a zero [align]
    gives.  [Z.div] rounds down as [Math.floor] does.  The source computes
    in doubles: the integers here are its results where that arithmetic is
    exact, which is so for [0 <= val], [0 < align] and
    [val + 2 * align <= 2 ^ 53], the byte lengths of buffer views among
    them. *)
Definition alignTo (val align : Z) : option Z :=
  if (align =? 0)%Z then None
  else Some ((val + align - 1) / align * align)%Z.

Module Upload.
(** An index of [subarray] relative to the length: a negative one counts
    from the end. *)
Definition relative (len i : Z) : Z :=
  if (i <? 0)%Z then Z.max (len + i) 0 else Z.min i len.

(** [array.subarray(begin, end)] *)
Definition subarray (array : list Byte.byte) (begin end_ : Z)
  : list Byte.byte :=
  let len := Z.of_nat (length array) in
  let from := relative len begin in
  let to := relative len end_ in
  firstn (Z.to_nat (Z.max (to - from) 0)) (skipn (Z.to_nat from) array).

(** The fields of the JSON of a buffer view the constructor reads;
    [byteOffset] is 0 when the JSON has none. *)
Record ViewJSON : Type :=
  { byteOffset : option Z;
    byteLength : option Z }.

(** [viewBuffer] as the constructor of [GLTFBufferView] sets it: without
    [byteLength] the end is [NaN], which [subarray] takes as 0. *)
Definition viewBuffer (buffer : list Byte.byte) (view : ViewJSON)
  : list Byte.byte :=
  let offset :=
    match byteOffset view with
    | Some offset => offset
    | None => 0%Z
    end in
  subarray buffer offset
           match byteLength view with
           | Some length => (offset + length)%Z
           | None => 0%Z
           end.

(** [typedArray.set(source)] on bytes *)
Definition set (target source : list Byte.byte) : result (list Byte.byte) :=
  if length source <=? length target
  then Ok (source ++ skipn (length source) target)
  else Throw RangeError.

(** [uploadBuffer(device)]: the contents of the GPU buffer at [unmap()].
    The buffer is created mapped, all zero, of [alignTo(byteLength, 4)]
    bytes. *)
Definition uploadBuffer (viewBuffer : list Byte.byte)
  : result (list Byte.byte) :=
  match alignTo (Z.of_nat (length viewBuffer)) 4 with
  | Some size => set (repeat Byte.x00 (Z.to_nat size)) viewBuffer
  | None => Throw RangeError
  end.
End Upload.

(** ** Samplers *)

Module GLTFSampler.
Local Open Scope string_scope.

Record t : Type :=
  { magFilter : option Z;
    minFilter : option Z;
    wrapS : option Z;
    wrapT : option Z }.

(** A [GPUSamplerDescriptor]; a filter the code does not set is [None], for
    which WebGPU takes "nearest". *)
Record GPUSamplerDescriptor : Type :=
  { addressModeU : string;
    addressModeV : string;
    descriptor_magFilter : option string;
    descriptor_minFilter : option string;
    mipmapFilter : option string }.

Definition addressModeForWrap (wrap : option Z) : string :=
  match wrap with
  | Some 33071%Z => "clamp-to-edge"
  | Some 33648%Z => "mirror-repeat"
  | _ => "repeat"
  end.

Definition getSamplerDescriptor (sampler : t) : GPUSamplerDescriptor :=
  let linear_mag :=
    match magFilter sampler with
    | None => true
    | Some f => (f =? 0)%Z || (f =? 9729)%Z
    end in
  let filters :=
    match minFilter sampler with
    | Some 9728%Z => (None, None)
    | Some 9729%Z | Some 9985%Z => (Some "linear", None)
    | Some 9986%Z => (None, Some "linear")
    | _ => (Some "linear", Some "linear")
    end in
  {| addressModeU := addressModeForWrap (wrapS sampler);
     addressModeV := addressModeForWrap (wrapT sampler);
     descriptor_magFilter := if linear_mag then Some "linear" else None;
     descriptor_minFilter := fst filters;
     mipmapFilter := snd filters |}.
End GLTFSampler.

(** ** The node tree of [load] *)

Module NodeTree.
(** The fields of a node of the JSON [createGLTFNode] reads. *)
Record GLTFNodeI : Type :=
  { mesh : option Z;
    children : option (list Z) }.

Section AddChildren.
(** The recursive call [createGLTFNode(_, meshes, nodes)]. *)
Variable create :
  GLTFNodeI -> TransformRef -> option (result (GLTFNode.t * TransformRef)).
Variable nodes : list GLTFNodeI.
Variable a_mesh : option GLTFMesh.t.
Variable transform : TransformRef.

(** [node.children.forEach((child) =>
    gltfNode.addChildren(createGLTFNode(nodes[child], meshes, nodes)))]:
    [added] are the children [gltfNode] has so far.  [nodes[child]] of an
    index without node is [undefined], whose [mesh] cannot be read. *)
Fixpoint add_children (indices : list Z) (added : list GLTFNode.t)
    (next : TransformRef) : option (result (GLTFNode.t * TransformRef)) :=
  match indices with
  | [] => Some (Ok (GLTFNode.mk a_mesh transform added, next))
  | child :: rest =>
      match GLTFLoaderV2.at_index nodes child with
      | None => Some (Throw TypeError)
      | Some child_node =>
          match create child_node next with
          | None => None
          | Some (Throw e) => Some (Throw e)
          | Some (Ok (gltfNode, next')) =>
              add_children rest (added ++ [gltfNode]) next'
          end
      end
  end.
End AddChildren.

(** [createGLTFNode(node, meshes, nodes)].  Every [new GLTFNode] has a
    transform of its own, here the next free reference.  The recursion
    follows the indices of the JSON and need not end: [None] is a call that
    has not returned within [fuel] nested calls. *)
Fixpoint createGLTFNode (fuel : nat) (node : GLTFNodeI)
    (meshes : list GLTFMesh.t) (nodes : list GLTFNodeI) (next : TransformRef)
  : option (result (GLTFNode.t * TransformRef)) :=
  match fuel with
  | 0 => None
  | S fuel' =>
      add_children
        (fun child next => createGLTFNode fuel' child meshes nodes next)
        nodes
        match mesh node with
        | Some i => GLTFLoaderV2.at_index meshes i
        | None => None
        end
        next
        match children node with
        | Some indices => indices
        | None => []
        end
        [] (S next)
  end.

(** The scene nodes of [load]: [defaultScene.nodes.map(...)]. *)
Fixpoint load_nodes (fuel : nat) (roots : list Z) (meshes : list GLTFMesh.t)
    (nodes : list GLTFNodeI) (next : TransformRef)
  : option (result (list GLTFNode.t * TransformRef)) :=
  match roots with
  | [] => Some (Ok ([], next))
  | nodeIdx :: rest =>
      match GLTFLoaderV2.at_index nodes nodeIdx with
      | None => Some (Throw TypeError)
      | Some node =>
          match createGLTFNode fuel node meshes nodes next with
          | None => None
          | Some (Throw e) => Some (Throw e)
          | Some (Ok (gltfNode, next')) =>
              match load_nodes fuel rest meshes nodes next' with
              | None => None
              | Some (Throw e) => Some (Throw e)
              | Some (Ok (gltfNodes, next'')) =>
                  Some (Ok (gltfNode :: gltfNodes, next''))
              end
          end
      end
  end.

(** Every node of the tree has its mesh from [meshes]. *)
Definition from_meshes (meshes : list GLTFMesh.t) (node : GLTFNode.t) : Prop :=
  Forall (fun x => forall a_mesh, GLTFNode.a_mesh x = Some a_mesh ->
                                  In a_mesh meshes)
         (GLTFScene.preorder node).
End NodeTree.

(** ** Example values of the loader and of meshes *)

Module Fixtures.
Import NodeTree.

(** Two vertices with normals and texture coordinates. *)
Definition segment : MeshGeometry.Attributes :=
  {| MeshGeometry.positions := [1; 2; 3; 4; 5; 6]%Z;
     MeshGeometry.normals := Some [7; 8; 9; 10; 11; 12]%Z;
     MeshGeometry.uvs := Some [13; 14; 15; 16]%Z |}.

(** The JSON chunk [{}] padded with two spaces, and a binary chunk of one
    byte. *)
Definition json_chunk : list Byte.byte :=
  [Byte.x7b; Byte.x7d; Byte.x20; Byte.x20].

Definition binary_chunk : list Byte.byte := [Byte.x01].

(** A file whose header declares no length and that ends with a byte past
    the binary chunk. *)
Definition file : GLB.ArrayBuffer :=
  GLB.container 0 json_chunk binary_chunk ++ [Byte.xff].

(** A root with two children, one of them with a child. *)
Definition tree : list GLTFNodeI :=
  [{| mesh := Some 0%Z; children := Some [1; 2]%Z |};
   {| mesh := None; children := None |};
   {| mesh := Some 0%Z; children := Some [3]%Z |};
   {| mesh := None; children := Some [] |}].

Definition depth (i : Z) : nat :=
  if (i =? 0)%Z then 2 else if (i =? 2)%Z then 1 else 0.

(** The nodes [load] makes for a scene with the root 0. *)
Definition loaded_tree : list GLTFNode.t * TransformRef :=
  Eval vm_compute in
    match load_nodes 3 [0%Z] [Examples.mesh] tree 0 with
    | Some (Ok made) => made
    | _ => ([], 0)
    end.

(** A node that lists itself as its child. *)
Definition knot : GLTFNodeI := {| mesh := None; children := Some [0]%Z |}.
End Fixtures.

(** * Proofs *)

Unset Implicit Arguments.

(** ** The result monad and loops *)

Lemma bind_Ok {A B : Type} (r : result A) (k : A -> result B) (b : B) :
  bind r k = Ok b -> exists a, r = Ok a /\ k a = Ok b.
Proof.
  destruct r as [a | e]; simpl; intros H.
  - exists a. split; [reflexivity | exact H].
  - discriminate H.
Qed.

Lemma forEach_app {A S : Type} (f : A -> S -> result S) (l1 l2 : list A) (st : S) :
  forEach f (l1 ++ l2) st = (st' <- forEach f l1 st ;; forEach f l2 st').
Proof.
  revert st. induction l1 as [| a l1 IH]; intros st; simpl.
  - reflexivity.
  - destruct (f a st) as [st1 | e]; simpl; [apply IH | reflexivity].
Qed.

(** Nested [forEach] over meshes and their primitives is one [forEach] over
    all primitives in order. *)
Lemma forEach_nested {A B S : Type} (g : A -> list B) (f : B -> S -> result S)
    (l : list A) (st : S) :
  forEach (fun a => forEach f (g a)) l st = forEach f (flat_map g l) st.
Proof.
  revert st. induction l as [| a l IH]; intros st; simpl.
  - reflexivity.
  - rewrite forEach_app. destruct (forEach f (g a) st); simpl;
      [apply IH | reflexivity].
Qed.

(** ** Cache keys *)

Section JSValue_induction.
Variable P : JSValue -> Prop.
Hypothesis H_undefined : P JUndefined.
Hypothesis H_null : P JNull.
Hypothesis H_bool : forall b, P (JBool b).
Hypothesis H_number : forall n, P (JNumber n).
Hypothesis H_string : forall s, P (JString s).
Hypothesis H_array : forall vs, Forall P vs -> P (JArray vs).
Hypothesis H_object :
  forall fs, Forall (fun kv => P (snd kv)) fs -> P (JObject fs).

Fixpoint JSValue_nested_ind (v : JSValue) : P v :=
  match v with
  | JUndefined => H_undefined
  | JNull => H_null
  | JBool b => H_bool b
  | JNumber n => H_number n
  | JString s => H_string s
  | JArray vs =>
      H_array vs ((fix all (l : list JSValue) : Forall P l :=
                  match l with
                  | [] => Forall_nil _
                  | e :: l' => Forall_cons _ (JSValue_nested_ind e) (all l')
                  end) vs)
  | JObject fs =>
      H_object fs ((fix all (l : list (string * JSValue))
                   : Forall (fun kv => P (snd kv)) l :=
                   match l with
                   | [] => Forall_nil _
                   | kv :: l' =>
                       Forall_cons _ (JSValue_nested_ind (snd kv)) (all l')
                   end) fs)
  end.
End JSValue_induction.

Lemma stringify_None (v : JSValue) : stringify v = None <-> v = JUndefined.
Proof.
  split.
  - destruct v as [| | [] | | | |]; simpl; intros H; try discriminate H; reflexivity.
  - intros ->. reflexivity.
Qed.

Lemma strip_undefined_JUndefined (v : JSValue) :
  strip_undefined v = JUndefined -> v = JUndefined.
Proof. destruct v; simpl; intros H; try discriminate H; reflexivity. Qed.

Lemma stringify_strip_undefined (v : JSValue) :
  stringify (strip_undefined v) = stringify v.
Proof.
  induction v as [| | b | n | s | vs IH | fs IH] using JSValue_nested_ind;
    try reflexivity.
  - cbn [stringify strip_undefined]. rewrite map_map.
    replace (map (fun x => match stringify (strip_undefined x) with
                           | Some s => s
                           | None => "null"%string
                           end) vs)
      with (map (fun e => match stringify e with
                          | Some s => s
                          | None => "null"%string
                          end) vs); [reflexivity |].
    induction IH as [| e vs He _ IHvs]; simpl; [reflexivity |].
    rewrite He, IHvs. reflexivity.
  - cbn [stringify strip_undefined].
    set (F := fun kv : string * JSValue =>
                let (k, e) := kv in
                match stringify e with
                | Some s => [(quote k ++ ":" ++ s)%string]
                | None => []
                end).
    set (G := fun kv : string * JSValue =>
                let (k, e) := kv in
                match e with
                | JUndefined => []
                | _ => [(k, strip_undefined e)]
                end).
    assert (Hfs : flat_map F (flat_map G fs) = flat_map F fs).
    { induction IH as [| [k e] fs He _ IHfs]; [reflexivity |].
      cbn [flat_map]. rewrite flat_map_app, IHfs. f_equal.
      cbn [snd] in He. unfold G, F.
      destruct e; try reflexivity;
        cbn [flat_map app]; rewrite He, app_nil_r; reflexivity. }
    rewrite Hfs. reflexivity.
Qed.

(** C2, as stated: two descriptors that are equal up to field insertion order
    get different keys from [JSON.stringify]. *)
Lemma stringify_depends_on_field_order :
  equal_up_to_field_order Examples.entry_binding_first
                          Examples.entry_visibility_first /\
  stringify Examples.entry_binding_first <>
  stringify Examples.entry_visibility_first.
Proof.
  split.
  - unfold Examples.entry_binding_first, Examples.entry_visibility_first.
    eapply equal_objects.
    + simpl. apply perm_swap.
    + simpl. repeat constructor.
  - vm_compute. discriminate.
Qed.

(** C2, amended: descriptors that are equal once every object field set to
    [undefined] is removed, with their fields in the same insertion order,
    get the same key from [JSON.stringify]. *)
Theorem stringify_ignores_undefined_fields (D1 D2 : JSValue) :
  strip_undefined D1 = strip_undefined D2 ->
  stringify D1 = stringify D2.
Proof.
  intros H.
  rewrite <- (stringify_strip_undefined D1), <- (stringify_strip_undefined D2).
  rewrite H. reflexivity.
Qed.

Lemma stringify_ignores_undefined_fields_witness :
  strip_undefined Examples.request_explicit =
  strip_undefined Examples.request_absent /\
  stringify Examples.request_explicit = stringify Examples.request_absent.
Proof.
  split.
  - reflexivity.
  - apply (stringify_ignores_undefined_fields
             Examples.request_explicit Examples.request_absent).
    reflexivity.
Defined.

(** ** The mesh pass of the loader *)

Section LoadFacts.
Import GLTFLoaderV2.
Variable ShaderLocation : string -> option nat.
Variable accessors : list GLTFAccessor.t.
Variable materials : list GLTFMaterial.t.

Lemma mapM_Ok {A B : Type} (f : A -> result B) (l : list A) (out : list B) :
  mapM f l = Ok out -> Forall2 (fun a b => f a = Ok b) l out.
Proof.
  revert out. induction l as [| a l IH]; simpl; intros out H.
  - injection H as <-. constructor.
  - apply bind_Ok in H as (b & Hb & H).
    apply bind_Ok in H as (bs & Hbs & H).
    injection H as <-. constructor; [exact Hb | apply IH, Hbs].
Qed.

Lemma mapM_Throw {A B : Type} (f : A -> result B) (l : list A) (e : JSError) :
  mapM f l = Throw e -> exists a, In a l /\ f a = Throw e.
Proof.
  induction l as [| a l IH]; simpl; intros H; [discriminate H |].
  destruct (f a) as [b | e'] eqn:Hb; simpl in H.
  - destruct (mapM f l) as [bs | e'']; simpl in H; [discriminate H |].
    destruct (IH H) as (a' & Hin & Ha').
    exists a'. split; [right; exact Hin | exact Ha'].
  - injection H as ->. exists a. split; [left; reflexivity | exact Hb].
Qed.

Lemma located_names (attributes : list (string * Z)) :
  map name (located ShaderLocation accessors attributes) =
  map fst (filter (has_location ShaderLocation) attributes).
Proof.
  unfold located, has_location.
  induction attributes as [| [k i] l IH]; simpl; [reflexivity |].
  destruct (ShaderLocation k); simpl; rewrite IH; reflexivity.
Qed.

Lemma In_located (attributes : list (string * Z)) (a : AttributeAccessor) :
  In a (located ShaderLocation accessors attributes) ->
  exists attribute,
    In attribute attributes /\
    has_location ShaderLocation attribute = true /\
    accessor a = at_index accessors (snd attribute).
Proof.
  unfold located, has_location. intros H.
  apply in_flat_map in H as (attribute & Hin & H).
  exists attribute.
  destruct (ShaderLocation (fst attribute)); [| destruct H].
  destruct H as [<- | []]. auto.
Qed.

Lemma located_In (attributes : list (string * Z)) (attribute : string * Z) :
  In attribute attributes ->
  has_location ShaderLocation attribute = true ->
  exists a,
    In a (located ShaderLocation accessors attributes) /\
    accessor a = at_index accessors (snd attribute).
Proof.
  unfold located, has_location. intros Hin H.
  destruct (ShaderLocation (fst attribute)) as [location |] eqn:E;
    [| discriminate H].
  eexists. split.
  - apply in_flat_map. exists attribute. split; [exact Hin |].
    rewrite E. left. reflexivity.
  - reflexivity.
Qed.

Lemma In_insert_by_offset (a x : GLTFAccessor.t) (sorted : list GLTFAccessor.t) :
  In x (insert_by_offset a sorted) <-> x = a \/ In x sorted.
Proof.
  induction sorted as [| b rest IH]; simpl; [intuition congruence |].
  destruct (GLTFAccessor.byteOffset b <=? GLTFAccessor.byteOffset a)%Z; simpl;
    [rewrite IH |]; intuition congruence.
Qed.

Lemma In_sort_by_offset (x : GLTFAccessor.t) (l : list GLTFAccessor.t) :
  In x (sort_by_offset l) <-> In x l.
Proof.
  unfold sort_by_offset.
  assert (H : forall sorted,
             In x (fold_left (fun sorted a => insert_by_offset a sorted) l sorted)
             <-> In x l \/ In x sorted).
  { induction l as [| a l IH]; intros sorted; simpl; [tauto |].
    rewrite IH, In_insert_by_offset. intuition congruence. }
  rewrite H. simpl. tauto.
Qed.

Lemma defined_accessors_None (l : list AttributeAccessor) :
  defined_accessors l = None -> exists a, In a l /\ accessor a = None.
Proof.
  induction l as [| a l IH]; simpl; [discriminate |].
  destruct (accessor a) as [x |] eqn:E.
  - destruct (defined_accessors l); [discriminate |].
    intros _. destruct (IH eq_refl) as (a' & Hin & Ha'). exists a'. auto.
  - intros _. exists a. auto.
Qed.

Lemma defined_accessors_Some (l : list AttributeAccessor)
    (xs : list GLTFAccessor.t) :
  defined_accessors l = Some xs ->
  Forall2 (fun a x => accessor a = Some x) l xs.
Proof.
  revert xs. induction l as [| a l IH]; simpl; intros xs H.
  - injection H as <-. constructor.
  - destruct (accessor a) as [x |] eqn:E; [| discriminate H].
    destruct (defined_accessors l) as [xs' |]; [| discriminate H].
    injection H as <-. constructor; auto.
Qed.

(** The checks of the loop of [setPrimitive] on an accessor. *)
Local Abbreviation checked :=
  (fun (a : GLTFAccessor.t) (_ : unit) =>
     match GLTFAccessor.view a with
     | None => Throw TypeError
     | Some _ => _ <- GLTFAccessor.vertexType a ;; Ok tt
     end).

Lemma checked_Throw (l : list GLTFAccessor.t) (e : JSError) :
  forEach checked l tt = Throw e ->
  exists x, In x l /\
            match GLTFAccessor.view x with
            | None => e = TypeError
            | Some _ => GLTFAccessor.vertexType x = Throw e
            end.
Proof.
  induction l as [| a l IH]; simpl; [discriminate |].
  destruct (GLTFAccessor.view a) as [v |] eqn:Hv; simpl.
  - destruct (GLTFAccessor.vertexType a) as [fmt | e'] eqn:E; simpl.
    + intros H. destruct (IH H) as (x & Hin & Hx). exists x. auto.
    + intros H. injection H as <-. exists a. rewrite Hv. auto.
  - intros H. injection H as <-. exists a. rewrite Hv. auto.
Qed.

Lemma checked_Ok (l : list GLTFAccessor.t) (u : unit) :
  forEach checked l tt = Ok u ->
  forall x, In x l ->
            exists v fmt, GLTFAccessor.view x = Some v /\
                          GLTFAccessor.vertexType x = Ok fmt.
Proof.
  induction l as [| a l IH]; simpl; [intros _ x [] |].
  destruct (GLTFAccessor.view a) as [v |] eqn:Hv; simpl; [| discriminate].
  destruct (GLTFAccessor.vertexType a) as [fmt | e'] eqn:E; simpl;
    [| discriminate].
  intros H x [<- | Hin]; [exists v, fmt; auto | apply (IH H x Hin)].
Qed.

Lemma checked_returns (l : list GLTFAccessor.t) :
  (forall x, In x l ->
             GLTFAccessor.has_view x = true /\
             GLTFAccessor.has_vertexType x = true) ->
  forEach checked l tt = Ok tt.
Proof.
  induction l as [| a l IH]; simpl; intros H; [reflexivity |].
  destruct (H a (or_introl eq_refl)) as (Hv & Hf).
  unfold GLTFAccessor.has_view in Hv. unfold GLTFAccessor.has_vertexType in Hf.
  destruct (GLTFAccessor.view a); [| discriminate Hv].
  destruct (GLTFAccessor.vertexType a); [| discriminate Hf].
  simpl. apply IH. intros x Hx. apply H. right. exact Hx.
Qed.

(** [setPrimitive] throws a [TypeError] for an attribute without accessor
    or whose accessor has no view, and otherwise what [vertexType] throws
    for one of the accessors. *)
Lemma setPrimitive_Throw (l : list AttributeAccessor) (e : JSError) :
  setPrimitive l = Throw e ->
  exists a, In a l /\
            match accessor a with
            | None => e = TypeError
            | Some x =>
                match GLTFAccessor.view x with
                | None => e = TypeError
                | Some _ => GLTFAccessor.vertexType x = Throw e
                end
            end.
Proof.
  unfold setPrimitive.
  destruct (defined_accessors l) as [xs |] eqn:Hxs.
  - intros H. apply checked_Throw in H as (x & Hin & Hx).
    apply (proj1 (In_sort_by_offset _ _)) in Hin.
    apply defined_accessors_Some in Hxs.
    induction Hxs as [| a y l ys Ha _ IH]; [destruct Hin |].
    destruct Hin as [-> | Hin].
    + exists a. rewrite Ha. split; [left; reflexivity | exact Hx].
    + destruct (IH Hin) as (a' & Hin' & Ha'). exists a'.
      split; [right; exact Hin' | exact Ha'].
  - intros H. injection H as <-.
    apply defined_accessors_None in Hxs as (a & Hin & Ha).
    exists a. rewrite Ha. split; [exact Hin | reflexivity].
Qed.

Lemma defined_accessors_In (l : list AttributeAccessor)
    (xs : list GLTFAccessor.t) :
  defined_accessors l = Some xs ->
  (forall a, In a l -> exists x, accessor a = Some x /\ In x xs) /\
  (forall x, In x xs -> exists a, In a l /\ accessor a = Some x).
Proof.
  intros Hxs. apply defined_accessors_Some in Hxs.
  induction Hxs as [| a y l ys Ha _ (IH1 & IH2)];
    [split; intros ? [] |].
  split.
  - intros a' [<- | Hin].
    + exists y. split; [exact Ha | left; reflexivity].
    + destruct (IH1 a' Hin) as (x & Hx & Hin'). exists x.
      split; [exact Hx | right; exact Hin'].
  - intros x [<- | Hin].
    + exists a. split; [left; reflexivity | exact Ha].
    + destruct (IH2 x Hin) as (a' & Hin' & Ha'). exists a'.
      split; [right; exact Hin' | exact Ha'].
Qed.

Lemma setPrimitive_Ok (l : list AttributeAccessor) (u : unit) :
  setPrimitive l = Ok u ->
  forall a, In a l ->
            exists x v fmt, accessor a = Some x /\
                            GLTFAccessor.view x = Some v /\
                            GLTFAccessor.vertexType x = Ok fmt.
Proof.
  unfold setPrimitive.
  destruct (defined_accessors l) as [xs |] eqn:Hxs; [| discriminate].
  intros H a Hin.
  destruct (proj1 (defined_accessors_In _ _ Hxs) a Hin) as (x & Hx & Hin').
  destruct (checked_Ok _ _ H x) as (v & fmt & Hv & Hfmt);
    [apply In_sort_by_offset; exact Hin' |].
  exists x, v, fmt. auto.
Qed.

Lemma setPrimitive_placeable (l : list AttributeAccessor) :
  (forall a, In a l -> placeable (accessor a) = true) ->
  setPrimitive l = Ok tt.
Proof.
  intros Hall. unfold setPrimitive.
  destruct (defined_accessors l) as [xs |] eqn:Hxs.
  - apply checked_returns. intros x Hin.
    apply (proj1 (In_sort_by_offset _ _)) in Hin.
    destruct (proj2 (defined_accessors_In _ _ Hxs) x Hin) as (a & Ha & Hx).
    specialize (Hall a Ha). rewrite Hx in Hall.
    apply andb_true_iff in Hall. exact Hall.
  - apply defined_accessors_None in Hxs as (a & Hin & Ha).
    specialize (Hall a Hin). rewrite Ha in Hall. discriminate Hall.
Qed.

Lemma new_GLTFPrimitive_Ok (arguments loaded : PrimitiveArguments) :
  new_GLTFPrimitive arguments = Ok loaded ->
  loaded = arguments /\ setPrimitive (attributeAccessors arguments) = Ok tt.
Proof.
  unfold new_GLTFPrimitive. intros H.
  apply bind_Ok in H as ([] & _ & H).
  apply bind_Ok in H as ([] & Hset & H).
  injection H as <-. auto.
Qed.

Lemma load_primitive_Ok (primitive : PrimitiveJSON) (loaded : PrimitiveArguments) :
  load_primitive ShaderLocation accessors materials primitive = Ok loaded ->
  unsupported_mode primitive = false /\
  __json loaded = primitive /\
  exists attributes,
    GLTFLoaderV2.attributes primitive = Some attributes /\
    attributeAccessors loaded = located ShaderLocation accessors attributes.
Proof.
  unfold load_primitive, unsupported_mode, attributeAccessors_of.
  assert (Hcase : forall topology,
    (attributeAccessors <-
       match GLTFLoaderV2.attributes primitive with
       | Some attributes => Ok (located ShaderLocation accessors attributes)
       | None => Throw TypeError
       end ;;
     new_GLTFPrimitive
       {| a_indices :=
            match indices primitive with
            | Some i =>
                if (i <? Z.of_nat (length accessors))%Z
                then at_index accessors i
                else None
            | None => None
            end;
          topology := topology;
          attributeAccessors := attributeAccessors;
          a_material :=
            match material primitive with
            | Some i => at_index materials i
            | None => None
            end;
          __json := primitive |}) = Ok loaded ->
    __json loaded = primitive /\
    exists attributes,
      GLTFLoaderV2.attributes primitive = Some attributes /\
      attributeAccessors loaded = located ShaderLocation accessors attributes).
  { intros topology H.
    destruct (GLTFLoaderV2.attributes primitive) as [attributes |];
      [| discriminate H].
    cbn [bind] in H. apply new_GLTFPrimitive_Ok in H as (-> & _).
    split; [reflexivity |]. exists attributes. auto. }
  destruct (mode primitive) as [m |].
  - destruct (in_GLTFRenderMode m); simpl; intros H; [| discriminate H].
    split; [reflexivity | apply (Hcase _ H)].
  - simpl. intros H. split; [reflexivity | apply (Hcase _ H)].
Qed.

Lemma load_primitive_unsupported (primitive : PrimitiveJSON) (m : Z) :
  mode primitive = Some m ->
  in_GLTFRenderMode m = false ->
  load_primitive ShaderLocation accessors materials primitive =
  Throw (Error ("Unsupported primitive mode " ++ number_to_string m)).
Proof.
  unfold load_primitive. intros -> ->. reflexivity.
Qed.

Lemma load_primitive_loadable (primitive : PrimitiveJSON) :
  loadable ShaderLocation accessors primitive = true ->
  exists loaded,
    load_primitive ShaderLocation accessors materials primitive = Ok loaded.
Proof.
  unfold loadable. intros H.
  apply andb_true_iff in H as (H & Hindices).
  apply andb_true_iff in H as (Hmode & Hattributes).
  apply negb_true_iff in Hmode.
  destruct (GLTFLoaderV2.attributes primitive) as [attributes |] eqn:Hsome;
    [| discriminate Hattributes].
  rewrite forallb_forall in Hattributes.
  assert (Hset : setPrimitive (located ShaderLocation accessors attributes) =
                 Ok tt).
  { apply setPrimitive_placeable. intros a Ha.
    apply In_located in Ha as (attribute & Hin & Hloc & ->).
    apply Hattributes, filter_In. auto. }
  assert (Hnew : forall topology,
    exists loaded,
      new_GLTFPrimitive
        {| a_indices :=
             match indices primitive with
             | Some i =>
                 if (i <? Z.of_nat (length accessors))%Z
                 then at_index accessors i
                 else None
             | None => None
             end;
           topology := topology;
           attributeAccessors := located ShaderLocation accessors attributes;
           a_material :=
             match material primitive with
             | Some i => at_index materials i
             | None => None
             end;
           __json := primitive |} = Ok loaded).
  { intros topology. unfold new_GLTFPrimitive.
    cbn [a_indices attributeAccessors]. rewrite Hset.
    destruct (indices primitive) as [i |]; [| eexists; reflexivity].
    destruct (i <? Z.of_nat (length accessors))%Z; [| eexists; reflexivity].
    destruct (at_index accessors i) as [a |]; [| eexists; reflexivity].
    unfold GLTFAccessor.has_view in Hindices.
    destruct (GLTFAccessor.view a); [eexists; reflexivity | discriminate Hindices]. }
  unfold load_primitive, attributeAccessors_of. rewrite Hsome. cbn [bind].
  unfold unsupported_mode in Hmode.
  destruct (mode primitive) as [m |].
  - rewrite Hmode. cbn [negb]. apply Hnew.
  - change (in_GLTFRenderMode TRIANGLES) with true. cbn [negb]. apply Hnew.
Qed.

Lemma mapM_app_Throw {A B : Type} (f : A -> result B) (front back : list A)
    (a : A) (out : list B) (e : JSError) :
  mapM f front = Ok out -> f a = Throw e ->
  mapM f (front ++ a :: back) = Throw e.
Proof.
  revert out. induction front as [| x front IH]; simpl; intros out H Ha.
  - rewrite Ha. reflexivity.
  - apply bind_Ok in H as (b & Hb & H).
    apply bind_Ok in H as (bs & Hbs & _).
    rewrite Hb. cbn [bind]. rewrite (IH bs Hbs Ha). reflexivity.
Qed.

Lemma mapM_returns {A B : Type} (f : A -> result B) (l : list A) :
  Forall (fun a => exists b, f a = Ok b) l -> exists out, mapM f l = Ok out.
Proof.
  induction 1 as [| a l (b & Hb) _ (out & Hout)]; simpl.
  - eexists. reflexivity.
  - rewrite Hb. cbn [bind]. rewrite Hout. eexists. reflexivity.
Qed.
End LoadFacts.

(** C8, as stated: one primitive with an unrecognized mode ends the whole
    mesh pass, although the other mesh is fine and loads on its own. *)
Lemma load_unsupported_mode_aborts :
  GLTFLoaderV2.load_meshes Examples.ShaderLocation [Examples.positions] []
    Examples.two_meshes =
  Throw (Error "Unsupported primitive mode 7") /\
  exists loaded,
    GLTFLoaderV2.load_meshes Examples.ShaderLocation [Examples.positions] []
      [{| GLTFLoaderV2.primitives := [Examples.triangles] |}] = Ok loaded.
Proof.
  split; [vm_compute; reflexivity |].
  eexists. vm_compute. reflexivity.
Qed.

(** C8, amended: a primitive with a mode outside [GLTFRenderMode] makes the
    mesh pass throw, which ends the whole load, and when nothing before it
    throws the error is "Unsupported primitive mode" with the mode.  When
    the mesh pass returns, it has kept every primitive of every mesh, none
    of them with an unsupported mode, each with the attributes whose name
    has a shader location, in their order: the others are dropped without
    a fault.  A missing POSITION is not checked: the mesh pass returns on
    all loadable primitives, and being loadable asks nothing of
    POSITION. *)
Theorem load_meshes_outcome (ShaderLocation : string -> option nat)
    (accessors : list GLTFAccessor.t) (materials : list GLTFMaterial.t) :
  let load := GLTFLoaderV2.load_meshes ShaderLocation accessors materials in
  let load_primitive :=
    GLTFLoaderV2.load_primitive ShaderLocation accessors materials in
  (forall meshes mesh primitive,
      In mesh meshes ->
      In primitive (GLTFLoaderV2.primitives mesh) ->
      GLTFLoaderV2.unsupported_mode primitive = true ->
      exists e, load meshes = Throw e) /\
  (forall before mesh after front primitive back m loaded constructed,
      load before = Ok loaded ->
      GLTFLoaderV2.primitives mesh = front ++ primitive :: back ->
      GLTFLoaderV2.mapM load_primitive front = Ok constructed ->
      GLTFLoaderV2.mode primitive = Some m ->
      in_GLTFRenderMode m = false ->
      load (before ++ mesh :: after) =
      Throw (Error ("Unsupported primitive mode " ++ number_to_string m))) /\
  (forall meshes loaded,
      load meshes = Ok loaded ->
      Forall2
        (fun mesh constructed =>
           Forall2
             (fun primitive arguments =>
                GLTFLoaderV2.unsupported_mode primitive = false /\
                GLTFLoaderV2.__json arguments = primitive /\
                exists attributes,
                  GLTFLoaderV2.attributes primitive = Some attributes /\
                  map GLTFLoaderV2.name
                      (GLTFLoaderV2.attributeAccessors arguments) =
                  map fst (filter (GLTFLoaderV2.has_location ShaderLocation)
                                  attributes))
             (GLTFLoaderV2.primitives mesh) constructed)
        meshes loaded) /\
  (forall meshes,
      Forall (fun mesh =>
                Forall (fun primitive =>
                          GLTFLoaderV2.loadable ShaderLocation accessors
                                                primitive = true)
                       (GLTFLoaderV2.primitives mesh))
             meshes ->
      exists loaded, load meshes = Ok loaded).
Proof.
  intros load load_primitive.
  assert (Hkept : forall meshes loaded,
    load meshes = Ok loaded ->
    Forall2
      (fun mesh constructed =>
         Forall2
           (fun primitive arguments =>
              GLTFLoaderV2.unsupported_mode primitive = false /\
              GLTFLoaderV2.__json arguments = primitive /\
              exists attributes,
                GLTFLoaderV2.attributes primitive = Some attributes /\
                map GLTFLoaderV2.name
                    (GLTFLoaderV2.attributeAccessors arguments) =
                map fst (filter (GLTFLoaderV2.has_location ShaderLocation)
                                attributes))
           (GLTFLoaderV2.primitives mesh) constructed)
      meshes loaded).
  { intros meshes loaded H. apply mapM_Ok in H.
    induction H as [| mesh constructed meshes loaded Hmesh _ IH]; constructor;
      [| exact IH].
    apply mapM_Ok in Hmesh.
    induction Hmesh as [| primitive arguments ps args Hp _ IHp]; constructor;
      [| exact IHp].
    apply load_primitive_Ok in Hp as (Hmode & Hjson & attributes & Hsome & Hattr).
    split; [exact Hmode |]. split; [exact Hjson |].
    exists attributes. split; [exact Hsome |].
    rewrite Hattr. apply located_names. }
  split; [| split; [| split; [exact Hkept |]]].
  - intros meshes mesh primitive Hmesh Hprimitive Hmode.
    destruct (load meshes) as [loaded | e] eqn:H; [| exists e; reflexivity].
    exfalso. apply Hkept in H.
    assert (Hall : forall mesh, In mesh meshes ->
                   forall primitive, In primitive (GLTFLoaderV2.primitives mesh) ->
                   GLTFLoaderV2.unsupported_mode primitive = false).
    { clear Hmesh Hprimitive Hmode mesh primitive.
      induction H as [| mesh constructed meshes loaded Hm _ IH];
        intros mesh' []; [subst mesh' | apply IH; assumption].
      induction Hm as [| primitive arguments ps args (Hp & _) _ IHp];
        intros primitive' []; [subst primitive'; exact Hp | apply IHp; assumption]. }
    rewrite (Hall mesh Hmesh primitive Hprimitive) in Hmode. discriminate Hmode.
  - intros before mesh after front primitive back m loaded constructed
           Hbefore Hmesh Hfront Hmode Hm.
    apply (mapM_app_Throw _ before after mesh loaded _ Hbefore).
    rewrite Hmesh.
    apply (mapM_app_Throw _ front back primitive constructed _ Hfront).
    apply load_primitive_unsupported; assumption.
  - intros meshes Hall. apply mapM_returns.
    eapply Forall_impl; [| exact Hall].
    intros mesh Hmesh. apply mapM_returns.
    eapply Forall_impl; [| exact Hmesh].
    intros primitive Hp. apply load_primitive_loadable, Hp.
Qed.

Lemma load_meshes_outcome_witness :
  (exists e,
      GLTFLoaderV2.load_meshes Examples.ShaderLocation [Examples.positions] []
                               Examples.two_meshes = Throw e) /\
  exists loaded,
    GLTFLoaderV2.load_meshes Examples.ShaderLocation [Examples.positions] []
      [{| GLTFLoaderV2.primitives := [Examples.normals_only] |}] = Ok loaded.
Proof.
  destruct (load_meshes_outcome Examples.ShaderLocation [Examples.positions] [])
    as (Hthrows & _ & _ & Hreturns).
  split.
  - apply (Hthrows Examples.two_meshes
             {| GLTFLoaderV2.primitives := [Examples.mode_seven] |}
             Examples.mode_seven).
    + right. left. reflexivity.
    + left. reflexivity.
    + reflexivity.
  - apply Hreturns. repeat constructor.
Defined.

(** ** Maps *)

Section MapFacts.
Variables K V I : Type.
Variable id : K -> I.
Variable eqb : K -> K -> bool.
Hypothesis eqb_id : forall a b, eqb a b = true <-> id a = id b.

Lemma eqb_false (a b : K) : eqb a b = false <-> id a <> id b.
Proof.
  rewrite <- eqb_id. destruct (eqb a b); split; congruence.
Qed.

Local Abbreviation ids := (map (fun kv : K * V => id (fst kv))).

Lemma Map_get_Some (k : K) (v : V) (m : list (K * V)) :
  Map_get eqb k m = Some v -> exists k', In (k', v) m /\ id k' = id k.
Proof.
  induction m as [| [k' v'] m IH]; simpl; [discriminate |].
  destruct (eqb k k') eqn:E.
  - intros H. injection H as ->. exists k'. split; [auto |].
    symmetry. apply eqb_id, E.
  - intros H. destruct (IH H) as (k'' & Hin & Hid).
    exists k''. auto.
Qed.

Lemma Map_get_None (k : K) (m : list (K * V)) :
  Map_get eqb k m = None <-> ~ In (id k) (ids m).
Proof.
  induction m as [| [k' v'] m IH]; simpl; [tauto |].
  destruct (eqb k k') eqn:E.
  - apply eqb_id in E. split; [discriminate |]. intros H. exfalso. auto.
  - apply eqb_false in E. rewrite IH. split; [| tauto].
    intros H [H' | H']; [congruence | auto].
Qed.

Lemma In_Map_get (k : K) (v : V) (m : list (K * V)) :
  NoDup (ids m) -> In (k, v) m -> Map_get eqb k m = Some v.
Proof.
  induction m as [| [k' v'] m IH]; simpl; [tauto |].
  intros Hnd [H | H].
  - injection H as -> ->.
    replace (eqb k k) with true; [reflexivity |].
    symmetry. apply eqb_id. reflexivity.
  - inversion Hnd as [| ? ? Hnot Hnd']; subst.
    destruct (eqb k k') eqn:E; [| auto].
    apply eqb_id in E. exfalso. apply Hnot. rewrite <- E.
    apply (in_map (fun kv => id (fst kv)) _ _ H).
Qed.

Lemma Map_get_set_same (k k' : K) (v : V) (m : list (K * V)) :
  id k' = id k -> Map_get eqb k' (Map_set eqb k v m) = Some v.
Proof.
  intros Hid. induction m as [| [k0 v0] m IH]; simpl.
  - replace (eqb k' k) with true; [reflexivity |].
    symmetry. apply eqb_id, Hid.
  - destruct (eqb k k0) eqn:E; simpl.
    + replace (eqb k' k) with true; [reflexivity |].
      symmetry. apply eqb_id, Hid.
    + replace (eqb k' k0) with false; [exact IH |].
      symmetry. apply eqb_false. apply eqb_false in E. congruence.
Qed.

Lemma Map_get_set_other (k k' : K) (v : V) (m : list (K * V)) :
  id k' <> id k -> Map_get eqb k' (Map_set eqb k v m) = Map_get eqb k' m.
Proof.
  intros Hid. induction m as [| [k0 v0] m IH]; simpl.
  - replace (eqb k' k) with false; [reflexivity |].
    symmetry. apply eqb_false, Hid.
  - destruct (eqb k k0) eqn:E; simpl.
    + apply eqb_id in E.
      replace (eqb k' k) with false by (symmetry; apply eqb_false, Hid).
      replace (eqb k' k0) with false
        by (symmetry; apply eqb_false; congruence).
      reflexivity.
    + destruct (eqb k' k0); [reflexivity | exact IH].
Qed.

Lemma In_Map_set (k k' : K) (v v' : V) (m : list (K * V)) :
  In (k', v') (Map_set eqb k v m) ->
  (k' = k /\ v' = v) \/ (In (k', v') m /\ (NoDup (ids m) -> id k' <> id k)).
Proof.
  induction m as [| [k0 v0] m IH]; simpl.
  - intros [H | []]. injection H as <- <-. auto.
  - destruct (eqb k k0) eqn:E; simpl.
    + intros [H | H]; [injection H as <- <-; auto |].
      right. split; [auto |]. intros Hnd.
      inversion Hnd as [| ? ? Hnot _]; subst.
      apply eqb_id in E. intros Hid. apply Hnot. rewrite <- E, <- Hid.
      apply (in_map (fun kv => id (fst kv)) _ _ H).
    + intros [H | H].
      * injection H as <- <-. right. split; [auto |].
        intros _. apply eqb_false in E. congruence.
      * destruct (IH H) as [? | [Hin Hid]]; [auto |].
        right. split; [auto |]. intros Hnd. apply Hid.
        inversion Hnd; assumption.
Qed.

Lemma In_Map_set_new (k : K) (v : V) (m : list (K * V)) :
  In (k, v) (Map_set eqb k v m).
Proof.
  induction m as [| [k0 v0] m IH]; simpl; [auto |].
  destruct (eqb k k0); simpl; auto.
Qed.

Lemma In_Map_set_old (k k' : K) (v v' : V) (m : list (K * V)) :
  In (k', v') m -> id k' <> id k -> In (k', v') (Map_set eqb k v m).
Proof.
  intros Hin Hid. induction m as [| [k0 v0] m IH]; simpl in *; [tauto |].
  destruct (eqb k k0) eqn:E; simpl.
  - destruct Hin as [H | H]; [| auto].
    injection H as -> ->. apply eqb_id in E. congruence.
  - destruct Hin as [H | H]; auto.
Qed.

Lemma ids_Map_set (k : K) (v : V) (m : list (K * V)) (i : I) :
  In i (ids (Map_set eqb k v m)) <-> i = id k \/ In i (ids m).
Proof.
  induction m as [| [k0 v0] m IH]; simpl.
  - intuition congruence.
  - destruct (eqb k k0) eqn:E; simpl.
    + apply eqb_id in E. rewrite E. intuition congruence.
    + rewrite IH. intuition congruence.
Qed.

Lemma NoDup_Map_set (k : K) (v : V) (m : list (K * V)) :
  NoDup (ids m) -> NoDup (ids (Map_set eqb k v m)).
Proof.
  induction m as [| [k0 v0] m IH]; simpl; intros Hnd.
  - constructor; [simpl; tauto | constructor].
  - inversion Hnd as [| ? ? Hnot Hnd']; subst.
    destruct (eqb k k0) eqn:E; simpl.
    + apply eqb_id in E. rewrite E. constructor; assumption.
    + constructor; [| auto].
      rewrite ids_Map_set.
      apply eqb_false in E. intros [H | H]; [congruence | auto].
Qed.
End MapFacts.

Lemma key_eqb_eq (a b : key) : key_eqb a b = true <-> a = b.
Proof.
  destruct a as [x |], b as [y |]; simpl; try (split; congruence).
  rewrite String.eqb_eq. split; congruence.
Qed.

Lemma same_bindGroup (a b : RenderNode.t) :
  RenderNode.same a b = true <-> RenderNode.bindGroup a = RenderNode.bindGroup b.
Proof. apply Nat.eqb_eq. Qed.

(** ** Typed arrays *)

Lemma length_overwrite (target : list f32) (offset : nat) (source : list f32) :
  offset + length source <= length target ->
  length (overwrite target offset source) = length target.
Proof.
  intros H. unfold overwrite.
  rewrite !length_app, length_firstn, length_skipn. lia.
Qed.

Lemma overwrite_nil (target : list f32) (offset : nat) :
  overwrite target offset [] = target.
Proof.
  unfold overwrite. simpl. rewrite Nat.add_0_r. apply firstn_skipn.
Qed.

Lemma firstn_app_exact {A : Type} (p q : list A) (n : nat) :
  length p = n -> firstn n (p ++ q) = p.
Proof.
  intros <-. rewrite firstn_app, Nat.sub_diag, firstn_all. simpl.
  apply app_nil_r.
Qed.

Lemma skipn_app_exact {A : Type} (p q : list A) (n m : nat) :
  length p = n -> skipn (n + m) (p ++ q) = skipn m q.
Proof.
  intros <-. rewrite skipn_app, skipn_all2 by lia. simpl.
  f_equal. lia.
Qed.

Lemma overwrite_app (target : list f32) (offset : nat) (s1 s2 : list f32) :
  offset + length s1 + length s2 <= length target ->
  overwrite (overwrite target offset s1) (offset + length s1) s2 =
  overwrite target offset (s1 ++ s2).
Proof.
  intros H. unfold overwrite at 1 3.
  assert (Hpre : length (firstn offset target ++ s1) = offset + length s1).
  { rewrite length_app, length_firstn. lia. }
  unfold overwrite.
  rewrite (app_assoc (firstn offset target) s1).
  rewrite (firstn_app_exact _ _ _ Hpre).
  rewrite (skipn_app_exact _ _ _ (length s2) Hpre).
  rewrite skipn_skipn, length_app, <- !app_assoc.
  do 4 f_equal. lia.
Qed.

Lemma overwrite_same_place (target : list f32) (offset : nat) (s s' : list f32) :
  offset + length s <= length target -> length s' = length s ->
  overwrite (overwrite target offset s) offset s' = overwrite target offset s'.
Proof.
  intros H Hlen. unfold overwrite at 1 3.
  assert (Hpre : length (firstn offset target) = offset).
  { rewrite length_firstn. lia. }
  unfold overwrite.
  rewrite (firstn_app_exact _ _ _ Hpre).
  rewrite (skipn_app_exact _ _ _ (length s') Hpre).
  rewrite Hlen, skipn_app, skipn_all, Nat.sub_diag. simpl.
  reflexivity.
Qed.

Lemma TypedArray_set_Ok (target source : list f32) (offset : nat) :
  offset + length source <= length target ->
  TypedArray_set target source offset = Ok (overwrite target offset source).
Proof.
  intros H. unfold TypedArray_set.
  destruct (Nat.leb_spec (offset + length source) (length target));
    [reflexivity | lia].
Qed.

Lemma TypedArray_set_inv (target source result : list f32) (offset : nat) :
  TypedArray_set target source offset = Ok result ->
  offset + length source <= length target /\
  result = overwrite target offset source.
Proof.
  unfold TypedArray_set.
  destruct (Nat.leb_spec (offset + length source) (length target)) as [H | H];
    intros E; [| discriminate E].
  injection E as <-. auto.
Qed.

Lemma length_Mat4 (m : Mat4) : length (elements m) = 16.
Proof. apply Nat.eqb_eq, elements_16. Qed.

Section Batcher.
Import GLTFScene PrimitiveInstances.
Variable store : TransformStore.

Lemma length_block (node : TransformRef) : length (block store node) = 32.
Proof. unfold block. rewrite length_app, !length_Mat4. reflexivity. Qed.

Lemma length_blocks (nodes : list TransformRef) :
  length (blocks store nodes) = length nodes * 32.
Proof.
  induction nodes as [| n nodes IH]; simpl; [reflexivity |].
  unfold blocks in *. simpl. rewrite length_app, length_block, IH. lia.
Qed.

Lemma blocks_app (l1 l2 : list TransformRef) :
  blocks store (l1 ++ l2) = blocks store l1 ++ blocks store l2.
Proof. apply flat_map_app. Qed.

Ltac lengths :=
  repeat rewrite length_overwrite;
  rewrite ?length_block, ?length_blocks, ?length_Mat4;
  simpl in *; lia.

Lemma write_nodes_Ok (nodes : list TransformRef) (first i : nat)
    (array : list f32) :
  (first + i + length nodes) * 32 <= length array ->
  write_nodes store nodes first i array =
  Ok (overwrite array ((first + i) * 32) (blocks store nodes)).
Proof.
  revert i array. induction nodes as [| node nodes IH]; intros i array H.
  - simpl. rewrite overwrite_nil. reflexivity.
  - cbn [write_nodes].
    rewrite TypedArray_set_Ok by lengths. cbn [bind].
    rewrite TypedArray_set_Ok by lengths. cbn [bind].
    replace ((first + i) * 32 + 16)
      with ((first + i) * 32 + length (elements (worldMatrix (store node))))
      by (rewrite length_Mat4; reflexivity).
    rewrite overwrite_app by lengths.
    fold (block store node).
    rewrite IH by lengths.
    replace ((first + S i) * 32)
      with ((first + i) * 32 + length (block store node))
      by (rewrite length_block; lia).
    rewrite overwrite_app by lengths.
    reflexivity.
Qed.

Lemma write_nodes_inv (nodes : list TransformRef) (first i : nat)
    (array array' : list f32) :
  write_nodes store nodes first i array = Ok array' ->
  length array' = length array /\
  (nodes <> [] -> (first + i + length nodes) * 32 <= length array).
Proof.
  revert i array. induction nodes as [| node nodes IH]; intros i array H.
  - simpl in H. injection H as <-. split; [reflexivity | congruence].
  - cbn [write_nodes] in H.
    apply bind_Ok in H as (a1 & H1 & H).
    apply bind_Ok in H as (a2 & H2 & H).
    apply TypedArray_set_inv in H1 as (B1 & ->).
    apply TypedArray_set_inv in H2 as (B2 & ->).
    rewrite length_Mat4 in B1, B2.
    rewrite length_overwrite in B2 by lengths.
    apply IH in H as (Hlen & Hbound).
    rewrite !length_overwrite in Hlen, Hbound by lengths.
    split; [exact Hlen | intros _].
    destruct nodes as [| node' nodes]; [simpl; lia |].
    specialize (Hbound ltac:(discriminate)). simpl in *. lia.
Qed.

Lemma setInstancePos_Ok (a_primitive : GLTFPrimitive.t)
    (st : PrimitiveInstances.t) (array : list f32) (nodes : list TransformRef) :
  arrayBuffer st = Some array ->
  group (matrices st) a_primitive = Some nodes ->
  (offset st + length nodes) * 32 <= length array ->
  setInstancePosForPrimitiveNodes store a_primitive st =
  Ok ({| total := total st;
         offset := offset st + length nodes;
         matrices := matrices st;
         arrayBuffer :=
           Some (overwrite array (offset st * 32) (blocks store nodes)) |},
      Some {| first := offset st; count := length nodes |}).
Proof.
  intros Harray Hgroup Hbound. unfold setInstancePosForPrimitiveNodes.
  unfold group in Hgroup. rewrite Harray, Hgroup.
  rewrite write_nodes_Ok by (rewrite Nat.add_0_r; exact Hbound).
  rewrite Nat.add_0_r. reflexivity.
Qed.

Lemma setInstancePos_inv (a_primitive : GLTFPrimitive.t)
    (st st' : PrimitiveInstances.t) (range : option InstanceRange)
    (array : list f32) :
  setInstancePosForPrimitiveNodes store a_primitive st = Ok (st', range) ->
  arrayBuffer st = Some array ->
  exists nodes array',
    group (matrices st) a_primitive = Some nodes /\
    (nodes <> [] -> (offset st + length nodes) * 32 <= length array) /\
    range = Some {| first := offset st; count := length nodes |} /\
    total st' = total st /\
    offset st' = offset st + length nodes /\
    matrices st' = matrices st /\
    arrayBuffer st' = Some array' /\
    length array' = length array.
Proof.
  intros H Harray. unfold setInstancePosForPrimitiveNodes in H.
  rewrite Harray in H. unfold group.
  destruct (Map_get key_eqb _ (matrices st)) as [nodes |]; [| discriminate H].
  apply bind_Ok in H as (array' & Hwrite & H).
  injection H as <- <-.
  apply write_nodes_inv in Hwrite as (Hlen & Hbound).
  rewrite Nat.add_0_r in Hbound.
  exists nodes, array'. simpl. auto 10.
Qed.

(** The refresh walk, when it fits: every primitive finds its group and
    the groups are written one after the other from the current offset. *)
Lemma refresh_Ok (a_primitives : list GLTFPrimitive.t)
    (st : PrimitiveInstances.t) (array : list f32) :
  arrayBuffer st = Some array ->
  Forall (fun p => group (matrices st) p <> None) a_primitives ->
  (offset st + length (instances_of (matrices st) a_primitives)) * 32
    <= length array ->
  forEach (refresh_primitive store) a_primitives st =
  Ok {| total := total st;
        offset := offset st + length (instances_of (matrices st) a_primitives);
        matrices := matrices st;
        arrayBuffer :=
          Some (overwrite array (offset st * 32)
                  (blocks store (instances_of (matrices st) a_primitives))) |}.
Proof.
  revert st array.
  induction a_primitives as [| p ps IH]; intros st array Harray Hfound Hbound.
  - simpl. rewrite overwrite_nil, Nat.add_0_r, <- Harray.
    destruct st; reflexivity.
  - inversion Hfound as [| ? ? Hp Hps]; subst.
    destruct (group (matrices st) p) as [nodes |] eqn:Hgroup; [| congruence].
    assert (Hinst : instances_of (matrices st) (p :: ps) =
                    nodes ++ instances_of (matrices st) ps).
    { unfold instances_of. simpl. unfold group_nodes at 1.
      rewrite Hgroup. reflexivity. }
    rewrite Hinst in *. rewrite length_app in Hbound.
    cbn [forEach]. unfold refresh_primitive at 1.
    rewrite (setInstancePos_Ok _ _ _ _ Harray Hgroup) by lia.
    cbn [bind].
    rewrite (IH _ (overwrite array (offset st * 32) (blocks store nodes)));
      cbn [total offset matrices arrayBuffer];
      [| reflexivity | exact Hps | lengths].
    rewrite blocks_app, length_app, Nat.add_assoc.
    replace ((offset st + length nodes) * 32)
      with (offset st * 32 + length (blocks store nodes))
      by (rewrite length_blocks; lia).
    rewrite overwrite_app by lengths.
    reflexivity.
Qed.

Lemma refresh_inv (a_primitives : list GLTFPrimitive.t)
    (st st' : PrimitiveInstances.t) (array : list f32) :
  forEach (refresh_primitive store) a_primitives st = Ok st' ->
  arrayBuffer st = Some array ->
  Forall (fun p => group (matrices st) p <> None) a_primitives /\
  (instances_of (matrices st) a_primitives <> [] ->
   (offset st + length (instances_of (matrices st) a_primitives)) * 32
     <= length array).
Proof.
  revert st array.
  induction a_primitives as [| p ps IH]; intros st array H Harray.
  - split; [constructor | simpl; congruence].
  - cbn [forEach] in H. apply bind_Ok in H as (st1 & Hp & H).
    unfold refresh_primitive in Hp.
    apply bind_Ok in Hp as ([st1' range] & Hp & E). injection E as ->.
    destruct (setInstancePos_inv _ _ _ _ _ Hp Harray)
      as (nodes & array' & Hgroup & Hbound & _ & _ & Hoff & Hmat & Harray' & Hlen).
    destruct (IH _ _ H Harray') as (Hfound & Hrest).
    rewrite Hmat, Hoff, Hlen in *.
    split.
    + constructor; [congruence | exact Hfound].
    + unfold instances_of in *. simpl. unfold group_nodes at 1 3.
      rewrite Hgroup, length_app. intros Hne.
      destruct (flat_map (group_nodes (matrices st)) ps) as [| x l] eqn:E.
      * simpl. rewrite app_nil_r in Hne. specialize (Hbound Hne). lia.
      * specialize (Hrest ltac:(discriminate)). lia.
Qed.
End Batcher.

(** ** The node pass *)

Section GLTFNode_induction.
Variable P : GLTFNode.t -> Prop.
Hypothesis H_node :
  forall a_mesh transform children,
    Forall P children -> P (GLTFNode.mk a_mesh transform children).

Fixpoint GLTFNode_nested_ind (node : GLTFNode.t) : P node :=
  match node with
  | GLTFNode.mk a_mesh transform children =>
      H_node a_mesh transform children
        ((fix all (l : list GLTFNode.t) : Forall P l :=
            match l with
            | [] => Forall_nil _
            | c :: l' => Forall_cons _ (GLTFNode_nested_ind c) (all l')
            end) children)
  end.
End GLTFNode_induction.

Section Traversal.
Import GLTFScene PrimitiveInstances.
Variable S : Type.
Variable callback : GLTFNode.t -> S -> S.

Lemma fold_left_flat_map {A B : Type} (f : S -> B -> S) (g : A -> list B)
    (l : list A) (st : S) :
  fold_left (fun st a => fold_left f (g a) st) l st =
  fold_left f (flat_map g l) st.
Proof.
  revert st. induction l as [| a l IH]; intros st; simpl; [reflexivity |].
  rewrite fold_left_app. apply IH.
Qed.

(** [traverseNode] visits the nodes depth first, a node before its
    children. *)
Lemma traverseNode_preorder (node : GLTFNode.t) (st : S) :
  traverseNode callback node st =
  fold_left (fun st n => callback n st) (preorder node) st.
Proof.
  revert st.
  induction node as [a_mesh transform children IH] using GLTFNode_nested_ind.
  intros st. cbn [traverseNode preorder GLTFNode.children fold_left].
  generalize (callback (GLTFNode.mk a_mesh transform children) st).
  induction IH as [| c cs Hc _ IHcs]; intros st'; simpl; [reflexivity |].
  rewrite fold_left_app, <- Hc. apply IHcs.
Qed.

Lemma traverse_preorder (scene : GLTFScene.t) (st : S) :
  traverse callback scene st =
  fold_left (fun st n => callback n st)
            (flat_map preorder (children scene)) st.
Proof.
  unfold traverse.
  rewrite <- (fold_left_flat_map (fun st n => callback n st) preorder).
  revert st. induction (children scene) as [| c cs IH]; intros st; simpl;
    [reflexivity |].
  rewrite traverseNode_preorder. apply IH.
Qed.
End Traversal.

Section Grouping.
Import GLTFScene PrimitiveInstances.

Lemma group_node_pairs (a_node : GLTFNode.t) (st : PrimitiveInstances.t) :
  group_node a_node st = fold_left group_pair (node_pairs a_node) st.
Proof.
  unfold group_node, node_pairs.
  destruct (GLTFNode.a_mesh a_node) as [m |]; [| reflexivity].
  revert st. induction (GLTFMesh.primitives m) as [| p ps IH]; intros st;
    simpl; [reflexivity |].
  apply IH.
Qed.

(** The node pass files the pairs of the scene one by one, in traversal
    order. *)
Lemma traverse_group_pairs (scene : GLTFScene.t) (st : PrimitiveInstances.t) :
  traverse group_node scene st = fold_left group_pair (pairs scene) st.
Proof.
  rewrite traverse_preorder. unfold pairs.
  rewrite <- (fold_left_flat_map _ group_pair node_pairs).
  revert st.
  induction (flat_map preorder (children scene)) as [| n ns IH]; intros st;
    simpl; [reflexivity |].
  rewrite group_node_pairs. apply IH.
Qed.

Lemma group_pairs_facts (ps : list (key * TransformRef))
    (st : PrimitiveInstances.t) :
  let st' := fold_left group_pair ps st in
  total st' = total st + length ps /\
  offset st' = offset st /\
  arrayBuffer st' = arrayBuffer st /\
  (nonempty_groups (matrices st) -> nonempty_groups (matrices st')) /\
  (NoDup (map fst (matrices st)) -> NoDup (map fst (matrices st'))).
Proof.
  revert st. induction ps as [| [k t] ps IH]; intros st; simpl.
  - repeat split; auto.
  - destruct (IH (group_pair st (k, t))) as (Ht & Ho & Ha & Hne & Hnd).
    cbn [group_pair total offset arrayBuffer matrices fst snd] in *.
    repeat split; try lia; try assumption.
    + intros H. apply Hne. intros k' nodes Hin.
      apply (In_Map_set _ _ _ (fun x => x) key_eqb key_eqb_eq) in Hin
        as [[_ ->] | [Hin _]].
      * destruct (Map_get key_eqb k (matrices st)); simpl; [| discriminate].
        intros E. apply app_eq_nil in E as [_ E]. discriminate E.
      * apply (H _ _ Hin).
    + intros H. apply Hnd.
      apply (NoDup_Map_set _ _ _ (fun x => x) key_eqb key_eqb_eq). exact H.
Qed.
End Grouping.

(** ** The mesh pass and the refresh walk *)

Section BuildFacts.
Import GLTFScene PrimitiveInstances.
Variable options : BuildOptions.t.
Variable store : TransformStore.

(** The reads of the material's part, when they succeed, give
    [fragment.shader.context]. *)
Lemma property_context (r : GLTFPrimitive.BuildResult) (shader context : JSValue) :
  property "shader" (GLTFPrimitive.fragment r) = Ok shader ->
  property "context" shader = Ok context ->
  context = GLTFPrimitive.fragment_shader_context r /\
  shader_context r = Ok context /\
  shader = GLTFPrimitive.fragment_shader r.
Proof.
  unfold shader_context, GLTFPrimitive.fragment_shader_context,
    GLTFPrimitive.fragment_shader.
  intros Hshader Hcontext. rewrite Hshader. cbn [bind]. rewrite Hcontext.
  assert (Hs : shader = get_field "shader" (GLTFPrimitive.fragment r)).
  { unfold property in Hshader.
    destruct (GLTFPrimitive.fragment r); try discriminate Hshader;
      injection Hshader as <-; reflexivity. }
  split; [| split; [reflexivity | exact Hs]].
  rewrite <- Hs. unfold property in Hcontext.
  destruct shader; try discriminate Hcontext;
    injection Hcontext as <-; reflexivity.
Qed.

Lemma shader_context_Ok (r : GLTFPrimitive.BuildResult) (context : JSValue) :
  shader_context r = Ok context ->
  exists shader,
    property "shader" (GLTFPrimitive.fragment r) = Ok shader /\
    property "context" shader = Ok context /\
    context = GLTFPrimitive.fragment_shader_context r /\
    shader = GLTFPrimitive.fragment_shader r.
Proof.
  unfold shader_context at 1. intros H.
  apply bind_Ok in H as (shader & Hshader & Hcontext).
  exists shader. split; [exact Hshader |]. split; [exact Hcontext |].
  destruct (property_context _ _ _ Hshader Hcontext) as (E & _ & Es). auto.
Qed.

Lemma build_primitive_refresh (a_primitive : GLTFPrimitive.t)
    (st st' : BuildState) :
  build_primitive options store a_primitive st = Ok st' ->
  refresh_primitive store a_primitive (instances st) = Ok (instances st').
Proof.
  unfold build_primitive, refresh_primitive. intros H.
  apply bind_Ok in H as ([r |] & _ & H); [| discriminate H].
  apply bind_Ok in H as (shader & _ & H).
  destruct (Map_get key_eqb (materialKey a_primitive) (materialCache st));
    [| destruct (create (gpu st))];
    apply bind_Ok in H as (context & _ & H);
    apply bind_Ok in H as ([instances' range] & -> & H);
    injection H as <-; reflexivity.
Qed.

Lemma build_primitives_refresh (a_primitives : list GLTFPrimitive.t)
    (st st' : BuildState) :
  forEach (build_primitive options store) a_primitives st = Ok st' ->
  forEach (refresh_primitive store) a_primitives (instances st) =
  Ok (instances st').
Proof.
  revert st. induction a_primitives as [| p ps IH]; intros st H; simpl in *.
  - injection H as <-. reflexivity.
  - apply bind_Ok in H as (st1 & Hp & H).
    rewrite (build_primitive_refresh _ _ _ Hp). simpl. apply IH, H.
Qed.

(** The state the mesh pass of [build] starts from. *)
Lemma build_inv (device : GPUDevice) (scene built : GLTFScene.t)
    (device' : GPUDevice) :
  build options store device scene = Ok (built, device') ->
  exists st,
    forEach (build_primitive options store) (all_primitives scene)
      {| gpu := {| next_handle := 2 + next_handle device |};
         materialCache := [];
         pipelines := renderPipelines scene;
         instances :=
           {| total := length (pairs scene);
              offset := 0;
              matrices := groups scene;
              arrayBuffer := Some (repeat 0%Z (32 * length (pairs scene))) |} |}
    = Ok st /\
    device' = gpu st /\
    built =
    {| children := children scene;
       a_meshs := a_meshs scene;
       this_device := this_device scene;
       renderPipelines := pipelines st;
       instanceBuffer :=
         Some {| GPUBuffer.handle := next_handle device;
                 GPUBuffer.size := 128 * length (pairs scene);
                 GPUBuffer.contents := arrayBuffer_contents (instances st) |};
       instanceBindGroup := Some (1 + next_handle device);
       instanceBindGroupIndex := Some 1;
       primitiveInstances :=
         Some {| total := total (instances st);
                 offset := 0;
                 matrices := matrices (instances st);
                 arrayBuffer := Some (repeat 0%Z (32 * length (pairs scene))) |} |}.
Proof.
  unfold build, groups. cbn [create fst snd].
  rewrite forEach_nested. fold (all_primitives scene).
  rewrite traverse_group_pairs.
  destruct (group_pairs_facts (pairs scene) empty_instances)
    as (Ht & Ho & _).
  cbv zeta in Ht, Ho. cbn [empty_instances total offset] in Ht, Ho.
  rewrite Ht, Ho.
  replace (16 * 2 * 4 * (0 + length (pairs scene)))
    with (128 * length (pairs scene)) by lia.
  replace (128 * length (pairs scene) / 4) with (32 * length (pairs scene))
    by (apply Nat.div_unique_exact; lia).
  intros H. apply bind_Ok in H as (st & Hst & H).
  injection H as <- <-. exists st. simpl. auto.
Qed.
End BuildFacts.

Section RefreshFacts.
Import GLTFScene PrimitiveInstances.
Variable store : TransformStore.

Lemma skipn_exact {A : Type} (p q : list A) (n : nat) :
  length p = n -> skipn n (p ++ q) = q.
Proof.
  intros <-. rewrite skipn_app, skipn_all, Nat.sub_diag. reflexivity.
Qed.

(** Instance [i] of the staging array holds the world matrix of its node at
    float [32 * i] and the world normal matrix at float [32 * i + 16]. *)
Lemma slice16_blocks (array : list f32) (nodes : list TransformRef)
    (i : nat) (node : TransformRef) :
  nth_error nodes i = Some node ->
  slice16 (overwrite array 0 (blocks store nodes)) (32 * i) =
    elements (worldMatrix (store node)) /\
  slice16 (overwrite array 0 (blocks store nodes)) (32 * i + 16) =
    elements (worldNormalMatrix (store node)).
Proof.
  intros H. apply nth_error_split in H as (l1 & l2 & -> & Hlen).
  unfold slice16.
  change (overwrite array 0 (blocks store (l1 ++ node :: l2)))
    with (blocks store (l1 ++ node :: l2) ++
          skipn (length (blocks store (l1 ++ node :: l2))) array).
  generalize (skipn (length (blocks store (l1 ++ node :: l2))) array).
  intros rest. rewrite blocks_app.
  change (blocks store (node :: l2))
    with (block store node ++ blocks store l2).
  unfold block. rewrite <- !app_assoc.
  split.
  - rewrite skipn_exact by (rewrite length_blocks; lia).
    apply firstn_app_exact, length_Mat4.
  - rewrite (app_assoc (blocks store l1)).
    rewrite skipn_exact
      by (rewrite length_app, length_blocks, length_Mat4; lia).
    apply firstn_app_exact, length_Mat4.
Qed.

(** A walk from offset 0 that succeeds found every group, fits the array,
    and leaves the blocks of all instances at its start. *)
Lemma refresh_exact (a_primitives : list GLTFPrimitive.t)
    (st st' : PrimitiveInstances.t) (array : list f32) :
  forEach (refresh_primitive store) a_primitives st = Ok st' ->
  arrayBuffer st = Some array ->
  offset st = 0 ->
  Forall (fun p => group (matrices st) p <> None) a_primitives /\
  length (instances_of (matrices st) a_primitives) * 32 <= length array /\
  st' = {| total := total st;
           offset := length (instances_of (matrices st) a_primitives);
           matrices := matrices st;
           arrayBuffer :=
             Some (overwrite array 0
                     (blocks store (instances_of (matrices st) a_primitives))) |}.
Proof.
  intros H Harray Hoffset.
  destruct (refresh_inv store _ _ _ _ H Harray) as (Hfound & Hbound).
  rewrite Hoffset in Hbound. simpl in Hbound.
  assert (Hfit : length (instances_of (matrices st) a_primitives) * 32
                 <= length array).
  { destruct (instances_of (matrices st) a_primitives) as [| x l];
      [simpl; lia | apply Hbound; discriminate]. }
  rewrite (refresh_Ok store _ _ _ Harray Hfound) in H
    by (rewrite Hoffset; exact Hfit).
  rewrite Hoffset in H. simpl in H. injection H as <-. auto.
Qed.

(** The loop of [updateBuffers] on its own: it writes the blocks of all
    instances from the start of the staging array. *)
Lemma refresh_instances_Ok (scene : GLTFScene.t) (p : PrimitiveInstances.t)
    (array : list f32) :
  primitiveInstances scene = Some p ->
  arrayBuffer p = Some array ->
  Forall (fun a => group (matrices p) a <> None) (all_primitives scene) ->
  length (instances_of (matrices p) (all_primitives scene)) * 32
    <= length array ->
  refresh_instances store scene =
  Ok {| total := total p;
        offset := length (instances_of (matrices p) (all_primitives scene));
        matrices := matrices p;
        arrayBuffer := Some (refreshed_data store scene p array) |}.
Proof.
  intros Hp Harray Hfound Hfit.
  unfold refresh_instances. rewrite Hp, forEach_nested.
  fold (all_primitives scene).
  rewrite (refresh_Ok store _ _ array); cbn [total offset matrices arrayBuffer];
    [| exact Harray | exact Hfound | exact Hfit].
  reflexivity.
Qed.

Lemma updateBuffers_Ok (scene : GLTFScene.t) (queue : GPUQueue)
    (p : PrimitiveInstances.t) (buffer : GPUBuffer.t) (array : list f32) :
  this_device scene = Some queue ->
  primitiveInstances scene = Some p ->
  instanceBuffer scene = Some buffer ->
  arrayBuffer p = Some array ->
  Forall (fun a => group (matrices p) a <> None) (all_primitives scene) ->
  length (instances_of (matrices p) (all_primitives scene)) * 32
    <= length array ->
  length array * 4 <= GPUBuffer.size buffer ->
  updateBuffers store scene =
  Ok {| children := children scene;
        a_meshs := a_meshs scene;
        this_device := this_device scene;
        renderPipelines := renderPipelines scene;
        instanceBuffer :=
          Some {| GPUBuffer.handle := GPUBuffer.handle buffer;
                  GPUBuffer.size := GPUBuffer.size buffer;
                  GPUBuffer.contents :=
                    refreshed_data store scene p array ++
                    skipn (length (refreshed_data store scene p array))
                          (GPUBuffer.contents buffer) |};
        instanceBindGroup := instanceBindGroup scene;
        instanceBindGroupIndex := instanceBindGroupIndex scene;
        primitiveInstances :=
          Some {| total := total p;
                  offset := length (instances_of (matrices p)
                                                 (all_primitives scene));
                  matrices := matrices p;
                  arrayBuffer := Some (refreshed_data store scene p array) |} |}.
Proof.
  intros Hdevice Hp Hbuffer Harray Hfound Hfit Hsize.
  unfold updateBuffers.
  rewrite (refresh_instances_Ok scene p array Hp Harray Hfound Hfit).
  cbn [bind]. unfold upload. rewrite Hdevice, Hbuffer.
  cbn [arrayBuffer total offset matrices].
  unfold writeBuffer.
  assert (Hlen : length (refreshed_data store scene p array) = length array).
  { unfold refreshed_data. apply length_overwrite.
    rewrite length_blocks. simpl. exact Hfit. }
  rewrite Hlen.
  destruct (Nat.leb_spec (length array * 4) (GPUBuffer.size buffer));
    [reflexivity | lia].
Qed.
End RefreshFacts.

(** C10: after [build], the instance buffer has 128 bytes for each of the
    node/primitive pairs of the scene, and instance [i] of the buffer holds
    the world matrix of its node at float [32 * i] and the world normal
    matrix at float [32 * i + 16]. *)
Theorem build_instance_blocks (options : BuildOptions.t) (store : TransformStore)
    (device device' : GPUDevice) (scene built : GLTFScene.t) :
  GLTFScene.build options store device scene = Ok (built, device') ->
  exists buffer,
    GLTFScene.instanceBuffer built = Some buffer /\
    GPUBuffer.size buffer = 128 * length (GLTFScene.pairs scene) /\
    length (GPUBuffer.contents buffer) * 4 = GPUBuffer.size buffer /\
    forall i node,
      nth_error (GLTFScene.instances_of (GLTFScene.groups scene)
                   (GLTFScene.all_primitives scene)) i = Some node ->
      GLTFScene.slice16 (GPUBuffer.contents buffer) (32 * i) =
        elements (worldMatrix (store node)) /\
      GLTFScene.slice16 (GPUBuffer.contents buffer) (32 * i + 16) =
        elements (worldNormalMatrix (store node)).
Proof.
  intros H. apply build_inv in H as (st & Hst & _ & ->).
  apply build_primitives_refresh in Hst.
  eapply refresh_exact in Hst as (_ & Hfit & ->); [| reflexivity ..].
  cbn [GLTFScene.instances PrimitiveInstances.matrices
       PrimitiveInstances.total PrimitiveInstances.arrayBuffer] in *.
  rewrite repeat_length in Hfit.
  eexists. split; [reflexivity |].
  cbn [GPUBuffer.size GPUBuffer.contents GLTFScene.arrayBuffer_contents
       PrimitiveInstances.arrayBuffer].
  split; [reflexivity |]. split.
  - rewrite length_overwrite; rewrite ?length_blocks, repeat_length; lia.
  - intros i node Hnode. apply slice16_blocks, Hnode.
Qed.

(** ** The render order *)

Section RenderOrderFacts.
Import GLTFScene PrimitiveInstances.
Variable options : BuildOptions.t.
Variable store : TransformStore.

Local Abbreviation node_id :=
  (fun e : RenderNode.t * list RenderPrimitive.t => RenderNode.bindGroup (fst e)).

Lemma order_get_In (ks : key) (rp : RenderPipeline.t)
    (order : list (key * RenderPipeline.t)) :
  Map_get key_eqb ks order = Some rp -> In (ks, rp) order.
Proof.
  intros H.
  apply (Map_get_Some _ _ _ (fun x => x) key_eqb key_eqb_eq) in H
    as (k' & Hin & ->).
  exact Hin.
Qed.

Lemma order_In_get (ks : key) (rp : RenderPipeline.t)
    (order : list (key * RenderPipeline.t)) :
  NoDup (map fst order) -> In (ks, rp) order ->
  Map_get key_eqb ks order = Some rp.
Proof.
  apply (In_Map_get _ _ _ (fun x => x) key_eqb key_eqb_eq).
Qed.

Lemma nodes_get_In (material : RenderNode.t) (ds : list RenderPrimitive.t)
    (m : list (RenderNode.t * list RenderPrimitive.t)) :
  Map_get RenderNode.same material m = Some ds ->
  exists node, In (node, ds) m /\
               RenderNode.bindGroup node = RenderNode.bindGroup material.
Proof.
  apply (Map_get_Some _ _ _ RenderNode.bindGroup RenderNode.same same_bindGroup).
Qed.

Lemma nodes_In_get (material node : RenderNode.t) (ds : list RenderPrimitive.t)
    (m : list (RenderNode.t * list RenderPrimitive.t)) :
  NoDup (map node_id m) -> In (node, ds) m ->
  RenderNode.bindGroup node = RenderNode.bindGroup material ->
  Map_get RenderNode.same material m = Some ds.
Proof.
  intros Hnd Hin Hid.
  pose proof (In_Map_get _ _ _ RenderNode.bindGroup RenderNode.same
                same_bindGroup node ds m Hnd Hin) as H.
  rewrite <- H. clear - Hid.
  induction m as [| [n l] m IH]; simpl; [reflexivity |].
  replace (RenderNode.same node n) with (RenderNode.same material n)
    by (unfold RenderNode.same; rewrite Hid; reflexivity).
  rewrite IH. reflexivity.
Qed.

Section Place.
Variable ks : key.
Variable pipeline : GPURenderPipeline.
Variable material : RenderNode.t.
Variable entry : RenderPrimitive.t.
Variable order : list (key * RenderPipeline.t).

Lemma placed_place_inv (ks' : key) (h : Handle) (d : RenderPrimitive.t) :
  placed (place ks pipeline material entry order) ks' h d ->
  (ks' = ks /\ h = RenderNode.bindGroup material /\ d = entry) \/
  placed order ks' h d.
Proof.
  unfold place. intros (rp' & node & ds & Hrp & Hnode & Hh & Hd).
  apply (In_Map_set _ _ _ (fun x => x) key_eqb key_eqb_eq) in Hrp
    as [[-> ->] | [Hrp _]];
    [| right; exists rp', node, ds; auto].
  cbn [RenderPipeline.materialPrimitivesMap] in Hnode.
  destruct (Map_get key_eqb ks order) as [rp |] eqn:Hget.
  - apply order_get_In in Hget.
    apply (In_Map_set _ _ _ RenderNode.bindGroup RenderNode.same same_bindGroup)
      in Hnode as [[-> ->] | [Hnode _]];
      [| right; exists rp, node, ds; auto].
    apply in_app_or in Hd as [Hd | [<- | []]]; [| auto].
    destruct (Map_get RenderNode.same material _) as [l |] eqn:Hl; [| destruct Hd].
    apply nodes_get_In in Hl as (node & Hin & Hid).
    right. exists rp, node, l. rewrite <- Hh. auto.
  - simpl in Hnode. destruct Hnode as [E | []]. injection E as <- <-.
    destruct Hd as [<- | []]. auto.
Qed.

Lemma placed_place_new :
  placed (place ks pipeline material entry order) ks
         (RenderNode.bindGroup material) entry.
Proof.
  unfold place, placed. eexists. exists material. eexists.
  split; [apply In_Map_set_new |].
  cbn [RenderPipeline.materialPrimitivesMap].
  split; [apply In_Map_set_new |].
  split; [reflexivity |]. apply in_or_app. right. left. reflexivity.
Qed.

Hypothesis keys_distinct : NoDup (map fst order).
Hypothesis nodes_distinct :
  forall ks rp, In (ks, rp) order ->
    NoDup (map node_id (RenderPipeline.materialPrimitivesMap rp)).

Lemma placed_place_old (ks' : key) (h : Handle) (d : RenderPrimitive.t) :
  placed order ks' h d ->
  placed (place ks pipeline material entry order) ks' h d.
Proof.
  intros (rp & node & ds & Hrp & Hnode & Hh & Hd). unfold place.
  destruct (key_eqb ks' ks) eqn:Hks.
  - apply key_eqb_eq in Hks. subst ks'.
    rewrite (order_In_get _ _ _ keys_distinct Hrp).
    eexists. 
    destruct (Nat.eq_dec (RenderNode.bindGroup node)
                         (RenderNode.bindGroup material)) as [Hid | Hid].
    + exists material. eexists.
      split; [apply In_Map_set_new |].
      cbn [RenderPipeline.materialPrimitivesMap].
      split; [apply In_Map_set_new |].
      rewrite (nodes_In_get material node ds _
                 (nodes_distinct _ _ Hrp) Hnode Hid).
      split; [congruence |]. apply in_or_app. left. exact Hd.
    + exists node, ds.
      split; [apply In_Map_set_new |].
      cbn [RenderPipeline.materialPrimitivesMap].
      split; [| auto].
      apply (In_Map_set_old _ _ _ RenderNode.bindGroup RenderNode.same
               same_bindGroup); assumption.
  - exists rp, node, ds. split; [| auto].
    apply (In_Map_set_old _ _ _ (fun x => x) key_eqb key_eqb_eq);
      [exact Hrp |].
    intros E. apply key_eqb_eq in E. congruence.
Qed.

Lemma place_keys_distinct :
  NoDup (map fst (place ks pipeline material entry order)).
Proof.
  unfold place.
  apply (NoDup_Map_set _ _ _ (fun x => x) key_eqb key_eqb_eq), keys_distinct.
Qed.

Lemma place_nodes_distinct (ks' : key) (rp' : RenderPipeline.t) :
  In (ks', rp') (place ks pipeline material entry order) ->
  NoDup (map node_id (RenderPipeline.materialPrimitivesMap rp')).
Proof.
  unfold place. intros H.
  apply (In_Map_set _ _ _ (fun x => x) key_eqb key_eqb_eq) in H
    as [[-> ->] | [H _]]; [| apply (nodes_distinct _ _ H)].
  cbn [RenderPipeline.materialPrimitivesMap].
  apply (NoDup_Map_set _ _ _ RenderNode.bindGroup RenderNode.same same_bindGroup).
  destruct (Map_get key_eqb ks order) as [rp |] eqn:Hget.
  - apply order_get_In in Hget. apply (nodes_distinct _ _ Hget).
  - constructor.
Qed.
End Place.

Lemma build_primitive_steps (a_primitive : GLTFPrimitive.t)
    (st st' : BuildState) :
  build_primitive options store a_primitive st = Ok st' ->
  exists r range,
    GLTFPrimitive.build a_primitive = Ok (Some r) /\
    setInstancePosForPrimitiveNodes store a_primitive (instances st) =
      Ok (instances st', range) /\
    gpu st' = snd (fst (lookup_material a_primitive st)) /\
    materialCache st' = snd (lookup_material a_primitive st) /\
    pipelines st' =
      place (pipelineKey r) (pipeline_of options r)
        (fst (fst (lookup_material a_primitive st)))
        (draw_entry r range) (pipelines st).
Proof.
  unfold build_primitive, lookup_material. intros H.
  apply bind_Ok in H as ([r |] & Hr & H); [| discriminate H].
  apply bind_Ok in H as (shader & Hshader & H).
  exists r. unfold pipelineKey, pipeline_of.
  unfold GLTFPrimitive.bindGroupLayoutEntries.
  destruct (Map_get key_eqb (materialKey a_primitive) (materialCache st));
    cbn [create fst snd] in *;
    apply bind_Ok in H as (context & Hcontext & H);
    destruct (property_context _ _ _ Hshader Hcontext) as (<- & _ & <-);
    apply bind_Ok in H as ([instances' range] & Hset & H);
    injection H as <-; exists range; auto.
Qed.

Lemma build_primitive_context (a_primitive : GLTFPrimitive.t)
    (st st' : BuildState) :
  build_primitive options store a_primitive st = Ok st' ->
  exists r context,
    GLTFPrimitive.build a_primitive = Ok (Some r) /\
    shader_context r = Ok context.
Proof.
  unfold build_primitive. intros H.
  apply bind_Ok in H as ([r |] & Hr & H); [| discriminate H].
  apply bind_Ok in H as (shader & Hshader & H).
  exists r.
  destruct (Map_get key_eqb (materialKey a_primitive) (materialCache st));
    cbn [create fst snd] in *;
    apply bind_Ok in H as (context & Hcontext & _);
    exists context; split; [exact Hr | | exact Hr |];
    apply (property_context _ _ _ Hshader Hcontext).
Qed.

Lemma lookup_material_facts (a_primitive : GLTFPrimitive.t) (st : BuildState)
    (filed : list Filed) :
  filed_in st filed ->
  let material := fst (fst (lookup_material a_primitive st)) in
  let device := snd (fst (lookup_material a_primitive st)) in
  let cache := snd (lookup_material a_primitive st) in
  Map_get key_eqb (materialKey a_primitive) cache = Some material /\
  (forall mk m, Map_get key_eqb mk (materialCache st) = Some m ->
                Map_get key_eqb mk cache = Some m) /\
  (forall mk m, Map_get key_eqb mk cache = Some m ->
                RenderNode.bindGroup m < next_handle device) /\
  (forall mk1 mk2 m1 m2,
      Map_get key_eqb mk1 cache = Some m1 ->
      Map_get key_eqb mk2 cache = Some m2 ->
      RenderNode.bindGroup m1 = RenderNode.bindGroup m2 -> mk1 = mk2).
Proof.
  intros Hinv. unfold lookup_material.
  destruct (Map_get key_eqb (materialKey a_primitive) (materialCache st))
    as [m |] eqn:Hget; cbn [fst snd].
  - repeat split; [exact Hget | auto | |].
    + apply (materials_allocated Hinv).
    + apply (materials_distinct Hinv).
  - set (node := {| RenderNode.groupIndex := 2;
                    RenderNode.bindGroup := next_handle (gpu st);
                    RenderNode.primitive := a_primitive |}).
    assert (Hinverse :
      forall mk m,
        Map_get key_eqb mk
          (Map_set key_eqb (materialKey a_primitive) node (materialCache st))
        = Some m ->
        Map_get key_eqb mk (materialCache st) = Some m \/
        (mk = materialKey a_primitive /\ m = node)).
    { intros mk m H.
      destruct (key_eqb mk (materialKey a_primitive)) eqn:E.
      - apply key_eqb_eq in E. subst mk.
        rewrite (Map_get_set_same _ _ _ (fun x => x) key_eqb key_eqb_eq) in H
          by reflexivity.
        injection H as <-. auto.
      - rewrite (Map_get_set_other _ _ _ (fun x => x) key_eqb key_eqb_eq) in H;
          [auto |].
        intros E'. apply key_eqb_eq in E'. congruence. }
    repeat split.
    + apply (Map_get_set_same _ _ _ (fun x => x) key_eqb key_eqb_eq).
      reflexivity.
    + intros mk m H.
      rewrite (Map_get_set_other _ _ _ (fun x => x) key_eqb key_eqb_eq);
        [exact H | congruence].
    + intros mk m H. cbn [next_handle].
      apply Hinverse in H as [H | [_ ->]].
      * apply (materials_allocated Hinv) in H. lia.
      * simpl. lia.
    + intros mk1 mk2 m1 m2 H1 H2 Hid.
      apply Hinverse in H1 as [H1 | [-> ->]];
        apply Hinverse in H2 as [H2 | [-> ->]].
      * eapply (materials_distinct Hinv); [exact H1 | exact H2 | exact Hid].
      * apply (materials_allocated Hinv) in H1. simpl in Hid. lia.
      * apply (materials_allocated Hinv) in H2. simpl in Hid. lia.
      * reflexivity.
Qed.

(** One step of the mesh pass files the draw entry of the primitive under
    its pipeline key and its material, with the range that starts at the
    current offset. *)
Lemma filed_in_step (a_primitive : GLTFPrimitive.t) (st st' : BuildState)
    (filed : list Filed) :
  build_primitive options store a_primitive st = Ok st' ->
  filed_in st filed ->
  exists r nodes,
    GLTFPrimitive.build a_primitive = Ok (Some r) /\
    group (matrices (instances st)) a_primitive = Some nodes /\
    matrices (instances st') = matrices (instances st) /\
    offset (instances st') = offset (instances st) + length nodes /\
    filed_in st'
      (filed ++
       [(pipelineKey r, materialKey a_primitive,
         draw_entry r (Some {| first := offset (instances st);
                               count := length nodes |}))]).
Proof.
  intros H Hinv.
  apply build_primitive_steps in H
    as (r & range & Hr & Hset & Hgpu & Hcache & Hpipelines).
  destruct (arrayBuffer (instances st)) as [array |] eqn:Harray;
    [| destruct (mapped Hinv Harray)].
  destruct (setInstancePos_inv _ _ _ _ _ _ Hset Harray)
    as (nodes & array' & Hgroup & _ & -> & _ & Hoffset & Hmatrices & Harray' & _).
  assert (Hnodes : 0 < length nodes).
  { unfold group in Hgroup.
    apply (Map_get_Some _ _ _ (fun x => x) key_eqb key_eqb_eq) in Hgroup
      as (k' & Hin & _).
    apply (groups_nonempty Hinv) in Hin.
    destruct nodes; [congruence | simpl; lia]. }
  destruct (lookup_material_facts a_primitive st filed Hinv)
    as (Hmaterial & Hextend & Hallocated & Hdistinct).
  exists r, nodes. repeat split; try assumption.
  - rewrite Hgpu, Hcache. exact Hallocated.
  - rewrite Hcache. exact Hdistinct.
  - rewrite Hpipelines. apply place_keys_distinct.
    apply (pipeline_keys_distinct Hinv).
  - rewrite Hpipelines. apply place_nodes_distinct.
    apply (material_nodes_distinct Hinv).
  - rewrite Hpipelines, Hcache. intros ks h d Hplaced.
    apply placed_place_inv in Hplaced as [(-> & -> & ->) | Hplaced].
    + eexists. eexists. split; [exact Hmaterial |].
      split; [reflexivity |]. apply in_or_app. right. left. reflexivity.
    + apply (placed_filed Hinv) in Hplaced as (mk & m & Hm & Hh & Hin).
      exists mk, m. split; [apply Hextend, Hm |].
      split; [exact Hh |]. apply in_or_app. left. exact Hin.
  - rewrite Hpipelines, Hcache. intros ks mk d Hin.
    apply in_app_or in Hin as [Hin | [E | []]].
    + apply (filed_placed Hinv) in Hin as (m & Hm & Hplaced).
      exists m. split; [apply Hextend, Hm |].
      apply placed_place_old;
        [apply (pipeline_keys_distinct Hinv)
        | apply (material_nodes_distinct Hinv) | exact Hplaced].
    + injection E as <- <- <-.
      eexists. split; [exact Hmaterial |]. apply placed_place_new.
  - intros ks mk d Hin. rewrite Hoffset.
    apply in_app_or in Hin as [Hin | [E | []]].
    + apply (filed_below_offset Hinv) in Hin as (range & Hd & Hlt).
      exists range. split; [exact Hd | lia].
    + injection E as <- <- <-. eexists. split; [reflexivity |]. simpl. lia.
  - rewrite map_app. apply NoDup_app.
    + apply (filed_distinct Hinv).
    + constructor; [simpl; tauto | constructor].
    + intros d Hold Hnew. destruct Hnew as [Hnew | []].
      apply in_map_iff in Hold as ([[ks mk] d'] & E & Hin).
      apply (filed_below_offset Hinv) in Hin as (range & Hd & Hlt).
      simpl in E, Hnew. rewrite E, <- Hnew in Hd. simpl in Hd.
      injection Hd as <-. simpl in Hlt. lia.
  - rewrite Harray'. discriminate.
  - rewrite Hmatrices. apply (groups_nonempty Hinv).
Qed.

Lemma filed_in_pass (a_primitives : list GLTFPrimitive.t)
    (st st' : BuildState) (filed : list Filed) :
  forEach (build_primitive options store) a_primitives st = Ok st' ->
  filed_in st filed ->
  exists filed',
    filed_in st' (filed ++ filed') /\
    Forall2 filed_for a_primitives filed' /\
    map (fun f : Filed => RenderPrimitive.instanceInAll (snd f)) filed' =
    map Some (assigned_ranges (matrices (instances st)) a_primitives
                              (offset (instances st))).
Proof.
  revert st filed.
  induction a_primitives as [| p ps IH]; intros st filed H Hinv; simpl in H.
  - injection H as <-. exists []. rewrite app_nil_r.
    split; [exact Hinv | split; [constructor | reflexivity]].
  - apply bind_Ok in H as (st1 & Hp & H).
    destruct (filed_in_step p st st1 filed Hp Hinv)
      as (r & nodes & Hr & Hgroup & Hmatrices & Hoffset & Hinv1).
    destruct (IH _ _ H Hinv1) as (filed' & Hinv' & Hfor & Hranges).
    exists ((pipelineKey r, materialKey p,
             draw_entry r (Some {| first := offset (instances st);
                                   count := length nodes |})) :: filed').
    rewrite <- app_assoc in Hinv'.
    split; [exact Hinv' |]. split.
    + constructor; [| exact Hfor]. exists r. eexists. eauto.
    + cbn [map assigned_ranges snd draw_entry RenderPrimitive.instanceInAll].
      assert (Hn : group_nodes (matrices (instances st)) p = nodes)
        by (unfold group_nodes; rewrite Hgroup; reflexivity).
      rewrite Hn, Hranges, Hmatrices, Hoffset. reflexivity.
Qed.
End RenderOrderFacts.

Lemma Forall2_nth_error {A B : Type} (R : A -> B -> Prop) (l : list A)
    (l' : list B) (i : nat) (a : A) :
  Forall2 R l l' -> nth_error l i = Some a ->
  exists b, nth_error l' i = Some b /\ R a b.
Proof.
  intros H. revert i. induction H as [| x y l l' Hxy _ IH]; intros i Hi.
  - destruct i; discriminate Hi.
  - destruct i as [| i]; simpl in *.
    + injection Hi as <-. exists y. auto.
    + apply IH, Hi.
Qed.

Lemma NoDup_map_unique {A B : Type} (f : A -> B) (l : list A) (a b : A) :
  NoDup (map f l) -> In a l -> In b l -> f a = f b -> a = b.
Proof.
  induction l as [| x l IH]; simpl; [tauto |].
  intros Hnd Ha Hb Hf. inversion Hnd as [| ? ? Hnot Hnd']; subst.
  destruct Ha as [-> | Ha], Hb as [-> | Hb]; auto.
  - exfalso. apply Hnot. rewrite Hf. apply in_map, Hb.
  - exfalso. apply Hnot. rewrite <- Hf. apply in_map, Ha.
Qed.

Section FreshBuild.
Import GLTFScene PrimitiveInstances.
Variable options : BuildOptions.t.
Variable store : TransformStore.

Lemma groups_nonempty_scene (scene : GLTFScene.t) :
  nonempty_groups (groups scene).
Proof.
  unfold groups. rewrite traverse_group_pairs.
  destruct (group_pairs_facts (pairs scene) empty_instances)
    as (_ & _ & _ & H & _).
  apply H. intros k nodes [].
Qed.

(** The render order of a freshly constructed scene after [build]: what is
    placed in it is what the mesh pass filed, one entry per primitive, with
    the ranges handed out from offset 0. *)
Lemma build_filed (device device' : GPUDevice) (scene built : GLTFScene.t) :
  renderPipelines scene = [] ->
  build options store device scene = Ok (built, device') ->
  exists st filed,
    renderPipelines built = pipelines st /\
    filed_in st filed /\
    Forall2 filed_for (all_primitives scene) filed /\
    map (fun f : Filed => RenderPrimitive.instanceInAll (snd f)) filed =
    map Some (assigned_ranges (groups scene) (all_primitives scene) 0).
Proof.
  intros Hfresh H. apply build_inv in H as (st & Hst & _ & ->).
  rewrite Hfresh in Hst.
  apply (filed_in_pass options store) with (filed := []) in Hst
    as (filed & Hinv & Hfor & Hranges).
  - exists st, filed. auto.
  - constructor; cbn [materialCache pipelines instances gpu Map_get
                      arrayBuffer matrices map];
      try (intros; discriminate); try (constructor; fail).
    + intros ks rp [].
    + intros ks h d (rp & node & ds & [] & _).
    + intros ks mk d [].
    + intros ks mk d [].
    + apply groups_nonempty_scene.
Qed.
End FreshBuild.

(** C3: in the render order [build] makes for a freshly constructed scene,
    two primitives with equal serialized material JSON and equal serialized
    pipeline state have their draw entries under one and the same pipeline
    entry and one and the same material entry, and under no other. *)
Theorem build_shares_pipeline_and_material
    (options : BuildOptions.t) (store : TransformStore)
    (device device' : GPUDevice) (scene built : GLTFScene.t)
    (i j : nat) (p1 p2 : GLTFPrimitive.t) (r1 r2 : GLTFPrimitive.BuildResult) :
  GLTFScene.renderPipelines scene = [] ->
  GLTFScene.build options store device scene = Ok (built, device') ->
  i <> j ->
  nth_error (GLTFScene.all_primitives scene) i = Some p1 ->
  nth_error (GLTFScene.all_primitives scene) j = Some p2 ->
  GLTFPrimitive.build p1 = Ok (Some r1) ->
  GLTFPrimitive.build p2 = Ok (Some r2) ->
  GLTFScene.materialKey p1 = GLTFScene.materialKey p2 ->
  GLTFScene.pipelineKey r1 = GLTFScene.pipelineKey r2 ->
  exists renderPipeline material primitives range1 range2,
    let draw1 := GLTFScene.draw_entry r1 (Some range1) in
    let draw2 := GLTFScene.draw_entry r2 (Some range2) in
    In (GLTFScene.pipelineKey r1, renderPipeline)
       (GLTFScene.renderPipelines built) /\
    In (material, primitives)
       (RenderPipeline.materialPrimitivesMap renderPipeline) /\
    In draw1 primitives /\ In draw2 primitives /\ draw1 <> draw2 /\
    forall ks' renderPipeline' material' primitives',
      In (ks', renderPipeline') (GLTFScene.renderPipelines built) ->
      In (material', primitives')
         (RenderPipeline.materialPrimitivesMap renderPipeline') ->
      In draw1 primitives' \/ In draw2 primitives' ->
      (ks', renderPipeline') = (GLTFScene.pipelineKey r1, renderPipeline) /\
      (material', primitives') = (material, primitives).
Proof.
  intros Hfresh Hbuild Hij Hp1 Hp2 Hr1 Hr2 Hmaterial Hpipeline.
  destruct (build_filed options store _ _ _ _ Hfresh Hbuild)
    as (st & filed & -> & Hinv & Hfor & _).
  destruct (Forall2_nth_error _ _ _ _ _ Hfor Hp1)
    as (f1 & Hf1 & r1' & range1 & Hr1' & ->).
  destruct (Forall2_nth_error _ _ _ _ _ Hfor Hp2)
    as (f2 & Hf2 & r2' & range2 & Hr2' & ->).
  rewrite Hr1 in Hr1'. injection Hr1' as <-.
  rewrite Hr2 in Hr2'. injection Hr2' as <-.
  pose proof (nth_error_In _ _ Hf1) as Hin1.
  pose proof (nth_error_In _ _ Hf2) as Hin2.
  destruct (GLTFScene.filed_placed Hinv _ _ _ Hin1)
    as (m1 & Hm1 & rp & node & ds & Hrp & Hnode & Hid & Hd1).
  destruct (GLTFScene.filed_placed Hinv _ _ _ Hin2)
    as (m2 & Hm2 & rp2 & node2 & ds2 & Hrp2 & Hnode2 & Hid2 & Hd2).
  rewrite <- Hmaterial, Hm1 in Hm2. injection Hm2 as <-.
  rewrite <- Hpipeline in Hrp2.
  assert (E : (GLTFScene.pipelineKey r1, rp2) = (GLTFScene.pipelineKey r1, rp)).
  { apply (NoDup_map_unique fst _ _ _
             (GLTFScene.pipeline_keys_distinct Hinv) Hrp2 Hrp). reflexivity. }
  injection E as ->.
  assert (E : (node2, ds2) = (node, ds)).
  { apply (NoDup_map_unique _ _ _ _
             (GLTFScene.material_nodes_distinct Hinv _ _ Hrp) Hnode2 Hnode).
    simpl. congruence. }
  injection E as -> ->.
  assert (Huniq :
    forall ks' rp' m' ds',
      In (ks', rp') (GLTFScene.pipelines st) ->
      In (m', ds') (RenderPipeline.materialPrimitivesMap rp') ->
      In (GLTFScene.draw_entry r1 (Some range1)) ds' \/
      In (GLTFScene.draw_entry r2 (Some range2)) ds' ->
      (ks', rp') = (GLTFScene.pipelineKey r1, rp) /\ (m', ds') = (node, ds)).
  { intros ks' rp' m' ds' Hrp' Hm' Hd.
    assert (Hsame : ks' = GLTFScene.pipelineKey r1 /\
                    RenderNode.bindGroup m' = RenderNode.bindGroup node).
    { destruct Hd as [Hd | Hd].
      - assert (Hplaced : GLTFScene.placed (GLTFScene.pipelines st) ks'
                            (RenderNode.bindGroup m')
                            (GLTFScene.draw_entry r1 (Some range1)))
          by (exists rp', m', ds'; auto).
        apply (GLTFScene.placed_filed Hinv) in Hplaced
          as (mk & m & Hm & Hbind & Hin).
        assert (E : (ks', mk, GLTFScene.draw_entry r1 (Some range1)) =
                    (GLTFScene.pipelineKey r1, GLTFScene.materialKey p1,
                     GLTFScene.draw_entry r1 (Some range1))).
        { apply (NoDup_map_unique snd _ _ _
                   (GLTFScene.filed_distinct Hinv) Hin Hin1). reflexivity. }
        injection E as -> ->. rewrite Hm1 in Hm. injection Hm as <-.
        split; [reflexivity | congruence].
      - assert (Hplaced : GLTFScene.placed (GLTFScene.pipelines st) ks'
                            (RenderNode.bindGroup m')
                            (GLTFScene.draw_entry r2 (Some range2)))
          by (exists rp', m', ds'; auto).
        apply (GLTFScene.placed_filed Hinv) in Hplaced
          as (mk & m & Hm & Hbind & Hin).
        assert (E : (ks', mk, GLTFScene.draw_entry r2 (Some range2)) =
                    (GLTFScene.pipelineKey r2, GLTFScene.materialKey p2,
                     GLTFScene.draw_entry r2 (Some range2))).
        { apply (NoDup_map_unique snd _ _ _
                   (GLTFScene.filed_distinct Hinv) Hin Hin2). reflexivity. }
        injection E as -> ->.
        rewrite <- Hmaterial, Hm1 in Hm. injection Hm as <-.
        split; [symmetry; exact Hpipeline | congruence]. }
    destruct Hsame as [-> Hbind].
    assert (E : (GLTFScene.pipelineKey r1, rp') = (GLTFScene.pipelineKey r1, rp)).
    { apply (NoDup_map_unique fst _ _ _
               (GLTFScene.pipeline_keys_distinct Hinv) Hrp' Hrp). reflexivity. }
    injection E as ->. split; [reflexivity |].
    apply (NoDup_map_unique _ _ _ _
             (GLTFScene.material_nodes_distinct Hinv _ _ Hrp) Hm' Hnode).
    exact Hbind. }
  exists rp, node, ds, range1, range2. cbv zeta.
  repeat split; try assumption; try (apply (Huniq _ _ _ _ H H0 H1)).
  intros E.
  pose proof (GLTFScene.filed_distinct Hinv) as Hnd.
  rewrite NoDup_nth_error in Hnd.
  apply Hij, Hnd.
  - rewrite length_map. apply nth_error_Some.
    unfold GLTFScene.Filed in *. rewrite Hf1. discriminate.
  - rewrite !nth_error_map. unfold GLTFScene.Filed in *.
    rewrite Hf1, Hf2. simpl. rewrite E. reflexivity.
Qed.

Lemma build_shares_pipeline_and_material_witness :
  exists renderPipeline material primitives range1 range2,
    let draw1 := GLTFScene.draw_entry (Examples.built_primitive 0) (Some range1) in
    let draw2 := GLTFScene.draw_entry (Examples.built_primitive 1) (Some range2) in
    In (GLTFScene.pipelineKey (Examples.built_primitive 0), renderPipeline)
       (GLTFScene.renderPipelines (fst Examples.pair_built)) /\
    In (material, primitives)
       (RenderPipeline.materialPrimitivesMap renderPipeline) /\
    In draw1 primitives /\ In draw2 primitives /\ draw1 <> draw2 /\
    forall ks' renderPipeline' material' primitives',
      In (ks', renderPipeline')
         (GLTFScene.renderPipelines (fst Examples.pair_built)) ->
      In (material', primitives')
         (RenderPipeline.materialPrimitivesMap renderPipeline') ->
      In draw1 primitives' \/ In draw2 primitives' ->
      (ks', renderPipeline') =
        (GLTFScene.pipelineKey (Examples.built_primitive 0), renderPipeline) /\
      (material', primitives') = (material, primitives).
Proof.
  apply (build_shares_pipeline_and_material
           Examples.options Examples.store Examples.device
           (snd Examples.pair_built) Examples.pair_scene
           (fst Examples.pair_built) 0 1
           (Examples.primitive 0) (Examples.primitive 1)
           (Examples.built_primitive 0) (Examples.built_primitive 1));
    try (vm_compute; reflexivity).
  discriminate.
Defined.

Lemma build_instance_blocks_witness :
  exists buffer,
    GLTFScene.instanceBuffer (fst Examples.three_built) = Some buffer /\
    GPUBuffer.size buffer = 128 * length (GLTFScene.pairs Examples.three_nodes) /\
    length (GPUBuffer.contents buffer) * 4 = GPUBuffer.size buffer /\
    forall i node,
      nth_error (GLTFScene.instances_of (GLTFScene.groups Examples.three_nodes)
                   (GLTFScene.all_primitives Examples.three_nodes)) i
        = Some node ->
      GLTFScene.slice16 (GPUBuffer.contents buffer) (32 * i) =
        elements (worldMatrix (Examples.store node)) /\
      GLTFScene.slice16 (GPUBuffer.contents buffer) (32 * i + 16) =
        elements (worldNormalMatrix (Examples.store node)).
Proof.
  apply (build_instance_blocks Examples.options Examples.store Examples.device
           (snd Examples.three_built) Examples.three_nodes
           (fst Examples.three_built)).
  vm_compute. reflexivity.
Defined.

(** ** Scenes on which [build] does not keep what the specification says *)

(** C1: two meshes whose primitives serialize to the same JSON form one
    group of two nodes, but each of the two primitives claims a range of two
    instances; the second range lies outside the buffer of two instances and
    [build] ends in a [RangeError].  A mesh that no node refers to has no
    group at all, and [build] ends in a [TypeError]. *)
Theorem build_twin_meshes_throws :
  length (GLTFScene.pairs Examples.twin_meshes) = 2 /\
  map (fun g => length (snd g)) (GLTFScene.groups Examples.twin_meshes) = [2] /\
  GLTFScene.assigned_ranges (GLTFScene.groups Examples.twin_meshes)
    (GLTFScene.all_primitives Examples.twin_meshes) 0 =
  [{| first := 0; count := 2 |}; {| first := 2; count := 2 |}] /\
  GLTFScene.build Examples.options Examples.store Examples.device
                  Examples.twin_meshes = Throw RangeError /\
  GLTFScene.loaded Examples.twin_meshes /\
  GLTFScene.loaded Examples.orphan_mesh /\
  map (GLTFScene.group (GLTFScene.groups Examples.orphan_mesh))
      (GLTFScene.all_primitives Examples.orphan_mesh) =
  [Some [0]; None] /\
  GLTFScene.build Examples.options Examples.store Examples.device
                  Examples.orphan_mesh = Throw TypeError.
Proof.
  split; [vm_compute; reflexivity |].
  split; [vm_compute; reflexivity |].
  split; [vm_compute; reflexivity |].
  split; [vm_compute; reflexivity |].
  split.
  { intros node a_mesh [<- | [<- | []]] H; injection H as <-;
      (split; [left |]; reflexivity). }
  split; [| split; vm_compute; reflexivity].
  intros node a_mesh [<- | []] H. injection H as <-.
  split; [left |]; reflexivity.
Qed.

(** C9: a primitive without material makes [build] end in a [TypeError],
    although the other mesh of the scene has its material and builds when
    it is alone. *)
Theorem build_without_material_throws :
  GLTFPrimitive.build Examples.bare_primitive = Ok None /\
  GLTFScene.build Examples.options Examples.store Examples.device
                  Examples.bare_scene = Throw TypeError /\
  exists outcome,
    GLTFScene.build Examples.options Examples.store Examples.device
      (GLTFScene.new [Examples.node Examples.mesh 0] [Examples.mesh]) =
    Ok outcome.
Proof.
  split; [vm_compute; reflexivity |].
  split; [vm_compute; reflexivity |].
  eexists. vm_compute. reflexivity.
Qed.

(** A material whose part of the build result has [fragment] without
    [shader] stops the mesh pass at [shader.context]. *)
Lemma build_without_shader_throws :
  (exists r, GLTFPrimitive.build Examples.shaderless_primitive = Ok (Some r) /\
             GLTFScene.shader_context r = Throw TypeError) /\
  GLTFScene.build Examples.options Examples.store Examples.device
                  Examples.shaderless_scene = Throw TypeError.
Proof.
  split; [eexists; split |]; vm_compute; reflexivity.
Qed.

(** C4: building the three-node scene, adding a fourth node of the same
    mesh and building again leaves two draw entries in the render order, the
    old one with range 0..3 and the new one with range 0..4. *)
Theorem rebuild_keeps_old_range :
  GLTFScene.build Examples.options Examples.store Examples.device
                  Examples.three_nodes = Ok Examples.three_built /\
  GLTFScene.build Examples.options Examples.store (snd Examples.three_built)
    (GLTFScene.add (Examples.node Examples.mesh 3) (fst Examples.three_built)) =
    Ok Examples.three_rebuilt /\
  map RenderPrimitive.instanceInAll
      (GLTFScene.draw_entries
         (GLTFScene.renderPipelines (fst Examples.three_built))) =
    [Some {| first := 0; count := 3 |}] /\
  map RenderPrimitive.instanceInAll
      (GLTFScene.draw_entries
         (GLTFScene.renderPipelines (fst Examples.three_rebuilt))) =
    [Some {| first := 0; count := 3 |}; Some {| first := 0; count := 4 |}].
Proof.
  split; [vm_compute; reflexivity |].
  split; [vm_compute; reflexivity |].
  split; vm_compute; reflexivity.
Qed.

(** ** Refreshing the instance buffer *)

Section Refresh.
Import GLTFScene PrimitiveInstances.
Variable options : BuildOptions.t.

(** The scene [build] leaves. *)
Lemma build_laid_out (store : TransformStore) (device device' : GPUDevice)
    (scene built : GLTFScene.t) :
  build options store device scene = Ok (built, device') ->
  exists order,
    built =
    laid_out scene device order 0
      (repeat 0%Z (32 * length (pairs scene)))
      (overwrite (repeat 0%Z (32 * length (pairs scene))) 0
                 (instance_blocks store scene)) /\
    Forall (fun p => group (groups scene) p <> None) (all_primitives scene) /\
    length (instances_of (groups scene) (all_primitives scene)) * 32
      <= 32 * length (pairs scene).
Proof.
  intros H. apply build_inv in H as (st & Hst & _ & ->).
  apply build_primitives_refresh in Hst.
  eapply refresh_exact in Hst as (Hfound & Hfit & ->); [| reflexivity ..].
  cbn [instances matrices total arrayBuffer] in *.
  rewrite repeat_length in Hfit.
  exists (pipelines st). auto.
Qed.

Lemma all_primitives_laid_out (scene : GLTFScene.t) (device : GPUDevice)
    (order : list (key * RenderPipeline.t)) (o : nat)
    (staged uploaded : list f32) :
  all_primitives (laid_out scene device order o staged uploaded) =
  all_primitives scene.
Proof. reflexivity. Qed.

(** The loop of [updateBuffers] on a built scene: the staging array gets
    the blocks of all instances. *)
Lemma refresh_laid_out (store : TransformStore) (scene : GLTFScene.t)
    (device : GPUDevice) (order : list (key * RenderPipeline.t)) (o : nat)
    (staged uploaded : list f32) :
  Forall (fun p => group (groups scene) p <> None) (all_primitives scene) ->
  length (instances_of (groups scene) (all_primitives scene)) * 32
    <= 32 * length (pairs scene) ->
  length staged = 32 * length (pairs scene) ->
  refresh_instances store (laid_out scene device order o staged uploaded) =
  Ok {| total := length (pairs scene);
        offset := length (instances_of (groups scene) (all_primitives scene));
        matrices := groups scene;
        arrayBuffer := Some (overwrite staged 0 (instance_blocks store scene)) |}.
Proof.
  intros Hfound Hfit Hstaged.
  rewrite (refresh_instances_Ok store
             (laid_out scene device order o staged uploaded)
             {| total := length (pairs scene);
                offset := o;
                matrices := groups scene;
                arrayBuffer := Some staged |}
             staged eq_refl eq_refl);
    rewrite ?all_primitives_laid_out; cbn [matrices total];
    [| exact Hfound | lia].
  unfold refreshed_data. rewrite all_primitives_laid_out.
  reflexivity.
Qed.

Lemma updateBuffers_laid_out (store : TransformStore) (scene : GLTFScene.t)
    (queue : GPUQueue)
    (device : GPUDevice) (order : list (key * RenderPipeline.t)) (o : nat)
    (staged uploaded : list f32) :
  this_device scene = Some queue ->
  Forall (fun p => group (groups scene) p <> None) (all_primitives scene) ->
  length (instances_of (groups scene) (all_primitives scene)) * 32
    <= 32 * length (pairs scene) ->
  length staged = 32 * length (pairs scene) ->
  length uploaded = 32 * length (pairs scene) ->
  updateBuffers store (laid_out scene device order o staged uploaded) =
  Ok (laid_out scene device order
        (length (instances_of (groups scene) (all_primitives scene)))
        (overwrite staged 0 (instance_blocks store scene))
        (overwrite staged 0 (instance_blocks store scene))).
Proof.
  intros Hdevice Hfound Hfit Hstaged Huploaded.
  rewrite (updateBuffers_Ok store
             (laid_out scene device order o staged uploaded) queue
             {| total := length (pairs scene);
                offset := o;
                matrices := groups scene;
                arrayBuffer := Some staged |}
             {| GPUBuffer.handle := next_handle device;
                GPUBuffer.size := 128 * length (pairs scene);
                GPUBuffer.contents := uploaded |}
             staged Hdevice eq_refl eq_refl eq_refl);
    rewrite ?all_primitives_laid_out; cbn [matrices GPUBuffer.size];
    [| exact Hfound | lia | lia].
  unfold refreshed_data. rewrite all_primitives_laid_out.
  cbn [matrices]. fold (instance_blocks store scene).
  rewrite skipn_all2, app_nil_r; [reflexivity |].
  rewrite length_overwrite; unfold instance_blocks;
    rewrite ?length_blocks; simpl; lia.
Qed.
End Refresh.

Lemma overwrite_zeros (n : nat) (data : list f32) :
  length data <= n ->
  overwrite (repeat 0%Z n) 0 data = (data ++ repeat 0%Z (n - length data))%list.
Proof.
  intros H. unfold overwrite. cbn [firstn app Nat.add]. f_equal.
  replace n with (length data + (n - length data)) at 1 by lia.
  rewrite repeat_app, skipn_app, repeat_length, Nat.sub_diag.
  rewrite skipn_all2 by (rewrite repeat_length; lia). reflexivity.
Qed.

Section AfterRefresh.
Import GLTFScene PrimitiveInstances.

(** What a call leaves of a built scene: the staging array holds the blocks
    of all instances, and so does the instance buffer if the scene has a
    device; without one the buffer is as it was. *)
Lemma after_updateBuffers_laid_out (store : TransformStore)
    (scene : GLTFScene.t) (device : GPUDevice)
    (order : list (key * RenderPipeline.t)) (o : nat)
    (staged uploaded : list f32) :
  Forall (fun p => group (groups scene) p <> None) (all_primitives scene) ->
  length (instances_of (groups scene) (all_primitives scene)) * 32
    <= 32 * length (pairs scene) ->
  length staged = 32 * length (pairs scene) ->
  length uploaded = 32 * length (pairs scene) ->
  after_updateBuffers store (laid_out scene device order o staged uploaded) =
  Some (laid_out scene device order
          (length (instances_of (groups scene) (all_primitives scene)))
          (overwrite staged 0 (instance_blocks store scene))
          match this_device scene with
          | Some _ => overwrite staged 0 (instance_blocks store scene)
          | None => uploaded
          end) /\
  updateBuffers store (laid_out scene device order o staged uploaded) =
  match this_device scene with
  | Some _ =>
      Ok (laid_out scene device order
            (length (instances_of (groups scene) (all_primitives scene)))
            (overwrite staged 0 (instance_blocks store scene))
            (overwrite staged 0 (instance_blocks store scene)))
  | None => Throw TypeError
  end.
Proof.
  intros Hfound Hfit Hstaged Huploaded.
  unfold after_updateBuffers, updateBuffers.
  cbn [primitiveInstances laid_out].
  fold (laid_out scene device order o staged uploaded).
  rewrite (refresh_laid_out store scene device order o staged uploaded
             Hfound Hfit Hstaged).
  cbn [bind].
  destruct (this_device scene) as [queue |] eqn:Hdevice.
  - pose proof (updateBuffers_laid_out store scene queue device order o
                  staged uploaded Hdevice Hfound Hfit Hstaged Huploaded) as H.
    unfold updateBuffers in H.
    rewrite (refresh_laid_out store scene device order o staged uploaded
               Hfound Hfit Hstaged) in H.
    cbn [bind] in H. rewrite H. split; reflexivity.
  - unfold upload. cbn [this_device laid_out]. rewrite Hdevice.
    split; [| reflexivity].
    unfold refreshed_scene, laid_out.
    cbn [children a_meshs this_device renderPipelines instanceBuffer
         instanceBindGroup instanceBindGroupIndex].
    reflexivity.
Qed.
End AfterRefresh.

(** C5: on every scene [build] has returned for, two calls of
    [updateBuffers] in succession with the same transforms leave the same
    bytes in the staging array: the first call writes the blocks of all
    instances, followed by zeros where the array is longer, and the second
    call leaves the scene exactly as the first one left it.  On a scene
    without device, as the constructor and [build] leave it, each of the
    two calls then throws a [TypeError] at [this.device.queue], with the
    staging array written and the instance buffer as [build] filled it;
    with a device both calls return and the instance buffer holds the same
    bytes as the staging array. *)
Theorem updateBuffers_idempotent (options : BuildOptions.t)
    (built_with store : TransformStore) (device device' : GPUDevice)
    (scene built : GLTFScene.t) :
  GLTFScene.build options built_with device scene = Ok (built, device') ->
  let data :=
    (GLTFScene.instance_blocks store scene ++
     repeat 0%Z (32 * length (GLTFScene.pairs scene) -
                 length (GLTFScene.instance_blocks store scene)))%list in
  exists once,
    GLTFScene.after_updateBuffers store built = Some once /\
    GLTFScene.after_updateBuffers store once = Some once /\
    GLTFScene.staging once = Some data /\
    match GLTFScene.this_device scene with
    | None =>
        GLTFScene.updateBuffers store built = Throw TypeError /\
        GLTFScene.updateBuffers store once = Throw TypeError /\
        GLTFScene.instanceBuffer once = GLTFScene.instanceBuffer built
    | Some _ =>
        GLTFScene.updateBuffers store built = Ok once /\
        GLTFScene.updateBuffers store once = Ok once /\
        option_map GPUBuffer.contents (GLTFScene.instanceBuffer once) =
          Some data
    end.
Proof.
  intros H data.
  apply build_laid_out in H as (order & -> & Hfound & Hfit).
  set (zeros := repeat 0%Z (32 * length (GLTFScene.pairs scene))).
  set (uploaded := overwrite zeros 0
                     (GLTFScene.instance_blocks built_with scene)).
  assert (Hblocks : forall st, length (GLTFScene.instance_blocks st scene)
                               <= 32 * length (GLTFScene.pairs scene)).
  { intros st. unfold GLTFScene.instance_blocks. rewrite length_blocks.
    simpl. lia. }
  assert (Hzeros : length zeros = 32 * length (GLTFScene.pairs scene))
    by apply repeat_length.
  assert (Hdata : overwrite zeros 0 (GLTFScene.instance_blocks store scene) =
                  data) by (apply overwrite_zeros, Hblocks).
  assert (Hlen : length data = 32 * length (GLTFScene.pairs scene)).
  { rewrite <- Hdata. rewrite length_overwrite; [exact Hzeros |].
    unfold zeros. rewrite repeat_length. apply Hblocks. }
  assert (Huploaded : length uploaded = 32 * length (GLTFScene.pairs scene)).
  { unfold uploaded. rewrite length_overwrite; [exact Hzeros |].
    unfold zeros. rewrite repeat_length. apply Hblocks. }
  assert (Hsame : overwrite data 0 (GLTFScene.instance_blocks store scene) =
                  data).
  { rewrite <- Hdata at 1.
    rewrite overwrite_same_place, Hdata;
      [reflexivity
      | unfold zeros; rewrite repeat_length; apply Hblocks
      | reflexivity]. }
  destruct (after_updateBuffers_laid_out store scene device order 0
              zeros uploaded Hfound Hfit Hzeros Huploaded)
    as (Hafter & Hcall).
  rewrite Hdata in Hafter, Hcall.
  eexists. split; [exact Hafter |].
  destruct (GLTFScene.this_device scene) as [queue |] eqn:Hdevice.
  - destruct (after_updateBuffers_laid_out store scene device order
                (length (GLTFScene.instances_of (GLTFScene.groups scene)
                           (GLTFScene.all_primitives scene)))
                data data Hfound Hfit Hlen Hlen)
      as (Hafter2 & Hcall2).
    rewrite Hdevice, Hsame in Hafter2, Hcall2.
    split; [exact Hafter2 |]. split; [reflexivity |].
    split; [exact Hcall |]. split; [exact Hcall2 | reflexivity].
  - destruct (after_updateBuffers_laid_out store scene device order
                (length (GLTFScene.instances_of (GLTFScene.groups scene)
                           (GLTFScene.all_primitives scene)))
                data uploaded Hfound Hfit Hlen Huploaded)
      as (Hafter2 & Hcall2).
    rewrite Hdevice in Hafter2, Hcall2. rewrite Hsame in Hafter2.
    split; [exact Hafter2 |]. split; [reflexivity |].
    split; [exact Hcall |]. split; [exact Hcall2 | reflexivity].
Qed.

Section Ranges.
Import GLTFScene PrimitiveInstances.

Lemma Forall2_nth_error_r {A B : Type} (R : A -> B -> Prop) (l : list A)
    (l' : list B) (i : nat) (b : B) :
  Forall2 R l l' -> nth_error l' i = Some b ->
  exists a, nth_error l i = Some a /\ R a b.
Proof.
  intros H. revert i. induction H as [| x y l l' Hxy _ IH]; intros i Hi.
  - destruct i; discriminate Hi.
  - destruct i as [| i]; simpl in *.
    + injection Hi as <-. exists x. auto.
    + apply IH, Hi.
Qed.

(** The range of the primitive at position [i] has the size of its group,
    and its instances are the nodes of the group, in order. *)
Lemma assigned_ranges_nth (matrices : list (key * list TransformRef))
    (a_primitives : list GLTFPrimitive.t) (start i : nat)
    (p : GLTFPrimitive.t) (range : InstanceRange) :
  nth_error a_primitives i = Some p ->
  nth_error (assigned_ranges matrices a_primitives start) i = Some range ->
  count range = length (group_nodes matrices p) /\
  start <= first range /\
  forall k node,
    nth_error (group_nodes matrices p) k = Some node ->
    nth_error (instances_of matrices a_primitives) (first range - start + k)
    = Some node.
Proof.
  revert start i.
  induction a_primitives as [| q ps IH]; intros start i Hp Hrange.
  - destruct i; discriminate Hp.
  - destruct i as [| i]; simpl in Hp, Hrange.
    + injection Hp as ->. injection Hrange as <-. simpl.
      split; [reflexivity |]. split; [lia |].
      intros k node Hk. rewrite Nat.sub_diag. simpl.
      unfold instances_of. simpl.
      rewrite nth_error_app1; [exact Hk |].
      apply nth_error_Some. congruence.
    + destruct (IH _ _ Hp Hrange) as (Hcount & Hstart & Hnodes).
      split; [exact Hcount |]. split; [lia |].
      intros k node Hk. unfold instances_of. simpl.
      rewrite nth_error_app2 by lia.
      rewrite <- (Hnodes k node Hk). f_equal. lia.
Qed.

Lemma in_draw_entries (order : list (key * RenderPipeline.t))
    (d : RenderPrimitive.t) :
  In d (draw_entries order) ->
  exists ks h, placed order ks h d.
Proof.
  unfold draw_entries. intros H.
  apply in_flat_map in H as ([ks rp] & Hrp & H).
  apply in_flat_map in H as ([m ds] & Hm & Hd).
  exists ks, (RenderNode.bindGroup m), rp, m, ds. auto.
Qed.
End Ranges.

Section RefreshChain.
Import GLTFScene PrimitiveInstances.
Variable scene : GLTFScene.t.
Variable queue : GPUQueue.
Variable device : GPUDevice.
Variable order : list (key * RenderPipeline.t).
Hypothesis assigned : this_device scene = Some queue.
Hypothesis found :
  Forall (fun p => group (groups scene) p <> None) (all_primitives scene).
Hypothesis fit :
  length (instances_of (groups scene) (all_primitives scene)) * 32
    <= 32 * length (pairs scene).

Lemma length_refreshed (store : TransformStore) (staged : list f32) :
  length staged = 32 * length (pairs scene) ->
  length (overwrite staged 0 (instance_blocks store scene)) =
  32 * length (pairs scene).
Proof.
  intros H. rewrite length_overwrite; [exact H |].
  unfold instance_blocks. rewrite length_blocks. simpl. lia.
Qed.

(** Any number of refreshes keeps the scene as [build] laid it out. *)
Lemma updateBuffers_chain (stores : list TransformStore) (o : nat)
    (staged uploaded : list f32) :
  length staged = 32 * length (pairs scene) ->
  length uploaded = 32 * length (pairs scene) ->
  exists o' staged' uploaded',
    forEach updateBuffers stores
            (laid_out scene device order o staged uploaded) =
    Ok (laid_out scene device order o' staged' uploaded') /\
    length staged' = 32 * length (pairs scene) /\
    length uploaded' = 32 * length (pairs scene).
Proof.
  revert o staged uploaded.
  induction stores as [| store stores IH]; intros o staged uploaded Hs Hu.
  - exists o, staged, uploaded. auto.
  - cbn [forEach].
    rewrite (updateBuffers_laid_out store scene queue device order o staged
               uploaded assigned found fit Hs Hu).
    cbn [bind]. apply IH; apply length_refreshed, Hs.
Qed.

Lemma updateBuffers_chain_last (front : list TransformStore)
    (store : TransformStore) (o : nat) (staged uploaded : list f32) :
  length staged = 32 * length (pairs scene) ->
  length uploaded = 32 * length (pairs scene) ->
  exists o' base,
    forEach updateBuffers (front ++ [store])
            (laid_out scene device order o staged uploaded) =
    Ok (laid_out scene device order o'
          (overwrite base 0 (instance_blocks store scene))
          (overwrite base 0 (instance_blocks store scene))) /\
    length base = 32 * length (pairs scene).
Proof.
  intros Hs Hu.
  destruct (updateBuffers_chain front o staged uploaded Hs Hu)
    as (o1 & staged1 & uploaded1 & Hfront & Hs1 & Hu1).
  rewrite forEach_app, Hfront. cbn [bind forEach].
  rewrite (updateBuffers_laid_out store scene queue device order o1 staged1
             uploaded1 assigned found fit Hs1 Hu1).
  cbn [bind]. eexists. exists staged1. auto.
Qed.

Lemma same_layout_laid_out (o o' : nat) (staged uploaded staged' uploaded' : list f32) :
  length staged = length staged' ->
  length uploaded = length uploaded' ->
  same_layout (laid_out scene device order o staged uploaded)
              (laid_out scene device order o' staged' uploaded').
Proof.
  intros Hs Hu.
  constructor; cbn [laid_out children a_meshs renderPipelines instanceBindGroup
                    instanceBindGroupIndex instanceBuffer primitiveInstances
                    staging option_map GPUBuffer.handle GPUBuffer.size
                    GPUBuffer.contents total matrices arrayBuffer];
    try reflexivity.
  - rewrite Hu. reflexivity.
  - rewrite Hs. reflexivity.
Qed.
End RefreshChain.

(** C6: the constructor leaves a scene without device and [build] assigns
    none.  On such a scene [updateBuffers] re-walks the groups and
    re-writes the staging array from the current transforms, and then
    uploads nothing: reading [this.device.queue] ends the call in a
    [TypeError] before [writeBuffer], so the instance buffer keeps what
    [build] wrote.  Once a device is assigned to a freshly constructed
    scene, any number of calls returns and leaves the layout as [build]
    made it: the same render order with the same ranges, the same instance
    buffer of the same size, the same groups; the staging array is uploaded
    in full, and the range of every draw entry holds the current transform
    blocks of the nodes of a primitive's group, in order. *)
Theorem updateBuffers_never_uploads :
  (forall a_node a_meshs,
      GLTFScene.this_device (GLTFScene.new a_node a_meshs) = None) /\
  (forall options built_with store device device' scene built,
      GLTFScene.this_device scene = None ->
      GLTFScene.build options built_with device scene = Ok (built, device') ->
      exists refreshed,
        GLTFScene.this_device built = None /\
        GLTFScene.refresh_instances store built = Ok refreshed /\
        PrimitiveInstances.matrices refreshed = GLTFScene.groups scene /\
        PrimitiveInstances.arrayBuffer refreshed =
          Some (GLTFScene.instance_blocks store scene ++
                repeat 0%Z (32 * length (GLTFScene.pairs scene) -
                            length (GLTFScene.instance_blocks store scene)))%list /\
        GLTFScene.upload built refreshed = Throw TypeError /\
        GLTFScene.updateBuffers store built = Throw TypeError /\
        GLTFScene.after_updateBuffers store built =
          Some (GLTFScene.refreshed_scene built refreshed) /\
        option_map GPUBuffer.contents (GLTFScene.instanceBuffer built) =
          Some (GLTFScene.instance_blocks built_with scene ++
                repeat 0%Z (32 * length (GLTFScene.pairs scene) -
                            length (GLTFScene.instance_blocks built_with scene)))%list) /\
  (forall options built_with device device' scene built queue stores,
      GLTFScene.this_device scene = Some queue ->
      GLTFScene.renderPipelines scene = [] ->
      GLTFScene.build options built_with device scene = Ok (built, device') ->
      exists refreshed,
        forEach GLTFScene.updateBuffers stores built = Ok refreshed /\
        GLTFScene.same_layout built refreshed /\
        forall front store,
          stores = front ++ [store] ->
          exists data buffer,
            GLTFScene.staging refreshed = Some data /\
            GLTFScene.instanceBuffer refreshed = Some buffer /\
            GPUBuffer.contents buffer = data /\
            forall d,
              In d (GLTFScene.draw_entries (GLTFScene.renderPipelines built)) ->
              exists p range,
                In p (GLTFScene.all_primitives scene) /\
                RenderPrimitive.instanceInAll d = Some range /\
                count range =
                  length (GLTFScene.group_nodes (GLTFScene.groups scene) p) /\
                forall k node,
                  nth_error (GLTFScene.group_nodes (GLTFScene.groups scene) p) k
                    = Some node ->
                  GLTFScene.slice16 data (32 * (first range + k)) =
                    elements (worldMatrix (store node)) /\
                  GLTFScene.slice16 data (32 * (first range + k) + 16) =
                    elements (worldNormalMatrix (store node))).
Proof.
  split; [reflexivity |].
  split.
  { intros options built_with store device device' scene built Hdevice H.
    apply build_laid_out in H as (order & -> & Hfound & Hfit).
    assert (Hblocks : forall st, length (GLTFScene.instance_blocks st scene)
                                 <= 32 * length (GLTFScene.pairs scene)).
    { intros st. unfold GLTFScene.instance_blocks. rewrite length_blocks.
      simpl. lia. }
    assert (Hupload : forall refreshed,
               GLTFScene.upload
                 (GLTFScene.laid_out scene device order 0
                    (repeat 0%Z (32 * length (GLTFScene.pairs scene)))
                    (overwrite (repeat 0%Z (32 * length (GLTFScene.pairs scene)))
                               0 (GLTFScene.instance_blocks built_with scene)))
                 refreshed = Throw TypeError).
    { intros refreshed. unfold GLTFScene.upload.
      cbn [GLTFScene.this_device GLTFScene.laid_out]. rewrite Hdevice.
      reflexivity. }
    eexists.
    split; [exact Hdevice |].
    split; [apply refresh_laid_out; try assumption; apply repeat_length |].
    split; [reflexivity |].
    split; [cbn [PrimitiveInstances.arrayBuffer];
            rewrite overwrite_zeros by apply Hblocks; reflexivity |].
    split; [apply Hupload |].
    split; [| split].
    - unfold GLTFScene.updateBuffers.
      rewrite refresh_laid_out; try assumption; [apply Hupload |].
      apply repeat_length.
    - unfold GLTFScene.after_updateBuffers.
      cbn [GLTFScene.primitiveInstances GLTFScene.laid_out].
      fold (GLTFScene.laid_out scene device order 0
              (repeat 0%Z (32 * length (GLTFScene.pairs scene)))
              (overwrite (repeat 0%Z (32 * length (GLTFScene.pairs scene)))
                         0 (GLTFScene.instance_blocks built_with scene))).
      rewrite refresh_laid_out; try assumption; [| apply repeat_length].
      rewrite Hupload. reflexivity.
    - cbn [GLTFScene.laid_out GLTFScene.instanceBuffer option_map
           GPUBuffer.contents].
      rewrite overwrite_zeros by apply Hblocks. reflexivity. }
  intros options built_with device device' scene built queue stores Hdevice
    Hfresh Hbuild.
  destruct (build_filed options built_with _ _ _ _ Hfresh Hbuild)
    as (st & filed & Horder & Hinv & Hfor & Hranges).
  apply build_laid_out in Hbuild as (order & -> & Hfound & Hfit).
  cbn [GLTFScene.laid_out GLTFScene.renderPipelines] in Horder. subst order.
  set (zeros := repeat 0%Z (32 * length (GLTFScene.pairs scene))).
  assert (Hzeros : length zeros = 32 * length (GLTFScene.pairs scene))
    by apply repeat_length.
  assert (Hbuilt : length (overwrite zeros 0
                             (GLTFScene.instance_blocks built_with scene)) =
                   32 * length (GLTFScene.pairs scene))
    by (apply length_refreshed; assumption).
  destruct (updateBuffers_chain scene queue device (GLTFScene.pipelines st)
              Hdevice Hfound Hfit stores 0 zeros _ Hzeros Hbuilt)
    as (o' & staged' & uploaded' & Hchain & Hs & Hu).
  eexists. split; [exact Hchain |].
  split;
    [apply same_layout_laid_out;
     [exact (eq_trans Hzeros (eq_sym Hs)) | exact (eq_trans Hbuilt (eq_sym Hu))]
    |].
  intros front store ->.
  destruct (updateBuffers_chain_last scene queue device
              (GLTFScene.pipelines st)
              Hdevice Hfound Hfit front store 0 zeros _ Hzeros Hbuilt)
    as (o2 & base & Hlast & Hbase).
  rewrite Hlast in Hchain. unfold GLTFScene.laid_out in Hchain.
  injection Hchain. intros. subst staged' uploaded'.
  eexists. eexists.
  split; [reflexivity |]. split; [reflexivity |]. split; [reflexivity |].
  intros d Hd.
  apply in_draw_entries in Hd as (ks & h & Hplaced).
  apply (GLTFScene.placed_filed Hinv) in Hplaced as (mk & m & _ & _ & Hin).
  apply In_nth_error in Hin as (i & Hi).
  destruct (Forall2_nth_error_r _ _ _ _ _ Hfor Hi)
    as (p & Hp & r & range & _ & E).
  injection E as -> -> ->.
  assert (Hrange : nth_error (GLTFScene.assigned_ranges (GLTFScene.groups scene)
                                (GLTFScene.all_primitives scene) 0) i
                   = Some range).
  { apply (f_equal (fun l => nth_error l i)) in Hranges.
    rewrite !nth_error_map in Hranges. unfold GLTFScene.Filed in *.
    rewrite Hi in Hranges. simpl in Hranges.
    destruct (nth_error _ i) as [range' |]; simpl in Hranges;
      [congruence | discriminate Hranges]. }
  destruct (assigned_ranges_nth _ _ _ _ _ _ Hp Hrange)
    as (Hcount & _ & Hnodes).
  exists p, range. split; [apply (nth_error_In _ _ Hp) |].
  split; [reflexivity |]. split; [exact Hcount |].
  intros k node Hk. apply slice16_blocks.
  rewrite <- (Hnodes k node Hk). f_equal. lia.
Qed.

(** ** Replaying the render order *)

Section Replay.
Import GLTFScene.

Lemma forEach_Ok_appends {A C : Type} (f : A -> list C -> result (list C))
    (ok : A -> bool) (g : A -> list C) :
  (forall a pass pass',
      f a pass = Ok pass' -> ok a = true /\ pass' = pass ++ g a) ->
  forall l pass pass',
    forEach f l pass = Ok pass' ->
    forallb ok l = true /\ pass' = pass ++ flat_map g l.
Proof.
  intros Hf l. induction l as [| a l IH]; intros pass pass' H; simpl in *.
  - injection H as <-. rewrite app_nil_r. auto.
  - apply bind_Ok in H as (pass1 & Ha & H).
    apply Hf in Ha as (-> & ->). apply IH in H as (-> & ->).
    rewrite <- app_assoc. auto.
Qed.

Lemma forEach_appends_Ok {A C : Type} (f : A -> list C -> result (list C))
    (ok : A -> bool) (g : A -> list C) :
  (forall a pass, ok a = true -> f a pass = Ok (pass ++ g a)) ->
  forall l pass,
    forallb ok l = true -> forEach f l pass = Ok (pass ++ flat_map g l).
Proof.
  intros Hf l. induction l as [| a l IH]; intros pass H; simpl in *.
  - rewrite app_nil_r. reflexivity.
  - apply andb_true_iff in H as (Ha & H).
    rewrite (Hf a pass Ha). simpl. rewrite (IH _ H), <- app_assoc.
    reflexivity.
Qed.

Lemma byteLength_bound_size (a : GLTFAccessor.t) (v : GLTFBufferView.t) :
  GLTFAccessor.view a = Some v ->
  GLTFAccessor.byteLength a = Ok (bound_size v a).
Proof.
  intros Hv. unfold GLTFAccessor.byteLength, GLTFAccessor.byteStride.
  rewrite Hv. reflexivity.
Qed.

Local Abbreviation bound_buffers :=
  (forallb (fun buffer : GPUBufferAccessor.t =>
              GLTFAccessor.has_view (GPUBufferAccessor.accessor buffer))).

Local Abbreviation bindings_from idx buffers :=
  (flat_map (fun binding : nat * GPUBufferAccessor.t =>
               bind_vertex_buffer (fst binding) (snd binding))
            (combine (seq idx (length buffers)) buffers)).

Lemma setVertexBuffers_Ok (buffers : list GPUBufferAccessor.t) :
  forall idx pass pass',
    setVertexBuffers idx buffers pass = Ok pass' ->
    bound_buffers buffers = true /\
    pass' = pass ++ bindings_from idx buffers.
Proof.
  induction buffers as [| buffer rest IH]; intros idx pass pass' H.
  - injection H as <-. rewrite app_nil_r. auto.
  - cbn [setVertexBuffers] in H. cbn [forallb length seq combine flat_map fst snd].
    unfold GLTFAccessor.has_view at 1, bind_vertex_buffer at 1.
    destruct (GLTFAccessor.view (GPUBufferAccessor.accessor buffer))
      as [v |] eqn:Hv; [| discriminate H].
    rewrite (byteLength_bound_size _ _ Hv) in H. cbn [bind] in H.
    apply IH in H as (-> & ->). rewrite <- app_assoc. auto.
Qed.

Lemma setVertexBuffers_bound (buffers : list GPUBufferAccessor.t) :
  forall idx pass,
    bound_buffers buffers = true ->
    setVertexBuffers idx buffers pass = Ok (pass ++ bindings_from idx buffers).
Proof.
  induction buffers as [| buffer rest IH]; intros idx pass H.
  - cbn. rewrite app_nil_r. reflexivity.
  - cbn [forallb] in H. apply andb_true_iff in H as (Hv & H).
    cbn [setVertexBuffers length seq combine flat_map fst snd].
    unfold GLTFAccessor.has_view in Hv. unfold bind_vertex_buffer at 1.
    destruct (GLTFAccessor.view (GPUBufferAccessor.accessor buffer))
      as [v |] eqn:Ev; [| discriminate Hv].
    rewrite (byteLength_bound_size _ _ Ev). cbn [bind].
    rewrite (IH _ _ H), <- app_assoc. reflexivity.
Qed.

Lemma render_primitive_Ok (d : RenderPrimitive.t) (pass pass' : list Command) :
  render_primitive d pass = Ok pass' ->
  drawable d = true /\ pass' = pass ++ replay_primitive d.
Proof.
  unfold render_primitive, drawable, replay_primitive, bind_vertex_buffers,
    bind_index_buffer, draw_call.
  intros H. apply bind_Ok in H as (bound & Hbound & H).
  apply setVertexBuffers_Ok in Hbound as (-> & ->). cbn [andb].
  destruct (RenderPrimitive.instanceInAll d) as [range |]; [| discriminate].
  destruct (RenderPrimitive.indices d) as [indices |].
  - unfold GLTFAccessor.has_view.
    destruct (GLTFAccessor.view indices) as [v |] eqn:Hv; [| discriminate].
    rewrite (byteLength_bound_size _ _ Hv) in H.
    destruct (GLTFAccessor.vertexType indices) as [fmt | e]; simpl in *;
      [| discriminate].
    injection H as <-. rewrite <- !app_assoc. auto.
  - injection H as <-. rewrite <- !app_assoc. auto.
Qed.

Lemma render_primitive_drawable (d : RenderPrimitive.t) (pass : list Command) :
  drawable d = true ->
  render_primitive d pass = Ok (pass ++ replay_primitive d).
Proof.
  unfold render_primitive, drawable, replay_primitive, bind_vertex_buffers,
    bind_index_buffer, draw_call.
  intros H. apply andb_true_iff in H as (Hbound & H).
  rewrite (setVertexBuffers_bound _ 0 pass Hbound). cbn [bind].
  destruct (RenderPrimitive.instanceInAll d) as [range |]; [| discriminate].
  destruct (RenderPrimitive.indices d) as [indices |].
  - unfold GLTFAccessor.has_view in H.
    destruct (GLTFAccessor.view indices) as [v |] eqn:Hv; [| discriminate].
    rewrite (byteLength_bound_size _ _ Hv).
    destruct (GLTFAccessor.vertexType indices) as [fmt | e]; simpl in *;
      [| discriminate].
    rewrite <- !app_assoc. reflexivity.
  - rewrite <- !app_assoc. reflexivity.
Qed.

Lemma render_material_Ok (m : RenderNode.t * list RenderPrimitive.t)
    (pass pass' : list Command) :
  render_material m pass = Ok pass' ->
  drawable_material m = true /\ pass' = pass ++ replay_material m.
Proof.
  unfold render_material, drawable_material, replay_material. intros H.
  apply (forEach_Ok_appends _ drawable replay_primitive render_primitive_Ok)
    in H as (-> & ->).
  rewrite <- app_assoc. auto.
Qed.

Lemma render_material_drawable (m : RenderNode.t * list RenderPrimitive.t)
    (pass : list Command) :
  drawable_material m = true ->
  render_material m pass = Ok (pass ++ replay_material m).
Proof.
  unfold render_material, drawable_material, replay_material. intros H.
  rewrite (forEach_appends_Ok _ drawable replay_primitive
             render_primitive_drawable _ _ H).
  rewrite <- app_assoc. reflexivity.
Qed.

Lemma render_pipeline_Ok (e : key * RenderPipeline.t)
    (pass pass' : list Command) :
  render_pipeline e pass = Ok pass' ->
  drawable_pipeline e = true /\ pass' = pass ++ replay_pipeline e.
Proof.
  unfold render_pipeline, drawable_pipeline, replay_pipeline. intros H.
  apply (forEach_Ok_appends _ drawable_material replay_material
           render_material_Ok) in H as (-> & ->).
  rewrite <- app_assoc. auto.
Qed.

Lemma render_pipeline_drawable (e : key * RenderPipeline.t)
    (pass : list Command) :
  drawable_pipeline e = true ->
  render_pipeline e pass = Ok (pass ++ replay_pipeline e).
Proof.
  unfold render_pipeline, drawable_pipeline, replay_pipeline. intros H.
  rewrite (forEach_appends_Ok _ drawable_material replay_material
             render_material_drawable _ _ H).
  rewrite <- app_assoc. reflexivity.
Qed.

(** [render] succeeds exactly on a drawable order, and then its calls are
    the replay of the order after the instance bind group is set. *)
Lemma render_Ok (scene : GLTFScene.t) (trace : list Command) :
  render scene = Ok trace ->
  exists index bindGroup,
    instanceBindGroupIndex scene = Some index /\
    instanceBindGroup scene = Some bindGroup /\
    drawable_order (renderPipelines scene) = true /\
    trace = SetBindGroup index bindGroup :: replay (renderPipelines scene).
Proof.
  unfold render.
  destruct (instanceBindGroupIndex scene) as [index |]; [| discriminate].
  destruct (instanceBindGroup scene) as [bindGroup |]; [| discriminate].
  intros H.
  apply (forEach_Ok_appends _ drawable_pipeline replay_pipeline
           render_pipeline_Ok) in H as (Hok & ->).
  exists index, bindGroup. auto.
Qed.

Lemma render_drawable (scene : GLTFScene.t) (index : nat) (bindGroup : Handle) :
  instanceBindGroupIndex scene = Some index ->
  instanceBindGroup scene = Some bindGroup ->
  drawable_order (renderPipelines scene) = true ->
  render scene =
  Ok (SetBindGroup index bindGroup :: replay (renderPipelines scene)).
Proof.
  unfold render. intros -> -> H.
  apply (forEach_appends_Ok _ drawable_pipeline replay_pipeline
           render_pipeline_drawable _ [SetBindGroup index bindGroup] H).
Qed.

Lemma filter_flat_map {A B : Type} (f : B -> bool) (g : A -> list B)
    (l : list A) :
  filter f (flat_map g l) = flat_map (fun a => filter f (g a)) l.
Proof.
  induction l as [| a l IH]; simpl; [reflexivity |].
  rewrite filter_app, IH. reflexivity.
Qed.

Lemma filter_bind_vertex_buffers (f : Command -> bool)
    (buffers : list GPUBufferAccessor.t) :
  (forall slot view offset size,
      f (SetVertexBuffer slot view offset size) = false) ->
  filter f (bind_vertex_buffers buffers) = [].
Proof.
  intros Hf. unfold bind_vertex_buffers.
  induction (combine (seq 0 (length buffers)) buffers) as [| b l IH];
    cbn [flat_map]; [reflexivity |].
  rewrite filter_app, IH, app_nil_r. unfold bind_vertex_buffer.
  destruct (GLTFAccessor.view _); [| reflexivity].
  cbn [filter]. rewrite Hf. reflexivity.
Qed.

Lemma flat_map_ext_in {A B : Type} (f g : A -> list B) (l : list A) :
  (forall a, In a l -> f a = g a) -> flat_map f l = flat_map g l.
Proof.
  induction l as [| a l IH]; simpl; intros H; [reflexivity |].
  rewrite (H a), IH; auto.
Qed.

Lemma flat_map_nil {A B : Type} (l : list A) :
  flat_map (fun _ : A => @nil B) l = [].
Proof. induction l; simpl; auto. Qed.

Lemma flat_map_singleton {A B : Type} (f : A -> B) (l : list A) :
  flat_map (fun a => [f a]) l = map f l.
Proof. induction l as [| a l IH]; simpl; [| rewrite IH]; reflexivity. Qed.

Lemma filter_replay_primitive_bindings (f : Command -> bool)
    (d : RenderPrimitive.t) :
  (forall c, is_draw c = true -> f c = false) ->
  (forall slot view offset size,
      f (SetVertexBuffer slot view offset size) = false) ->
  (forall view format offset size,
      f (SetIndexBuffer view format offset size) = false) ->
  filter f (replay_primitive d) = [].
Proof.
  intros Hdraw Hvertex Hindex. unfold replay_primitive.
  rewrite filter_app, (filter_bind_vertex_buffers f _ Hvertex). simpl.
  destruct (RenderPrimitive.instanceInAll d) as [range |]; [| reflexivity].
  rewrite filter_app.
  assert (Hcall : filter f [draw_call d range] = []).
  { simpl. rewrite Hdraw; [reflexivity |].
    unfold draw_call. destruct (RenderPrimitive.indices d); reflexivity. }
  rewrite Hcall, app_nil_r.
  destruct (RenderPrimitive.indices d) as [indices |]; [| reflexivity].
  unfold bind_index_buffer.
  destruct (GLTFAccessor.view indices); [| reflexivity].
  destruct (GLTFAccessor.vertexType indices); [| reflexivity].
  simpl. rewrite Hindex. reflexivity.
Qed.

Lemma pipeline_bindings_replay (order : list (key * RenderPipeline.t)) :
  filter is_SetPipeline (replay order) = pipeline_bindings order.
Proof.
  unfold replay, pipeline_bindings. rewrite filter_flat_map.
  rewrite <- flat_map_singleton. apply flat_map_ext_in. intros e _.
  unfold replay_pipeline. cbn [filter is_SetPipeline]. f_equal.
  rewrite filter_flat_map.
  rewrite (flat_map_ext_in _ (fun _ => [])); [apply flat_map_nil |].
  intros m _. unfold replay_material. cbn [filter is_SetPipeline].
  rewrite filter_flat_map.
  rewrite (flat_map_ext_in _ (fun _ => [])); [apply flat_map_nil |].
  intros d _. apply filter_replay_primitive_bindings;
    [intros []; simpl; congruence | reflexivity ..].
Qed.

Lemma material_bindings_replay (order : list (key * RenderPipeline.t)) :
  filter is_SetBindGroup (replay order) = material_bindings order.
Proof.
  unfold replay, material_bindings. rewrite filter_flat_map.
  apply flat_map_ext_in. intros e _.
  unfold replay_pipeline. cbn [filter is_SetBindGroup].
  rewrite filter_flat_map, <- flat_map_singleton.
  apply flat_map_ext_in. intros m _.
  unfold replay_material. cbn [filter is_SetBindGroup]. f_equal.
  rewrite filter_flat_map.
  rewrite (flat_map_ext_in _ (fun _ => [])); [apply flat_map_nil |].
  intros d _. apply filter_replay_primitive_bindings;
    [intros []; simpl; congruence | reflexivity ..].
Qed.

Lemma draws_replay_primitive (d : RenderPrimitive.t) :
  filter is_draw (replay_primitive d) =
  match RenderPrimitive.instanceInAll d with
  | Some range => [draw_call d range]
  | None => []
  end.
Proof.
  unfold replay_primitive.
  rewrite filter_app, (filter_bind_vertex_buffers is_draw) by reflexivity.
  simpl.
  destruct (RenderPrimitive.instanceInAll d) as [range |]; [| reflexivity].
  rewrite filter_app.
  assert (Hcall : filter is_draw [draw_call d range] = [draw_call d range]).
  { unfold draw_call. destruct (RenderPrimitive.indices d); reflexivity. }
  rewrite Hcall.
  destruct (RenderPrimitive.indices d) as [indices |]; [| reflexivity].
  unfold bind_index_buffer.
  destruct (GLTFAccessor.view indices); [| reflexivity].
  destruct (GLTFAccessor.vertexType indices); reflexivity.
Qed.

Lemma flat_map_flat_map {A B C : Type} (f : B -> list C) (g : A -> list B)
    (l : list A) :
  flat_map f (flat_map g l) = flat_map (fun a => flat_map f (g a)) l.
Proof.
  induction l as [| a l IH]; simpl; [reflexivity |].
  rewrite flat_map_app, IH. reflexivity.
Qed.

Lemma draw_calls_replay (order : list (key * RenderPipeline.t)) :
  filter is_draw (replay order) = draw_calls order.
Proof.
  unfold replay, draw_calls, draw_entries.
  rewrite filter_flat_map, flat_map_flat_map.
  apply flat_map_ext_in. intros e _.
  unfold replay_pipeline. cbn [filter is_draw].
  rewrite filter_flat_map, flat_map_flat_map.
  apply flat_map_ext_in. intros m _.
  unfold replay_material. cbn [filter is_draw].
  rewrite filter_flat_map.
  apply flat_map_ext_in. intros d _. apply draws_replay_primitive.
Qed.
End Replay.

Lemma key_eqb_refl (k : key) : key_eqb k k = true.
Proof. apply key_eqb_eq. reflexivity. Qed.

Lemma drawable_entries (order : list (key * RenderPipeline.t)) :
  GLTFScene.drawable_order order = true ->
  forall d, In d (GLTFScene.draw_entries order) -> GLTFScene.drawable d = true.
Proof.
  unfold GLTFScene.drawable_order, GLTFScene.draw_entries. intros H d Hd.
  apply in_flat_map in Hd as (e & He & Hd).
  apply in_flat_map in Hd as (m & Hm & Hd).
  rewrite forallb_forall in H. specialize (H e He).
  unfold GLTFScene.drawable_pipeline in H. rewrite forallb_forall in H.
  specialize (H m Hm).
  unfold GLTFScene.drawable_material in H. rewrite forallb_forall in H.
  apply (H d Hd).
Qed.

(** On a drawable order every draw entry gets exactly one draw call, over
    its own range. *)
Lemma draw_calls_entries (order : list (key * RenderPipeline.t)) :
  GLTFScene.drawable_order order = true ->
  map Some (GLTFScene.draw_calls order) =
  map (fun d => option_map (GLTFScene.draw_call d)
                           (RenderPrimitive.instanceInAll d))
      (GLTFScene.draw_entries order).
Proof.
  intros H. pose proof (drawable_entries order H) as Hall.
  unfold GLTFScene.draw_calls.
  induction (GLTFScene.draw_entries order) as [| d l IH]; [reflexivity |].
  cbn [flat_map map]. rewrite map_app, IH by (intros; apply Hall; right; auto).
  specialize (Hall d (or_introl eq_refl)). unfold GLTFScene.drawable in Hall.
  apply andb_true_iff in Hall as (_ & Hall).
  destruct (RenderPrimitive.instanceInAll d); [reflexivity | discriminate].
Qed.

Section Bindings.
Import GLTFScene.

Lemma bind_vertex_buffers_nth (buffers : list GPUBufferAccessor.t) :
  forall idx slot buffer,
    forallb (fun buffer : GPUBufferAccessor.t =>
               GLTFAccessor.has_view (GPUBufferAccessor.accessor buffer))
            buffers = true ->
    nth_error buffers slot = Some buffer ->
    exists view,
      GLTFAccessor.view (GPUBufferAccessor.accessor buffer) = Some view /\
      nth_error
        (flat_map (fun binding : nat * GPUBufferAccessor.t =>
                     bind_vertex_buffer (fst binding) (snd binding))
                  (combine (seq idx (length buffers)) buffers))
        slot =
      Some (SetVertexBuffer (idx + slot) (GLTFBufferView.index view)
              (GPUBufferAccessor.offset buffer)
              (bound_size view (GPUBufferAccessor.accessor buffer))).
Proof.
  induction buffers as [| b rest IH]; intros idx slot buffer Hbound Hnth.
  - destruct slot; discriminate Hnth.
  - cbn [forallb] in Hbound. apply andb_true_iff in Hbound as (Hb & Hbound).
    cbn [length seq combine flat_map fst snd].
    unfold GLTFAccessor.has_view in Hb. unfold bind_vertex_buffer at 1.
    destruct (GLTFAccessor.view (GPUBufferAccessor.accessor b)) as [v |] eqn:Hv;
      [| discriminate Hb].
    destruct slot as [| slot].
    + injection Hnth as <-. exists v. rewrite Hv, Nat.add_0_r. auto.
    + cbn [nth_error app] in *.
      destruct (IH (S idx) slot buffer Hbound Hnth) as (view & Hview & ->).
      exists view. rewrite Nat.add_succ_r. auto.
Qed.

Lemma bind_vertex_buffers_length (buffers : list GPUBufferAccessor.t) :
  forallb (fun buffer : GPUBufferAccessor.t =>
             GLTFAccessor.has_view (GPUBufferAccessor.accessor buffer))
          buffers = true ->
  length (bind_vertex_buffers buffers) = length buffers.
Proof.
  unfold bind_vertex_buffers. generalize 0.
  induction buffers as [| b rest IH]; intros idx Hbound; [reflexivity |].
  cbn [forallb] in Hbound. apply andb_true_iff in Hbound as (Hb & Hbound).
  cbn [length seq combine flat_map fst snd].
  unfold GLTFAccessor.has_view in Hb. unfold bind_vertex_buffer at 1.
  destruct (GLTFAccessor.view (GPUBufferAccessor.accessor b));
    [| discriminate Hb].
  cbn [app length]. rewrite (IH _ Hbound). reflexivity.
Qed.

Lemma nth_error_app_front {A : Type} (l l' : list A) (n : nat) (x : A) :
  nth_error l n = Some x -> nth_error (l ++ l') n = Some x.
Proof.
  revert n. induction l as [| a l IH]; intros [| n] H; try discriminate H;
    cbn in *; auto.
Qed.

Lemma skipn_app_front {A : Type} (l l' : list A) (n : nat) :
  length l = n -> skipn n (l ++ l') = l'.
Proof.
  intros <-. induction l as [| a l IH]; [reflexivity | exact IH].
Qed.

(** What the replay of a drawable entry consists of: one binding for each
    of its buffers, the buffer at position [slot] on slot [slot]; then the
    index buffer, if the entry has indices; then the draw. *)
Lemma replay_drawable (d : RenderPrimitive.t) :
  drawable d = true ->
  exists range,
    RenderPrimitive.instanceInAll d = Some range /\
    (forall slot buffer,
        nth_error (RenderPrimitive.buffers d) slot = Some buffer ->
        exists view,
          GLTFAccessor.view (GPUBufferAccessor.accessor buffer) = Some view /\
          nth_error (replay_primitive d) slot =
          Some (SetVertexBuffer slot (GLTFBufferView.index view)
                  (GPUBufferAccessor.offset buffer)
                  (bound_size view (GPUBufferAccessor.accessor buffer)))) /\
    skipn (length (RenderPrimitive.buffers d)) (replay_primitive d) =
    match RenderPrimitive.indices d with
    | Some indices =>
        match GLTFAccessor.view indices, GLTFAccessor.vertexType indices with
        | Some view, Ok indexFormat =>
            [SetIndexBuffer (GLTFBufferView.index view) indexFormat
                            (GLTFAccessor.byteOffset indices)
                            (bound_size view indices);
             DrawIndexed (GLTFAccessor.count indices) (count range) 0 0
                         (first range)]
        | _, _ => []
        end
    | None =>
        [Draw (RenderPrimitive.vertexCount d) (count range) 0 (first range)]
    end.
Proof.
  unfold drawable. intros H. apply andb_true_iff in H as (Hbound & H).
  destruct (RenderPrimitive.instanceInAll d) as [range |] eqn:Hrange;
    [| discriminate H].
  exists range. split; [reflexivity |]. split.
  - intros slot buffer Hnth.
    destruct (bind_vertex_buffers_nth _ 0 slot buffer Hbound Hnth)
      as (view & Hview & Hslot).
    exists view. split; [exact Hview |].
    unfold replay_primitive. apply nth_error_app_front. exact Hslot.
  - unfold replay_primitive. rewrite Hrange.
    rewrite skipn_app_front by (apply bind_vertex_buffers_length, Hbound).
    unfold draw_call, bind_index_buffer.
    destruct (RenderPrimitive.indices d) as [indices |]; [| reflexivity].
    apply andb_true_iff in H as (Hview & Hformat).
    unfold GLTFAccessor.has_view in Hview.
    destruct (GLTFAccessor.view indices); [| discriminate Hview].
    destruct (GLTFAccessor.vertexType indices); [| discriminate Hformat].
    reflexivity.
Qed.
End Bindings.

Section ThreeNodes.
Import GLTFScene PrimitiveInstances.
Variable options : BuildOptions.t.
Variable store : TransformStore.
Variable device : GPUDevice.
Variable p : GLTFPrimitive.t.
Variable r : GLTFPrimitive.BuildResult.
Variable context : JSValue.
Variables t1 t2 t3 : TransformRef.
Hypothesis built_p : GLTFPrimitive.build p = Ok (Some r).
Hypothesis context_p : shader_context r = Ok context.

Lemma groups_three_sharing :
  traverse group_node (three_sharing p t1 t2 t3) empty_instances =
  {| total := 3; offset := 0;
     matrices := [(stringify (GLTFPrimitive.__json p), [t1; t2; t3])];
     arrayBuffer := None |}.
Proof.
  rewrite traverse_group_pairs.
  change (pairs (three_sharing p t1 t2 t3))
    with [(stringify (GLTFPrimitive.__json p), t1);
          (stringify (GLTFPrimitive.__json p), t2);
          (stringify (GLTFPrimitive.__json p), t3)].
  unfold empty_instances. cbn [fold_left]. unfold group_pair.
  cbn [Map_get Map_set fst snd matrices total offset arrayBuffer app].
  rewrite !key_eqb_refl.
  cbn [Map_get Map_set fst snd matrices total offset arrayBuffer app].
  rewrite !key_eqb_refl.
  reflexivity.
Qed.

Lemma build_three_sharing :
  exists built device',
    build options store device (three_sharing p t1 t2 t3) = Ok (built, device') /\
    instanceBindGroupIndex built = Some 1 /\
    instanceBindGroup built = Some (1 + next_handle device) /\
    renderPipelines built =
    [(pipelineKey r,
      {| RenderPipeline.pipeline := pipeline_of options r;
         RenderPipeline.materialPrimitivesMap :=
           [({| RenderNode.groupIndex := 2;
                RenderNode.bindGroup := 2 + next_handle device;
                RenderNode.primitive := p |},
             [draw_entry r (Some {| first := 0; count := 3 |})])] |})].
Proof.
  unfold build. rewrite groups_three_sharing.
  cbn [total offset matrices arrayBuffer create fst snd].
  change (16 * 2 * 4 * 3 / 4) with 96.
  unfold three_sharing at 1. unfold new.
  cbn [a_meshs renderPipelines forEach GLTFMesh.a_primitives].
  unfold build_primitive at 1. rewrite built_p.
  destruct (shader_context_Ok r context context_p)
    as (shader & Hs & Hc & E & Es).
  cbn [bind]. rewrite Hs.
  cbn [bind Map_get create materialCache gpu pipelines instances
       RenderPipeline.materialPrimitivesMap RenderPipeline.pipeline].
  rewrite Hc.
  cbn [bind Map_get create materialCache gpu pipelines instances
       RenderPipeline.materialPrimitivesMap RenderPipeline.pipeline].
  rewrite (setInstancePos_Ok store p _ (repeat 0%Z 96) [t1; t2; t3]);
    [| reflexivity
     | unfold group; cbn [matrices Map_get]; rewrite key_eqb_refl; reflexivity
     | rewrite repeat_length; simpl; lia].
  cbn [bind app Map_set next_handle].
  eexists. eexists. split; [reflexivity |].
  cbn [instanceBindGroupIndex instanceBindGroup renderPipelines pipelines].
  unfold pipelineKey, pipeline_of.
  unfold GLTFPrimitive.bindGroupLayoutEntries. rewrite <- E, <- Es. auto.
Qed.
End ThreeNodes.

(** C7: whenever [render] returns, its calls are the replay of the render
    order: after the instance bind group, each pipeline entry is bound once,
    in order; under it each material's bind group is bound once; and each
    draw entry binds its buffers and gets one instanced draw, indexed or
    not, over its own [first] and [count].  The replay of a draw entry
    binds the buffer at each position of the entry to the slot of that
    position, then the index buffer if there are indices, then draws.
    [render] returns on every order whose entries are drawable.  A scene of
    three nodes that share one buildable primitive is built into one draw
    entry and drawn by one draw call of three instances. *)
Theorem render_replays_order :
  (forall scene trace,
      GLTFScene.render scene = Ok trace ->
      let order := GLTFScene.renderPipelines scene in
      exists index bindGroup,
        GLTFScene.instanceBindGroupIndex scene = Some index /\
        GLTFScene.instanceBindGroup scene = Some bindGroup /\
        GLTFScene.drawable_order order = true /\
        trace = GLTFScene.SetBindGroup index bindGroup :: GLTFScene.replay order /\
        filter GLTFScene.is_SetPipeline trace = GLTFScene.pipeline_bindings order /\
        filter GLTFScene.is_SetBindGroup trace =
          GLTFScene.SetBindGroup index bindGroup ::
          GLTFScene.material_bindings order /\
        map Some (filter GLTFScene.is_draw trace) =
          map (fun d => option_map (GLTFScene.draw_call d)
                                   (RenderPrimitive.instanceInAll d))
              (GLTFScene.draw_entries order)) /\
  (forall d,
      GLTFScene.drawable d = true ->
      exists range,
        RenderPrimitive.instanceInAll d = Some range /\
        (forall slot buffer,
            nth_error (RenderPrimitive.buffers d) slot = Some buffer ->
            exists view,
              GLTFAccessor.view (GPUBufferAccessor.accessor buffer) =
                Some view /\
              nth_error (GLTFScene.replay_primitive d) slot =
              Some (GLTFScene.SetVertexBuffer slot (GLTFBufferView.index view)
                      (GPUBufferAccessor.offset buffer)
                      (GLTFScene.bound_size
                         view (GPUBufferAccessor.accessor buffer)))) /\
        skipn (length (RenderPrimitive.buffers d))
              (GLTFScene.replay_primitive d) =
        match RenderPrimitive.indices d with
        | Some indices =>
            match GLTFAccessor.view indices,
                  GLTFAccessor.vertexType indices with
            | Some view, Ok indexFormat =>
                [GLTFScene.SetIndexBuffer
                   (GLTFBufferView.index view) indexFormat
                   (GLTFAccessor.byteOffset indices)
                   (GLTFScene.bound_size view indices);
                 GLTFScene.DrawIndexed (GLTFAccessor.count indices)
                                       (count range) 0 0 (first range)]
            | _, _ => []
            end
        | None =>
            [GLTFScene.Draw (RenderPrimitive.vertexCount d) (count range)
                            0 (first range)]
        end) /\
  (forall scene index bindGroup,
      GLTFScene.instanceBindGroupIndex scene = Some index ->
      GLTFScene.instanceBindGroup scene = Some bindGroup ->
      GLTFScene.drawable_order (GLTFScene.renderPipelines scene) = true ->
      GLTFScene.render scene =
      Ok (GLTFScene.SetBindGroup index bindGroup ::
          GLTFScene.replay (GLTFScene.renderPipelines scene))) /\
  (forall options store device p r context t1 t2 t3,
      GLTFPrimitive.build p = Ok (Some r) ->
      GLTFScene.shader_context r = Ok context ->
      let entry := GLTFScene.draw_entry r (Some {| first := 0; count := 3 |}) in
      exists built device',
        GLTFScene.build options store device
                        (GLTFScene.three_sharing p t1 t2 t3) =
          Ok (built, device') /\
        GLTFScene.draw_entries (GLTFScene.renderPipelines built) = [entry] /\
        (GLTFScene.drawable entry = true ->
         exists trace, GLTFScene.render built = Ok trace) /\
        forall trace,
          GLTFScene.render built = Ok trace ->
          filter GLTFScene.is_draw trace =
          [GLTFScene.draw_call entry {| first := 0; count := 3 |}]).
Proof.
  split; [| split; [| split]].
  - intros scene trace H order.
    apply render_Ok in H as (index & bindGroup & Hi & Hb & Hok & ->).
    exists index, bindGroup. fold order.
    split; [exact Hi |]. split; [exact Hb |]. split; [exact Hok |].
    split; [reflexivity |].
    cbn [filter GLTFScene.is_SetPipeline GLTFScene.is_SetBindGroup
         GLTFScene.is_draw].
    rewrite pipeline_bindings_replay, material_bindings_replay,
      draw_calls_replay.
    split; [reflexivity |]. split; [reflexivity |].
    apply draw_calls_entries, Hok.
  - apply replay_drawable.
  - apply render_drawable.
  - intros options store device p r context t1 t2 t3 Hr Hcontext entry.
    destruct (build_three_sharing options store device p r context t1 t2 t3
                Hr Hcontext)
      as (built & device' & Hbuild & Hi & Hb & Horder).
    exists built, device'. split; [exact Hbuild |].
    rewrite Horder.
    split; [reflexivity |]. split.
    + intros Hdrawable. eexists.
      apply (render_drawable built _ _ Hi Hb). rewrite Horder.
      unfold GLTFScene.drawable_order, GLTFScene.drawable_pipeline,
        GLTFScene.drawable_material.
      cbn [forallb RenderPipeline.materialPrimitivesMap snd].
      fold entry. rewrite Hdrawable. reflexivity.
    + intros trace H.
      apply render_Ok in H as (index & bindGroup & _ & _ & _ & ->).
      cbn [filter GLTFScene.is_draw].
      rewrite draw_calls_replay, Horder. reflexivity.
Qed.

Lemma render_replays_order_witness :
  GLTFScene.render (fst Examples.three_built) =
    Ok [GLTFScene.SetBindGroup 1 1; GLTFScene.SetPipeline 100;
        GLTFScene.SetBindGroup 2 2; GLTFScene.Draw 3 3 0 0] /\
  GLTFScene.render (fst Examples.quad_built) =
    Ok [GLTFScene.SetBindGroup 1 1; GLTFScene.SetPipeline 100;
        GLTFScene.SetBindGroup 2 2;
        GLTFScene.SetVertexBuffer 0 0 0 (Some 96%Z);
        GLTFScene.SetVertexBuffer 1 1 0 (Some 32%Z);
        GLTFScene.SetIndexBuffer 2 "uint16" 0 (Some 12%Z);
        GLTFScene.DrawIndexed 6 2 0 0 0].
Proof.
  destruct render_replays_order as (_ & _ & Hreturns & _).
  rewrite (Hreturns (fst Examples.three_built) 1 1 eq_refl eq_refl eq_refl).
  rewrite (Hreturns (fst Examples.quad_built) 1 1 eq_refl eq_refl eq_refl).
  split; reflexivity.
Defined.

Lemma updateBuffers_idempotent_witness :
  (exists once,
      GLTFScene.after_updateBuffers Examples.moved (fst Examples.three_built) =
        Some once /\
      GLTFScene.after_updateBuffers Examples.moved once = Some once /\
      GLTFScene.staging once =
        Some (GLTFScene.instance_blocks Examples.moved Examples.three_nodes) /\
      GLTFScene.updateBuffers Examples.moved (fst Examples.three_built) =
        Throw TypeError) /\
  exists once,
    GLTFScene.updateBuffers Examples.moved
                            (fst Examples.three_with_device_built) = Ok once /\
    GLTFScene.updateBuffers Examples.moved once = Ok once /\
    GLTFScene.staging once =
      Some (GLTFScene.instance_blocks Examples.moved Examples.three_nodes).
Proof.
  split.
  - destruct (updateBuffers_idempotent Examples.options Examples.store
                Examples.moved Examples.device (snd Examples.three_built)
                Examples.three_nodes (fst Examples.three_built))
      as (once & Hfirst & Hsecond & Hstaging & Hthrows & _).
    + vm_compute. reflexivity.
    + exists once. split; [exact Hfirst |]. split; [exact Hsecond |].
      split; [rewrite Hstaging; vm_compute; reflexivity | exact Hthrows].
  - destruct (updateBuffers_idempotent Examples.options Examples.store
                Examples.moved Examples.device
                (snd Examples.three_with_device_built)
                Examples.three_with_device
                (fst Examples.three_with_device_built))
      as (once & _ & _ & Hstaging & Hfirst & Hsecond & _).
    + vm_compute. reflexivity.
    + exists once. split; [exact Hfirst |]. split; [exact Hsecond |].
      rewrite Hstaging. vm_compute. reflexivity.
Defined.

Lemma updateBuffers_never_uploads_witness :
  (exists refreshed,
      GLTFScene.refresh_instances Examples.moved (fst Examples.three_built) =
        Ok refreshed /\
      PrimitiveInstances.arrayBuffer refreshed =
        Some (GLTFScene.instance_blocks Examples.moved Examples.three_nodes) /\
      GLTFScene.updateBuffers Examples.moved (fst Examples.three_built) =
        Throw TypeError /\
      option_map GPUBuffer.contents
                 (GLTFScene.instanceBuffer (fst Examples.three_built)) =
        Some (GLTFScene.instance_blocks Examples.store Examples.three_nodes)) /\
  exists refreshed,
    forEach GLTFScene.updateBuffers [Examples.store; Examples.moved]
            (fst Examples.three_with_device_built) = Ok refreshed /\
    GLTFScene.same_layout (fst Examples.three_with_device_built) refreshed /\
    option_map GPUBuffer.contents (GLTFScene.instanceBuffer refreshed) =
      Some (GLTFScene.instance_blocks Examples.moved Examples.three_nodes).
Proof.
  destruct updateBuffers_never_uploads as (Hnew & Hthrows & Hreturns).
  split.
  - destruct (Hthrows Examples.options Examples.store Examples.moved
                Examples.device (snd Examples.three_built)
                Examples.three_nodes (fst Examples.three_built))
      as (refreshed & _ & Hrefresh & _ & Harray & _ & Hupdate & _ & Hbuffer).
    + apply Hnew.
    + vm_compute. reflexivity.
    + exists refreshed. split; [exact Hrefresh |].
      split; [rewrite Harray; vm_compute; reflexivity |].
      split; [exact Hupdate |].
      rewrite Hbuffer. vm_compute. reflexivity.
  - destruct (Hreturns Examples.options Examples.store Examples.device
                (snd Examples.three_with_device_built)
                Examples.three_with_device
                (fst Examples.three_with_device_built) tt
                [Examples.store; Examples.moved] eq_refl eq_refl)
      as (refreshed & Hchain & Hlayout & Hlast).
    + vm_compute. reflexivity.
    + exists refreshed. split; [exact Hchain |]. split; [exact Hlayout |].
      clear Hlast Hlayout. vm_compute in Hchain.
      injection Hchain as <-. vm_compute. reflexivity.
Defined.

(** ** The ranges of a [build] that returns *)

Section Partition.
Import GLTFScene PrimitiveInstances.

Lemma group_size_nodes (matrices : list (key * list TransformRef))
    (p : GLTFPrimitive.t) :
  length (group_nodes matrices p) = group_size matrices (primitive_key p).
Proof.
  unfold group_nodes, group, group_size, primitive_key.
  destruct (Map_get key_eqb _ matrices); reflexivity.
Qed.

Lemma length_instances_of (matrices : list (key * list TransformRef))
    (a_primitives : list GLTFPrimitive.t) :
  length (instances_of matrices a_primitives) =
  list_sum (map (group_size matrices) (map primitive_key a_primitives)).
Proof.
  unfold instances_of.
  induction a_primitives as [| p ps IH]; simpl; [reflexivity |].
  rewrite length_app, IH, group_size_nodes. reflexivity.
Qed.

(** The ranges handed out from [start] are contiguous: together they hold
    exactly the instances from [start] on, each in one range only. *)
Lemma assigned_ranges_cover (matrices : list (key * list TransformRef))
    (a_primitives : list GLTFPrimitive.t) (start i : nat) :
  (exists k range,
      nth_error (assigned_ranges matrices a_primitives start) k = Some range /\
      in_range range i) <->
  start <= i < start + length (instances_of matrices a_primitives).
Proof.
  revert start. induction a_primitives as [| p ps IH]; intros start.
  - simpl. split; [| lia]. intros (k & range & H & _).
    destruct k; discriminate H.
  - unfold instances_of in *. cbn [assigned_ranges flat_map].
    rewrite length_app. split.
    + intros (k & range & Hk & Hin). destruct k as [| k]; simpl in Hk.
      * injection Hk as <-. unfold in_range in Hin. simpl in Hin. lia.
      * assert (H : start + length (group_nodes matrices p) <= i <
                    start + length (group_nodes matrices p) +
                    length (flat_map (group_nodes matrices) ps))
          by (apply IH; exists k, range; auto).
        lia.
    + intros H.
      destruct (Nat.lt_ge_cases i (start + length (group_nodes matrices p)))
        as [Hlt | Hge].
      * exists 0. eexists. split; [reflexivity |].
        unfold in_range. simpl. lia.
      * destruct (proj2 (IH (start + length (group_nodes matrices p))))
          as (k & range & Hk & Hin); [lia |].
        exists (S k), range. auto.
Qed.

Lemma assigned_ranges_from (matrices : list (key * list TransformRef))
    (a_primitives : list GLTFPrimitive.t) (start k : nat)
    (range : InstanceRange) :
  nth_error (assigned_ranges matrices a_primitives start) k = Some range ->
  start <= first range.
Proof.
  revert start k. induction a_primitives as [| p ps IH]; intros start k H.
  - destruct k; discriminate H.
  - destruct k as [| k]; simpl in H.
    + injection H as <-. simpl. lia.
    + apply IH in H. lia.
Qed.

Lemma assigned_ranges_disjoint (matrices : list (key * list TransformRef))
    (a_primitives : list GLTFPrimitive.t) (start k k' i : nat)
    (range range' : InstanceRange) :
  nth_error (assigned_ranges matrices a_primitives start) k = Some range ->
  nth_error (assigned_ranges matrices a_primitives start) k' = Some range' ->
  in_range range i -> in_range range' i -> k = k'.
Proof.
  revert start k k'.
  induction a_primitives as [| p ps IH]; intros start k k' Hk Hk' Hi Hi'.
  - destruct k; discriminate Hk.
  - unfold in_range in *.
    destruct k as [| k], k' as [| k']; simpl in Hk, Hk'.
    + reflexivity.
    + injection Hk as <-. apply assigned_ranges_from in Hk'. simpl in Hi. lia.
    + injection Hk' as <-. apply assigned_ranges_from in Hk. simpl in Hi'. lia.
    + f_equal. apply (IH _ _ _ Hk Hk'); assumption.
Qed.

(** *** Counting *)

Lemma group_size_cons (k x : key) (g : list TransformRef)
    (matrices : list (key * list TransformRef)) :
  group_size ((k, g) :: matrices) x =
  if key_eqb x k then length g else group_size matrices x.
Proof.
  unfold group_size. simpl. destruct (key_eqb x k); reflexivity.
Qed.

Lemma list_sum_cons (a : nat) (l : list nat) :
  list_sum (a :: l) = a + list_sum l.
Proof. reflexivity. Qed.

Lemma sum_split (k : key) (g : list TransformRef)
    (matrices : list (key * list TransformRef)) (keys : list key) :
  list_sum (map (group_size ((k, g) :: matrices)) keys) =
  length (filter (fun x => key_eqb x k) keys) * length g +
  list_sum (map (group_size matrices)
                (filter (fun x => negb (key_eqb x k)) keys)).
Proof.
  induction keys as [| x keys IH]; [reflexivity |].
  cbn [map filter]. rewrite list_sum_cons, IH, group_size_cons.
  destruct (key_eqb x k); cbn [negb map length];
    rewrite ?list_sum_cons; lia.
Qed.

Lemma NoDup_filter_once (k : key) (keys : list key) :
  NoDup (filter (fun x => negb (key_eqb x k)) keys) ->
  length (filter (fun x => key_eqb x k) keys) <= 1 ->
  NoDup keys.
Proof.
  induction keys as [| x keys IH]; intros Hnd Hone; [constructor |].
  cbn [filter] in Hnd, Hone. destruct (key_eqb x k) eqn:E; simpl in *.
  - apply key_eqb_eq in E. subst x.
    constructor; [| apply IH; [exact Hnd | lia]].
    intros Hin.
    assert (H : In k (filter (fun x => key_eqb x k) keys))
      by (apply filter_In; split; [exact Hin | apply key_eqb_eq; reflexivity]).
    destruct (filter (fun x => key_eqb x k) keys); [destruct H | simpl in Hone; lia].
  - inversion Hnd as [| ? ? Hnot Hnd']; subst.
    constructor; [| apply IH; assumption].
    intros Hin. apply Hnot, filter_In. rewrite E. auto.
Qed.

(** When every primitive key has a group and every group has a primitive,
    the group sizes summed over the primitive keys reach the total of the
    groups, and exceed it unless the primitive keys are pairwise distinct. *)
Lemma sizes_over_keys (matrices : list (key * list TransformRef)) :
  NoDup (map fst matrices) ->
  nonempty_groups matrices ->
  forall keys,
    (forall k, In k keys -> In k (map fst matrices)) ->
    (forall k, In k (map fst matrices) -> In k keys) ->
    list_sum (map (fun g => length (snd g)) matrices) <=
      list_sum (map (group_size matrices) keys) /\
    (list_sum (map (group_size matrices) keys) <=
       list_sum (map (fun g => length (snd g)) matrices) ->
     NoDup keys).
Proof.
  induction matrices as [| [k g] matrices IH]; intros Hnd Hne keys Hsub Hsup.
  - destruct keys as [| x keys]; [simpl; split; [lia | constructor] |].
    destruct (Hsub x (or_introl eq_refl)).
  - inversion Hnd as [| ? ? Hnot Hnd']; subst.
    set (rest := filter (fun x => negb (key_eqb x k)) keys).
    assert (Hrest : forall x, In x rest <-> In x keys /\ x <> k).
    { intros x. unfold rest. rewrite filter_In, negb_true_iff.
      split; intros [H1 H2]; split; try assumption.
      - intros ->. rewrite (proj2 (key_eqb_eq k k) eq_refl) in H2.
        discriminate H2.
      - destruct (key_eqb x k) eqn:E; [| reflexivity].
        apply key_eqb_eq in E. contradiction. }
    destruct (IH Hnd' (fun k' nodes H => Hne k' nodes (or_intror H)) rest)
      as (Hge & Hdistinct).
    + intros x Hx. apply Hrest in Hx as (Hx & Hxk).
      destruct (Hsub x Hx) as [E | H]; [simpl in E; congruence | exact H].
    + intros x Hx. apply Hrest. split; [apply Hsup; right; exact Hx |].
      intros ->. contradiction.
    + assert (Hg : 1 <= length g).
      { specialize (Hne k g (or_introl eq_refl)).
        destruct g; [congruence | simpl; lia]. }
      assert (Hk : 1 <= length (filter (fun x => key_eqb x k) keys)).
      { assert (H : In k (filter (fun x => key_eqb x k) keys)).
        { apply filter_In. split; [apply Hsup; left; reflexivity |].
          apply key_eqb_eq. reflexivity. }
        destruct (filter (fun x => key_eqb x k) keys);
          [destruct H | simpl; lia]. }
      rewrite sum_split. fold rest. cbn [map snd]. rewrite list_sum_cons.
      split; [nia |].
      intros Hle. apply (NoDup_filter_once k); [apply Hdistinct; nia | nia].
Qed.

Lemma sum_Map_set (k : key) (t : TransformRef)
    (matrices : list (key * list TransformRef)) :
  list_sum (map (fun g => length (snd g))
              (Map_set key_eqb k
                 (match Map_get key_eqb k matrices with
                  | Some nodes => nodes
                  | None => []
                  end ++ [t]) matrices)) =
  S (list_sum (map (fun g => length (snd g)) matrices)).
Proof.
  induction matrices as [| [k' g] matrices IH]; simpl; [reflexivity |].
  destruct (key_eqb k k'); simpl.
  - rewrite length_app. simpl. lia.
  - rewrite IH. lia.
Qed.

(** The groups of the node pass: their sizes add up to the number of pairs,
    and their keys are the keys of the pairs. *)
Lemma group_pairs_keys (ps : list (key * TransformRef))
    (st : PrimitiveInstances.t) :
  list_sum (map (fun g => length (snd g)) (matrices (fold_left group_pair ps st)))
    = list_sum (map (fun g => length (snd g)) (matrices st)) + length ps /\
  forall k, In k (map fst (matrices (fold_left group_pair ps st))) <->
            In k (map fst ps) \/ In k (map fst (matrices st)).
Proof.
  revert st. induction ps as [| [k t] ps IH]; intros st; simpl.
  - split; [lia | tauto].
  - destruct (IH (group_pair st (k, t))) as (Hsum & Hkeys).
    cbn [group_pair matrices fst snd] in *.
    rewrite sum_Map_set in Hsum. split; [lia |].
    intros k'. rewrite Hkeys.
    rewrite (ids_Map_set _ _ _ (fun x => x) key_eqb key_eqb_eq).
    intuition congruence.
Qed.

Lemma count_distinct (k : key) (keys : list key) :
  NoDup keys -> length (filter (fun x => key_eqb x k) keys) <= 1.
Proof.
  induction 1 as [| x keys Hnot Hnd IH]; simpl; [lia |].
  destruct (key_eqb x k) eqn:E; [| exact IH].
  apply key_eqb_eq in E. subst x.
  destruct (filter (fun x => key_eqb x k) keys) as [| y l] eqn:F;
    [simpl; lia |].
  assert (H : In y (filter (fun x => key_eqb x k) keys))
    by (rewrite F; left; reflexivity).
  apply filter_In in H as (Hin & Hy). apply key_eqb_eq in Hy. subst y.
  contradiction.
Qed.

(** Pairwise distinct keys claim no more instances than the groups hold. *)
Lemma sizes_of_distinct_keys (matrices : list (key * list TransformRef))
    (keys : list key) :
  NoDup keys ->
  list_sum (map (group_size matrices) keys) <=
  list_sum (map (fun g => length (snd g)) matrices).
Proof.
  revert keys. induction matrices as [| [k g] matrices IH]; intros keys Hnd.
  - induction keys as [| x keys IHk]; [simpl; lia |].
    inversion Hnd; subst. cbn [map]. rewrite list_sum_cons.
    unfold group_size at 1. simpl Map_get. cbv iota.
    apply IHk. assumption.
  - rewrite sum_split. cbn [map snd]. rewrite list_sum_cons.
    specialize (IH _ (NoDup_filter (fun x => negb (key_eqb x k)) Hnd)).
    pose proof (count_distinct k keys Hnd). nia.
Qed.

Section MeshPass.
Variable options : BuildOptions.t.
Variable store : TransformStore.

(** [build] is its mesh pass over all primitives, started on the groups of
    the node pass and a zero-filled array of 32 floats per pair. *)
Lemma build_mesh_pass (device : GPUDevice) (scene : GLTFScene.t) :
  build options store device scene =
  (st <- forEach (build_primitive options store) (all_primitives scene)
           {| gpu := {| next_handle := 2 + next_handle device |};
              materialCache := [];
              pipelines := renderPipelines scene;
              instances :=
                {| total := length (pairs scene);
                   offset := 0;
                   matrices := groups scene;
                   arrayBuffer :=
                     Some (repeat 0%Z (32 * length (pairs scene))) |} |} ;;
   Ok ({| children := children scene;
          a_meshs := a_meshs scene;
          this_device := this_device scene;
          renderPipelines := pipelines st;
          instanceBuffer :=
            Some {| GPUBuffer.handle := next_handle device;
                    GPUBuffer.size := 128 * length (pairs scene);
                    GPUBuffer.contents := arrayBuffer_contents (instances st) |};
          instanceBindGroup := Some (1 + next_handle device);
          instanceBindGroupIndex := Some 1;
          primitiveInstances :=
            Some {| total := total (instances st);
                    offset := 0;
                    matrices := matrices (instances st);
                    arrayBuffer :=
                      Some (repeat 0%Z (32 * length (pairs scene))) |} |},
       gpu st)).
Proof.
  unfold build, groups. cbn [create fst snd].
  rewrite forEach_nested. fold (all_primitives scene).
  rewrite traverse_group_pairs.
  destruct (group_pairs_facts (pairs scene) empty_instances)
    as (Ht & Ho & _).
  cbv zeta in Ht, Ho. cbn [empty_instances total offset] in Ht, Ho.
  rewrite Ht, Ho.
  replace (16 * 2 * 4 * (0 + length (pairs scene)))
    with (128 * length (pairs scene)) by lia.
  replace (128 * length (pairs scene) / 4) with (32 * length (pairs scene))
    by (apply Nat.div_unique_exact; lia).
  reflexivity.
Qed.

Lemma build_primitives_Ok (a_primitives : list GLTFPrimitive.t)
    (st : BuildState) (instances' : PrimitiveInstances.t) :
  Forall buildable a_primitives ->
  forEach (refresh_primitive store) a_primitives (instances st) =
    Ok instances' ->
  exists st', forEach (build_primitive options store) a_primitives st = Ok st'.
Proof.
  revert st. induction a_primitives as [| p ps IH]; intros st Hbuilds Hwalk.
  - exists st. reflexivity.
  - inversion Hbuilds as [| ? ? (r & context & Hr & Hcontext) Hrest]; subst.
    cbn [forEach] in *. apply bind_Ok in Hwalk as (st1 & Hp & Hwalk).
    unfold refresh_primitive in Hp.
    apply bind_Ok in Hp as ([st1' range] & Hset & E). injection E as ->.
    apply shader_context_Ok in Hcontext as (shader & Hs & Hc & _).
    assert (Hstep : exists st2,
               build_primitive options store p st = Ok st2 /\
               instances st2 = st1).
    { unfold build_primitive. rewrite Hr. cbn [bind]. rewrite Hs. cbn [bind].
      destruct (Map_get key_eqb (materialKey p) (materialCache st));
        cbn [create fst snd]; rewrite Hc; cbn [bind]; rewrite Hset;
        cbn [bind]; eexists; split; reflexivity. }
    destruct Hstep as (st2 & -> & Hinst). cbn [bind].
    apply IH; [exact Hrest | rewrite Hinst; exact Hwalk].
Qed.

Lemma build_primitives_built (a_primitives : list GLTFPrimitive.t)
    (st st' : BuildState) :
  forEach (build_primitive options store) a_primitives st = Ok st' ->
  Forall buildable a_primitives.
Proof.
  revert st. induction a_primitives as [| p ps IH]; intros st H;
    [constructor |].
  cbn [forEach] in H. apply bind_Ok in H as (st1 & Hp & H).
  constructor; [| apply (IH _ H)].
  apply build_primitive_context in Hp. exact Hp.
Qed.
End MeshPass.

Lemma loaded_keys (scene : GLTFScene.t) :
  loaded scene ->
  forall k, In k (map fst (pairs scene)) ->
            In k (map primitive_key (all_primitives scene)).
Proof.
  intros Hloaded k Hk.
  apply in_map_iff in Hk as ([k' t] & <- & Hin).
  apply in_flat_map in Hin as (node & Hnode & Hin).
  unfold node_pairs in Hin.
  destruct (GLTFNode.a_mesh node) as [a_mesh |] eqn:Hmesh; [| destruct Hin].
  destruct (Hloaded node a_mesh Hnode Hmesh) as (Hmeshs & Hjson).
  rewrite Hjson in Hin.
  apply in_map_iff in Hin as (json & E & Hin). injection E as <- _.
  apply in_map_iff in Hin as (p & <- & Hin).
  apply in_map_iff. exists p. split; [reflexivity |].
  apply in_flat_map. exists a_mesh. auto.
Qed.

(** X1: [build] returns on every scene whose primitives are all buildable,
    have pairwise distinct keys, and are each referred to by a node.  A
    primitive is buildable when its own [build] returns a result, which
    takes a material and a [buildVertex] that does not throw, and the
    [fragment] of that result has a [shader]. *)
Theorem build_returns (options : BuildOptions.t) (store : TransformStore)
    (device : GPUDevice) (scene : GLTFScene.t) :
  Forall buildable (all_primitives scene) ->
  NoDup (map primitive_key (all_primitives scene)) ->
  (forall p, In p (all_primitives scene) ->
             In (primitive_key p) (map fst (pairs scene))) ->
  exists built device',
    build options store device scene = Ok (built, device').
Proof.
  intros Hbuilds Hdistinct Hreferred.
  assert (Hgroups : groups scene =
                    matrices (fold_left group_pair (pairs scene) empty_instances))
    by (unfold groups; rewrite traverse_group_pairs; reflexivity).
  destruct (group_pairs_keys (pairs scene) empty_instances) as (Hsum & Hkeys).
  rewrite <- Hgroups in Hsum, Hkeys. simpl in Hsum, Hkeys.
  rewrite build_mesh_pass.
  set (start := {| total := length (pairs scene);
                   offset := 0;
                   matrices := groups scene;
                   arrayBuffer :=
                     Some (repeat 0%Z (32 * length (pairs scene))) |}).
  destruct (build_primitives_Ok options store (all_primitives scene)
              {| gpu := {| next_handle := 2 + next_handle device |};
                 materialCache := [];
                 pipelines := renderPipelines scene;
                 instances := start |}
              {| total := total start;
                 offset := offset start +
                           length (instances_of (matrices start)
                                     (all_primitives scene));
                 matrices := matrices start;
                 arrayBuffer :=
                   Some (overwrite (repeat 0%Z (32 * length (pairs scene)))
                           (offset start * 32)
                           (blocks store
                              (instances_of (matrices start)
                                 (all_primitives scene)))) |} Hbuilds)
    as (st & Hst).
  - cbn [instances]. apply refresh_Ok; [reflexivity | |].
    + apply Forall_forall. intros p Hp. unfold group.
      fold (primitive_key p). cbn [start matrices].
      intros Hnone.
      apply (Map_get_None _ _ _ (fun x => x) key_eqb key_eqb_eq) in Hnone.
      apply Hnone. change (In (primitive_key p) (map fst (groups scene))).
      apply Hkeys. left. apply Hreferred, Hp.
    + cbn [start offset matrices]. rewrite repeat_length, length_instances_of.
      pose proof (sizes_of_distinct_keys (groups scene) _ Hdistinct). lia.
  - rewrite Hst. cbn [bind]. eauto.
Qed.

End Partition.

Lemma build_returns_witness :
  exists built device',
    GLTFScene.build Examples.options Examples.store Examples.device
                    Examples.pair_scene = Ok (built, device').
Proof.
  apply build_returns.
  - constructor; [| constructor; [| constructor]];
      eexists; eexists; split; vm_compute; reflexivity.
  - repeat constructor; simpl; intuition discriminate.
  - intros p [<- | [<- | []]]; vm_compute; auto.
Defined.

(** ** The loader, the vertex layouts and the frame counters *)

Section RecordedFacts.
Import GLTFScene CreateAndSetRecord.

Lemma tally_app (record : CreateAndSetRecord.t) (l1 l2 : list Command) :
  Recorded.tally record (l1 ++ l2) = Recorded.tally (Recorded.tally record l1) l2.
Proof. apply fold_left_app. Qed.

Lemma setVertexBuffers_recorded (record : CreateAndSetRecord.t)
    (buffers : list GPUBufferAccessor.t) :
  forall idx pass,
    Recorded.setVertexBuffers idx buffers (pass, Recorded.tally record pass) =
    (pass' <- GLTFScene.setVertexBuffers idx buffers pass ;;
     Ok (pass', Recorded.tally record pass')).
Proof.
  induction buffers as [| b buffers IH]; intros idx pass; [reflexivity |].
  cbn [Recorded.setVertexBuffers GLTFScene.setVertexBuffers fst snd].
  destruct (GLTFAccessor.view (GPUBufferAccessor.accessor b)) as [view |];
    [| reflexivity].
  destruct (GLTFAccessor.byteLength (GPUBufferAccessor.accessor b))
    as [size | e]; [| reflexivity].
  cbn [bind]. rewrite <- IH, tally_app. reflexivity.
Qed.

(** A loop over recorded steps that each extend the trace of the plain step
    and keep the record in step with it. *)
Lemma forEach_recorded {A : Type}
    (f : A -> list Command -> result (list Command))
    (g : A -> list Command * CreateAndSetRecord.t ->
         result (list Command * CreateAndSetRecord.t))
    (record : CreateAndSetRecord.t) :
  (forall a pass,
      g a (pass, Recorded.tally record pass) =
      (pass' <- f a pass ;; Ok (pass', Recorded.tally record pass'))) ->
  forall l pass,
    forEach g l (pass, Recorded.tally record pass) =
    (pass' <- forEach f l pass ;; Ok (pass', Recorded.tally record pass')).
Proof.
  intros Hstep l. induction l as [| a l IH]; intros pass; [reflexivity |].
  cbn [forEach]. rewrite Hstep.
  destruct (f a pass) as [pass1 | e]; [| reflexivity].
  cbn [bind]. apply IH.
Qed.

Lemma render_primitive_recorded (record : CreateAndSetRecord.t)
    (primitive : RenderPrimitive.t) (pass : list Command) :
  Recorded.render_primitive primitive (pass, Recorded.tally record pass) =
  (pass' <- GLTFScene.render_primitive primitive pass ;;
   Ok (pass', Recorded.tally record pass')).
Proof.
  unfold Recorded.render_primitive, GLTFScene.render_primitive.
  rewrite setVertexBuffers_recorded.
  destruct (GLTFScene.setVertexBuffers 0 _ pass) as [bound | e];
    [| reflexivity].
  cbn [bind fst snd].
  destruct (RenderPrimitive.instanceInAll primitive) as [range |];
    [| reflexivity].
  destruct (RenderPrimitive.indices primitive) as [indices |].
  - destruct (GLTFAccessor.view indices) as [view |]; [| reflexivity].
    destruct (GLTFAccessor.vertexType indices) as [fmt | e]; [| reflexivity].
    destruct (GLTFAccessor.byteLength indices) as [size | e]; [| reflexivity].
    cbn [bind]. rewrite (tally_app _ bound). reflexivity.
  - cbn [bind]. rewrite (tally_app _ bound). reflexivity.
Qed.

Lemma render_material_recorded (record : CreateAndSetRecord.t)
    (entry : RenderNode.t * list RenderPrimitive.t) (pass : list Command) :
  Recorded.render_material entry (pass, Recorded.tally record pass) =
  (pass' <- GLTFScene.render_material entry pass ;;
   Ok (pass', Recorded.tally record pass')).
Proof.
  unfold Recorded.render_material, GLTFScene.render_material. cbn [fst snd].
  change (Recorded.add_bindGroupSets 1 (Recorded.tally record pass))
    with (Recorded.tally (Recorded.tally record pass)
            [SetBindGroup (RenderNode.groupIndex (fst entry))
                          (RenderNode.bindGroup (fst entry))]).
  rewrite <- tally_app.
  apply forEach_recorded, render_primitive_recorded.
Qed.

Lemma render_pipeline_recorded (record : CreateAndSetRecord.t)
    (entry : key * RenderPipeline.t) (pass : list Command) :
  Recorded.render_pipeline entry (pass, Recorded.tally record pass) =
  (pass' <- GLTFScene.render_pipeline entry pass ;;
   Ok (pass', Recorded.tally record pass')).
Proof.
  unfold Recorded.render_pipeline, GLTFScene.render_pipeline. cbn [fst snd].
  change (Recorded.add_pipelineSets 1 (Recorded.tally record pass))
    with (Recorded.tally (Recorded.tally record pass)
            [SetPipeline (RenderPipeline.pipeline (snd entry))]).
  rewrite <- tally_app.
  apply forEach_recorded, render_material_recorded.
Qed.

Lemma tally_counts (record : CreateAndSetRecord.t) (trace : list Command) :
  Recorded.tally record trace =
  {| pipelineCount := pipelineCount record;
     pipelineSets :=
       pipelineSets record + length (filter is_SetPipeline trace);
     bindGroupCount := bindGroupCount record;
     bindGroupSets :=
       bindGroupSets record + length (filter is_SetBindGroup trace);
     bufferSets := bufferSets record + length (filter Recorded.is_buffer trace);
     drawCount := drawCount record + length (filter is_draw trace) |}.
Proof.
  unfold Recorded.tally. revert record.
  induction trace as [| c trace IH]; intros record.
  - destruct record. simpl. rewrite !Nat.add_0_r. reflexivity.
  - cbn [fold_left]. rewrite IH.
    destruct c; destruct record; simpl; f_equal; lia.
Qed.
End RecordedFacts.

(** X3: the record [render] returns is the scene's record counted up by the
    calls the frame made on the pass: [pipelineSets] by the pipelines bound,
    [bindGroupSets] by the bind groups bound, [bufferSets] by the vertex and
    index buffers bound, [drawCount] by the draws; the creation counters are
    carried over unchanged.  The trace is that of [render] without the
    record, and the frame throws where that one does. *)
Theorem render_record_counts_calls (scene : GLTFScene.t)
    (record : CreateAndSetRecord.t) :
  Recorded.render scene record =
  (trace <- GLTFScene.render scene ;;
   Ok (trace,
       {| CreateAndSetRecord.pipelineCount :=
            CreateAndSetRecord.pipelineCount record;
          CreateAndSetRecord.pipelineSets :=
            CreateAndSetRecord.pipelineSets record +
            length (filter GLTFScene.is_SetPipeline trace);
          CreateAndSetRecord.bindGroupCount :=
            CreateAndSetRecord.bindGroupCount record;
          CreateAndSetRecord.bindGroupSets :=
            CreateAndSetRecord.bindGroupSets record +
            length (filter GLTFScene.is_SetBindGroup trace);
          CreateAndSetRecord.bufferSets :=
            CreateAndSetRecord.bufferSets record +
            length (filter Recorded.is_buffer trace);
          CreateAndSetRecord.drawCount :=
            CreateAndSetRecord.drawCount record +
            length (filter GLTFScene.is_draw trace) |})).
Proof.
  unfold Recorded.render, GLTFScene.render.
  destruct (GLTFScene.instanceBindGroupIndex scene) as [index |];
    [| reflexivity].
  destruct (GLTFScene.instanceBindGroup scene) as [bindGroup |];
    [| reflexivity].
  change (Recorded.add_bindGroupSets 1 record)
    with (Recorded.tally record [GLTFScene.SetBindGroup index bindGroup]).
  rewrite (forEach_recorded _ _ record (render_pipeline_recorded record)).
  destruct (forEach GLTFScene.render_pipeline _ _) as [trace | e];
    [| reflexivity].
  cbn [bind]. rewrite tally_counts. reflexivity.
Qed.

(** ** The node pass, the creations of [build] and the growth of the order *)

Section NodePass.
Import GLTFScene PrimitiveInstances.

Lemma key_eqb_sym (a b : key) : key_eqb a b = key_eqb b a.
Proof.
  destruct (key_eqb a b) eqn:E1, (key_eqb b a) eqn:E2; try reflexivity.
  - apply key_eqb_eq in E1. subst. rewrite key_eqb_refl in E2. discriminate.
  - apply key_eqb_eq in E2. subst. rewrite key_eqb_refl in E1. discriminate.
Qed.

(** Filing pairs one by one extends the group of every key by the
    transforms of the pairs with that key, in order. *)
Lemma group_pairs_get (ps : list (key * TransformRef))
    (st : PrimitiveInstances.t) (k : key) :
  Map_get key_eqb k (matrices (fold_left group_pair ps st)) =
  match Map_get key_eqb k (matrices st),
        map snd (filter (fun p => key_eqb (fst p) k) ps) with
  | None, [] => None
  | Some old, found => Some (old ++ found)
  | None, found => Some found
  end.
Proof.
  revert st. induction ps as [| [k' t] ps IH]; intros st.
  - simpl. destruct (Map_get key_eqb k (matrices st)) as [old |];
      [rewrite app_nil_r |]; reflexivity.
  - cbn [fold_left]. rewrite IH. cbn [group_pair matrices fst snd filter].
    destruct (key_eqb k' k) eqn:E.
    + apply key_eqb_eq in E. subst k'.
      rewrite (Map_get_set_same _ _ _ (fun x => x) key_eqb key_eqb_eq)
        by reflexivity.
      cbn [map snd].
      destruct (Map_get key_eqb k (matrices st)) as [old |].
      * rewrite <- app_assoc. reflexivity.
      * reflexivity.
    + rewrite (Map_get_set_other _ _ _ (fun x => x) key_eqb key_eqb_eq)
        by (intros ->; rewrite key_eqb_refl in E; discriminate E).
      reflexivity.
Qed.
End NodePass.

(** X4: the node pass of [build] is a stable grouping: the group filed
    under a key holds the transforms of exactly the node/primitive pairs
    with that key, in traversal order, a key without pair has no group, and
    [total] counts all pairs. *)
Theorem node_pass_groups_in_traversal_order (scene : GLTFScene.t) (k : key) :
  Map_get key_eqb k (GLTFScene.groups scene) =
  match map snd (filter (fun p => key_eqb (fst p) k) (GLTFScene.pairs scene)) with
  | [] => None
  | found => Some found
  end /\
  PrimitiveInstances.total
    (GLTFScene.traverse GLTFScene.group_node scene GLTFScene.empty_instances) =
  length (GLTFScene.pairs scene).
Proof.
  unfold GLTFScene.groups. rewrite traverse_group_pairs. split.
  - rewrite group_pairs_get. simpl.
    destruct (map snd _); reflexivity.
  - destruct (group_pairs_facts (GLTFScene.pairs scene)
                GLTFScene.empty_instances) as (Ht & _).
    simpl in Ht. exact Ht.
Qed.

(** X5: [traverse] calls the callback once for every node of the scene,
    depth first, a node before its children and the children in order;
    with a callback that logs the node, the log is the preorder of the
    scene. *)
Theorem traverse_visits_in_preorder (scene : GLTFScene.t) :
  (forall (S : Type) (callback : GLTFNode.t -> S -> S) (st : S),
      GLTFScene.traverse callback scene st =
      fold_left (fun st node => callback node st)
                (flat_map GLTFScene.preorder (GLTFScene.children scene)) st) /\
  GLTFScene.traverse (fun node log => log ++ [node]) scene [] =
  flat_map GLTFScene.preorder (GLTFScene.children scene).
Proof.
  split.
  - intros S callback st. apply traverse_preorder.
  - rewrite traverse_preorder.
    assert (H : forall (l log : list GLTFNode.t),
               fold_left (fun st node => st ++ [node]) l log = log ++ l).
    { induction l as [| n l IH]; intros log; simpl.
      - rewrite app_nil_r. reflexivity.
      - rewrite IH, <- app_assoc. reflexivity. }
    apply (H _ []).
Qed.

Section Creations.
Import GLTFScene PrimitiveInstances.
Variable options : BuildOptions.t.
Variable store : TransformStore.

Lemma Map_set_length_new {K V : Type} (eqb : K -> K -> bool) (k : K) (v : V)
    (m : list (K * V)) :
  Map_get eqb k m = None -> length (Map_set eqb k v m) = S (length m).
Proof.
  induction m as [| [k' v'] m IH]; simpl; [reflexivity |].
  destruct (eqb k k'); [discriminate |].
  intros H. simpl. rewrite IH by exact H. reflexivity.
Qed.

(** The material cache of the mesh pass: one entry and one handle for each
    material key met so far. *)
Lemma materials_once (a_primitives : list GLTFPrimitive.t) (st st' : BuildState) :
  forEach (build_primitive options store) a_primitives st = Ok st' ->
  NoDup (map fst (materialCache st)) ->
  NoDup (map fst (materialCache st')) /\
  (forall k, In k (map fst (materialCache st')) <->
             In k (map fst (materialCache st)) \/
             In k (map materialKey a_primitives)) /\
  next_handle (gpu st') + length (materialCache st) =
  next_handle (gpu st) + length (materialCache st').
Proof.
  revert st. induction a_primitives as [| p ps IH]; intros st H Hnd.
  - injection H as <-. split; [exact Hnd |]. split; [simpl; tauto | lia].
  - cbn [forEach] in H. apply bind_Ok in H as (st1 & Hp & H).
    apply build_primitive_steps in Hp
      as (r & range & _ & _ & Hgpu & Hcache & _).
    unfold lookup_material in Hgpu, Hcache.
    destruct (Map_get key_eqb (materialKey p) (materialCache st))
      as [material |] eqn:Hget; cbn [fst snd] in Hgpu, Hcache.
    + destruct (IH st1 H) as (Hnd' & Hkeys & Hcount);
        [rewrite Hcache; exact Hnd |].
      rewrite Hcache, Hgpu in *.
      split; [exact Hnd' |]. split; [| exact Hcount].
      intros k. rewrite Hkeys. cbn [map In].
      split; [tauto |]. intros [Hk | [<- | Hk]]; auto.
      left.
      apply (Map_get_Some _ _ _ (fun x => x) key_eqb key_eqb_eq) in Hget
        as (k' & Hin & <-).
      apply in_map_iff. exists (k', material). auto.
    + destruct (IH st1 H) as (Hnd' & Hkeys & Hcount).
      { rewrite Hcache.
        apply (NoDup_Map_set _ _ _ (fun x => x) key_eqb key_eqb_eq), Hnd. }
      split; [exact Hnd' |]. split.
      * intros k. rewrite Hkeys, Hcache.
        rewrite (ids_Map_set _ _ _ (fun x => x) key_eqb key_eqb_eq).
        cbn [map In]. intuition congruence.
      * rewrite Hcache, Hgpu in Hcount.
        rewrite Map_set_length_new in Hcount by exact Hget.
        simpl in Hcount. lia.
Qed.

Lemma length_draw_entries_Map_set (ks : key) (rp : RenderPipeline.t)
    (order : list (key * RenderPipeline.t)) :
  length (draw_entries (Map_set key_eqb ks rp order)) +
  length (flat_map snd
            (RenderPipeline.materialPrimitivesMap
               match Map_get key_eqb ks order with
               | Some old => old
               | None => {| RenderPipeline.pipeline := RenderPipeline.pipeline rp;
                            RenderPipeline.materialPrimitivesMap := [] |}
               end)) =
  length (draw_entries order) +
  length (flat_map snd (RenderPipeline.materialPrimitivesMap rp)).
Proof.
  unfold draw_entries.
  induction order as [| [k' rp'] order IH]; simpl.
  - rewrite app_nil_r. lia.
  - destruct (key_eqb ks k'); simpl; rewrite !length_app; lia.
Qed.

Lemma length_entries_Map_set (material : RenderNode.t)
    (primitives : list RenderPrimitive.t)
    (m : list (RenderNode.t * list RenderPrimitive.t)) :
  length (flat_map snd (Map_set RenderNode.same material primitives m)) +
  length match Map_get RenderNode.same material m with
         | Some old => old
         | None => []
         end =
  length (flat_map snd m) + length primitives.
Proof.
  induction m as [| [node ds] m IH]; simpl.
  - rewrite app_nil_r. lia.
  - destruct (RenderNode.same material node); simpl; rewrite !length_app; lia.
Qed.

(** Filing a draw entry adds one entry to the order. *)
Lemma length_draw_entries_place (ks : key) (pipeline : GPURenderPipeline)
    (material : RenderNode.t) (entry : RenderPrimitive.t)
    (order : list (key * RenderPipeline.t)) :
  length (draw_entries (place ks pipeline material entry order)) =
  S (length (draw_entries order)).
Proof.
  unfold place.
  pose proof (length_draw_entries_Map_set ks
    {| RenderPipeline.pipeline :=
         RenderPipeline.pipeline
           match Map_get key_eqb ks order with
           | Some renderPipeline => renderPipeline
           | None => {| RenderPipeline.pipeline := pipeline;
                        RenderPipeline.materialPrimitivesMap := [] |}
           end;
       RenderPipeline.materialPrimitivesMap :=
         Map_set RenderNode.same material
           (match Map_get RenderNode.same material
                    (RenderPipeline.materialPrimitivesMap
                       match Map_get key_eqb ks order with
                       | Some renderPipeline => renderPipeline
                       | None => {| RenderPipeline.pipeline := pipeline;
                                    RenderPipeline.materialPrimitivesMap := [] |}
                       end) with
            | Some primitives => primitives
            | None => []
            end ++ [entry])
           (RenderPipeline.materialPrimitivesMap
              match Map_get key_eqb ks order with
              | Some renderPipeline => renderPipeline
              | None => {| RenderPipeline.pipeline := pipeline;
                           RenderPipeline.materialPrimitivesMap := [] |}
              end) |} order) as H1.
  cbn [RenderPipeline.materialPrimitivesMap RenderPipeline.pipeline] in H1.
  pose proof (length_entries_Map_set material
    (match Map_get RenderNode.same material
             (RenderPipeline.materialPrimitivesMap
                match Map_get key_eqb ks order with
                | Some renderPipeline => renderPipeline
                | None => {| RenderPipeline.pipeline := pipeline;
                             RenderPipeline.materialPrimitivesMap := [] |}
                end) with
     | Some primitives => primitives
     | None => []
     end ++ [entry])
    (RenderPipeline.materialPrimitivesMap
       match Map_get key_eqb ks order with
       | Some renderPipeline => renderPipeline
       | None => {| RenderPipeline.pipeline := pipeline;
                    RenderPipeline.materialPrimitivesMap := [] |}
       end)) as H2.
  rewrite length_app in H2. simpl in H2.
  destruct (Map_get key_eqb ks order) as [old |];
    cbn [RenderPipeline.materialPrimitivesMap RenderPipeline.pipeline] in *;
    simpl in *; lia.
Qed.

Lemma draw_entries_grow (a_primitives : list GLTFPrimitive.t)
    (st st' : BuildState) :
  forEach (build_primitive options store) a_primitives st = Ok st' ->
  length (draw_entries (pipelines st')) =
  length (draw_entries (pipelines st)) + length a_primitives.
Proof.
  revert st. induction a_primitives as [| p ps IH]; intros st H.
  - injection H as <-. simpl. lia.
  - cbn [forEach] in H. apply bind_Ok in H as (st1 & Hp & H).
    apply build_primitive_steps in Hp
      as (r & range & _ & _ & _ & _ & Hpipes).
    rewrite (IH _ H), Hpipes, length_draw_entries_place. simpl. lia.
Qed.
End Creations.

(** X2: on a scene as [load] constructs it, a [build] that returns has
    handed out ranges that partition the instances: the primitives are all
    buildable and have pairwise distinct keys, every group belongs to one of
    them, and every instance below the total lies in the range of exactly
    one primitive.  The draw entries of the render order the build leaves,
    when it found none, carry exactly these ranges, one entry each. *)
Theorem build_partitions_instances (options : BuildOptions.t)
    (store : TransformStore) (device device' : GPUDevice)
    (scene built : GLTFScene.t) :
  GLTFScene.loaded scene ->
  GLTFScene.build options store device scene = Ok (built, device') ->
  let ranges :=
    GLTFScene.assigned_ranges (GLTFScene.groups scene)
                              (GLTFScene.all_primitives scene) 0 in
  Forall GLTFScene.buildable (GLTFScene.all_primitives scene) /\
  NoDup (map GLTFScene.primitive_key (GLTFScene.all_primitives scene)) /\
  (forall k, In k (map fst (GLTFScene.groups scene)) <->
             In k (map GLTFScene.primitive_key
                       (GLTFScene.all_primitives scene))) /\
  (forall i, i < length (GLTFScene.pairs scene) <->
             exists k range, nth_error ranges k = Some range /\
                             GLTFScene.in_range range i) /\
  (forall k k' range range' i,
      nth_error ranges k = Some range -> nth_error ranges k' = Some range' ->
      GLTFScene.in_range range i -> GLTFScene.in_range range' i -> k = k') /\
  (GLTFScene.renderPipelines scene = [] ->
   Permutation
     (map RenderPrimitive.instanceInAll
          (GLTFScene.draw_entries (GLTFScene.renderPipelines built)))
     (map Some ranges)).
Proof.
  intros Hloaded Hbuild ranges.
  assert (Hentries :
    GLTFScene.renderPipelines scene = [] ->
    Permutation
      (map RenderPrimitive.instanceInAll
           (GLTFScene.draw_entries (GLTFScene.renderPipelines built)))
      (map Some ranges)).
  { intros Hfresh.
    assert (Hlength :
      length (GLTFScene.draw_entries (GLTFScene.renderPipelines built)) =
      length (GLTFScene.all_primitives scene)).
    { pose proof Hbuild as H. rewrite build_mesh_pass in H.
      apply bind_Ok in H as (st & Hst & H).
      assert (Hb : GLTFScene.renderPipelines built = GLTFScene.pipelines st)
        by (injection H as <- _; reflexivity).
      rewrite Hb. apply draw_entries_grow in Hst. rewrite Hst.
      cbn [GLTFScene.pipelines]. rewrite Hfresh. reflexivity. }
    destruct (build_filed options store device device' scene built
                Hfresh Hbuild)
      as (st & filed & Horder & Hinv & Hfor & Hranges).
    unfold ranges. rewrite <- Hranges.
    transitivity (map RenderPrimitive.instanceInAll (map snd filed));
      [| rewrite map_map; reflexivity].
    apply Permutation_map. symmetry.
    apply NoDup_Permutation_bis.
    - apply (GLTFScene.filed_distinct Hinv).
    - rewrite Hlength, length_map, (Forall2_length Hfor). apply le_n.
    - intros d Hd. apply in_map_iff in Hd as ([[ks mk] d'] & <- & Hin).
      apply (GLTFScene.filed_placed Hinv) in Hin as (m & _ & Hplaced).
      rewrite Horder. cbn [snd].
      destruct Hplaced as (rp & node & ds & Hrp & Hnode & _ & Hd).
      unfold GLTFScene.draw_entries.
      apply in_flat_map. exists (ks, rp). split; [exact Hrp |].
      apply in_flat_map. exists (node, ds). auto. }
  split.
  { rewrite build_mesh_pass in Hbuild.
    apply bind_Ok in Hbuild as (st & Hst & _).
    apply (build_primitives_built _ _ _ _ _ Hst). }
  apply build_laid_out in Hbuild as (_ & _ & Hfound & Hfit).
  assert (Hgroups :
    GLTFScene.groups scene =
    PrimitiveInstances.matrices
      (fold_left GLTFScene.group_pair (GLTFScene.pairs scene)
                 GLTFScene.empty_instances))
    by (unfold GLTFScene.groups; rewrite traverse_group_pairs; reflexivity).
  destruct (group_pairs_keys (GLTFScene.pairs scene) GLTFScene.empty_instances)
    as (Hsum & Hkeys).
  destruct (group_pairs_facts (GLTFScene.pairs scene) GLTFScene.empty_instances)
    as (_ & _ & _ & _ & Hnd).
  rewrite <- Hgroups in Hsum, Hkeys, Hnd. simpl in Hsum, Hkeys, Hnd.
  assert (Hsub : forall k,
             In k (map GLTFScene.primitive_key
                       (GLTFScene.all_primitives scene)) ->
             In k (map fst (GLTFScene.groups scene))).
  { intros k Hk. apply in_map_iff in Hk as (p & <- & Hp).
    rewrite Forall_forall in Hfound. specialize (Hfound p Hp).
    unfold GLTFScene.group in Hfound.
    fold (GLTFScene.primitive_key p) in Hfound.
    destruct (Map_get key_eqb (GLTFScene.primitive_key p)
                      (GLTFScene.groups scene))
      as [nodes |] eqn:Hget; [| congruence].
    apply (Map_get_Some _ _ _ (fun x => x) key_eqb key_eqb_eq) in Hget
      as (k & Hin & <-).
    apply in_map_iff. exists (k, nodes). auto. }
  assert (Hsup : forall k,
             In k (map fst (GLTFScene.groups scene)) ->
             In k (map GLTFScene.primitive_key
                       (GLTFScene.all_primitives scene))).
  { intros k Hk. apply Hkeys in Hk as [Hk | []].
    apply loaded_keys; assumption. }
  destruct (sizes_over_keys (GLTFScene.groups scene) (Hnd (NoDup_nil _))
              (groups_nonempty_scene scene)
              (map GLTFScene.primitive_key (GLTFScene.all_primitives scene))
              Hsub Hsup)
    as (Hge & Hdistinct).
  rewrite <- length_instances_of in Hge, Hdistinct.
  assert (Hlength :
    length (GLTFScene.instances_of (GLTFScene.groups scene)
                                   (GLTFScene.all_primitives scene))
    = length (GLTFScene.pairs scene)) by lia.
  split; [apply Hdistinct; lia |].
  split; [intros k; split; auto |].
  split; [| split; [| exact Hentries]].
  - intros i. unfold ranges. rewrite assigned_ranges_cover, Hlength. lia.
  - intros k k' range range' i. apply assigned_ranges_disjoint.
Qed.

Lemma build_partitions_instances_witness :
  NoDup (map GLTFScene.primitive_key
             (GLTFScene.all_primitives Examples.pair_scene)) /\
  Permutation
    (map RenderPrimitive.instanceInAll
         (GLTFScene.draw_entries
            (GLTFScene.renderPipelines (fst Examples.pair_built))))
    [Some {| first := 0; count := 1 |}; Some {| first := 1; count := 1 |}].
Proof.
  destruct (build_partitions_instances Examples.options Examples.store
              Examples.device (snd Examples.pair_built) Examples.pair_scene
              (fst Examples.pair_built))
    as (_ & Hdistinct & _ & _ & _ & Hentries).
  - intros node a_mesh Hnode H.
    assert (E : GLTFNode.a_mesh node =
                Some (Examples.mesh_of [Examples.primitive 0;
                                        Examples.primitive 1]))
      by (simpl in Hnode; intuition (subst; reflexivity)).
    rewrite E in H. injection H as <-.
    split; [left |]; reflexivity.
  - vm_compute. reflexivity.
  - split; [exact Hdistinct | apply Hentries; reflexivity].
Defined.

(** X6: when [build] returns it has created, besides the instance buffer
    and the instance bind group, exactly one bind group for each distinct
    material key [JSON.stringify(a_material.__json)] of the mesh
    primitives: primitives that share a material share its bind group. *)
Theorem build_creates_one_bind_group_per_material
    (options : BuildOptions.t) (store : TransformStore)
    (device device' : GPUDevice) (scene built : GLTFScene.t) :
  GLTFScene.build options store device scene = Ok (built, device') ->
  next_handle device' =
  next_handle device + 2 +
  length (nodup key_dec
            (map GLTFScene.materialKey (GLTFScene.all_primitives scene))).
Proof.
  intros H. rewrite build_mesh_pass in H.
  apply bind_Ok in H as (st & Hst & H). injection H as _ <-.
  apply materials_once in Hst as (Hnd & Hkeys & Hcount); [| constructor].
  cbn [GLTFScene.materialCache GLTFScene.gpu next_handle length map] in *.
  assert (Hperm : Permutation
            (map fst (GLTFScene.materialCache st))
            (nodup key_dec
               (map GLTFScene.materialKey (GLTFScene.all_primitives scene)))).
  { apply NoDup_Permutation; [exact Hnd | apply NoDup_nodup |].
    intros k. rewrite Hkeys, nodup_In. simpl. tauto. }
  apply Permutation_length in Hperm. rewrite length_map in Hperm. lia.
Qed.

Lemma build_creates_one_bind_group_per_material_witness :
  next_handle (snd Examples.pair_built) =
  next_handle Examples.device + 2 +
  length (nodup key_dec
            (map GLTFScene.materialKey
                 (GLTFScene.all_primitives Examples.pair_scene))).
Proof.
  apply (build_creates_one_bind_group_per_material Examples.options
           Examples.store Examples.device (snd Examples.pair_built)
           Examples.pair_scene (fst Examples.pair_built)).
  vm_compute. reflexivity.
Defined.

(** X7: every [build] that returns adds one draw entry for each mesh
    primitive to the render order it found and takes none away: the order
    of a scene built [n] times holds [n] entries for each primitive. *)
Theorem build_adds_a_draw_entry_per_primitive
    (options : BuildOptions.t) (store : TransformStore)
    (device device' : GPUDevice) (scene built : GLTFScene.t) :
  GLTFScene.build options store device scene = Ok (built, device') ->
  length (GLTFScene.draw_entries (GLTFScene.renderPipelines built)) =
  length (GLTFScene.draw_entries (GLTFScene.renderPipelines scene)) +
  length (GLTFScene.all_primitives scene).
Proof.
  intros H. rewrite build_mesh_pass in H.
  apply bind_Ok in H as (st & Hst & H). injection H as <- _.
  apply draw_entries_grow in Hst. exact Hst.
Qed.

Lemma build_adds_a_draw_entry_per_primitive_witness :
  length (GLTFScene.draw_entries
            (GLTFScene.renderPipelines (fst Examples.pair_built))) =
  length (GLTFScene.draw_entries
            (GLTFScene.renderPipelines Examples.pair_scene)) +
  length (GLTFScene.all_primitives Examples.pair_scene).
Proof.
  apply (build_adds_a_draw_entry_per_primitive Examples.options Examples.store
           Examples.device (snd Examples.pair_built) Examples.pair_scene
           (fst Examples.pair_built)).
  vm_compute. reflexivity.
Defined.

(** ** The vertex buffer layout of a primitive *)

Section SortFacts.
Import VertexLayout.
Variable A : Type.
Variable key : A -> Z.

Lemma Permutation_insert_by (a : A) (sorted : list A) :
  Permutation (insert_by key a sorted) (a :: sorted).
Proof.
  induction sorted as [| b rest IH]; simpl; [reflexivity |].
  destruct (key b <=? key a)%Z; [| reflexivity].
  rewrite IH. apply perm_swap.
Qed.

Lemma Permutation_sort_by (l : list A) : Permutation (sort_by key l) l.
Proof.
  unfold sort_by.
  assert (H : forall sorted,
             Permutation (fold_left (fun sorted a => insert_by key a sorted)
                                    l sorted)
                         (sorted ++ l)).
  { induction l as [| a l IH]; intros sorted; simpl.
    - rewrite app_nil_r. reflexivity.
    - rewrite IH, Permutation_insert_by.
      change (a :: sorted ++ l) with ((a :: sorted) ++ l).
      rewrite (Permutation_middle sorted l a). reflexivity. }
  apply (H []).
Qed.

Lemma In_sort_by (x : A) (l : list A) : In x (sort_by key l) <-> In x l.
Proof.
  split; apply Permutation_in;
    [apply Permutation_sort_by | symmetry; apply Permutation_sort_by].
Qed.

Lemma length_sort_by (l : list A) : length (sort_by key l) = length l.
Proof. apply Permutation_length, Permutation_sort_by. Qed.

Local Abbreviation ascending := (fun a b : A => (key a <= key b)%Z).

Lemma StronglySorted_insert_by (a : A) (sorted : list A) :
  StronglySorted ascending sorted ->
  StronglySorted ascending (insert_by key a sorted).
Proof.
  induction 1 as [| b rest Hrest IH Hb]; simpl.
  - constructor; constructor.
  - destruct (Z.leb_spec (key b) (key a)) as [Hle | Hlt].
    + constructor; [exact IH |].
      apply Forall_forall. intros x Hx.
      apply (Permutation_in _ (Permutation_insert_by a rest)) in Hx.
      destruct Hx as [<- | Hx]; [exact Hle |].
      rewrite Forall_forall in Hb. apply Hb, Hx.
    + constructor; [constructor; assumption |].
      constructor; [lia |].
      rewrite Forall_forall in *. intros x Hx. specialize (Hb x Hx). lia.
Qed.

Lemma StronglySorted_sort_by (l : list A) :
  StronglySorted ascending (sort_by key l).
Proof.
  unfold sort_by.
  assert (H : forall sorted,
             StronglySorted ascending sorted ->
             StronglySorted ascending
               (fold_left (fun sorted a => insert_by key a sorted) l sorted)).
  { induction l as [| a l IH]; intros sorted Hs; simpl; [exact Hs |].
    apply IH, StronglySorted_insert_by, Hs. }
  apply H. constructor.
Qed.

Lemma map_insert_by {B : Type} (f : B -> A) (b : B) (sorted : list B) :
  map f (insert_by (fun x => key (f x)) b sorted) =
  insert_by key (f b) (map f sorted).
Proof.
  induction sorted as [| c rest IH]; simpl; [reflexivity |].
  destruct (key (f c) <=? key (f b))%Z; simpl; [rewrite IH |]; reflexivity.
Qed.

Lemma map_sort_by {B : Type} (f : B -> A) (l : list B) :
  map f (sort_by (fun x => key (f x)) l) = sort_by key (map f l).
Proof.
  unfold sort_by.
  assert (H : forall sorted,
             map f (fold_left (fun sorted a =>
                                 insert_by (fun x => key (f x)) a sorted)
                              l sorted) =
             fold_left (fun sorted a => insert_by key a sorted) (map f l)
                       (map f sorted)).
  { induction l as [| b l IH]; intros sorted; simpl; [reflexivity |].
    rewrite IH, map_insert_by. reflexivity. }
  apply (H []).
Qed.
End SortFacts.

Section LayoutFacts.
Import VertexLayout.

Lemma sort_by_offset_sort_by (l : list GLTFAccessor.t) :
  GLTFLoaderV2.sort_by_offset l = sort_by GLTFAccessor.byteOffset l.
Proof.
  unfold GLTFLoaderV2.sort_by_offset, sort_by.
  generalize (@nil GLTFAccessor.t) as sorted.
  induction l as [| a l IH]; intros sorted; simpl; [reflexivity |].
  rewrite IH. reflexivity.
Qed.

Lemma defined_accessors_defined (l : list GLTFLoaderV2.AttributeAccessor) :
  GLTFLoaderV2.defined_accessors l = option_map (map accessor) (defined l).
Proof.
  induction l as [| a l IH]; simpl; [reflexivity |].
  rewrite IH. destruct (GLTFLoaderV2.accessor a); [| reflexivity].
  destruct (defined l); reflexivity.
Qed.

Lemma defined_attribute_fields (l : list GLTFLoaderV2.AttributeAccessor)
    (xs : list Attribute) :
  defined l = Some xs ->
  map name xs = map GLTFLoaderV2.name l /\
  map location xs = map GLTFLoaderV2.shaderLocation l /\
  map (fun x => Some (accessor x)) xs = map GLTFLoaderV2.accessor l.
Proof.
  revert xs. induction l as [| a l IH]; simpl; intros xs H.
  - injection H as <-. auto.
  - destruct (GLTFLoaderV2.accessor a) as [x |] eqn:E; [| discriminate H].
    destruct (defined l) as [xs' |]; [| discriminate H].
    injection H as <-. destruct (IH _ eq_refl) as (H1 & H2 & H3).
    simpl. rewrite H1, H2, H3. repeat split; congruence.
Qed.

Lemma LayoutKey_eqb_eq (a b : LayoutKey) : LayoutKey_eqb a b = true <-> a = b.
Proof.
  destruct a as [x | x], b as [y | y]; simpl;
    rewrite ?Nat.eqb_eq, ?String.eqb_eq; split; congruence.
Qed.

Local Abbreviation by_offset :=
  (fun a b : Attribute =>
     (GLTFAccessor.byteOffset (accessor a) <=
      GLTFAccessor.byteOffset (accessor b))%Z).

Local Abbreviation vertexTypes :=
  (forEach (fun (a : GLTFAccessor.t) (_ : unit) =>
              match GLTFAccessor.view a with
              | None => Throw TypeError
              | Some _ => _ <- GLTFAccessor.vertexType a ;; Ok tt
              end)).

Lemma byteStride_stride_in (a : GLTFAccessor.t) (v : GLTFBufferView.t) :
  GLTFAccessor.view a = Some v ->
  GLTFAccessor.byteStride a = Ok (GLTFAccessor.stride_in v a).
Proof. intros Hv. unfold GLTFAccessor.byteStride. rewrite Hv. reflexivity. Qed.

(** One step of the loop on a state whose slots are anchored and whose
    attributes lie at or before the accessor: it throws what [vertexType]
    throws, and otherwise leaves anchored slots. *)
Lemma place_in_anchored (v : GLTFBufferView.t) (a : Attribute) (st : State) :
  GLTFAccessor.view (accessor a) = Some v ->
  (forall k slot, In (k, slot) (bufferLayout st) ->
     anchored slot /\
     Forall (fun x => (offset x <= GLTFAccessor.byteOffset (accessor a))%Z)
            (attributes (layout slot))) ->
  match GLTFAccessor.vertexType (accessor a) with
  | Throw e => place_in v a st = Throw e
  | Ok _ =>
      exists st',
        place_in v a st = Ok st' /\
        forall k slot, In (k, slot) (bufferLayout st') ->
          anchored slot /\
          Forall (fun x => (offset x <= GLTFAccessor.byteOffset (accessor a))%Z)
                 (attributes (layout slot))
  end.
Proof.
  intros Hv Hinv. unfold place_in.
  pose proof (byteStride_stride_in _ _ Hv) as Hstride_a.
  set (view := ByBufferView (GLTFBufferView.index v)).
  destruct (Map_get LayoutKey_eqb view (bufferLayout st)) as [slot |] eqn:Hget.
  - apply (Map_get_Some _ _ _ (fun x => x) LayoutKey_eqb LayoutKey_eqb_eq)
      in Hget as (k' & Hin & _).
    destruct (Hinv _ _ Hin)
      as ((first & rest & Hattrs & Hfirst & Hgpu & Hstride & Hrest) & Hbound).
    rewrite Hattrs. cbn [bind].
    destruct (GLTFAccessor.vertexType (accessor a)) as [fmt | e];
      [| reflexivity].
    cbn [bind].
    assert (Hle : (offset first <= GLTFAccessor.byteOffset (accessor a))%Z).
    { rewrite Hattrs in Hbound. inversion Hbound; assumption. }
    destruct (match arrayStride (layout slot) with
              | Some stride =>
                  (stride <=? Z.abs (GLTFAccessor.byteOffset (accessor a) -
                                     offset first))%Z
              | None => false
              end) eqn:Hsep;
      eexists; (split; [reflexivity |]);
      cbn [bufferLayout]; intros k s Hs;
      apply (In_Map_set _ _ _ (fun x => x) LayoutKey_eqb LayoutKey_eqb_eq)
        in Hs as [[_ ->] | [Hs _]]; try (apply (Hinv _ _ Hs)).
    + split.
      * exists {| shaderLocation := location a; format := fmt;
                  offset := GLTFAccessor.byteOffset (accessor a) |}, [].
        cbn. repeat split; try constructor. exact Hstride_a.
      * cbn. repeat constructor. cbn. lia.
    + split.
      * exists first, (rest ++ [{| shaderLocation := location a; format := fmt;
                                   offset := GLTFAccessor.byteOffset (accessor a) |}]).
        cbn. rewrite Z.min_l by lia.
        repeat split; try assumption.
        apply Forall_app. split; [exact Hrest |]. repeat constructor. exact Hle.
      * cbn. change (first :: rest ++ ?x) with ((first :: rest) ++ x).
        apply Forall_app. split; [rewrite <- Hattrs; exact Hbound |].
        repeat constructor. cbn. lia.
  - cbn [bind].
    destruct (GLTFAccessor.vertexType (accessor a)) as [fmt | e];
      [| reflexivity].
    cbn [bind]. eexists. split; [reflexivity |].
    cbn [bufferLayout]. intros k s Hs.
    apply (In_Map_set _ _ _ (fun x => x) LayoutKey_eqb LayoutKey_eqb_eq)
      in Hs as [[_ ->] | [Hs _]]; [| apply (Hinv _ _ Hs)].
    split.
    + exists {| shaderLocation := location a; format := fmt;
                offset := GLTFAccessor.byteOffset (accessor a) |}, [].
      cbn. repeat split; try constructor. exact Hstride_a.
    + cbn. repeat constructor. cbn. lia.
Qed.

Lemma place_attributes_anchored (l : list Attribute) (st : State) :
  StronglySorted by_offset l ->
  (forall k slot, In (k, slot) (bufferLayout st) ->
     anchored slot /\
     forall a, In a l ->
       Forall (fun x => (offset x <= GLTFAccessor.byteOffset (accessor a))%Z)
              (attributes (layout slot))) ->
  match vertexTypes (map accessor l) tt with
  | Throw e => forEach place_attribute l st = Throw e
  | Ok _ =>
      exists st',
        forEach place_attribute l st = Ok st' /\
        forall k slot, In (k, slot) (bufferLayout st') -> anchored slot
  end.
Proof.
  intros Hsorted. revert st.
  induction Hsorted as [| a l Hl IH Ha]; intros st Hinv.
  - simpl. exists st. split; [reflexivity |].
    intros k slot H. apply (Hinv _ _ H).
  - cbn [map forEach]. unfold place_attribute at 1 3.
    destruct (GLTFAccessor.view (accessor a)) as [v |] eqn:Hv;
      [| reflexivity].
    pose proof (place_in_anchored v a st Hv) as Hstep.
    destruct (GLTFAccessor.vertexType (accessor a)) as [fmt | e].
    + destruct Hstep as (st1 & Hst1 & Hinv1).
      { intros k slot H. destruct (Hinv _ _ H) as (Hanch & Hbound).
        split; [exact Hanch | apply Hbound; left; reflexivity]. }
      rewrite Hst1. cbn [bind]. apply IH.
      intros k slot H. destruct (Hinv1 _ _ H) as (Hanch & Hbound).
      split; [exact Hanch |].
      intros a' Ha'. rewrite Forall_forall in Ha. specialize (Ha a' Ha').
      eapply Forall_impl; [| exact Hbound]. cbn. intros x Hx. lia.
    + rewrite Hstep; [reflexivity |].
      intros k slot H. destruct (Hinv _ _ H) as (Hanch & Hbound).
      split; [exact Hanch | apply Hbound; left; reflexivity].
Qed.

Lemma Map_set_absent {K V : Type} (eqb : K -> K -> bool) (k : K) (v : V)
    (m : list (K * V)) :
  Map_get eqb k m = None -> Map_set eqb k v m = m ++ [(k, v)].
Proof.
  induction m as [| [k' v'] m IH]; simpl; [reflexivity |].
  destruct (eqb k k'); [discriminate |].
  intros H. rewrite IH by exact H. reflexivity.
Qed.

Lemma Permutation_swap_ends {B : Type} (a m b : list B) :
  Permutation (a ++ m ++ b) (b ++ m ++ a).
Proof.
  rewrite (Permutation_app_comm a (m ++ b)), <- app_assoc.
  rewrite (Permutation_app_comm m (b ++ a)), <- app_assoc.
  apply Permutation_app_head, Permutation_app_comm.
Qed.

Lemma Map_set_flat_map {K V B : Type} (eqb : K -> K -> bool)
    (f : V -> list B) (k : K) (v : V) (m : list (K * V)) :
  Permutation
    (flat_map (fun e => f (snd e)) (Map_set eqb k v m) ++
     match Map_get eqb k m with Some old => f old | None => [] end)
    (flat_map (fun e => f (snd e)) m ++ f v).
Proof.
  induction m as [| [k' v'] m IH]; simpl.
  - rewrite !app_nil_r. reflexivity.
  - destruct (eqb k k'); simpl.
    + rewrite <- !app_assoc. apply Permutation_swap_ends.
    + rewrite <- !app_assoc. apply Permutation_app_head, IH.
Qed.

(** A step that returns has pushed one attribute, and no more than one
    key is new. *)
Lemma place_attribute_conserves (a : Attribute) (st st' : State) :
  place_attribute a st = Ok st' ->
  ~ In (ByName (name a)) (map fst (bufferLayout st)) ->
  (exists fmt, GLTFAccessor.vertexType (accessor a) = Ok fmt) /\
  Permutation (flat_map slot_attributes (bufferLayout st'))
              (flat_map slot_attributes (bufferLayout st) ++ pushed a) /\
  (forall n, In (ByName n) (map fst (bufferLayout st')) ->
             In (ByName n) (map fst (bufferLayout st)) \/ n = name a) /\
  vertexCount st' =
    if String.eqb (name a) "POSITION"
    then GLTFAccessor.count (accessor a)
    else vertexCount st.
Proof.
  unfold place_attribute, pushed. intros H Hname.
  destruct (GLTFAccessor.view (accessor a)) as [v |]; [| discriminate H].
  unfold place_in in H.
  set (view := ByBufferView (GLTFBufferView.index v)) in *.
  apply bind_Ok in H as (separate & Hsep & H).
  apply bind_Ok in H as (fmt & Hfmt & H). rewrite Hfmt.
  split; [exists fmt; reflexivity |].
  assert (Hkeys : forall key slot n,
             In (ByName n)
                (map fst (Map_set LayoutKey_eqb key slot (bufferLayout st))) ->
             key = view \/ key = ByName (name a) ->
             In (ByName n) (map fst (bufferLayout st)) \/ n = name a).
  { intros key slot n Hn Hkey.
    apply (ids_Map_set _ _ _ (fun x => x) LayoutKey_eqb LayoutKey_eqb_eq)
      in Hn as [Hn | Hn]; [| left; exact Hn].
    destruct Hkey as [-> | ->]; [discriminate Hn |].
    injection Hn as ->. right. reflexivity. }
  destruct (Map_get LayoutKey_eqb view (bufferLayout st)) as [slot |] eqn:Hget.
  - destruct separate; injection H as <-; cbn [bufferLayout vertexCount].
    + split; [| split; [| reflexivity]].
      * rewrite Map_set_absent.
        { rewrite flat_map_app. simpl. rewrite ?app_nil_r. reflexivity. }
        apply (Map_get_None _ _ _ (fun x => x) LayoutKey_eqb LayoutKey_eqb_eq).
        exact Hname.
      * intros n Hn. apply (Hkeys _ _ _ Hn). auto.
    + split; [| split; [| reflexivity]].
      * pose proof (Map_set_flat_map LayoutKey_eqb
                      (fun slot => attributes (layout slot)) view
                      {| layout :=
                           {| arrayStride := arrayStride (layout slot);
                              attributes :=
                                attributes (layout slot) ++
                                [{| shaderLocation := location a;
                                    format := fmt;
                                    offset :=
                                      GLTFAccessor.byteOffset (accessor a) |}] |};
                         gpuBuffer :=
                           {| GPUBufferAccessor.accessor :=
                                GPUBufferAccessor.accessor (gpuBuffer slot);
                              GPUBufferAccessor.offset :=
                                Z.min (GPUBufferAccessor.offset (gpuBuffer slot))
                                      (GLTFAccessor.byteOffset (accessor a)) |} |}
                      (bufferLayout st)) as Hperm.
        rewrite Hget in Hperm. cbn [layout attributes] in Hperm.
        apply (Permutation_app_inv_r (attributes (layout slot))).
        unfold slot_attributes. rewrite Hperm, <- app_assoc.
        apply Permutation_app_head, Permutation_app_comm.
      * intros n Hn. apply (Hkeys _ _ _ Hn). auto.
  - injection Hsep as <-. injection H as <-.
    cbn [bufferLayout vertexCount].
    split; [| split; [| reflexivity]].
    + rewrite Map_set_absent by exact Hget.
      rewrite flat_map_app. simpl. rewrite ?app_nil_r. reflexivity.
    + intros n Hn. apply (Hkeys _ _ _ Hn). auto.
Qed.

Lemma place_attributes_conserve (l : list Attribute) (st st' : State) :
  forEach place_attribute l st = Ok st' ->
  NoDup (map name l) ->
  (forall a, In a l -> ~ In (ByName (name a)) (map fst (bufferLayout st))) ->
  Forall (fun a => exists fmt, GLTFAccessor.vertexType (accessor a) = Ok fmt) l /\
  Permutation (flat_map slot_attributes (bufferLayout st'))
              (flat_map slot_attributes (bufferLayout st) ++ flat_map pushed l).
Proof.
  revert st. induction l as [| a l IH]; intros st H Hnd Hfresh.
  - injection H as <-. split; [constructor |].
    simpl. rewrite app_nil_r. reflexivity.
  - cbn [forEach] in H. apply bind_Ok in H as (st1 & Ha & H).
    apply place_attribute_conserves in Ha as (Hfmt & Hperm & Hkeys & _);
      [| apply Hfresh; left; reflexivity].
    inversion Hnd as [| ? ? Hnot Hnd']; subst.
    destruct (IH st1 H Hnd') as (Hall & Hperm').
    { intros a' Ha' Hin. apply Hkeys in Hin as [Hin | Hin].
      - apply (Hfresh a' (or_intror Ha') Hin).
      - apply Hnot. rewrite <- Hin. apply in_map, Ha'. }
    split; [constructor; assumption |].
    rewrite Hperm', Hperm. cbn [flat_map]. rewrite app_assoc. reflexivity.
Qed.

Lemma place_attributes_vertexCount (l : list Attribute) (st st' : State) :
  forEach place_attribute l st = Ok st' ->
  (~ In "POSITION"%string (map name l) -> vertexCount st' = vertexCount st) /\
  (NoDup (map name l) ->
   forall a, In a l -> name a = "POSITION"%string ->
             vertexCount st' = GLTFAccessor.count (accessor a)).
Proof.
  revert st. induction l as [| a l IH]; intros st H.
  - injection H as <-. split; [reflexivity | intros _ a []].
  - cbn [forEach] in H. apply bind_Ok in H as (st1 & Ha & H).
    assert (Hcount : vertexCount st1 =
                     if String.eqb (name a) "POSITION"
                     then GLTFAccessor.count (accessor a)
                     else vertexCount st).
    { unfold place_attribute in Ha.
      destruct (GLTFAccessor.view (accessor a)) as [v |]; [| discriminate Ha].
      unfold place_in in Ha.
      apply bind_Ok in Ha as (separate & _ & Ha).
      apply bind_Ok in Ha as (fmt & _ & Ha).
      destruct (match Map_get LayoutKey_eqb _ (bufferLayout st), separate with
                | Some slot, false => _
                | _, _ => _
                end) as [key slot].
      injection Ha as <-. reflexivity. }
    destruct (IH st1 H) as (Hnone & Hsome). split.
    + intros Hnot. rewrite Hnone by (intros Hin; apply Hnot; right; exact Hin).
      rewrite Hcount.
      destruct (String.eqb_spec (name a) "POSITION") as [E | _];
        [| reflexivity].
      exfalso. apply Hnot. left. exact E.
    + intros Hnd a' [<- | Ha'] Hname.
      * inversion Hnd as [| ? ? Hnot _]; subst.
        rewrite Hnone by (rewrite <- Hname; exact Hnot).
        rewrite Hcount, Hname. reflexivity.
      * inversion Hnd as [| ? ? _ Hnd']; subst.
        apply (Hsome Hnd' a' Ha' Hname).
Qed.

Lemma StronglySorted_impl {A : Type} (R R' : A -> A -> Prop) (l : list A) :
  (forall a b, R a b -> R' a b) ->
  StronglySorted R l -> StronglySorted R' l.
Proof.
  intros H. induction 1 as [| a l Hl IH Ha]; constructor; [exact IH |].
  eapply Forall_impl; [| exact Ha]. intros b. apply H.
Qed.

Lemma StronglySorted_map {A B : Type} (f : A -> B) (R : B -> B -> Prop)
    (l : list A) :
  StronglySorted (fun a b => R (f a) (f b)) l -> StronglySorted R (map f l).
Proof.
  induction 1 as [| a l Hl IH Ha]; simpl; constructor; [exact IH |].
  apply Forall_map. exact Ha.
Qed.

Lemma rebase_settled (slot : Slot) :
  anchored slot ->
  settled (layout (rebase slot)) (gpuBuffer (rebase slot)).
Proof.
  intros (first & rest & Hattrs & Hfirst & Hgpu & Hstride & Hrest).
  unfold settled, rebase. cbn [layout gpuBuffer arrayStride attributes].
  split; [exact Hstride |]. split; [exact Hgpu |].
  set (shifted := map _ (attributes (layout slot))).
  assert (Hperm : Permutation shifted
                    (sort_by (fun a => Z.of_nat (shaderLocation a)) shifted))
    by (symmetry; apply Permutation_sort_by).
  split; [| split].
  - eapply Permutation_Exists; [exact Hperm |].
    unfold shifted. rewrite Hattrs. left. cbn. lia.
  - eapply Permutation_Forall; [exact Hperm |].
    unfold shifted. rewrite Hattrs. apply Forall_map.
    constructor; [cbn; lia |].
    eapply Forall_impl; [| exact Hrest]. cbn. intros a Ha. lia.
  - eapply StronglySorted_impl;
      [| apply (StronglySorted_sort_by _ (fun a => Z.of_nat (shaderLocation a)))].
    cbn. intros a b H. lia.
Qed.

Lemma sort_layouts_sorted (slots : list Slot) :
  Forall (fun slot => attributes (layout slot) <> []) slots ->
  exists sorted,
    sort_layouts slots = Ok sorted /\
    Permutation sorted slots /\
    StronglySorted (fun a b => (head_location (layout a) <=
                                head_location (layout b))%Z) sorted.
Proof.
  intros Hall.
  assert (Hkey : forall slot,
             match first_location slot with
             | Some location => Z.of_nat location
             | None => 0%Z
             end = head_location (layout slot)).
  { intros slot. unfold first_location, head_location.
    destruct (attributes (layout slot)); reflexivity. }
  destruct slots as [| s1 [| s2 slots]].
  - exists []. repeat split; constructor.
  - exists [s1]. repeat split; repeat constructor.
  - unfold sort_layouts.
    replace (forallb _ (s1 :: s2 :: slots)) with true.
    + eexists. split; [reflexivity |]. split; [apply Permutation_sort_by |].
      eapply StronglySorted_impl; [| apply StronglySorted_sort_by].
      cbn beta. intros a b H. rewrite <- !Hkey. exact H.
    + symmetry. apply forallb_forall. intros slot Hin.
      rewrite Forall_forall in Hall. specialize (Hall slot Hin).
      unfold first_location. destruct (attributes (layout slot));
        [congruence | reflexivity].
Qed.

(** The loop and the two sorts of [setPrimitive], from the defined
    attributes on. *)
Lemma setPrimitive_defined (l : list GLTFLoaderV2.AttributeAccessor)
    (xs : list Attribute) :
  defined l = Some xs ->
  match vertexTypes
          (GLTFLoaderV2.sort_by_offset (map accessor xs)) tt with
  | Throw e => VertexLayout.setPrimitive l = Throw e
  | Ok _ =>
      exists st sorted,
        forEach place_attribute
          (sort_by (fun a => GLTFAccessor.byteOffset (accessor a)) xs)
          {| vertexCount := 0; bufferLayout := [] |} = Ok st /\
        Permutation sorted (map (fun e => rebase (snd e)) (bufferLayout st)) /\
        StronglySorted (fun a b => (head_location (layout a) <=
                                    head_location (layout b))%Z) sorted /\
        Forall (fun slot => settled (layout slot) (gpuBuffer slot)) sorted /\
        VertexLayout.setPrimitive l =
        Ok {| finalVertexCount := vertexCount st;
              layouts := map layout sorted;
              gpuBuffers := map gpuBuffer sorted |}
  end.
Proof.
  intros Hdef. unfold VertexLayout.setPrimitive. rewrite Hdef.
  rewrite sort_by_offset_sort_by, <- map_sort_by.
  pose proof (place_attributes_anchored
                (sort_by (fun a => GLTFAccessor.byteOffset (accessor a)) xs)
                {| vertexCount := 0; bufferLayout := [] |}
                (StronglySorted_sort_by _ _ xs)) as Hloop.
  destruct (vertexTypes (map accessor _) tt) as [u | e].
  - destruct Hloop as (st & Hst & Hanch); [intros k slot [] |].
    rewrite Hst. cbn [bind].
    assert (Hsettled : Forall (fun slot => settled (layout slot) (gpuBuffer slot))
                              (map (fun e => rebase (snd e)) (bufferLayout st))).
    { apply Forall_map, Forall_forall. intros [k slot] Hin.
      apply rebase_settled, (Hanch k slot Hin). }
    destruct (sort_layouts_sorted
                (map (fun e => rebase (snd e)) (bufferLayout st)))
      as (sorted & Hsorted & Hperm & Hordered).
    { eapply Forall_impl; [| exact Hsettled].
      intros slot (_ & _ & Hex & _) E. rewrite E in Hex. inversion Hex. }
    rewrite Hsorted. cbn [bind].
    exists st, sorted. repeat split; try assumption.
    eapply Permutation_Forall; [symmetry; exact Hperm | exact Hsettled].
  - rewrite Hloop; [reflexivity | intros k slot []].
Qed.
End LayoutFacts.

(** X8: [setPrimitive] returns exactly when every attribute accessor is
    defined, has a buffer view and has a vertex type; what it throws
    otherwise is the [TypeError] of an undefined accessor or of an accessor
    without buffer view, or the error of [vertexType] for one of the
    accessors.  Reading [attributes[0]] of a layout never fails. *)
Theorem setPrimitive_returns_or_throws
    (attributeAccessors : list GLTFLoaderV2.AttributeAccessor) :
  match VertexLayout.setPrimitive attributeAccessors with
  | Ok _ => Forall VertexLayout.supported attributeAccessors
  | Throw e =>
      exists a, In a attributeAccessors /\
                match GLTFLoaderV2.accessor a with
                | None => e = TypeError
                | Some x =>
                    match GLTFAccessor.view x with
                    | None => e = TypeError
                    | Some _ => GLTFAccessor.vertexType x = Throw e
                    end
                end
  end /\
  (Forall VertexLayout.supported attributeAccessors ->
   exists primitive, VertexLayout.setPrimitive attributeAccessors = Ok primitive).
Proof.
  assert (Hagree :
    match GLTFLoaderV2.setPrimitive attributeAccessors with
    | Ok _ => exists primitive,
                VertexLayout.setPrimitive attributeAccessors = Ok primitive
    | Throw e => VertexLayout.setPrimitive attributeAccessors = Throw e
    end).
  { unfold GLTFLoaderV2.setPrimitive.
    rewrite defined_accessors_defined.
    destruct (VertexLayout.defined attributeAccessors) as [xs |] eqn:Hdef.
    - cbn [option_map].
      pose proof (setPrimitive_defined _ _ Hdef) as H.
      destruct (forEach _ (GLTFLoaderV2.sort_by_offset _) tt) as [u | e];
        [| exact H].
      destruct H as (st & sorted & _ & _ & _ & _ & H). eauto.
    - cbn [option_map]. unfold VertexLayout.setPrimitive. rewrite Hdef.
      reflexivity. }
  split.
  - destruct (GLTFLoaderV2.setPrimitive attributeAccessors) as [[] | e] eqn:H.
    + destruct Hagree as (primitive & ->).
      apply Forall_forall. intros a Ha.
      apply (setPrimitive_Ok _ _ H a Ha).
    + rewrite Hagree. apply setPrimitive_Throw, H.
  - intros Hall.
    destruct (GLTFLoaderV2.setPrimitive attributeAccessors) as [[] | e] eqn:H;
      [exact Hagree |].
    apply setPrimitive_Throw in H as (a & Ha & He).
    rewrite Forall_forall in Hall.
    destruct (Hall a Ha) as (x & v & fmt & Hx & Hv & Hfmt).
    rewrite Hx, Hv in He. congruence.
Qed.

Lemma setPrimitive_returns_or_throws_witness :
  exists primitive,
    VertexLayout.setPrimitive Samples.attributeAccessors = Ok primitive.
Proof.
  apply (setPrimitive_returns_or_throws Samples.attributeAccessors).
  repeat constructor; eexists; eexists; eexists; (split; [| split]);
    vm_compute; reflexivity.
Defined.

(** X9: the layouts [setPrimitive] leaves come with one GPU buffer each, in
    the same order.  The stride of a layout and the offset of its GPU buffer
    are those of the accessor the buffer was made for; the offsets of its
    attributes are relative to that offset, none of them negative and one
    of them 0; its attributes are sorted by shader location, and the
    layouts by the shader location of their first attribute. *)
Theorem setPrimitive_layouts_settled
    (attributeAccessors : list GLTFLoaderV2.AttributeAccessor)
    (primitive : VertexLayout.t) :
  VertexLayout.setPrimitive attributeAccessors = Ok primitive ->
  Forall2 VertexLayout.settled (VertexLayout.layouts primitive)
                               (VertexLayout.gpuBuffers primitive) /\
  StronglySorted (fun a b => (VertexLayout.head_location a <=
                              VertexLayout.head_location b)%Z)
                 (VertexLayout.layouts primitive).
Proof.
  intros H. unfold VertexLayout.setPrimitive in H.
  destruct (VertexLayout.defined attributeAccessors) as [xs |] eqn:Hdef;
    [| discriminate H].
  fold (VertexLayout.setPrimitive attributeAccessors) in H.
  pose proof (setPrimitive_defined _ _ Hdef) as Hall.
  destruct (forEach _ (GLTFLoaderV2.sort_by_offset _) tt) as [u | e].
  - destruct Hall as (st & sorted & _ & _ & Hordered & Hsettled & E).
    unfold VertexLayout.setPrimitive in E. rewrite Hdef in E.
    rewrite E in H. injection H as <-.
    cbn [VertexLayout.layouts VertexLayout.gpuBuffers]. split.
    + clear -Hsettled. induction Hsettled; simpl; constructor; assumption.
    + apply StronglySorted_map. exact Hordered.
  - unfold VertexLayout.setPrimitive in Hall. rewrite Hdef in Hall.
    rewrite Hall in H. discriminate H.
Qed.

Lemma setPrimitive_layouts_settled_witness :
  Forall2 VertexLayout.settled
          (VertexLayout.layouts Samples.primitive_layout)
          (VertexLayout.gpuBuffers Samples.primitive_layout) /\
  StronglySorted (fun a b => (VertexLayout.head_location a <=
                              VertexLayout.head_location b)%Z)
                 (VertexLayout.layouts Samples.primitive_layout).
Proof.
  apply (setPrimitive_layouts_settled Samples.attributeAccessors).
  vm_compute. reflexivity.
Defined.

Section LayoutConservation.
Import VertexLayout.

Lemma map_shaderLocation_rebase (slot : Slot) :
  Permutation (map shaderLocation (attributes (layout (rebase slot))))
              (map shaderLocation (attributes (layout slot))).
Proof.
  unfold rebase. cbn [layout attributes].
  rewrite Permutation_sort_by, map_map. reflexivity.
Qed.

Lemma map_shaderLocation_pushed (l : list Attribute) :
  Forall (fun a => exists fmt, GLTFAccessor.vertexType (accessor a) = Ok fmt) l ->
  map shaderLocation (flat_map pushed l) = map location l.
Proof.
  induction 1 as [| a l (fmt & Hfmt) _ IH]; [reflexivity |].
  cbn [flat_map map]. rewrite map_app, IH. unfold pushed. rewrite Hfmt.
  reflexivity.
Qed.

(** What a [setPrimitive] that returns has made of the defined attributes:
    the state of the loop, and the slots after the two sorts. *)
Lemma setPrimitive_inv (l : list GLTFLoaderV2.AttributeAccessor)
    (primitive : VertexLayout.t) :
  VertexLayout.setPrimitive l = Ok primitive ->
  exists xs st sorted,
    defined l = Some xs /\
    forEach place_attribute
      (sort_by (fun a => GLTFAccessor.byteOffset (accessor a)) xs)
      {| vertexCount := 0; bufferLayout := [] |} = Ok st /\
    Permutation sorted (map (fun e => rebase (snd e)) (bufferLayout st)) /\
    primitive = {| finalVertexCount := vertexCount st;
                   layouts := map layout sorted;
                   gpuBuffers := map gpuBuffer sorted |}.
Proof.
  intros H.
  destruct (defined l) as [xs |] eqn:Hdef;
    [| unfold VertexLayout.setPrimitive in H; rewrite Hdef in H;
       discriminate H].
  pose proof (setPrimitive_defined _ _ Hdef) as Hall.
  destruct (forEach _ (GLTFLoaderV2.sort_by_offset _) tt) as [u | e].
  - destruct Hall as (st & sorted & Hst & Hperm & _ & _ & E).
    rewrite E in H. injection H as <-. exists xs, st, sorted. auto.
  - rewrite Hall in H. discriminate H.
Qed.
End LayoutConservation.

(** X10: when the attribute names are pairwise distinct, as the keys of the
    [attributes] object of a primitive are, [setPrimitive] puts every
    attribute accessor into exactly one layout: the shader locations of the
    attributes of all layouts are those of the attribute accessors, each as
    often. *)
Theorem setPrimitive_keeps_every_attribute
    (attributeAccessors : list GLTFLoaderV2.AttributeAccessor)
    (primitive : VertexLayout.t) :
  VertexLayout.setPrimitive attributeAccessors = Ok primitive ->
  NoDup (map GLTFLoaderV2.name attributeAccessors) ->
  Permutation
    (map VertexLayout.shaderLocation
         (flat_map VertexLayout.attributes (VertexLayout.layouts primitive)))
    (map GLTFLoaderV2.shaderLocation attributeAccessors).
Proof.
  intros H Hnd.
  apply setPrimitive_inv in H as (xs & st & sorted & Hdef & Hst & Hperm & ->).
  destruct (defined_attribute_fields _ _ Hdef) as (Hnames & Hlocations & _).
  apply place_attributes_conserve in Hst as (Hall & Hraw).
  - cbn [VertexLayout.layouts VertexLayout.bufferLayout flat_map app] in *.
    rewrite <- Hlocations.
    transitivity
      (map VertexLayout.location
           (VertexLayout.sort_by
              (fun a => GLTFAccessor.byteOffset (VertexLayout.accessor a)) xs));
      [| apply Permutation_map, Permutation_sort_by].
    rewrite <- (map_shaderLocation_pushed _ Hall), <- Hraw.
    rewrite flat_map_concat_map, map_map, <- flat_map_concat_map.
    rewrite Hperm.
    rewrite flat_map_concat_map, map_map, <- flat_map_concat_map.
    clear. induction (VertexLayout.bufferLayout st) as [| [k slot] m IH];
      [reflexivity |].
    cbn [flat_map]. rewrite !map_app.
    apply Permutation_app; [apply map_shaderLocation_rebase | exact IH].
  - apply (Permutation_NoDup (l := map VertexLayout.name xs));
      [| rewrite Hnames; exact Hnd].
    apply Permutation_map. symmetry. apply Permutation_sort_by.
  - intros a _ [].
Qed.

Lemma setPrimitive_keeps_every_attribute_witness :
  Permutation
    (map VertexLayout.shaderLocation
         (flat_map VertexLayout.attributes
                   (VertexLayout.layouts Samples.primitive_layout)))
    (map GLTFLoaderV2.shaderLocation Samples.attributeAccessors).
Proof.
  apply (setPrimitive_keeps_every_attribute Samples.attributeAccessors).
  - vm_compute. reflexivity.
  - repeat constructor; simpl; intuition discriminate.
Defined.

(** X11: [vertexCount] is the [count] of the accessor of the POSITION
    attribute; a primitive without that attribute is constructed all the
    same and keeps the vertex count 0. *)
Theorem setPrimitive_vertexCount
    (attributeAccessors : list GLTFLoaderV2.AttributeAccessor)
    (primitive : VertexLayout.t) :
  VertexLayout.setPrimitive attributeAccessors = Ok primitive ->
  (~ In "POSITION"%string (map GLTFLoaderV2.name attributeAccessors) ->
   VertexLayout.finalVertexCount primitive = 0%Z) /\
  (NoDup (map GLTFLoaderV2.name attributeAccessors) ->
   forall a x,
     In a attributeAccessors ->
     GLTFLoaderV2.name a = "POSITION"%string ->
     GLTFLoaderV2.accessor a = Some x ->
     VertexLayout.finalVertexCount primitive = GLTFAccessor.count x).
Proof.
  intros H.
  apply setPrimitive_inv in H as (xs & st & sorted & Hdef & Hst & _ & ->).
  destruct (defined_attribute_fields _ _ Hdef) as (Hnames & _ & Haccessors).
  apply place_attributes_vertexCount in Hst as (Hnone & Hsome).
  cbn [VertexLayout.finalVertexCount]. split.
  - intros Hnot. apply Hnone. intros Hin. apply Hnot.
    rewrite <- Hnames.
    eapply Permutation_in; [| exact Hin].
    apply Permutation_map, Permutation_sort_by.
  - intros Hnd a x Ha Hname Hx.
    assert (Hex : exists b, In b xs /\ VertexLayout.name b = "POSITION"%string /\
                            VertexLayout.accessor b = x).
    { clear -Hdef Ha Hname Hx. revert xs Hdef.
      induction attributeAccessors as [| a' l IH]; [destruct Ha |].
      simpl. intros xs Hdef.
      destruct (GLTFLoaderV2.accessor a') as [x' |] eqn:E; [| discriminate].
      destruct (VertexLayout.defined l) as [xs' |]; [| discriminate].
      injection Hdef as <-.
      destruct Ha as [-> | Ha].
      - eexists. split; [left; reflexivity |]. cbn. split; congruence.
      - destruct (IH Ha _ eq_refl) as (b & Hb & Hrest).
        exists b. split; [right; exact Hb | exact Hrest]. }
    destruct Hex as (b & Hb & Hbname & <-).
    apply Hsome.
    + apply (Permutation_NoDup (l := map VertexLayout.name xs));
        [| rewrite Hnames; exact Hnd].
      apply Permutation_map. symmetry. apply Permutation_sort_by.
    + apply In_sort_by, Hb.
    + exact Hbname.
Qed.

Lemma setPrimitive_vertexCount_witness :
  VertexLayout.finalVertexCount Samples.primitive_layout =
  GLTFAccessor.count (Samples.float_accessor Samples.interleaved_view "VEC3" 0).
Proof.
  destruct (setPrimitive_vertexCount Samples.attributeAccessors
              Samples.primitive_layout) as (_ & H).
  - vm_compute. reflexivity.
  - apply (H ltac:(repeat constructor; simpl; intuition discriminate)
             (nth 2 Samples.attributeAccessors
                  (hd (nth 0 Samples.attributeAccessors
                           {| GLTFLoaderV2.name := ""; GLTFLoaderV2.shaderLocation := 0;
                              GLTFLoaderV2.accessor := None |}) []))).
    + simpl. auto.
    + reflexivity.
    + reflexivity.
Defined.

Section GeometryFacts.
Import MeshGeometry.
Variables POSITION NORMAL TEXCOORD_0 : nat.

Lemma length_slice (array : list f32) (start stop : nat) :
  stop <= length array ->
  length (slice array start stop) = stop - start.
Proof.
  intros H. unfold slice. rewrite length_firstn, length_skipn. lia.
Qed.

Lemma skipn_concat_uniform {A : Type} (w i : nat) (l : list (list A)) :
  Forall (fun x => length x = w) l ->
  skipn (i * w) (concat l) = concat (skipn i l).
Proof.
  intros H. revert i. induction H as [| x l Hx _ IH]; intros i.
  - simpl. rewrite !skipn_nil. reflexivity.
  - destruct i as [| i]; [reflexivity |].
    cbn [concat skipn]. rewrite <- IH.
    replace (S i * w) with (i * w + length x) by (simpl; lia).
    rewrite <- skipn_skipn.
    rewrite (skipn_app (length x) x), Nat.sub_diag, skipn_all.
    reflexivity.
Qed.

Lemma slice_concat_uniform (w i off c : nat) (l : list (list f32))
    (x : list f32) :
  Forall (fun x => length x = w) l ->
  nth_error l i = Some x ->
  off + c <= w ->
  slice (concat l) (i * w + off) (i * w + off + c) =
  firstn c (skipn off x).
Proof.
  intros Hall Hx Hle. unfold slice.
  replace (i * w + off + c - (i * w + off)) with c by lia.
  rewrite Nat.add_comm, <- skipn_skipn, (skipn_concat_uniform _ _ _ Hall).
  assert (Hlen : length x = w).
  { rewrite Forall_forall in Hall. apply Hall.
    eapply nth_error_In, Hx. }
  destruct (nth_error_split l i Hx) as (l1 & l2 & -> & Hi).
  rewrite skipn_app, <- Hi, Nat.sub_diag, skipn_all. cbn [app skipn concat].
  rewrite skipn_app, firstn_app, length_skipn.
  replace (c - (length x - off)) with 0 by lia.
  rewrite firstn_O, app_nil_r. reflexivity.
Qed.

Lemma stride_of_floats (geometry : Attributes) :
  stride_of (truthy (normals geometry)) (truthy (uvs geometry)) =
  (4 * Z.of_nat (floats_per_vertex geometry))%Z.
Proof.
  unfold stride_of, floats_per_vertex, BYTES_PER_ELEMENT.
  destruct (truthy (normals geometry)), (truthy (uvs geometry)); reflexivity.
Qed.

Lemma length_vertex_floats (vertexCount : nat) (geometry : Attributes)
    (i : nat) :
  complete vertexCount geometry ->
  i < vertexCount ->
  length (vertex_floats geometry i) = floats_per_vertex geometry.
Proof.
  intros (Hp & Hn & Hu) Hi. unfold vertex_floats, floats_per_vertex.
  rewrite !length_app, length_slice by lia.
  destruct (normals geometry) as [ns |], (uvs geometry) as [ts |]; cbn [truthy];
    rewrite ?length_slice;
    try (rewrite (Hn ns eq_refl)); try (rewrite (Hu ts eq_refl));
    simpl; lia.
Qed.

Lemma write_vertex_bound (geometry : Attributes) (i : nat) :
  length (vertex_floats geometry i) <= floats_per_vertex geometry.
Proof.
  unfold vertex_floats, floats_per_vertex, slice.
  rewrite !length_app, length_firstn.
  destruct (normals geometry) as [ns |], (uvs geometry) as [ts |]; cbn [truthy];
    rewrite ?length_firstn; simpl; lia.
Qed.

Lemma write_vertex_offset (geometry : Attributes) (i : nat) :
  Z.to_nat ((Z.of_nat i * (4 * Z.of_nat (floats_per_vertex geometry)))
            / BYTES_PER_ELEMENT) =
  i * floats_per_vertex geometry.
Proof.
  unfold BYTES_PER_ELEMENT.
  replace (Z.of_nat i * (4 * Z.of_nat (floats_per_vertex geometry)))%Z
    with (Z.of_nat (i * floats_per_vertex geometry) * 4)%Z by lia.
  rewrite Z.div_mul by lia. apply Nat2Z.id.
Qed.

(** The loop never writes outside the buffer, whatever the arrays hold. *)
Lemma write_vertices_Ok (geometry : Attributes) (count first : nat)
    (data : list f32) :
  (first + count) * floats_per_vertex geometry <= length data ->
  exists data',
    forEach (write_vertex geometry
               (4 * Z.of_nat (floats_per_vertex geometry))%Z)
            (seq first count) data = Ok data' /\
    length data' = length data.
Proof.
  revert first data. induction count as [| count IH]; intros first data Hlen.
  - exists data. split; reflexivity.
  - cbn [seq forEach]. unfold write_vertex at 1.
    fold (vertex_floats geometry first).
    rewrite write_vertex_offset. unfold TypedArray_set.
    pose proof (write_vertex_bound geometry first) as Hb.
    destruct (Nat.leb_spec
                (first * floats_per_vertex geometry
                 + length (vertex_floats geometry first)) (length data))
      as [Hfit | Hfit]; [| nia].
    cbn [bind].
    destruct (IH (S first)
                 (overwrite data (first * floats_per_vertex geometry)
                            (vertex_floats geometry first)))
      as (data' & Hrun & Hlen').
    + unfold overwrite. rewrite !length_app, length_firstn, length_skipn. nia.
    + exists data'. split; [exact Hrun |].
      rewrite Hlen'. unfold overwrite.
      rewrite !length_app, length_firstn, length_skipn. nia.
Qed.

Lemma write_vertices_complete (vertexCount : nat) (geometry : Attributes)
    (count first : nat) :
  complete vertexCount geometry ->
  first + count = vertexCount ->
  forEach (write_vertex geometry
             (4 * Z.of_nat (floats_per_vertex geometry))%Z)
          (seq first count)
          (concat (map (vertex_floats geometry) (seq 0 first))
           ++ repeat 0%Z (count * floats_per_vertex geometry)) =
  Ok (concat (map (vertex_floats geometry) (seq 0 vertexCount))).
Proof.
  intros Hc. revert first.
  induction count as [| count IH]; intros first Hsum.
  - simpl. rewrite app_nil_r, Nat.add_0_r in *. subst. reflexivity.
  - cbn [seq forEach]. unfold write_vertex at 1.
    fold (vertex_floats geometry first).
    rewrite write_vertex_offset. unfold TypedArray_set.
    assert (Hpre : length (concat (map (vertex_floats geometry) (seq 0 first)))
                   = first * floats_per_vertex geometry).
    { clear IH. assert (Hf : first <= vertexCount) by lia. clear Hsum.
      induction first as [| first IHf]; [reflexivity |].
      rewrite seq_S, map_app, concat_app, length_app, IHf by lia.
      cbn [map concat]. rewrite app_nil_r.
      rewrite (length_vertex_floats vertexCount) by (auto; lia). lia. }
    pose proof (length_vertex_floats vertexCount geometry first Hc
                  ltac:(lia)) as Hw.
    rewrite length_app, repeat_length, Hpre, Hw.
    destruct (Nat.leb_spec
                (first * floats_per_vertex geometry
                 + floats_per_vertex geometry)
                (first * floats_per_vertex geometry
                 + S count * floats_per_vertex geometry)) as [_ | Hfit];
      [| lia].
    cbn [bind]. rewrite <- (IH (S first)) by lia.
    f_equal. unfold overwrite.
    rewrite <- Hpre at 1. rewrite firstn_app, Nat.sub_diag, firstn_all.
    simpl firstn. rewrite app_nil_r.
    rewrite skipn_app, Hpre, Hw.
    rewrite skipn_all2 by lia.
    replace (first * floats_per_vertex geometry + floats_per_vertex geometry
             - first * floats_per_vertex geometry)
      with (floats_per_vertex geometry) by lia.
    change (S count * floats_per_vertex geometry)
      with (floats_per_vertex geometry + count * floats_per_vertex geometry).
    rewrite repeat_app, skipn_app, repeat_length, Nat.sub_diag.
    rewrite skipn_all2 by (rewrite repeat_length; lia).
    rewrite seq_S, map_app, concat_app. simpl.
    rewrite !app_nil_r, <- app_assoc. reflexivity.
Qed.

Lemma firstn_skipn_middle {A : Type} (before x rest : list A) :
  firstn (length x) (skipn (length before) (before ++ x ++ rest)) = x.
Proof.
  rewrite skipn_app, Nat.sub_diag, skipn_all. cbn [app skipn].
  rewrite firstn_app, Nat.sub_diag, firstn_all. simpl.
  apply app_nil_r.
Qed.

Lemma buildGeometry_complete (vertexCount : nat) (geometry : Attributes) :
  complete vertexCount geometry ->
  buildGeometry POSITION NORMAL TEXCOORD_0 vertexCount geometry =
  Ok {| vertexCount := vertexCount;
        vertexData := concat (map (vertex_floats geometry) (seq 0 vertexCount));
        bufferLayout :=
          [{| arrayStride := (4 * Z.of_nat (floats_per_vertex geometry))%Z;
              stepMode := "vertex";
              attributes :=
                attributes_of POSITION NORMAL TEXCOORD_0
                              (truthy (normals geometry))
                              (truthy (uvs geometry)) |}] |}.
Proof.
  intros Hc. unfold buildGeometry. rewrite stride_of_floats.
  replace (Z.to_nat (4 * Z.of_nat (floats_per_vertex geometry)
                     * Z.of_nat vertexCount / BYTES_PER_ELEMENT))
    with (vertexCount * floats_per_vertex geometry).
  - pose proof (write_vertices_complete vertexCount geometry vertexCount 0 Hc
                  eq_refl) as H.
    cbn [seq map concat app] in H. rewrite H. reflexivity.
  - unfold BYTES_PER_ELEMENT.
    replace (4 * Z.of_nat (floats_per_vertex geometry) * Z.of_nat vertexCount)%Z
      with (Z.of_nat (vertexCount * floats_per_vertex geometry) * 4)%Z by lia.
    rewrite Z.div_mul by lia. symmetry. apply Nat2Z.id.
Qed.

Lemma fetch_complete (vertexCount : nat) (geometry : Attributes)
    (a : VertexLayout.GPUVertexAttribute) (before x rest : list f32)
    (layout : Layout) (i : nat) :
  complete vertexCount geometry ->
  i < vertexCount ->
  arrayStride layout = (4 * Z.of_nat (floats_per_vertex geometry))%Z ->
  VertexLayout.offset a = (4 * Z.of_nat (length before))%Z ->
  components (VertexLayout.format a) = length x ->
  vertex_floats geometry i = before ++ x ++ rest ->
  fetch layout (concat (map (vertex_floats geometry) (seq 0 vertexCount))) a i
  = x.
Proof.
  intros Hc Hi Hstride Hoffset Hcomponents Hfloats. unfold fetch.
  rewrite Hstride, Hoffset, Hcomponents. unfold BYTES_PER_ELEMENT.
  replace (Z.of_nat i * (4 * Z.of_nat (floats_per_vertex geometry))
           + 4 * Z.of_nat (length before))%Z
    with (Z.of_nat (i * floats_per_vertex geometry + length before) * 4)%Z
    by lia.
  rewrite Z.div_mul by lia. rewrite Nat2Z.id.
  pose proof (length_vertex_floats vertexCount geometry i Hc Hi) as Hw.
  rewrite (slice_concat_uniform (floats_per_vertex geometry) i
             (length before) (length x) _ (vertex_floats geometry i)).
  - rewrite Hfloats. apply firstn_skipn_middle.
  - apply Forall_forall. intros y Hy.
    apply in_map_iff in Hy as (j & <- & Hj). apply in_seq in Hj.
    apply (length_vertex_floats vertexCount); [exact Hc | lia].
  - rewrite nth_error_map, nth_error_seq.
    destruct (Nat.ltb_spec i vertexCount); [reflexivity | lia].
  - rewrite <- Hw, Hfloats, !length_app. lia.
Qed.
End GeometryFacts.

(** X12: [buildGeometry] does not fail, whatever the attribute arrays hold:
    no vertex is written outside the buffer, which has room for
    [vertexCount] vertices of [arrayStride] bytes.  Arrays shorter than the
    vertex count asks for are no error. *)
Theorem buildGeometry_never_overruns (POSITION NORMAL TEXCOORD_0 : nat)
    (vertexCount : nat) (geometry : MeshGeometry.Attributes) :
  exists r layout,
    MeshGeometry.buildGeometry POSITION NORMAL TEXCOORD_0 vertexCount geometry
    = Ok r /\
    MeshGeometry.bufferLayout r = [layout] /\
    (4 * Z.of_nat (length (MeshGeometry.vertexData r)) =
     MeshGeometry.arrayStride layout * Z.of_nat vertexCount)%Z.
Proof.
  unfold MeshGeometry.buildGeometry. rewrite stride_of_floats.
  set (w := MeshGeometry.floats_per_vertex geometry).
  assert (Hsize : Z.to_nat (4 * Z.of_nat w * Z.of_nat vertexCount
                            / MeshGeometry.BYTES_PER_ELEMENT)
                  = vertexCount * w).
  { unfold MeshGeometry.BYTES_PER_ELEMENT.
    replace (4 * Z.of_nat w * Z.of_nat vertexCount)%Z
      with (Z.of_nat (vertexCount * w) * 4)%Z by lia.
    rewrite Z.div_mul by lia. apply Nat2Z.id. }
  rewrite Hsize.
  destruct (write_vertices_Ok geometry vertexCount 0
              (repeat 0%Z (vertexCount * w))) as (data & Hrun & Hlen).
  { rewrite repeat_length. fold w. lia. }
  fold w in Hrun. rewrite Hrun. cbn [bind].
  eexists. eexists. split; [reflexivity |]. split; [reflexivity |].
  cbn [MeshGeometry.vertexData MeshGeometry.arrayStride].
  rewrite Hlen, repeat_length. lia.
Qed.

(** X13: when the arrays hold three position floats, three normal floats and
    two texture coordinates per vertex, the buffer and the layout
    [buildGeometry] returns fit each other: for every attribute of the layout,
    what the layout addresses at vertex [i] is the entry [i] of the array
    the attribute stands for. *)
Theorem buildGeometry_layout_reads_back (POSITION NORMAL TEXCOORD_0 : nat)
    (vertexCount : nat) (geometry : MeshGeometry.Attributes) :
  MeshGeometry.complete vertexCount geometry ->
  exists r layout,
    MeshGeometry.buildGeometry POSITION NORMAL TEXCOORD_0 vertexCount geometry
    = Ok r /\
    MeshGeometry.bufferLayout r = [layout] /\
    Forall2
      (fun a source =>
         VertexLayout.shaderLocation a = fst source /\
         forall i,
           i < vertexCount ->
           MeshGeometry.fetch layout (MeshGeometry.vertexData r) a i =
           MeshGeometry.slice
             (snd source)
             (i * MeshGeometry.components (VertexLayout.format a))
             ((i + 1) * MeshGeometry.components (VertexLayout.format a)))
      (MeshGeometry.attributes layout)
      (MeshGeometry.attribute_sources POSITION NORMAL TEXCOORD_0 geometry).
Proof.
  intros Hc.
  rewrite (buildGeometry_complete _ _ _ _ _ Hc).
  eexists. eexists. split; [reflexivity |]. split; [reflexivity |].
  cbn [MeshGeometry.attributes MeshGeometry.vertexData].
  pose proof Hc as (Hp & Hn & Hu).
  unfold MeshGeometry.attributes_of, MeshGeometry.attribute_sources.
  assert (Hpos : forall i, i < vertexCount ->
            length (MeshGeometry.slice (MeshGeometry.positions geometry)
                                       (i * 3) ((i + 1) * 3)) = 3).
  { intros i Hi. rewrite length_slice; lia. }
  destruct (MeshGeometry.normals geometry) as [ns |] eqn:En,
           (MeshGeometry.uvs geometry) as [ts |] eqn:Eu;
    cbn [MeshGeometry.truthy app];
    repeat (apply Forall2_cons || apply Forall2_nil);
    (split; [reflexivity |]); intros i Hi;
    cbn [VertexLayout.format snd MeshGeometry.components String.eqb
         Ascii.eqb Bool.eqb];
    pose proof (Hpos i Hi) as Hpi;
    try (pose proof (Hn ns eq_refl) as Hns;
         assert (Hni : length (MeshGeometry.slice ns (i * 3) ((i + 1) * 3)) = 3)
           by (rewrite length_slice; lia));
    try (pose proof (Hu ts eq_refl) as Hts;
         assert (Hti : length (MeshGeometry.slice ts (i * 2) ((i + 1) * 2)) = 2)
           by (rewrite length_slice; lia));
    match goal with
       | |- _ = MeshGeometry.slice (MeshGeometry.positions geometry) _ _ =>
           apply (fetch_complete vertexCount geometry _ []
                    (MeshGeometry.slice (MeshGeometry.positions geometry)
                                        (i * 3) ((i + 1) * 3))
                    (match MeshGeometry.normals geometry with
                     | Some normals => MeshGeometry.slice normals (i * 3) ((i + 1) * 3)
                     | None => []
                     end
                     ++ match MeshGeometry.uvs geometry with
                        | Some uvs => MeshGeometry.slice uvs (i * 2) ((i + 1) * 2)
                        | None => []
                        end) _ i Hc Hi)
       | |- _ = MeshGeometry.slice ns _ _ =>
           apply (fetch_complete vertexCount geometry _
                    (MeshGeometry.slice (MeshGeometry.positions geometry)
                                        (i * 3) ((i + 1) * 3))
                    (MeshGeometry.slice ns (i * 3) ((i + 1) * 3))
                    (match MeshGeometry.uvs geometry with
                     | Some uvs => MeshGeometry.slice uvs (i * 2) ((i + 1) * 2)
                     | None => []
                     end) _ i Hc Hi)
       | |- _ = MeshGeometry.slice ts _ _ =>
           apply (fetch_complete vertexCount geometry _
                    (MeshGeometry.slice (MeshGeometry.positions geometry)
                                        (i * 3) ((i + 1) * 3)
                     ++ match MeshGeometry.normals geometry with
                        | Some normals =>
                            MeshGeometry.slice normals (i * 3) ((i + 1) * 3)
                        | None => []
                        end)
                    (MeshGeometry.slice ts (i * 2) ((i + 1) * 2))
                    [] _ i Hc Hi)
       end;
    rewrite ?En, ?Eu;
    cbn [MeshGeometry.arrayStride VertexLayout.offset VertexLayout.format
         MeshGeometry.components String.eqb Ascii.eqb Bool.eqb];
    rewrite ?length_app, ?Hpi, ?Hni, ?Hti;
    try reflexivity;
    unfold MeshGeometry.vertex_floats; rewrite ?En, ?Eu;
    rewrite ?app_nil_r, <- ?app_assoc; reflexivity.
Qed.

Section GLBFacts.
Import GLB.

Lemma byte_value_bound (b : Byte.byte) : (0 <= byte_value b < 256)%Z.
Proof. unfold byte_value. pose proof (Byte.to_N_bounded b). lia. Qed.

Lemma byte_value_of (n : Z) : byte_value (byte_of n) = (n mod 256)%Z.
Proof.
  unfold byte_of, byte_value.
  pose proof (Z.mod_pos_bound n 256 ltac:(lia)).
  destruct (Byte.of_N (Z.to_N (n mod 256))) eqn:E.
  - apply Byte.to_of_N in E. rewrite E. lia.
  - apply Byte.of_N_None_iff in E. lia.
Qed.

Lemma byte_of_value (b : Byte.byte) : byte_of (byte_value b) = b.
Proof.
  unfold byte_of, byte_value. pose proof (Byte.to_N_bounded b).
  rewrite Z.mod_small by lia. rewrite N2Z.id, Byte.of_to_N. reflexivity.
Qed.

Lemma byte_of_mod (n : Z) : byte_of n = byte_of (n mod 256).
Proof. unfold byte_of. rewrite Z.mod_mod by lia. reflexivity. Qed.

Lemma Uint32_bound (b0 b1 b2 b3 : Byte.byte) :
  (0 <= Uint32 b0 b1 b2 b3 < 2 ^ 32)%Z.
Proof.
  unfold Uint32.
  pose proof (byte_value_bound b0). pose proof (byte_value_bound b1).
  pose proof (byte_value_bound b2). pose proof (byte_value_bound b3).
  lia.
Qed.

Lemma Uint32_le32 (n : Z) :
  Uint32 (byte_of n) (byte_of (n / 256)) (byte_of (n / 65536))
         (byte_of (n / 16777216)) = (n mod 2 ^ 32)%Z.
Proof.
  unfold Uint32. rewrite !byte_value_of.
  change (2 ^ 32)%Z with 4294967296%Z.
  Z.div_mod_to_equations. lia.
Qed.

Lemma le32_Uint32 (b0 b1 b2 b3 : Byte.byte) :
  le32 (Uint32 b0 b1 b2 b3) = [b0; b1; b2; b3].
Proof.
  pose proof (byte_value_bound b0). pose proof (byte_value_bound b1).
  pose proof (byte_value_bound b2). pose proof (byte_value_bound b3).
  unfold le32.
  rewrite (byte_of_mod (Uint32 b0 b1 b2 b3)),
          (byte_of_mod (Uint32 b0 b1 b2 b3 / 256)),
          (byte_of_mod (Uint32 b0 b1 b2 b3 / 65536)),
          (byte_of_mod (Uint32 b0 b1 b2 b3 / 16777216)).
  replace (Uint32 b0 b1 b2 b3 mod 256)%Z with (byte_value b0)
    by (unfold Uint32; Z.div_mod_to_equations; lia).
  replace ((Uint32 b0 b1 b2 b3 / 256) mod 256)%Z with (byte_value b1)
    by (unfold Uint32; Z.div_mod_to_equations; lia).
  replace ((Uint32 b0 b1 b2 b3 / 65536) mod 256)%Z with (byte_value b2)
    by (unfold Uint32; Z.div_mod_to_equations; lia).
  replace ((Uint32 b0 b1 b2 b3 / 16777216) mod 256)%Z with (byte_value b3)
    by (unfold Uint32; Z.div_mod_to_equations; lia).
  rewrite !byte_of_value. reflexivity.
Qed.

Lemma firstn_app_whole {A : Type} (l rest : list A) :
  firstn (length l) (l ++ rest) = l.
Proof.
  rewrite firstn_app, Nat.sub_diag, firstn_all. simpl. apply app_nil_r.
Qed.

Lemma skipn_app_whole {A : Type} (l rest : list A) :
  skipn (length l) (l ++ rest) = rest.
Proof. rewrite skipn_app, Nat.sub_diag, skipn_all. reflexivity. Qed.
End GLBFacts.

Section ContainerFacts.
Import GLB.
Variable JSON : Type.
Variable parse : list Byte.byte -> result JSON.

Lemma Uint32Array_at (prefix body rest : list Byte.byte) (offset n : nat) :
  offset = length prefix ->
  offset mod 4 = 0 ->
  length body = 4 * n ->
  Uint32Array (prefix ++ body ++ rest) offset n = Ok (Uint32_elements body).
Proof.
  intros -> Haligned Hbody. unfold Uint32Array.
  rewrite Haligned, !length_app. cbn [Nat.eqb andb].
  destruct (Nat.leb_spec (length prefix + 4 * n)
              (length prefix + (length body + length rest))); [| lia].
  rewrite skipn_app_whole, <- Hbody, firstn_app_whole. reflexivity.
Qed.

Lemma Uint8Array_at (prefix body rest : list Byte.byte) (offset n : nat) :
  offset = length prefix ->
  n = length body ->
  Uint8Array (prefix ++ body ++ rest) offset n = Ok body.
Proof.
  intros -> ->. unfold Uint8Array. rewrite !length_app.
  destruct (Nat.leb_spec (length prefix + length body)
              (length prefix + (length body + length rest))); [| lia].
  rewrite skipn_app_whole, firstn_app_whole. reflexivity.
Qed.

Lemma Uint32_elements_le32 (n : Z) (rest : list Byte.byte) :
  Uint32_elements (le32 n ++ rest) = (n mod 2 ^ 32)%Z :: Uint32_elements rest.
Proof.
  unfold le32. cbn [app Uint32_elements]. rewrite Uint32_le32. reflexivity.
Qed.

Lemma Uint32Array_Ok (buffer : list Byte.byte) (offset n : nat)
    (elements : list Z) :
  Uint32Array buffer offset n = Ok elements ->
  offset mod 4 = 0 /\
  offset + 4 * n <= length buffer /\
  elements = Uint32_elements (firstn (4 * n) (skipn offset buffer)).
Proof.
  unfold Uint32Array. intros H.
  destruct (Nat.eqb_spec (offset mod 4) 0); [| discriminate H].
  destruct (Nat.leb_spec (offset + 4 * n) (length buffer));
    [| discriminate H].
  injection H as <-. auto.
Qed.

Lemma Uint8Array_Ok (buffer : list Byte.byte) (offset n : nat)
    (bytes : list Byte.byte) :
  Uint8Array buffer offset n = Ok bytes ->
  offset + n <= length buffer /\
  bytes = firstn n (skipn offset buffer).
Proof.
  unfold Uint8Array. intros H.
  destruct (Nat.leb_spec (offset + n) (length buffer)); [| discriminate H].
  injection H as <-. auto.
Qed.

Lemma four_bytes (l : list Byte.byte) :
  4 <= length l ->
  exists b0 b1 b2 b3 rest, l = b0 :: b1 :: b2 :: b3 :: rest.
Proof.
  intros H.
  destruct l as [| b0 [| b1 [| b2 [| b3 rest]]]]; simpl in H; try lia.
  exists b0, b1, b2, b3, rest. reflexivity.
Qed.

(** The first element of a [Uint32Array] gives back the four bytes it was
    read from. *)
Lemma Uint32_elements_head (l : list Byte.byte) :
  4 <= length l ->
  exists rest,
    l = le32 (nth 0 (Uint32_elements l) 0%Z) ++ rest /\
    Uint32_elements l = nth 0 (Uint32_elements l) 0%Z :: Uint32_elements rest /\
    length l = 4 + length rest /\
    (0 <= nth 0 (Uint32_elements l) 0 < 2 ^ 32)%Z.
Proof.
  intros H. destruct (four_bytes l H) as (b0 & b1 & b2 & b3 & rest & ->).
  exists rest. cbn [Uint32_elements nth]. rewrite le32_Uint32.
  repeat split; try apply Uint32_bound.
Qed.

(** X14: [load] reads back the two chunks of a binary glTF file, whatever
    the total length the header declares and whatever follows the binary
    chunk: given the bytes of a header with the magic number and version 2,
    of a JSON chunk whose length is a multiple of 4 and of a binary chunk,
    it parses the JSON chunk and takes the binary chunk as the buffer. *)
Theorem load_chunks_reads_container (total : Z)
    (json binary rest : list Byte.byte) :
  length json mod 4 = 0 ->
  (Z.of_nat (length json) < 2 ^ 32)%Z ->
  (Z.of_nat (length binary) < 2 ^ 32)%Z ->
  load_chunks parse (container total json binary ++ rest) =
  (j <- parse json ;; Ok (j, binary)).
Proof.
  intros Haligned Hjson Hbinary.
  set (header := le32 MAGIC_NUMBER ++ le32 VERSION ++ le32 total
                 ++ le32 (Z.of_nat (length json)) ++ le32 JSON_CHUNK_TYPE).
  set (binaryHeader := le32 (Z.of_nat (length binary))
                       ++ le32 BINARY_CHUNK_TYPE).
  assert (Hbuffer : container total json binary ++ rest =
                    header ++ json ++ binaryHeader ++ binary ++ rest).
  { unfold container, header, binaryHeader. rewrite <- !app_assoc.
    reflexivity. }
  assert (Hheader : Uint32_elements header =
                    [MAGIC_NUMBER; VERSION; (total mod 2 ^ 32)%Z;
                     Z.of_nat (length json); JSON_CHUNK_TYPE]).
  { unfold header. rewrite !Uint32_elements_le32.
    rewrite (Z.mod_small (Z.of_nat (length json))) by lia.
    rewrite <- (app_nil_r (le32 JSON_CHUNK_TYPE)), Uint32_elements_le32.
    reflexivity. }
  assert (HbinaryHeader : Uint32_elements binaryHeader =
                          [Z.of_nat (length binary); BINARY_CHUNK_TYPE]).
  { unfold binaryHeader. rewrite !Uint32_elements_le32.
    rewrite (Z.mod_small (Z.of_nat (length binary))) by lia.
    rewrite <- (app_nil_r (le32 BINARY_CHUNK_TYPE)), Uint32_elements_le32.
    reflexivity. }
  assert (Hlen : length header = 20) by reflexivity.
  assert (Hlen' : length binaryHeader = 8) by reflexivity.
  rewrite Hbuffer. unfold load_chunks.
  pose proof (Uint32Array_at [] header (json ++ binaryHeader ++ binary ++ rest)
                0 5 eq_refl eq_refl Hlen) as E.
  change ([] ++ header ++ json ++ binaryHeader ++ binary ++ rest)
    with (header ++ json ++ binaryHeader ++ binary ++ rest) in E.
  rewrite E. clear E.
  cbn [bind]. rewrite Hheader. cbn [nth].
  change (negb (MAGIC_NUMBER =? MAGIC_NUMBER)%Z) with false.
  change (negb (VERSION =? VERSION)%Z) with false.
  change (negb (JSON_CHUNK_TYPE =? JSON_CHUNK_TYPE)%Z) with false.
  cbv iota. rewrite Nat2Z.id.
  rewrite (Uint8Array_at header json (binaryHeader ++ binary ++ rest)
             (5 * 4) (length json) eq_refl eq_refl).
  cbn [bind]. destruct (parse json) as [j | e]; [| reflexivity]. cbn [bind].
  replace (header ++ json ++ binaryHeader ++ binary ++ rest)
    with ((header ++ json) ++ binaryHeader ++ binary ++ rest)
    by (rewrite <- app_assoc; reflexivity).
  rewrite (Uint32Array_at (header ++ json) binaryHeader (binary ++ rest)
             (5 * 4 + length json) 2).
  - cbn [bind]. rewrite HbinaryHeader. cbn [nth].
    change (negb (BINARY_CHUNK_TYPE =? BINARY_CHUNK_TYPE)%Z) with false.
    cbv iota. rewrite Nat2Z.id.
    replace ((header ++ json) ++ binaryHeader ++ binary ++ rest)
      with (((header ++ json) ++ binaryHeader) ++ binary ++ rest)
      by (rewrite <- !app_assoc; reflexivity).
    rewrite (Uint8Array_at ((header ++ json) ++ binaryHeader) binary rest
               (7 * 4 + length json) (length binary)).
    + reflexivity.
    + rewrite !length_app, Hlen, Hlen'. lia.
    + reflexivity.
  - rewrite length_app, Hlen. reflexivity.
  - apply Nat.Div0.mod_divides in Haligned as (k & Hk). rewrite Hk.
    replace (5 * 4 + 4 * k) with ((5 + k) * 4) by lia.
    apply Nat.Div0.mod_mul.
  - exact Hlen'.
Qed.
Lemma skipn_past {A : Type} (prefix l : list A) (n : nat) :
  skipn (length prefix + n) (prefix ++ l) = skipn n l.
Proof.
  rewrite Nat.add_comm, <- skipn_skipn, skipn_app_whole. reflexivity.
Qed.

(** X15: [load] gets past the header and the chunks of nothing but such a
    file: when it has parsed the JSON and made the binary buffer, the file
    is a header, a JSON chunk of a length that is a multiple of 4, on which
    the parser succeeded, and a binary chunk, followed by any bytes. *)
Theorem load_chunks_accepts_only_containers (buffer : list Byte.byte)
    (j : JSON) (binary : list Byte.byte) :
  load_chunks parse buffer = Ok (j, binary) ->
  exists total json rest,
    buffer = container total json binary ++ rest /\
    length json mod 4 = 0 /\
    (Z.of_nat (length json) < 2 ^ 32)%Z /\
    (Z.of_nat (length binary) < 2 ^ 32)%Z /\
    parse json = Ok j.
Proof.
  unfold load_chunks. intros H.
  destruct (Uint32Array buffer 0 5) as [header |] eqn:E1;
    [| discriminate H].
  cbn [bind] in H. apply Uint32Array_Ok in E1 as (_ & Hlen & ->).
  do 20 (destruct buffer as [| ?b buffer]; [simpl in Hlen; lia |]).
  clear Hlen.
  cbn [skipn firstn Nat.mul Nat.add Uint32_elements nth] in H.
  destruct (Z.eqb_spec (Uint32 b b0 b1 b2) MAGIC_NUMBER) as [Emagic |];
    [| discriminate H].
  destruct (Z.eqb_spec (Uint32 b3 b4 b5 b6) VERSION) as [Eversion |];
    [| discriminate H].
  destruct (Z.eqb_spec (Uint32 b15 b16 b17 b18) JSON_CHUNK_TYPE) as [Ejson |];
    [| discriminate H].
  cbn [negb] in H.
  set (L := Z.to_nat (Uint32 b11 b12 b13 b14)) in *.
  destruct (Uint8Array _ 20 L) as [chunk |] eqn:E2; [| discriminate H].
  cbn [bind] in H. apply Uint8Array_Ok in E2 as (Hlen2 & ->).
  cbn [skipn] in H.
  destruct (parse (firstn L buffer)) as [j' |] eqn:Eparse; [| discriminate H].
  cbn [bind] in H.
  destruct (Uint32Array _ _ 2) as [binaryHeader |] eqn:E3; [| discriminate H].
  cbn [bind] in H. apply Uint32Array_Ok in E3 as (Haligned & Hlen3 & ->).
  cbn [skipn length] in H, Hlen2, Hlen3.
  pose proof (firstn_skipn L buffer) as Hsplit.
  assert (HL : length (firstn L buffer) = L)
    by (rewrite length_firstn; lia).
  assert (Hrest : 8 <= length (skipn L buffer))
    by (rewrite length_skipn; lia).
  destruct (skipn L buffer)
    as [| c0 [| c1 [| c2 [| c3 [| c4 [| c5 [| c6 [| c7 after]]]]]]]]
    eqn:Eafter; try (simpl in Hrest; lia).
  clear Hrest.
  cbn [firstn Nat.mul Nat.add Uint32_elements nth] in H.
  destruct (Z.eqb_spec (Uint32 c4 c5 c6 c7) BINARY_CHUNK_TYPE) as [Ebinary |];
    [| discriminate H].
  cbn [negb] in H.
  set (B := Z.to_nat (Uint32 c0 c1 c2 c3)) in *.
  destruct (Uint8Array _ _ B) as [binary' |] eqn:E4; [| discriminate H].
  cbn [bind] in H. injection H as -> ->.
  apply Uint8Array_Ok in E4 as (Hlen4 & E4). cbn [length] in Hlen4.
  pose proof (skipn_past
                [b; b0; b1; b2; b3; b4; b5; b6; b7; b8; b9; b10; b11; b12;
                 b13; b14; b15; b16; b17; b18] buffer (8 + L)) as E5.
  cbn [length app Nat.add] in E5. rewrite E5 in E4. clear E5.
  change (S (S (S (S (S (S (S (S L)))))))) with (8 + L) in E4.
  rewrite <- skipn_skipn, Eafter in E4.
  change (skipn 8 (c0 :: c1 :: c2 :: c3 :: c4 :: c5 :: c6 :: c7 :: after))
    with after in E4.
  subst binary.
  assert (HB : length (firstn B after) = B).
  { rewrite length_firstn.
    assert (length buffer = L + (8 + length after)).
    { rewrite <- Hsplit, length_app, HL. reflexivity. }
    lia. }
  exists (Uint32 b7 b8 b9 b10), (firstn L buffer), (skipn B after).
  split; [| split; [| split; [| split]]].
  - unfold container.
    rewrite HL, HB. unfold L, B.
    rewrite !Z2Nat.id by apply Uint32_bound.
    rewrite <- Emagic, <- Eversion, <- Ejson, <- Ebinary, !le32_Uint32.
    cbn [app]. do 20 f_equal.
    rewrite <- Hsplit at 1. rewrite <- app_assoc. f_equal.
    cbn [app]. do 8 f_equal. symmetry. apply firstn_skipn.
  - rewrite HL.
    change (S (S (S (S (S (S (S (S (S (S (S (S (S (S (S (S (S (S (S (S
              L))))))))))))))))))))
      with (20 + L) in Haligned.
    apply Nat.Div0.mod_divides in Haligned as (k & Hk).
    apply Nat.Div0.mod_divides. exists (k - 5). lia.
  - rewrite HL. unfold L. rewrite Z2Nat.id; apply Uint32_bound.
  - rewrite HB. unfold B. rewrite Z2Nat.id; apply Uint32_bound.
  - exact Eparse.
Qed.
End ContainerFacts.

(** X16: for a [val] that is not negative and a positive [align], both
    small enough for the double arithmetic of the source to be exact,
    [val + 2 * align <= 2 ^ 53], [alignTo] rounds up to the next multiple
    of [align]: the result is a multiple, it is not below [val], and no
    multiple of [align] lies between the two. *)
Theorem alignTo_least_multiple (val align : Z) :
  (0 <= val)%Z ->
  (0 < align)%Z ->
  (val + 2 * align <= 2 ^ 53)%Z ->
  exists aligned,
    alignTo val align = Some aligned /\
    (aligned mod align = 0)%Z /\
    (val <= aligned < val + align)%Z /\
    forall multiple,
      (multiple mod align = 0)%Z -> (val <= multiple)%Z ->
      (aligned <= multiple)%Z.
Proof.
  intros _ Hpos _. unfold alignTo.
  destruct (Z.eqb_spec align 0) as [-> | _]; [lia |].
  eexists. split; [reflexivity |].
  pose proof (Z.div_mod (val + align - 1) align ltac:(lia)) as Hdiv.
  pose proof (Z.mod_pos_bound (val + align - 1) align Hpos) as Hmod.
  split; [apply Z.mod_mul; lia |].
  split; [lia |].
  intros multiple Hmultiple Hle.
  apply Z.mod_divide in Hmultiple as (k & ->); [| lia].
  apply Z.mul_le_mono_nonneg_r; [lia |].
  assert (Hq : ((val + align - 1) / align
                <= ((align - 1) + k * align) / align)%Z)
    by (apply Z.div_le_mono; lia).
  rewrite Z.div_add, (Z.div_small (align - 1)) in Hq by lia. lia.
Qed.

Lemma alignTo_least_multiple_witness :
  exists aligned,
    alignTo 5 4 = Some aligned /\
    (aligned mod 4 = 0)%Z /\
    (5 <= aligned < 5 + 4)%Z /\
    forall multiple,
      (multiple mod 4 = 0)%Z -> (5 <= multiple)%Z -> (aligned <= multiple)%Z.
Proof.
  apply (alignTo_least_multiple 5 4); [lia | lia | vm_compute; discriminate].
Defined.

(** X17: the copy [uploadBuffer] makes into the mapped range fits, and
    the GPU buffer holds the bytes of the view followed by fewer than four
    zero bytes, which fill it up to a multiple of four bytes. *)
Theorem uploadBuffer_pads_with_zeros (viewBuffer : list Byte.byte) :
  exists padding,
    Upload.uploadBuffer viewBuffer = Ok (viewBuffer ++ padding) /\
    Forall (eq Byte.x00) padding /\
    length padding < 4 /\
    (length viewBuffer + length padding) mod 4 = 0.
Proof.
  unfold Upload.uploadBuffer, alignTo. cbn [Z.eqb].
  set (n := length viewBuffer).
  set (size := Z.to_nat ((Z.of_nat n + 4 - 1) / 4 * 4)).
  assert (Hsize : n <= size < n + 4 /\ size mod 4 = 0).
  { unfold size.
    pose proof (Z.div_mod (Z.of_nat n + 4 - 1) 4 ltac:(lia)) as Hdiv.
    pose proof (Z.mod_pos_bound (Z.of_nat n + 4 - 1) 4 ltac:(lia)) as Hmod.
    split; [lia |].
    rewrite Z2Nat.inj_mul by (try apply Z.div_pos; lia).
    apply Nat.Div0.mod_mul. }
  destruct Hsize as (Hbound & Haligned).
  exists (repeat Byte.x00 (size - n)).
  unfold Upload.set. rewrite repeat_length.
  destruct (Nat.leb_spec (length viewBuffer) size) as [_ | Hlt];
    [| fold n in Hlt; lia].
  fold n. split; [| split; [| split]].
  - f_equal. f_equal.
    replace size with (n + (size - n)) at 1 by lia.
    rewrite repeat_app, skipn_app, repeat_length, Nat.sub_diag.
    rewrite skipn_all2 by (rewrite repeat_length; lia). reflexivity.
  - apply Forall_forall. intros b Hb. apply repeat_spec in Hb. auto.
  - rewrite repeat_length. lia.
  - rewrite repeat_length.
    replace (n + (size - n)) with size by lia. exact Haligned.
Qed.

(** X18: the bytes of a buffer view are those of the binary chunk from
    [byteOffset] on, [byteLength] of them or as many as the chunk has: a
    view that reaches beyond the chunk is cut, not refused. *)
Theorem viewBuffer_is_cut_to_the_chunk (buffer : list Byte.byte)
    (byteOffset byteLength : Z) :
  (0 <= byteOffset)%Z ->
  (0 <= byteLength)%Z ->
  Upload.viewBuffer buffer {| Upload.byteOffset := Some byteOffset;
                              Upload.byteLength := Some byteLength |} =
  firstn (Z.to_nat byteLength) (skipn (Z.to_nat byteOffset) buffer).
Proof.
  intros Hoffset Hlength.
  unfold Upload.viewBuffer, Upload.subarray, Upload.relative.
  cbn [Upload.byteOffset Upload.byteLength].
  destruct (Z.ltb_spec byteOffset 0) as [| _]; [lia |].
  destruct (Z.ltb_spec (byteOffset + byteLength) 0) as [| _]; [lia |].
  set (len := Z.of_nat (length buffer)).
  destruct (Z.le_gt_cases byteOffset len) as [Hin | Hout].
  - rewrite (Z.min_l byteOffset) by lia.
    destruct (Z.le_gt_cases (byteOffset + byteLength) len) as [Hfit | Hcut].
    + rewrite Z.min_l, Z.max_l by lia. f_equal. lia.
    + rewrite Z.min_r, Z.max_l by lia.
      rewrite !firstn_all2; [reflexivity | |];
        rewrite length_skipn; unfold len; lia.
  - rewrite !Z.min_r by lia. rewrite Z.max_r by lia.
    rewrite !skipn_all2 by (unfold len in *; lia).
    rewrite !firstn_nil. reflexivity.
Qed.

Section AccessorFacts.

Lemma GLTFComponentType_Some (componentType : Z) (name : string) :
  GLTFComponentType componentType = Some name ->
  (5120 <= componentType <= 5126)%Z \/
  (componentType = 5130%Z /\ name = "DOUBLE"%string).
Proof.
  unfold GLTFComponentType.
  destruct componentType as [| p | p]; try discriminate.
  do 13 (destruct p as [p | p |]; try discriminate);
    intros H; injection H as <-;
    first [left; lia | right; split; reflexivity].
Qed.
End AccessorFacts.

(** X19: [vertexType] throws for every component type but the seven from
    5120 (BYTE) to 5126 (FLOAT), whatever the type of the accessor is, and
    names the component type in the message.  5130 (DOUBLE) is among the
    refused ones, although [byteStride] has a size for it: its element size
    is a number, and so is the stride of an accessor that has a buffer
    view. *)
Theorem vertexType_supports_seven_component_types (a : GLTFAccessor.t) :
  (if ((5120 <=? GLTFAccessor.componentType a)
       && (GLTFAccessor.componentType a <=? 5126))%Z
   then exists format, GLTFAccessor.vertexType a = Ok format
   else GLTFAccessor.vertexType a =
        Throw (Error ("Unrecognized or unsupported glTF type " ++
                      number_to_string (GLTFAccessor.componentType a)))) /\
  (GLTFAccessor.componentType a = 5130%Z ->
   GLTFTypeNumber (GLTFAccessor.type a) <> None ->
   GLTFAccessor.elementSize a <> None /\
   GLTFAccessor.byteStride a <> Ok None /\
   forall view,
     GLTFAccessor.view a = Some view ->
     exists stride, GLTFAccessor.byteStride a = Ok (Some stride)).
Proof.
  split.
  - unfold GLTFAccessor.vertexType.
    destruct (Z.leb_spec 5120 (GLTFAccessor.componentType a)) as [Hlow | Hlow];
      [destruct (Z.leb_spec (GLTFAccessor.componentType a) 5126)
         as [Hhigh | Hhigh] |]; cbn [andb].
    + assert (H : (GLTFAccessor.componentType a = 5120
                   \/ GLTFAccessor.componentType a = 5121
                   \/ GLTFAccessor.componentType a = 5122
                   \/ GLTFAccessor.componentType a = 5123
                   \/ GLTFAccessor.componentType a = 5124
                   \/ GLTFAccessor.componentType a = 5125
                   \/ GLTFAccessor.componentType a = 5126)%Z) by lia.
      destruct H as [-> | [-> | [-> | [-> | [-> | [-> | ->]]]]]];
        cbn [GLTFComponentType GLTFComponentType2GPUVertexFormat
             String.eqb Ascii.eqb Bool.eqb];
        destruct (GLTFTypeNumber (GLTFAccessor.type a)) as [n |];
        try destruct (1 <? n)%Z; eexists; reflexivity.
    + destruct (GLTFComponentType (GLTFAccessor.componentType a))
        as [name |] eqn:E; [| reflexivity].
      apply GLTFComponentType_Some in E as [E | (_ & ->)]; [lia |].
      reflexivity.
    + destruct (GLTFComponentType (GLTFAccessor.componentType a))
        as [name |] eqn:E; [| reflexivity].
      apply GLTFComponentType_Some in E as [E | (E & _)]; lia.
  - intros Hdouble Htype.
    assert (Hsize : exists size, GLTFAccessor.elementSize a = Some size).
    { unfold GLTFAccessor.elementSize. rewrite Hdouble.
      destruct (GLTFTypeNumber (GLTFAccessor.type a)) as [n |];
        [| congruence].
      eexists. reflexivity. }
    destruct Hsize as (size & Hsize).
    unfold GLTFAccessor.byteStride, GLTFAccessor.stride_in. rewrite Hsize.
    split; [discriminate |].
    split; [destruct (GLTFAccessor.view a); discriminate |].
    intros view ->. eexists. reflexivity.
Qed.

Section SamplerFacts.
Import GLTFSampler.

Lemma minFilter_default (sampler : GLTFSampler.t) (f : Z) :
  minFilter sampler = Some f ->
  f <> 9728%Z -> f <> 9729%Z -> f <> 9985%Z -> f <> 9986%Z ->
  descriptor_minFilter (getSamplerDescriptor sampler) = Some "linear"%string /\
  mipmapFilter (getSamplerDescriptor sampler) = Some "linear"%string.
Proof.
  intros E H1 H2 H3 H4. unfold getSamplerDescriptor. rewrite E.
  cbn [descriptor_minFilter mipmapFilter].
  destruct f as [| p | p]; try (split; reflexivity).
  do 14 (destruct p as [p | p |]; try (split; reflexivity));
    exfalso; first [apply H1; reflexivity | apply H2; reflexivity
                   | apply H3; reflexivity | apply H4; reflexivity].
Qed.
End SamplerFacts.

(** X20: the descriptor of a sampler leaves minification at WebGPU's
    "nearest" only for the [minFilter] 9728 (NEAREST) and 9986
    (NEAREST_MIPMAP_LINEAR), and mipmap filtering only for 9728, 9729
    (LINEAR) and 9985 (LINEAR_MIPMAP_NEAREST).  Every other [minFilter],
    9984 (NEAREST_MIPMAP_NEAREST) and an absent one among them, gets
    "linear" for both. *)
Theorem getSamplerDescriptor_minFilter (sampler : GLTFSampler.t) :
  (GLTFSampler.descriptor_minFilter (GLTFSampler.getSamplerDescriptor sampler)
   = None <->
   GLTFSampler.minFilter sampler = Some 9728%Z \/
   GLTFSampler.minFilter sampler = Some 9986%Z) /\
  (GLTFSampler.mipmapFilter (GLTFSampler.getSamplerDescriptor sampler)
   = None <->
   GLTFSampler.minFilter sampler = Some 9728%Z \/
   GLTFSampler.minFilter sampler = Some 9729%Z \/
   GLTFSampler.minFilter sampler = Some 9985%Z).
Proof.
  destruct (GLTFSampler.minFilter sampler) as [f |] eqn:E.
  - destruct (Z.eq_dec f 9728) as [-> | H1];
      [| destruct (Z.eq_dec f 9729) as [-> | H2];
         [| destruct (Z.eq_dec f 9985) as [-> | H3];
            [| destruct (Z.eq_dec f 9986) as [-> | H4]]]].
    5: { destruct (minFilter_default sampler f E H1 H2 H3 H4) as (-> & ->).
         split; split; try discriminate; intros H;
           repeat (destruct H as [H | H]; try congruence); congruence. }
    all: unfold GLTFSampler.getSamplerDescriptor; rewrite E;
      cbn [GLTFSampler.descriptor_minFilter GLTFSampler.mipmapFilter fst snd];
      split; split; try discriminate; auto;
      intros H; repeat (destruct H as [H | H]; try discriminate H);
      discriminate H.
  - unfold GLTFSampler.getSamplerDescriptor. rewrite E.
    cbn [GLTFSampler.descriptor_minFilter GLTFSampler.mipmapFilter fst snd].
    split; split; try discriminate; intros H;
      repeat (destruct H as [H | H]; try discriminate H); discriminate H.
Qed.

Section NodeTreeFacts.
Import NodeTree.
Variable meshes : list GLTFMesh.t.
Variable nodes : list GLTFNodeI.

Lemma at_index_In {A : Type} (array : list A) (i : Z) (x : A) :
  GLTFLoaderV2.at_index array i = Some x -> In x array.
Proof.
  unfold GLTFLoaderV2.at_index. destruct (i <? 0)%Z; [discriminate |].
  apply nth_error_In.
Qed.

Lemma from_meshes_mk (a_mesh : option GLTFMesh.t) (transform : TransformRef)
    (added : list GLTFNode.t) :
  (forall m, a_mesh = Some m -> In m meshes) ->
  Forall (from_meshes meshes) added ->
  (from_meshes meshes) (GLTFNode.mk a_mesh transform added).
Proof.
  intros Hmesh Hadded. unfold from_meshes. cbn [GLTFScene.preorder].
  constructor; [exact Hmesh |].
  cbn [GLTFNode.children].
  induction Hadded as [| x added Hx _ IH]; [constructor |].
  cbn [flat_map]. apply Forall_app. split; assumption.
Qed.

Lemma add_children_from_meshes
    (create : GLTFNodeI -> TransformRef ->
              option (result (GLTFNode.t * TransformRef)))
    (a_mesh : option GLTFMesh.t) (transform : TransformRef) :
  (forall child next gltfNode next',
     create child next = Some (Ok (gltfNode, next')) ->
     (from_meshes meshes) gltfNode) ->
  (forall m, a_mesh = Some m -> In m meshes) ->
  forall indices added next gltfNode next',
    add_children create nodes a_mesh transform indices added next =
    Some (Ok (gltfNode, next')) ->
    Forall (from_meshes meshes) added ->
    (from_meshes meshes) gltfNode.
Proof.
  intros Hcreate Hmesh.
  induction indices as [| child rest IH]; intros added next gltfNode next' H
    Hadded.
  - injection H as <- <-. apply from_meshes_mk; assumption.
  - cbn [add_children] in H.
    destruct (GLTFLoaderV2.at_index nodes child) as [child_node |];
      [| discriminate H].
    destruct (create child_node next) as [[[x next1] | e] |] eqn:E;
      try discriminate H.
    apply (IH _ _ _ _ H). apply Forall_app. split; [exact Hadded |].
    constructor; [| constructor]. exact (Hcreate _ _ _ _ E).
Qed.

Lemma createGLTFNode_from_meshes (fuel : nat) :
  forall node next gltfNode next',
    createGLTFNode fuel node meshes nodes next = Some (Ok (gltfNode, next')) ->
    (from_meshes meshes) gltfNode.
Proof.
  induction fuel as [| fuel IH]; intros node next gltfNode next' H;
    [discriminate H |].
  cbn [createGLTFNode] in H.
  eapply add_children_from_meshes; [exact IH | | exact H | constructor].
  intros m Hm. destruct (mesh node) as [i |]; [| discriminate Hm].
  exact (at_index_In _ _ _ Hm).
Qed.

Lemma load_nodes_from_meshes (fuel : nat) (roots : list Z) :
  forall next a_node next',
    load_nodes fuel roots meshes nodes next = Some (Ok (a_node, next')) ->
    Forall (from_meshes meshes) a_node.
Proof.
  induction roots as [| nodeIdx rest IH]; intros next a_node next' H.
  - injection H as <- <-. constructor.
  - cbn [load_nodes] in H.
    destruct (GLTFLoaderV2.at_index nodes nodeIdx) as [node |];
      [| discriminate H].
    destruct (createGLTFNode fuel node meshes nodes next)
      as [[[gltfNode next1] | e] |] eqn:E; try discriminate H.
    destruct (load_nodes fuel rest meshes nodes next1)
      as [[[gltfNodes next2] | e] |] eqn:E'; try discriminate H.
    injection H as <- <-.
    constructor; [exact (createGLTFNode_from_meshes _ _ _ _ _ E) |].
    exact (IH _ _ _ E').
Qed.

(** X21: [createGLTFNode] returns a node when the indices of the children
    lead to nodes of the JSON and never back: that is when the nodes can be
    ranked so that every child has a node and a lower rank than its parent.
    The calls then nest no deeper than the rank of the node. *)
Theorem createGLTFNode_returns_without_cycle (rank : Z -> nat) :
  (forall i node indices child,
     GLTFLoaderV2.at_index nodes i = Some node ->
     children node = Some indices ->
     In child indices ->
     GLTFLoaderV2.at_index nodes child <> None /\ rank child < rank i) ->
  forall fuel i node next,
    GLTFLoaderV2.at_index nodes i = Some node ->
    rank i < fuel ->
    exists gltfNode next',
      createGLTFNode fuel node meshes nodes next = Some (Ok (gltfNode, next')).
Proof.
  intros Hranked.
  induction fuel as [| fuel IH]; intros i node next Hi Hfuel; [lia |].
  cbn [createGLTFNode].
  set (a_mesh := match mesh node with
                 | Some i => GLTFLoaderV2.at_index meshes i
                 | None => None
                 end).
  assert (Hchildren : forall child,
            In child match children node with
                     | Some indices => indices
                     | None => []
                     end ->
            GLTFLoaderV2.at_index nodes child <> None /\ rank child < fuel).
  { intros child Hin.
    destruct (children node) as [indices |] eqn:E; [| destruct Hin].
    destruct (Hranked i node indices child Hi E Hin). split; [assumption | lia]. }
  revert Hchildren. generalize (@nil GLTFNode.t) (S next).
  induction (match children node with
             | Some indices => indices
             | None => []
             end) as [| child rest IHrest]; intros added next0 Hchildren.
  - eexists. eexists. reflexivity.
  - cbn [add_children].
    destruct (Hchildren child (or_introl eq_refl)) as (Hvalid & Hrank).
    destruct (GLTFLoaderV2.at_index nodes child) as [child_node |] eqn:E;
      [| congruence].
    destruct (IH child child_node next0 E Hrank) as (x & next1 & ->).
    apply IHrest. intros c Hc. apply Hchildren. right. exact Hc.
Qed.

(** X22: [createGLTFNode] does not return for a node that is the first of
    its own children: however deep the calls may nest, the call has not
    returned. *)
Theorem createGLTFNode_never_returns_on_self_child (i : Z) (node : GLTFNodeI)
    (rest : list Z) :
  GLTFLoaderV2.at_index nodes i = Some node ->
  children node = Some (i :: rest) ->
  forall fuel next, createGLTFNode fuel node meshes nodes next = None.
Proof.
  intros Hi Hchildren.
  induction fuel as [| fuel IH]; intros next; [reflexivity |].
  cbn [createGLTFNode]. rewrite Hchildren. cbn [add_children].
  rewrite Hi, IH. reflexivity.
Qed.
End NodeTreeFacts.

(** X23: the nodes [load] makes for a scene have their meshes from the
    meshes it has constructed: whatever the JSON of a node gives as [mesh],
    the mesh of the node is an element of [meshes] or [undefined]. *)
Theorem load_nodes_take_meshes_of_the_scene (fuel : nat) (roots : list Z)
    (meshes : list GLTFMesh.t) (nodes : list NodeTree.GLTFNodeI)
    (next next' : TransformRef) (a_node : list GLTFNode.t) :
  NodeTree.load_nodes fuel roots meshes nodes next = Some (Ok (a_node, next')) ->
  Forall (fun node =>
            forall a_mesh,
              GLTFNode.a_mesh node = Some a_mesh ->
              In a_mesh (GLTFScene.a_meshs (GLTFScene.new a_node meshes)))
         (flat_map GLTFScene.preorder
                   (GLTFScene.children (GLTFScene.new a_node meshes))).
Proof.
  intros H. cbn [GLTFScene.new GLTFScene.children GLTFScene.a_meshs].
  apply load_nodes_from_meshes in H.
  apply Forall_flat_map. revert H. apply Forall_impl.
  intros root Hroot. exact Hroot.
Qed.

Lemma buildGeometry_layout_reads_back_witness :
  exists r layout,
    MeshGeometry.buildGeometry 0 1 2 2 Fixtures.segment = Ok r /\
    MeshGeometry.bufferLayout r = [layout] /\
    Forall2
      (fun a source =>
         VertexLayout.shaderLocation a = fst source /\
         forall i,
           i < 2 ->
           MeshGeometry.fetch layout (MeshGeometry.vertexData r) a i =
           MeshGeometry.slice
             (snd source)
             (i * MeshGeometry.components (VertexLayout.format a))
             ((i + 1) * MeshGeometry.components (VertexLayout.format a)))
      (MeshGeometry.attributes layout)
      (MeshGeometry.attribute_sources 0 1 2 Fixtures.segment).
Proof.
  apply (buildGeometry_layout_reads_back 0 1 2 2 Fixtures.segment).
  repeat split; intros array [= <-]; reflexivity.
Defined.

Lemma load_chunks_reads_container_witness :
  GLB.load_chunks (fun chunk => Ok chunk) Fixtures.file =
  Ok (Fixtures.json_chunk, Fixtures.binary_chunk).
Proof.
  apply (load_chunks_reads_container (list Byte.byte) (fun chunk => Ok chunk)
           0 Fixtures.json_chunk Fixtures.binary_chunk [Byte.xff]);
    reflexivity.
Defined.

Lemma load_chunks_accepts_only_containers_witness :
  exists total json rest,
    Fixtures.file = GLB.container total json Fixtures.binary_chunk ++ rest /\
    length json mod 4 = 0 /\
    (Z.of_nat (length json) < 2 ^ 32)%Z /\
    (Z.of_nat (length Fixtures.binary_chunk) < 2 ^ 32)%Z /\
    (fun chunk : list Byte.byte => Ok chunk) json = Ok Fixtures.json_chunk.
Proof.
  apply (load_chunks_accepts_only_containers (list Byte.byte)
           (fun chunk => Ok chunk) Fixtures.file Fixtures.json_chunk
           Fixtures.binary_chunk).
  vm_compute. reflexivity.
Defined.

Lemma viewBuffer_is_cut_to_the_chunk_witness :
  Upload.viewBuffer Fixtures.json_chunk
                    {| Upload.byteOffset := Some 2%Z;
                       Upload.byteLength := Some 8%Z |} =
  firstn (Z.to_nat 8) (skipn (Z.to_nat 2) Fixtures.json_chunk).
Proof.
  apply (viewBuffer_is_cut_to_the_chunk Fixtures.json_chunk 2 8); lia.
Defined.

Lemma load_nodes_take_meshes_of_the_scene_witness :
  Forall (fun node =>
            forall a_mesh,
              GLTFNode.a_mesh node = Some a_mesh ->
              In a_mesh
                 (GLTFScene.a_meshs
                    (GLTFScene.new (fst Fixtures.loaded_tree) [Examples.mesh])))
         (flat_map GLTFScene.preorder
                   (GLTFScene.children
                      (GLTFScene.new (fst Fixtures.loaded_tree)
                                     [Examples.mesh]))).
Proof.
  apply (load_nodes_take_meshes_of_the_scene 3 [0%Z] [Examples.mesh]
           Fixtures.tree 0 (snd Fixtures.loaded_tree)
           (fst Fixtures.loaded_tree)).
  reflexivity.
Defined.

Lemma createGLTFNode_returns_without_cycle_witness :
  exists gltfNode next',
    NodeTree.createGLTFNode 3 (nth 0 Fixtures.tree Fixtures.knot)
                            [Examples.mesh] Fixtures.tree 0 =
    Some (Ok (gltfNode, next')).
Proof.
  apply (createGLTFNode_returns_without_cycle [Examples.mesh] Fixtures.tree
           Fixtures.depth) with (i := 0%Z);
    [| reflexivity | cbn; lia].
  intros i node indices child Hi Hchildren Hin.
  unfold GLTFLoaderV2.at_index in Hi.
  destruct (Z.ltb_spec i 0) as [| Hpos]; [discriminate Hi |].
  destruct (Z.to_nat i) as [| [| [| [| n]]]] eqn:E; cbn in Hi;
    try (destruct n; discriminate Hi);
    injection Hi as <-; cbn in Hchildren; try discriminate Hchildren;
    injection Hchildren as <-.
  - replace i with 0%Z by lia.
    destruct Hin as [<- | [<- | []]]; split; (discriminate || (cbn; lia)).
  - replace i with 2%Z by lia.
    destruct Hin as [<- | []]; split; (discriminate || (cbn; lia)).
  - destruct Hin.
Defined.

Lemma createGLTFNode_never_returns_on_self_child_witness :
  NodeTree.createGLTFNode 5 Fixtures.knot [] [Fixtures.knot] 0 = None.
Proof.
  apply (createGLTFNode_never_returns_on_self_child [] [Fixtures.knot] 0
           Fixtures.knot [] eq_refl eq_refl 5 0).
Defined.
